(* ===== verification/_CoqProject ===== *)
-Q . S2P
Prelude.v
Utf8.v
Wire.v
Spec.v
Topic.v
Properties.v
PropertiesProofs.v
PropertiesAccept.v
Packets.v
Codec.v
CodecProofs.v
RoundTrip.v
DecodeLoops.v
TopicTree.v
TopicTreeProofs.v
TopicMatch.v
TopicStats.v
SharedSubs.v
QoSEngine.v
QoSProofs.v
RateLimit.v
Flapping.v
Strconv.v
Duration.v
Config.v
ConfigFields.v
ConfigProps.v
Server.v
ServerProps.v
ServerStart.v
Plugin.v
PluginProps.v
Client.v
ClientProps.v
ClientGens.v
ClientAcks.v
StoreTypes.v
MemoryStore.v
Json.v
KeySpace.v
BadgerStore.v
RedisStore.v
PublishProps.v
Sessions.v
SessionProofs.v
Auth.v
WillHandler.v
Broker.v
BrokerInv.v
FlowControl.v
OfflineQueue.v
ExactlyOnce.v
Connect.v
Lifecycle.v
Options.v
BrokerWf.v
BrokerHistory.v
Handshake.v
Routing.v
Retained.v
ConnectProps.v
Api.v
ApiProps.v
Cmd.v
WriteQueue.v
WriteQueueProps.v
