(* ===== verification/Prelude.v ===== *)
(** * Shark-MQTT: a verification development

    Shark-MQTT is an MQTT 3.1, 3.1.1 and 5.0 broker in Go, with a client library,
    three storage backends, plugins and a command.  This library models the protocol
    codec, the parts the broker is made of, the broker itself, the server, the client
    and the way from the command line to a running broker as executable functions
    and step machines, and proves what makes them correct.

    ** The program and the files

    The command (cmd/) reads a configuration (config/) and builds, through the public
    API (api/), a broker and a server (broker/).  The server accepts connections and
    finds the protocol; packets are decoded and encoded (protocol/), the broker
    handles them and keeps sessions, queued messages and retained messages in a store
    (store/).  The client (client/) speaks the same protocol from the other side.

    - This file: errors, the state-and-error monad [M] the readers and decoders
      are written in, fixed-width integers ([u8] ... [u64], [i32]), byte strings
      as lists of numbers, record update [r <| f := v |>], Go's sort.Search, the
      tactics and the lemmas the other files share.
    - Utf8.v: unicode/utf8 and validateUTF8.  Wire.v: the readers and writers of
      protocol/codec.go and properties.go, the fixed header.  Spec.v:
      protocol/spec.go, constants.go, the Codec.  Topic.v: protocol/topic.go.
      Properties.v, PropertiesProofs.v, PropertiesAccept.v:
      protocol/properties.go.  Packets.v: protocol/packets.go and ValidateConnect.
      Codec.v, CodecProofs.v, RoundTrip.v, DecodeLoops.v: the packet codec of
      codec.go, connect.go, publish.go and subscribe.go.
    - TopicTree.v, TopicTreeProofs.v, TopicMatch.v, TopicStats.v, SharedSubs.v:
      broker/topic_tree.go.  QoSEngine.v, QoSProofs.v: broker/qos_engine.go.
      RateLimit.v: broker/rate_limit.go.  Flapping.v: broker/flapping.go.
      WillHandler.v: broker/will_handler.go.  Auth.v: broker/auth.go,
      auth_chain.go, auth_file.go, auth_noop.go.
    - StoreTypes.v: store/types.go and the interfaces of store/interfaces.go, as
      classes of operations with classes of laws.  MemoryStore.v:
      store/memory/memory.go.  Json.v: the texts of encoding/json the other stores
      keep.  KeySpace.v: their keys.  BadgerStore.v: store/badger.  RedisStore.v:
      store/redis.  OfflineQueue.v: the queue of an offline client over each store.
    - Sessions.v, SessionProofs.v: broker/session.go and session_types.go.
      PublishProps.v: broker/publish_properties.go.
    - Broker.v: the record of broker/broker.go and the handlers of
      broker/pub_sub.go and qos_outbound.go.  Connect.v:
      broker/conn_lifecycle.go and connack.go.  Lifecycle.v: broker/lifecycle.go
      and admin.go.  Options.v: broker/options.go and New of broker.go.
    - BrokerInv.v: the primitive steps every handler is made of.  FlowControl.v,
      ExactlyOnce.v, BrokerWf.v, BrokerHistory.v, Routing.v, Retained.v,
      ConnectProps.v: the theorems about the broker.
    - WriteQueue.v, WriteQueueProps.v: broker/client_state.go and ws_conn.go, the
      writer goroutine of a connection and the WebSocket transport.
    - Strconv.v: strconv, strings and net functions.  Duration.v, Config.v,
      ConfigFields.v, ConfigProps.v: config/.  Server.v, ServerProps.v,
      ServerStart.v: broker/server.go and options_server.go.  Handshake.v:
      protocol/adapter.go, registry.go, mqtt_adapter.go and handleConn of server.go.
      Api.v, ApiProps.v: api/api.go.  Cmd.v: cmd/.
    - Plugin.v, PluginProps.v: plugin/.  Client.v, ClientProps.v, ClientGens.v,
      ClientAcks.v: client/.

    ** How state and operations are modelled

    A struct is a record and a method that changes it returns the new record.
    Maps are [gmap]s; Go leaves the order of map iteration open, and no theorem
    speaks about an order the code does not fix.  Time is a number of
    nanoseconds, given to each call as [now]; a zero time.Time is [None].  A
    run-time panic is a value: [None] in Flapping.v and Connect.negotiateSession,
    [Panicked] as the outcome of HandleConnection.

    Goroutines are modelled where their interleaving matters.  The client
    (Client.v), the server (Server.v) and the writer of a connection (WriteQueue.v)
    are machines: a state with the threads that wait in it, a list of actions, and a
    partial function [step]; a call is split where it gives up a lock or waits, and
    what the network, a timer or the scheduler chooses is part of the action.  Their
    theorems hold for every list of actions.  The delayed wills and the connection
    limit are machines of the same kind (WillHandler.v, ConnectProps.v).

    What a handler hands to connections is the trace of the broker; whether the
    write queue of a connection takes a packet is the parameter [accepts], which
    may depend on the whole trace.  The stores are any types with the operations
    of the interfaces; theorems that need more assume the classes of laws, which
    MemoryStore.v proves for the memory store.  A transport is any type with the laws
    of WriteQueueProps.v, which the socket and the WebSocket have.  bcrypt, the
    enhanced authenticators, the YAML and certificate libraries, the file system, the
    environment and the behaviour of plugins are parameters.  The flags of the
    command are pointers into its first configuration, and Cmd.v models that
    aliasing; the slices a plugin dispatch shares with Unregister are slices of arrays
    in a heap (Plugin.v).

    ** What the theorems show

    - Codec: Decode is the inverse of Encode for every packet and version and
      leaves the rest of the stream; a decode takes exactly one packet and never
      more; Encode respects the peer's maximum; property sections round trip and
      accepted ones are valid; ValidateConnect accepts exactly the packets of the
      specification; the decoder's loops end on every input.
    - Topics and subscriptions: MatchTopic decides the relation of the
      specification; the trie implements a map of subscriptions; Match returns
      what the walk meets, once each; a shared group gets one delivery and its
      members take turns; the listing for operators is exact but for leading
      separators.
    - Deliveries: the engine's window and retries, packet identifiers, the
      client's outbound window, the use of room after an acknowledgement, QoS 2
      messages routed exactly once, wills published at most once.  The peer of a
      connection decodes exactly the packets its queue was given, in order, and no
      producer waits for ever.
    - Stores: the memory and Badger stores implement maps; queued messages survive a
      reconnect; the Redis queue can be written but not read.
    - The broker: an invariant over all histories of connections, packets,
      failures, timers, sweeps and management calls, which a broker built and started
      through the API satisfies; routing to exactly the subscribed clients on every
      reachable broker; the bookkeeping of retained messages; the connection limit
      under interleaved handshakes; sessions that only their user can resume;
      sessions that survive a restart; access control that is exact and
      authentication that fails closed.
    - Server: the counter and the goroutines of connections agree over every
      interleaving; Start listens on all TCP addresses or on none; what the first bytes of
      a connection lead to.
    - Configuration and command: where every setting comes from, what a validated
      configuration guarantees and how it reaches the broker; the management
      endpoints' gate; the command runs only with an authenticator and never with
      another store than the one asked for.
    - Client: QoS 2 messages are delivered exactly once, a successful Publish was
      acknowledged, and no call is left behind by its connection.
    - Plugins: a dispatch runs the registered plugins in order, and life-cycle
      methods run in theirs.
    - Defects: some theorems describe what the code gets wrong, among them a
      crash on reconnecting to a stored session and shared subscriptions that outlive
      a clean start (ConnectProps.v), a detector that panics (Flapping.v), an
      environment variable that undoes a flag (Cmd.v), a Redis queue that is never
      delivered (OfflineQueue.v), shutdowns that leave connections counted
      (ServerProps.v), a failed Start that blocks later ones (ServerStart.v) and a
      final packet that tears the stream (WriteQueueProps.v).

    ** Bounds and fuel

    Loops that are not structural get a bound.  The decoder's loops get the
    number of bytes left (four for the Remaining Length), which DecodeLoops.v
    shows to be enough on every input; flushLoop gets the length of the queue
    (FlowControl.v shows that more changes nothing); sort.Search and strings.Split
    get the length of their input (shown enough here and in Topic.v); encoders of
    variable-length integers get ten rounds for 64 bits; NextPacketID of the session
    and nextPacketID of the client have the 65535 attempts of the source; hexDigits
    gets sixteen digits for 64 bits; the decimal digits of a number get its binary
    length (Strconv.v shows that this is enough); the terms of a duration get the
    length of its text (Duration.v); the polls of the drain get the number the timeout allows,
    and two (shown enough in Lifecycle.v).

    ** Not modelled

    The bytes of TLS, HTTP and WebSocket framing, and socket options; the JSON of the
    management endpoints, the metrics and profile handlers; parsing of the command
    line by the flag package, signals and output; errors of the Redis and Badger
    libraries other than a missing key; metrics, logging and the buffer pool (pkg/),
    which no decision of the code reads; the tickers of lifecycle.go, which call the
    sweeps that are modelled, and the calls of plugins from the broker, whose results
    it ignores.  In the broker a handler, a HandleConnection up to its read loop, a
    teardown and a sweep run as one step, except for the critical sections of the
    connection limit (ConnectProps.v) and the will handler's operations, whose
    interleavings are modelled. *)

From stdpp Require Export base tactics strings numbers gmap sorting list.
From Stdlib Require Export Lia.

(** ** Errors

    The sentinels of [errs/errors.go] that the modelled code returns, the two
    end-of-stream errors of package [io], and [ErrText] for an error built by
    [fmt.Errorf]/[errors.New] that wraps no sentinel.  [fmt.Errorf] with [%w]
    is modelled by the sentinel it wraps, which is what [errors.Is] observes. *)

Inductive err : Type :=
  | ErrInvalidPacket
  | ErrMalformedPacket
  | ErrUnsupportedVersion
  | ErrPacketTooLarge
  | ErrProtocolError
  | ErrEOF
  | ErrUnexpectedEOF
  | ErrInflightFull
  | ErrMaxRetriesExceeded
  | ErrSessionNotFound
  | ErrMessageNotFound
  | ErrRetainedNotFound
  | ErrStoreUnavailable
  | ErrAuthFailed
  | ErrUserNotFound
  | ErrNotAuthorized
  | ErrNoMatchingAdapter
  | ErrTopicAliasOutOfRange
  | ErrText (msg : string).

#[export] Instance err_eq_dec : EqDecision err.
Proof. solve_decision. Defined.

(** The result of a fallible Go function: [(value, nil)] or [(zero, err)]. *)
Inductive res (A : Type) : Type :=
  | Ok (a : A)
  | Err (e : err).
Arguments Ok {A} a.
Arguments Err {A} e.

#[export] Instance res_eq_dec `{EqDecision A} : EqDecision (res A).
Proof. solve_decision. Defined.

#[export] Instance res_ret : MRet res := fun A a => Ok a.
#[export] Instance res_bind : MBind res := fun A B f m =>
  match m with Ok a => f a | Err e => Err e end.

(** State and error: the state survives an error, as it does in Go when a
    function that advanced a reader or mutated its receiver returns an error. *)
Definition M (S A : Type) : Type := S -> res A * S.

#[export] Instance M_ret {S} : MRet (M S) := fun A a s => (Ok a, s).
#[export] Instance M_bind {S} : MBind (M S) := fun A B f m s =>
  match m s with
  | (Ok a, s') => f a s'
  | (Err e, s') => (Err e, s')
  end.

Definition throw {S A} (e : err) : M S A := fun s => (Err e, s).
Definition get {S} : M S S := fun s => (Ok s, s).
Definition put {S} (s : S) : M S unit := fun _ => (Ok tt, s).
Definition lift_res {S A} (r : res A) : M S A := fun s => (r, s).

Lemma M_bind_ok {S A B} (m : M S A) (f : A -> M S B) s a s' :
  m s = (Ok a, s') -> (m ≫= f) s = f a s'.
Proof. intros H. unfold mbind, M_bind. by rewrite H. Qed.

Lemma M_bind_err {S A B} (m : M S A) (f : A -> M S B) s e s' :
  m s = (Err e, s') -> (m ≫= f) s = (Err e, s').
Proof. intros H. unfold mbind, M_bind. by rewrite H. Qed.

Lemma M_bind_inv {S A B} (m : M S A) (f : A -> M S B) s b s' :
  (m ≫= f) s = (Ok b, s') -> exists a s1, m s = (Ok a, s1) /\ f a s1 = (Ok b, s').
Proof.
  unfold mbind, M_bind. destruct (m s) as [[a|e] s1] eqn:E; intros H; [eauto|done].
Qed.

Lemma mret_inv {S A} (a b : A) (s s' : S) :
  @mret (M S) _ A a s = (Ok b, s') -> b = a /\ s' = s.
Proof. by intros [= -> ->]. Qed.

Lemma res_bind_inv {A B} (m : res A) (f : A -> res B) b :
  (m ≫= f) = Ok b -> exists a, m = Ok a /\ f a = Ok b.
Proof. destruct m; cbn; intros H; [eauto | done]. Qed.

Lemma Ok_inj {A} (a b : A) : Ok a = Ok b -> a = b.
Proof. by intros [= ->]. Qed.

(** A guard that returns an error early. *)
Lemma guard_ok {A} (b : bool) e (r : res A) a :
  (if b then Err e else r) = Ok a <-> negb b = true /\ r = Ok a.
Proof. destruct b; cbn; split; [done | by intros [] | done | by intros []]. Qed.

(** ** Bytes, strings and machine widths

    A byte is a [Z] in [0, 256); a Go [string] or [[]byte] is a list of bytes.
    [len] is Go's [len] (an [int], never negative). *)

Abbreviation bytes := (list Z).

Definition byte_ok (b : Z) : Prop := (0 <= b < 256)%Z.
Definition bytes_ok (bs : bytes) : Prop := Forall byte_ok bs.

Definition len {A} (l : list A) : Z := Z.of_nat (length l).
#[global] Arguments len : simpl never.

(** Conversions to the narrower Go types ([byte(x)], [uint16(x)], [uint32(x)]). *)
Definition u8 (x : Z) : Z := (x `mod` 256)%Z.
Definition u16 (x : Z) : Z := (x `mod` 65536)%Z.
Definition u32 (x : Z) : Z := (x `mod` 4294967296)%Z.

(** [uint64(x)] and [int32(x)], and time.Second in nanoseconds. *)
Definition u64 (x : Z) : Z := (x `mod` 18446744073709551616)%Z.
Definition i32 (x : Z) : Z := ((x + 2147483648) `mod` 4294967296 - 2147483648)%Z.
Definition second : Z := 1000000000%Z.

(** A Go string literal. *)
Definition str (s : string) : bytes :=
  map (fun a => Z.of_N (Ascii.N_of_ascii a)) (String.list_ascii_of_string s).

Definition boolZ (b : bool) (v : Z) : Z := if b then v else 0%Z.

Section Bytes.
Open Scope Z_scope.

Lemma len_nonneg {A} (l : list A) : 0 <= len l.
Proof. unfold len. lia. Qed.

Lemma len_app {A} (l k : list A) : len (l ++ k) = len l + len k.
Proof. unfold len. rewrite length_app. lia. Qed.

Lemma len_nil {A} : len (@nil A) = 0.
Proof. done. Qed.

Lemma len_cons {A} (x : A) l : len (x :: l) = 1 + len l.
Proof. unfold len. cbn. lia. Qed.

Lemma len_single {A} (x : A) : len [x] = 1.
Proof. done. Qed.

Lemma len_0_inv {A} (l : list A) : len l = 0 -> l = [].
Proof. destruct l; [done | rewrite len_cons; pose proof (len_nonneg l); lia]. Qed.

Lemma u8_ok x : byte_ok (u8 x).
Proof. apply Z.mod_pos_bound. lia. Qed.

Lemma u8_small x : byte_ok x -> u8 x = x.
Proof. unfold byte_ok, u8. intros. by rewrite Z.mod_small. Qed.

Lemma u16_small x : 0 <= x < 65536 -> u16 x = x.
Proof. apply Z.mod_small. Qed.

Lemma u32_small x : 0 <= x < 4294967296 -> u32 x = x.
Proof. apply Z.mod_small. Qed.

(** Exhaustive case analysis over the values of a byte, by evaluation. *)
Lemma byte_forall (P : Z -> bool) (n : Z) b :
  forallb P (seqZ 0 n) = true -> 0 <= b < n -> P b = true.
Proof.
  intros H Hb. rewrite forallb_forall in H. apply H.
  apply list_elem_of_In, elem_of_seqZ. lia.
Qed.

Lemma bytes_ok_app s t : bytes_ok (s ++ t) <-> bytes_ok s /\ bytes_ok t.
Proof. apply Forall_app. Qed.

Lemma bytes_ok_cons b t : bytes_ok (b :: t) <-> byte_ok b /\ bytes_ok t.
Proof. split; [apply Forall_cons_1 | intros []; by constructor]. Qed.

Lemma bytes_ok_take n s : bytes_ok s -> bytes_ok (take n s).
Proof. apply Forall_take. Qed.

Lemma bytes_ok_drop n s : bytes_ok s -> bytes_ok (drop n s).
Proof. apply Forall_drop. Qed.

(** Joining bit fields that do not overlap is addition. *)
Lemma lor_shiftl_add a b k : 0 <= k -> 0 <= b < 2 ^ k -> Z.lor (Z.shiftl a k) b = a * 2 ^ k + b.
Proof.
  intros Hk Hb. rewrite Z.shiftl_mul_pow2 by done.
  assert (Z.land (a * 2 ^ k) b = 0) as H0.
  { apply Z.bits_inj'. intros n Hn. rewrite Z.land_spec, Z.bits_0.
    destruct (decide (n < k)).
    - by rewrite Z.mul_pow2_bits_low.
    - rewrite <- (Z.mod_small b (2 ^ k)), Z.mod_pow2_bits_high by lia. apply andb_false_r. }
  by rewrite Z.add_nocarry_lxor, Z.lxor_lor.
Qed.

Lemma land_low x k : 0 <= k -> Z.land x (2 ^ k - 1) = x `mod` 2 ^ k.
Proof. intros. by rewrite <- Z.land_ones, Z.ones_equiv, Z.sub_1_r. Qed.

End Bytes.

(** ** Go's order on strings, and sort.Search *)

Fixpoint bytes_ltb (a b : bytes) : bool :=
  match a, b with
  | _, [] => false
  | [], _ :: _ => true
  | x :: a', y :: b' => (x <? y)%Z || ((x =? y)%Z && bytes_ltb a' b')
  end.

Definition bytes_le (a b : bytes) : Prop := bytes_ltb b a = false.

#[export] Instance bytes_le_dec a b : Decision (bytes_le a b) := decide (bytes_ltb b a = false).

Lemma bytes_ltb_irrefl a : bytes_ltb a a = false.
Proof. induction a as [|x a IH]; cbn; [done|]. by rewrite Z.ltb_irrefl, Z.eqb_refl, IH. Qed.

Lemma bytes_ltb_trans a b c : bytes_ltb a b = true -> bytes_ltb b c = true -> bytes_ltb a c = true.
Proof.
  revert b c. induction a as [|x a IH]; intros [|y b] [|z c]; cbn; try done.
  rewrite !orb_true_iff, !andb_true_iff, !Z.ltb_lt, !Z.eqb_eq.
  intros [?|[-> ?]] [?|[? ?]]; subst; eauto; left; lia.
Qed.

Lemma bytes_ltb_total a b : bytes_ltb a b = true \/ a = b \/ bytes_ltb b a = true.
Proof.
  revert b. induction a as [|x a IH]; intros [|y b]; cbn; auto.
  rewrite !orb_true_iff, !andb_true_iff, !Z.ltb_lt, !Z.eqb_eq.
  destruct (Z.lt_trichotomy x y) as [?|[->|?]]; auto.
  destruct (IH b) as [?|[->|?]]; auto.
Qed.

Lemma bytes_le_cases a b : bytes_le a b <-> bytes_ltb a b = true \/ a = b.
Proof.
  unfold bytes_le. split.
  - intros H. destruct (bytes_ltb_total a b) as [?|[?|?]]; auto; congruence.
  - intros [H| ->]; [|apply bytes_ltb_irrefl]. apply not_true_iff_false. intros H'.
    pose proof (bytes_ltb_trans _ _ _ H H') as Hc. by rewrite bytes_ltb_irrefl in Hc.
Qed.

#[export] Instance bytes_le_trans : Transitive bytes_le.
Proof.
  intros a b c. rewrite !bytes_le_cases. intros [?| ->] [?| ->]; auto. left. by eapply bytes_ltb_trans.
Qed.

#[export] Instance bytes_le_total : Total bytes_le.
Proof. intros a b. rewrite !bytes_le_cases. destruct (bytes_ltb_total a b) as [?|[?|?]]; auto. Qed.

(** sort.Search: the binary search over [i, j) *)
Fixpoint sort_Search_loop (fuel : nat) (f : nat -> bool) (i j : nat) : nat :=
  match fuel with
  | O => i
  | S fuel' =>
      if Nat.ltb i j then
        let h := ((i + j) / 2)%nat in
        if f h then sort_Search_loop fuel' f i h else sort_Search_loop fuel' f (S h) j
      else i
  end.

Definition sort_Search (n : nat) (f : nat -> bool) : nat := sort_Search_loop n f 0 n.

Lemma sort_Search_loop_spec fuel f i j n :
  (i <= j <= n)%nat -> (j - i <= fuel)%nat ->
  (forall a b, (a <= b < n)%nat -> f a = true -> f b = true) ->
  (forall a, (a < i)%nat -> f a = false) -> (forall a, (j <= a < n)%nat -> f a = true) ->
  let r := sort_Search_loop fuel f i j in
  (r <= n)%nat /\ (forall a, (a < r)%nat -> f a = false) /\ (forall a, (r <= a < n)%nat -> f a = true).
Proof.
  intros Hij Hfuel Hmono. revert i j Hij Hfuel.
  induction fuel as [|fuel IH]; intros i j Hij Hfuel Hlo Hhi; cbn [sort_Search_loop].
  - split_and!; [lia | done |]. intros a Ha. apply Hhi. lia.
  - destruct (Nat.ltb_spec i j) as [Hlt|Hge].
    + pose proof (Nat.div_mod (i + j) 2 ltac:(lia)). pose proof (Nat.mod_upper_bound (i + j) 2 ltac:(lia)).
      remember ((i + j) / 2)%nat as h eqn:Eh. clear Eh. destruct (f h) eqn:Efh.
      * apply IH; [lia|lia|done|]. intros a Ha. apply (Hmono h); [lia|done].
      * apply IH; [lia|lia| |done]. intros a Ha. destruct (f a) eqn:Efa; [|done].
        rewrite (Hmono a h) in Efh; [done|lia|done].
    + split_and!; [lia|done|]. intros a Ha. apply Hhi. lia.
Qed.

Lemma sort_Search_spec n f :
  (forall a b, (a <= b < n)%nat -> f a = true -> f b = true) ->
  (sort_Search n f <= n)%nat /\ (forall a, (a < sort_Search n f)%nat -> f a = false) /\
  (forall a, (sort_Search n f <= a < n)%nat -> f a = true).
Proof. intros. apply sort_Search_loop_spec; [lia|lia|done|lia|lia]. Qed.

(** ** Filtering lists *)

Section Filter.
Context {A : Type} (P : A -> Prop) `{!forall x, Decision (P x)}.

Lemma filter_all (l : list A) : Forall P l -> base.filter P l = l.
Proof. induction 1 as [|x l Hx Hl IH]; [done|]. by rewrite filter_cons_True, IH. Qed.

Lemma filter_none (l : list A) : Forall (fun x => ~ P x) l -> base.filter P l = [].
Proof. induction 1 as [|x l Hx Hl IH]; [done|]. by rewrite filter_cons_False. Qed.
End Filter.

(** ** Sums over the entries of a finite map *)

Section MapSum.
Context {K : Type} `{Countable K} {A : Type} (f : A -> Z).
Open Scope Z_scope.

Definition msum (m : gmap K A) : Z := map_fold (fun _ x acc => f x + acc) 0 m.

Lemma msum_empty : msum ∅ = 0.
Proof. apply map_fold_empty. Qed.

Lemma msum_insert m k x : m !! k = None -> msum (<[k := x]> m) = f x + msum m.
Proof. intros Hk. apply (map_fold_insert_L (fun _ x acc => f x + acc) 0); [intros; lia | done]. Qed.

Lemma msum_delete m k x : m !! k = Some x -> msum m = f x + msum (delete k m).
Proof.
  intros Hk. rewrite <- (insert_delete_id m k x) at 1 by done.
  apply msum_insert, lookup_delete_eq.
Qed.

Lemma msum_update m k x : msum (<[k := x]> m) = f x + msum (delete k m).
Proof. rewrite <- insert_delete_eq. apply msum_insert, lookup_delete_eq. Qed.

Lemma msum_delete_none m k : m !! k = None -> msum (delete k m) = msum m.
Proof. intros. by rewrite delete_id. Qed.

Lemma msum_nonneg m : (forall k x, m !! k = Some x -> 0 <= f x) -> 0 <= msum m.
Proof.
  induction m as [|k x m Hk IH] using map_ind; intros Hpos; [by rewrite msum_empty|].
  rewrite msum_insert by done.
  assert (0 <= f x) by (apply (Hpos k); apply lookup_insert_eq).
  assert (0 <= msum m); [|lia]. apply IH. intros k' x' Hk'. apply (Hpos k').
  rewrite lookup_insert_ne; [done|]. intros ->. congruence.
Qed.

Lemma msum_lookup_le m k x :
  (forall k x, m !! k = Some x -> 0 <= f x) -> m !! k = Some x -> f x <= msum m.
Proof.
  intros Hpos Hk. rewrite (msum_delete m k x Hk).
  assert (0 <= msum (delete k m)); [|lia]. apply msum_nonneg.
  intros k' x' [_ Hx]%lookup_delete_Some. eauto.
Qed.
End MapSum.

(** The size of a map after writing or deleting one key. *)
Section MapSize.
Context {K : Type} `{Countable K} {A : Type}.

Lemma size_insert_count (m : gmap K A) k x :
  (Z.of_nat (size (<[k := x]> m)) = Z.of_nat (size m) + match m !! k with Some _ => 0 | None => 1 end)%Z.
Proof. rewrite map_size_insert. destruct (m !! k); unfold id; lia. Qed.

Lemma size_delete_count (m : gmap K A) k :
  (Z.of_nat (size (delete k m)) = Z.of_nat (size m) - match m !! k with Some _ => 1 | None => 0 end)%Z.
Proof.
  rewrite map_size_delete. destruct (m !! k) as [x|] eqn:Ek; [|unfold id; lia].
  assert (size m <> 0%nat) by (apply (map_size_ne_0_lookup_2 m k); by rewrite Ek). lia.
Qed.

(** A map with fewer keys is smaller. *)
Lemma size_le_dom {B} (m : gmap K A) (m' : gmap K B) :
  (forall k, is_Some (m !! k) -> is_Some (m' !! k)) -> (size m <= size m')%nat.
Proof.
  intros Hk. rewrite <- !size_dom. apply subseteq_size. intros k. rewrite !elem_of_dom. apply Hk.
Qed.
End MapSize.

(** ** Automation *)

Create HintDb mqtt.
#[export] Hint Resolve len_nonneg u8_ok bytes_ok_take bytes_ok_drop : mqtt.

(** Case analysis on the scrutinee of a [match] or [if] in the goal, or in a
    hypothesis, keeping the equation. *)
Ltac case_goal :=
  match goal with
  | |- context [match ?x with _ => _ end] => destruct x eqn:?
  end.
Ltac case_hyp H :=
  match type of H with
  | context [match ?x with _ => _ end] => destruct x eqn:?
  end.

(** Boolean comparisons on [Z] and [bool] connectives to propositions. *)
Ltac bools :=
  repeat match goal with
  | H : (_ && _)%bool = true |- _ => apply andb_true_iff in H as [? ?]
  | H : (_ || _)%bool = false |- _ => apply orb_false_iff in H as [? ?]
  | H : negb _ = true |- _ => apply negb_true_iff in H
  | H : negb _ = false |- _ => apply negb_false_iff in H
  | H : (_ =? _)%Z = true |- _ => apply Z.eqb_eq in H
  | H : (_ =? _)%Z = false |- _ => apply Z.eqb_neq in H
  | H : (_ <? _)%Z = true |- _ => apply Z.ltb_lt in H
  | H : (_ <? _)%Z = false |- _ => apply Z.ltb_ge in H
  | H : (_ <=? _)%Z = true |- _ => apply Z.leb_le in H
  | H : (_ <=? _)%Z = false |- _ => apply Z.leb_gt in H
  | H : bool_decide _ = true |- _ => apply bool_decide_eq_true in H
  | H : bool_decide _ = false |- _ => apply bool_decide_eq_false in H
  end.

(** Peel one bind of a successful run in hypothesis [H]. *)
Ltac bind_inv H :=
  lazymatch type of H with
  | @mbind (M _) _ _ _ _ _ _ = (Ok _, _) =>
      let a := fresh "a" in let s := fresh "s" in let E := fresh "E" in
      apply M_bind_inv in H as (a & s & E & H)
  | @mbind res _ _ _ _ _ = Ok _ =>
      let a := fresh "a" in let E := fresh "E" in
      apply res_bind_inv in H as (a & E & H)
  end.

(** ** Record update

    [r <| f := v |>] is the assignment [r.f = v] of the source on a record whose
    constructor is registered by an [Eta] instance; the setter of a field is
    found by abstracting the field in the eta-expansion. *)

Class Eta (R : Type) := eta_expand : R -> R.
Class Setter {R T : Type} (f : R -> T) := set_field : (T -> T) -> R -> R.
#[global] Arguments set_field {R T} f {_} g r : simpl never.

Ltac solve_setter :=
  match goal with
  | |- @Setter ?R ?T ?f =>
      let i := constr:(ltac:(typeclasses eauto) : Eta R) in
      let e := eval cbv beta delta [eta_expand] in (@eta_expand R i) in
      let e := eval hnf in e in
      let p := eval pattern f in e in
      match p with
      | ?h _ => let s := eval cbv beta in (fun (g : T -> T) (r : R) => h (fun x => g (f x)) r) in exact s
      end
  end.

#[export] Hint Extern 1 (Setter _) => solve_setter : typeclass_instances.

Declare Scope record_scope.
Delimit Scope record_scope with rec.
Notation "r <| f := v |>" := (set_field f (fun _ => v) r)
  (at level 12, f at next level, v at level 200, left associativity, format "r  <|  f  :=  v  |>") : record_scope.
Open Scope record_scope.

(** Reduces the projections of updated records. *)
Ltac fields := unfold set_field; cbn beta iota.
Ltac fields_in H := unfold set_field in H; cbn beta iota in H.
