(* ===== verification/Utf8.v ===== *)
(** * UTF-8 (package [unicode/utf8] of Go) and [validateUTF8] of protocol/codec.go

    [decodeRune] and [validString] model the two functions of Go's standard
    library that [validateUTF8] calls; [validateUTF8] is the source's own check.
    [encode_rune] is the specification side: the UTF-8 encoding of one scalar
    value.  The theorems relate the accepted strings to the encodings of
    scalar values that are not control characters. *)

From S2P Require Import Prelude.
Open Scope Z_scope.

(** ** Model *)

(** utf8.RuneError *)
Definition RuneError : Z := 65533.

(** The table [first]/[acceptRanges] of package utf8: the sequence length and
    the range of the second byte that a leading byte [>= 0x80] announces;
    [None] for a byte that cannot start a sequence. *)
Definition lead (b : Z) : option (Z * Z * Z) :=
  if b <? 194 then None
  else if b <=? 223 then Some (2, 128, 191)
  else if b =? 224 then Some (3, 160, 191)
  else if b <=? 236 then Some (3, 128, 191)
  else if b =? 237 then Some (3, 128, 159)
  else if b <=? 239 then Some (3, 128, 191)
  else if b =? 240 then Some (4, 144, 191)
  else if b <=? 243 then Some (4, 128, 191)
  else if b =? 244 then Some (4, 128, 143)
  else None.

Definition in_range (lo hi b : Z) : bool := (lo <=? b) && (b <=? hi).
Definition cont (b : Z) : bool := in_range 128 191 b.

(** utf8.DecodeRuneInString: the first rune of [s] and its width in bytes;
    [(RuneError, 1)] for an invalid encoding, [(RuneError, 0)] for "". *)
Definition decodeRune (s : bytes) : Z * nat :=
  match s with
  | [] => (RuneError, 0%nat)
  | b0 :: t =>
      if b0 <? 128 then (b0, 1%nat) else
      match lead b0, t with
      | Some (2, lo, hi), b1 :: _ =>
          if in_range lo hi b1
          then (Z.lor (Z.shiftl (Z.land b0 31) 6) (Z.land b1 63), 2%nat)
          else (RuneError, 1%nat)
      | Some (3, lo, hi), b1 :: b2 :: _ =>
          if in_range lo hi b1 && cont b2
          then (Z.lor (Z.lor (Z.shiftl (Z.land b0 15) 12) (Z.shiftl (Z.land b1 63) 6))
                      (Z.land b2 63), 3%nat)
          else (RuneError, 1%nat)
      | Some (4, lo, hi), b1 :: b2 :: b3 :: _ =>
          if in_range lo hi b1 && cont b2 && cont b3
          then (Z.lor (Z.lor (Z.lor (Z.shiftl (Z.land b0 7) 18) (Z.shiftl (Z.land b1 63) 12))
                             (Z.shiftl (Z.land b2 63) 6)) (Z.land b3 63), 4%nat)
          else (RuneError, 1%nat)
      | _, _ => (RuneError, 1%nat)
      end
  end.

(** utf8.ValidString *)
Fixpoint validString (s : bytes) : bool :=
  match s with
  | [] => true
  | b0 :: t =>
      if b0 <? 128 then validString t else
      match lead b0, t with
      | Some (2, lo, hi), b1 :: t' => in_range lo hi b1 && validString t'
      | Some (3, lo, hi), b1 :: b2 :: t' => in_range lo hi b1 && cont b2 && validString t'
      | Some (4, lo, hi), b1 :: b2 :: b3 :: t' =>
          in_range lo hi b1 && cont b2 && cont b3 && validString t'
      | _, _ => false
      end
  end.

(** codec.go, validateUTF8: the control characters it refuses. *)
Definition isControl (r : Z) : bool := (r <=? 31) || ((127 <=? r) && (r <=? 159)).

(** The loop of validateUTF8 over the runes of [s]; [fuel] bounds the number of
    iterations by the length of the string. *)
Fixpoint noControl (fuel : nat) (s : bytes) : bool :=
  match fuel, s with
  | _, [] => true
  | O, _ => true
  | S fuel', _ =>
      let '(r, size) := decodeRune s in
      if isControl r then false else noControl fuel' (drop size s)
  end.

(** protocol/codec.go, validateUTF8 *)
Definition validateUTF8 (s : bytes) : res unit :=
  if negb (validString s) then Err (ErrText "invalid UTF-8 byte sequence")
  else if negb (noControl (length s) s)
       then Err (ErrText "control character not allowed in MQTT string")
       else Ok tt.

(** ** Specification: scalar values and their encodings *)

(** A Unicode scalar value: a code point that is not a surrogate. *)
Definition scalar (r : Z) : Prop := 0 <= r < 55296 \/ 57344 <= r < 1114112.

Definition encode_rune (r : Z) : bytes :=
  if r <? 128 then [r]
  else if r <? 2048 then [192 + r `div` 64; 128 + r `mod` 64]
  else if r <? 65536 then [224 + r `div` 4096; 128 + (r `div` 64) `mod` 64; 128 + r `mod` 64]
  else [240 + r `div` 262144; 128 + (r `div` 4096) `mod` 64; 128 + (r `div` 64) `mod` 64;
        128 + r `mod` 64].

Definition encode_runes (rs : list Z) : bytes := mjoin (map encode_rune rs).

(** What an MQTT string may contain. *)
Definition mqtt_rune (r : Z) : Prop := scalar r /\ isControl r = false.

(** ** Lemmas on the bit arithmetic of [decodeRune] *)

Lemma land63 b : Z.land b 63 = b `mod` 64.
Proof. apply (land_low b 6). lia. Qed.

Lemma land31 b : Z.land b 31 = b `mod` 32.
Proof. apply (land_low b 5). lia. Qed.

Lemma land15 b : Z.land b 15 = b `mod` 16.
Proof. apply (land_low b 4). lia. Qed.

Lemma land7 b : Z.land b 7 = b `mod` 8.
Proof. apply (land_low b 3). lia. Qed.

Lemma join2 a b :
  Z.lor (Z.shiftl a 6) (b `mod` 64) = a * 64 + b `mod` 64.
Proof. rewrite lor_shiftl_add; [done | lia | apply Z.mod_pos_bound; lia]. Qed.

Lemma join3 a b c :
  Z.lor (Z.lor (Z.shiftl a 12) (Z.shiftl (b `mod` 64) 6)) (c `mod` 64)
  = a * 4096 + (b `mod` 64) * 64 + c `mod` 64.
Proof.
  change 12 with (6 + 6). rewrite <- Z.shiftl_shiftl, <- Z.shiftl_lor, !join2 by lia. lia.
Qed.

Lemma join4 a b c d :
  Z.lor (Z.lor (Z.lor (Z.shiftl a 18) (Z.shiftl (b `mod` 64) 12)) (Z.shiftl (c `mod` 64) 6))
        (d `mod` 64)
  = a * 262144 + (b `mod` 64) * 4096 + (c `mod` 64) * 64 + d `mod` 64.
Proof.
  change 18 with (12 + 6). change 12 with (6 + 6) at 2.
  rewrite <- !Z.shiftl_shiftl, <- !Z.shiftl_lor, join3, join2 by lia. lia.
Qed.

(** [lead] by the value of the leading byte. *)
Inductive lead_spec (b : Z) : option (Z * Z * Z) -> Prop :=
  | lead_none : b < 194 \/ 244 < b -> lead_spec b None
  | lead_2 : 194 <= b <= 223 -> lead_spec b (Some (2, 128, 191))
  | lead_3 lo hi : 224 <= b <= 239 ->
      lo = (if b =? 224 then 160 else 128) -> hi = (if b =? 237 then 159 else 191) ->
      lead_spec b (Some (3, lo, hi))
  | lead_4 lo hi : 240 <= b <= 244 ->
      lo = (if b =? 240 then 144 else 128) -> hi = (if b =? 244 then 143 else 191) ->
      lead_spec b (Some (4, lo, hi)).

Lemma leadP b : lead_spec b (lead b).
Proof.
  unfold lead.
  repeat case_match; bools; constructor; try lia; repeat case_match; bools; lia.
Qed.

(** ** Decoding one encoded rune, and reading one rune off a valid string *)

Ltac divmod := Z.to_euclidean_division_equations; lia.

(** Decide the comparisons of the goal from the arithmetic context. *)
Ltac range_true :=
  unfold cont, in_range; rewrite ?andb_true_iff, ?Z.leb_le; repeat split;
  repeat case_match; bools; divmod.

Lemma decode_encode_rune r t :
  scalar r -> decodeRune (encode_rune r ++ t) = (r, length (encode_rune r)).
Proof.
  intros Hr. unfold scalar in Hr. unfold encode_rune.
  destruct (r <? 128) eqn:E1; [| destruct (r <? 2048) eqn:E2; [| destruct (r <? 65536) eqn:E3]];
    bools; cbn [app decodeRune length].
  - by rewrite (proj2 (Z.ltb_lt r 128)).
  - replace (192 + r `div` 64 <? 128) with false by (symmetry; apply Z.ltb_ge; divmod).
    destruct (leadP (192 + r `div` 64)); try divmod.
    replace (in_range 128 191 (128 + r `mod` 64)) with true by (symmetry; range_true).
    rewrite land31, land63, join2. f_equal. divmod.
  - replace (224 + r `div` 4096 <? 128) with false by (symmetry; apply Z.ltb_ge; divmod).
    destruct (leadP (224 + r `div` 4096)); try divmod. subst.
    match goal with |- context [?c && ?d] =>
      replace (c && d) with true by (symmetry; range_true) end.
    rewrite land15, !land63, join3. f_equal. divmod.
  - replace (240 + r `div` 262144 <? 128) with false by (symmetry; apply Z.ltb_ge; divmod).
    destruct (leadP (240 + r `div` 262144)); try divmod. subst.
    match goal with |- context [?c && ?d] =>
      replace (c && d) with true by (symmetry; range_true) end.
    rewrite land7, !land63, join4. f_equal. divmod.
Qed.

Lemma valid_encode_rune r t :
  scalar r -> validString (encode_rune r ++ t) = validString t.
Proof.
  intros Hr. unfold scalar in Hr. unfold encode_rune.
  destruct (r <? 128) eqn:E1; [| destruct (r <? 2048) eqn:E2; [| destruct (r <? 65536) eqn:E3]];
    bools; cbn [app validString].
  - by rewrite (proj2 (Z.ltb_lt r 128)).
  - replace (192 + r `div` 64 <? 128) with false by (symmetry; apply Z.ltb_ge; divmod).
    destruct (leadP (192 + r `div` 64)); try divmod.
    by replace (in_range 128 191 (128 + r `mod` 64)) with true by (symmetry; range_true).
  - replace (224 + r `div` 4096 <? 128) with false by (symmetry; apply Z.ltb_ge; divmod).
    destruct (leadP (224 + r `div` 4096)); try divmod. subst.
    match goal with |- ?c && _ = _ => replace c with true by (symmetry; range_true) end. done.
  - replace (240 + r `div` 262144 <? 128) with false by (symmetry; apply Z.ltb_ge; divmod).
    destruct (leadP (240 + r `div` 262144)); try divmod. subst.
    match goal with |- ?c && _ = _ => replace c with true by (symmetry; range_true) end. done.
Qed.

(** [encode_rune] on the three multi-byte shapes that [validString] accepts. *)
Lemma encode_rune_of2 b0 b1 :
  194 <= b0 <= 223 -> 128 <= b1 <= 191 ->
  let r := (b0 - 192) * 64 + (b1 - 128) in scalar r /\ encode_rune r = [b0; b1].
Proof.
  intros H0 H1 r. assert (128 <= r < 2048) by (subst r; lia). split; [left; lia|].
  unfold encode_rune. rewrite (proj2 (Z.ltb_ge r 128)), (proj2 (Z.ltb_lt r 2048)) by lia.
  subst r. repeat f_equal; divmod.
Qed.

Lemma encode_rune_of3 b0 b1 b2 :
  224 <= b0 <= 239 -> (if b0 =? 224 then 160 else 128) <= b1 <= (if b0 =? 237 then 159 else 191) ->
  128 <= b2 <= 191 ->
  let r := (b0 - 224) * 4096 + (b1 - 128) * 64 + (b2 - 128) in
  scalar r /\ encode_rune r = [b0; b1; b2].
Proof.
  intros H0 H1 H2 r.
  assert (2048 <= r < 55296 \/ 57344 <= r < 65536)
    by (subst r; destruct (b0 =? 224) eqn:?, (b0 =? 237) eqn:?; bools; lia).
  split; [unfold scalar; lia|]. unfold encode_rune.
  rewrite (proj2 (Z.ltb_ge r 128)), (proj2 (Z.ltb_ge r 2048)), (proj2 (Z.ltb_lt r 65536)) by lia.
  assert (128 <= b1 <= 191) by (destruct (b0 =? 224), (b0 =? 237); lia). clear H1.
  subst r. repeat f_equal; divmod.
Qed.

Lemma encode_rune_of4 b0 b1 b2 b3 :
  240 <= b0 <= 244 -> (if b0 =? 240 then 144 else 128) <= b1 <= (if b0 =? 244 then 143 else 191) ->
  128 <= b2 <= 191 -> 128 <= b3 <= 191 ->
  let r := (b0 - 240) * 262144 + (b1 - 128) * 4096 + (b2 - 128) * 64 + (b3 - 128) in
  scalar r /\ encode_rune r = [b0; b1; b2; b3].
Proof.
  intros H0 H1 H2 H3 r.
  assert (65536 <= r < 1114112)
    by (subst r; destruct (b0 =? 240) eqn:?, (b0 =? 244) eqn:?; bools; lia).
  split; [unfold scalar; lia|]. unfold encode_rune.
  rewrite (proj2 (Z.ltb_ge r 128)), (proj2 (Z.ltb_ge r 2048)), (proj2 (Z.ltb_ge r 65536)) by lia.
  assert (128 <= b1 <= 191) by (destruct (b0 =? 240), (b0 =? 244); lia). clear H1.
  subst r. repeat f_equal; divmod.
Qed.

(** A non-empty valid string starts with the encoding of a scalar value. *)
Lemma valid_head b t :
  byte_ok b -> validString (b :: t) = true ->
  exists r t', scalar r /\ b :: t = encode_rune r ++ t' /\ validString t' = true.
Proof.
  intros Hb H. cbn [validString] in H. destruct (b <? 128) eqn:E; bools.
  { exists b, t. unfold scalar, byte_ok, encode_rune in *.
    rewrite (proj2 (Z.ltb_lt b 128)) by lia. repeat split; [lia | done]. }
  destruct (leadP b); [done | ..]; unfold cont, in_range in H; subst.
  - destruct t as [|b1 t]; [done|]. bools.
    destruct (encode_rune_of2 b b1) as [Hs He]; [lia..|]. eexists _, t. by rewrite He.
  - destruct t as [|b1 [|b2 t]]; [done..|]. bools.
    destruct (encode_rune_of3 b b1 b2) as [Hs He]; [lia..|]. eexists _, t. by rewrite He.
  - destruct t as [|b1 [|b2 [|b3 t]]]; [done..|]. bools.
    destruct (encode_rune_of4 b b1 b2 b3) as [Hs He]; [lia..|]. eexists _, t. by rewrite He.
Qed.

Lemma encode_rune_nonempty r : (0 < length (encode_rune r))%nat.
Proof. unfold encode_rune. repeat case_match; cbn; lia. Qed.

Lemma encode_rune_ok r : scalar r -> bytes_ok (encode_rune r).
Proof.
  unfold scalar, encode_rune, bytes_ok, byte_ok. intros.
  repeat case_match; bools; repeat constructor; divmod.
Qed.

Lemma valid_encode_runes rs : Forall scalar rs -> validString (encode_runes rs) = true.
Proof.
  induction 1 as [|r rs Hr Hrs IH]; [done|].
  unfold encode_runes. cbn. by rewrite valid_encode_rune.
Qed.

Lemma valid_runes s :
  bytes_ok s -> validString s = true -> exists rs, Forall scalar rs /\ s = encode_runes rs.
Proof.
  remember (length s) as n eqn:Hn. revert s Hn.
  induction n as [n IH] using lt_wf_ind. intros [|b t] -> Hok Hv; [by exists []|].
  destruct (valid_head b t) as (r & t' & Hr & Heq & Hv'); [|done|].
  { by apply bytes_ok_cons in Hok as [? ?]. }
  destruct (IH (length t')) with (s := t') as (rs & Hrs & ->); try done.
  - rewrite Heq, length_app. pose proof (encode_rune_nonempty r). lia.
  - rewrite Heq in Hok. by apply bytes_ok_app in Hok as [? ?].
  - exists (r :: rs). split; [by constructor | done].
Qed.

(** The control-character loop runs over the runes of the string, and [len(s)]
    iterations are enough for it to reach the end. *)
Lemma noControl_runes fuel rs :
  Forall scalar rs -> (length (encode_runes rs) <= fuel)%nat ->
  noControl fuel (encode_runes rs) = forallb (fun r => negb (isControl r)) rs.
Proof.
  intros Hrs. revert fuel. induction Hrs as [|r rs Hr Hrs IH]; intros fuel Hf.
  { by destruct fuel. }
  assert (encode_runes (r :: rs) = encode_rune r ++ encode_runes rs) as E by done.
  rewrite E in *. rewrite length_app in Hf.
  pose proof (encode_rune_nonempty r) as Hne. destruct fuel as [|fuel]; [lia|].
  cbn [noControl forallb]. rewrite decode_encode_rune by done.
  destruct (encode_rune r ++ encode_runes rs) as [|b t] eqn:Eb.
  { apply (f_equal length) in Eb. rewrite length_app in Eb. cbn in Eb. lia. }
  destruct (isControl r); [done|]. rewrite <- Eb, drop_app_length. apply IH. lia.
Qed.

(** validateUTF8 accepts exactly the encodings of sequences of scalar values
    free of the control characters. *)
Lemma validateUTF8_spec s :
  bytes_ok s ->
  (validateUTF8 s = Ok tt <-> exists rs, Forall mqtt_rune rs /\ s = encode_runes rs).
Proof.
  intros Hok. unfold validateUTF8. split.
  - destruct (validString s) eqn:Ev; [|done]. destruct (noControl _ _) eqn:En; [|done].
    intros _. destruct (valid_runes s) as (rs & Hrs & ->); try done.
    exists rs. split; [|done]. rewrite noControl_runes in En by done.
    rewrite Forall_forall. intros r Hr. rewrite Forall_forall in Hrs. split; [by apply Hrs|].
    rewrite forallb_forall in En. apply negb_true_iff, En. by apply list_elem_of_In.
  - intros (rs & Hrs & ->). assert (Forall scalar rs) by (eapply Forall_impl; [done | by intros ? []]).
    rewrite valid_encode_runes, noControl_runes by done. cbn.
    replace (forallb _ rs) with true; [done|]. symmetry. apply forallb_forall.
    rewrite Forall_forall in Hrs. intros r Hr%list_elem_of_In. by destruct (Hrs r Hr) as [_ ->].
Qed.
