(* ===== verification/Wire.v ===== *)
(** * Wire primitives of protocol/codec.go and protocol/properties.go

    Readers are computations over the bytes that remain in an [io.Reader];
    writers into a [bytes.Buffer], which never fail by themselves, are the
    bytes they append.  The file also has the fixed header (packets.go) with
    its encoder and decoder, and the lemmas the packet codecs are proved with:
    [reads] (a reader accepts a byte string and leaves the rest alone) and
    [local] (what a reader returns depends only on the bytes it consumed). *)

From S2P Require Import Prelude Utf8.
Open Scope Z_scope.

(** ** Readers *)

(** io.ReadFull into a buffer of [n] bytes: io.EOF when nothing could be read,
    io.ErrUnexpectedEOF when the stream ended in between (the bytes that were
    there are consumed). *)
Definition readFull (n : Z) : M bytes bytes := fun s =>
  if n <=? len s then (Ok (take (Z.to_nat n) s), drop (Z.to_nat n) s)
  else (Err (match s with [] => ErrEOF | _ => ErrUnexpectedEOF end), []).

(** (bytes.Reader).ReadByte *)
Definition ReadByte : M bytes Z := fun s =>
  match s with
  | b :: t => (Ok b, t)
  | [] => (Err ErrEOF, [])
  end.

(** (bytes.Reader).Len *)
Definition rlen : M bytes Z := fun s => (Ok (len s), s).

(** binary.BigEndian.Uint16 and Uint32 *)
Definition beUint16 (b : bytes) : Z :=
  match b with
  | [b0; b1] => Z.lor (Z.shiftl b0 8) b1
  | _ => 0
  end.

Definition beUint32 (b : bytes) : Z :=
  match b with
  | [b0; b1; b2; b3] =>
      Z.lor (Z.lor (Z.lor (Z.shiftl b0 24) (Z.shiftl b1 16)) (Z.shiftl b2 8)) b3
  | _ => 0
  end.

(** properties.go, readByte *)
Definition readByte : M bytes Z :=
  buf ← readFull 1; mret (default 0 (head buf)).

(** codec.go, readUint16; properties.go, readUint16FromReader *)
Definition readUint16 : M bytes Z :=
  buf ← readFull 2; mret (beUint16 buf).

Definition readUint16FromReader : M bytes Z :=
  buf ← readFull 2; mret (beUint16 buf).

(** properties.go, readUint32FromReader *)
Definition readUint32FromReader : M bytes Z :=
  buf ← readFull 4; mret (beUint32 buf).

(** codec.go, readStringBounded and readString *)
Definition readStringBounded (maxLen : Z) : M bytes bytes :=
  lenBuf ← readFull 2;
  let length := beUint16 lenBuf in
  if length =? 0 then mret []
  else if maxLen <? length then throw ErrMalformedPacket
  else
    s ← readFull length;
    _ ← lift_res (validateUTF8 s);
    mret s.

Definition readString : M bytes bytes := readStringBounded 65535.

(** properties.go, readStringFromReader and readBinaryDataFromReader: the two
    length bytes are read one by one. *)
Definition readStringFromReader : M bytes bytes :=
  l0 ← ReadByte; l1 ← ReadByte;
  let length := Z.lor (Z.shiftl l0 8) l1 in
  if length =? 0 then mret []
  else
    s ← readFull length;
    _ ← lift_res (validateUTF8 s);
    mret s.

Definition readBinaryDataFromReader : M bytes (option bytes) :=
  l0 ← ReadByte; l1 ← ReadByte;
  let length := Z.lor (Z.shiftl l0 8) l1 in
  if length =? 0 then mret None
  else
    buf ← readFull length;
    mret (Some buf).

(** codec.go, readVarInt (the loop counter [i] runs to 4); [readVarIntFromReader]
    of properties.go is the same loop over (bytes.Reader).ReadByte. *)
Fixpoint readVarInt_loop (rd : M bytes Z) (n : nat) (val multiplier : Z) : M bytes Z :=
  match n with
  | O => throw (ErrText "protocol: varint exceeds 4 bytes")
  | S n' =>
      b ← rd;
      let val := u32 (val + Z.land b 127 * multiplier) in
      if Z.land b 128 =? 0 then mret val
      else readVarInt_loop rd n' val (u32 (multiplier * 128))
  end.

Definition readVarInt : M bytes Z := readVarInt_loop readByte 4 0 1.
Definition readVarIntFromReader : M bytes Z := readVarInt_loop ReadByte 4 0 1.

(** ** Writers into a buffer *)

(** binary.BigEndian.PutUint16 / PutUint32 *)
Definition putUint16 (v : Z) : bytes := [u8 (Z.shiftr v 8); u8 v].
Definition putUint32 (v : Z) : bytes :=
  [u8 (Z.shiftr v 24); u8 (Z.shiftr v 16); u8 (Z.shiftr v 8); u8 v].

(** codec.go, writeUint16; properties.go, writeUint32ToWriter *)
Definition writeUint16 (v : Z) : bytes := putUint16 v.
Definition writeUint32ToWriter (v : Z) : bytes := putUint32 v.

(** codec.go, writeString *)
Definition writeString (s : bytes) : res bytes :=
  if 65535 <? len s then Err (ErrText "protocol: string length exceeds MQTT max 65535")
  else
    _ ← (if 0 <? len s then validateUTF8 s else Ok tt);
    Ok (putUint16 (u16 (len s)) ++ s).

(** properties.go, writeBinaryData: no bound on the length, the two length
    bytes are the low 16 bits of it. *)
Definition writeBinaryData (data : bytes) : bytes :=
  [u8 (Z.shiftr (len data) 8); u8 (len data)] ++ data.

(** codec.go, writeVarInt: [val] is a uint32, so five iterations are enough
    ([writeVarInt_fuel]). *)
Fixpoint writeVarInt_loop (fuel : nat) (val : Z) : bytes :=
  match fuel with
  | O => []
  | S fuel' =>
      let encoded := u8 (val `mod` 128) in
      let val := val `div` 128 in
      let encoded := if 0 <? val then Z.lor encoded 128 else encoded in
      encoded :: (if val =? 0 then [] else writeVarInt_loop fuel' val)
  end.

Definition writeVarInt (val : Z) : bytes := writeVarInt_loop 5 val.

(** ** The fixed header *)

(** packets.go, FixedHeader *)
Record FixedHeader := {
  PacketType : Z;
  Dup : bool;
  QoS : Z;
  Retain : bool;
  RemainingLength : Z;
  HeaderSize : Z;
}.

#[export] Instance FixedHeader_eq_dec : EqDecision FixedHeader.
Proof. solve_decision. Defined.

(** codec.go, decodeFixedHeader: the loop over the Remaining Length bytes.  It
    stops by itself after four bytes; the fuel of four is never exhausted
    ([decodeRemLen_fuel]). *)
Fixpoint decodeRemLen (fuel : nat) (multiplier remLenBytes remLen headerSize : Z)
    : M bytes (Z * Z) :=
  match fuel with
  | O => throw (ErrText "fuel")
  | S fuel' =>
      encodedByte ← readByte;
      let remLenBytes := remLenBytes + 1 in
      let remLen := remLen + Z.land encodedByte 127 * multiplier in
      let multiplier := multiplier * 128 in
      let headerSize := headerSize + 1 in
      if Z.land encodedByte 128 =? 0 then
        if (1 <? remLenBytes) && (Z.land encodedByte 127 =? 0) then throw ErrInvalidPacket
        else mret (remLen, headerSize)
      else if 128 * 128 * 128 <? multiplier then throw ErrInvalidPacket
      else decodeRemLen fuel' multiplier remLenBytes remLen headerSize
  end.

Definition decodeFixedHeader : M bytes FixedHeader :=
  b ← readByte;
  '(remLen, headerSize) ← decodeRemLen 4 1 0 0 1;
  mret {| PacketType := Z.land (Z.shiftr b 4) 15;
          Dup := negb (Z.land b 8 =? 0);
          QoS := Z.land (Z.shiftr b 1) 3;
          Retain := negb (Z.land b 1 =? 0);
          RemainingLength := remLen;
          HeaderSize := headerSize |}.

(** codec.go, encodeFixedHeader: [remainingLength] is a Go [int] of 64 bits,
    ten iterations bring it to zero. *)
Fixpoint encodeRemLen (fuel : nat) (remainingLength : Z) : bytes :=
  match fuel with
  | O => []
  | S fuel' =>
      let encodedByte := u8 (Z.rem remainingLength 128) in
      let remainingLength := Z.quot remainingLength 128 in
      let encodedByte := if 0 <? remainingLength then Z.lor encodedByte 128 else encodedByte in
      encodedByte :: (if remainingLength =? 0 then [] else encodeRemLen fuel' remainingLength)
  end.

Definition encodeFixedHeader (fh : FixedHeader) : bytes :=
  let remLen := encodeRemLen 10 (RemainingLength fh) in
  let firstByte := u8 (Z.shiftl (PacketType fh) 4) in
  let firstByte := if Dup fh then Z.lor firstByte 8 else firstByte in
  let firstByte := Z.lor firstByte (u8 (Z.shiftl (Z.land (QoS fh) 3) 1)) in
  let firstByte := if Retain fh then Z.lor firstByte 1 else firstByte in
  firstByte :: remLen.

(** ** Reasoning about readers *)

(** [reads m bs a]: on any stream that starts with [bs], [m] succeeds with [a]
    and leaves the stream just after [bs]. *)
Definition reads {A} (m : M bytes A) (bs : bytes) (a : A) : Prop :=
  forall rest, m (bs ++ rest) = (Ok a, rest).

(** [local m]: a successful run consumed a prefix of the stream, and the result
    depends on that prefix only; a failed run left a suffix of the stream. *)
Definition local {A} (m : M bytes A) : Prop :=
  forall s r s', m s = (r, s') ->
    exists pre, s = pre ++ s' /\ match r with Ok a => reads m pre a | Err _ => True end.

Lemma reads_ret {A} (a : A) : reads (mret a) [] a.
Proof. done. Qed.

Lemma reads_bind {A B} (m : M bytes A) (f : A -> M bytes B) bs bs' a b :
  reads m bs a -> reads (f a) bs' b -> reads (m ≫= f) (bs ++ bs') b.
Proof. intros H1 H2 rest. rewrite <- app_assoc, (M_bind_ok _ _ _ _ _ (H1 _)). apply H2. Qed.

Lemma reads_bind_end {A B} (m : M bytes A) (f : A -> M bytes B) bs a b :
  reads m bs a -> reads (f a) [] b -> reads (m ≫= f) bs b.
Proof. intros. rewrite <- (app_nil_r bs). by eapply reads_bind. Qed.

Lemma reads_lift {A} (r : res A) a : r = Ok a -> reads (lift_res r) [] a.
Proof. by intros ->. Qed.

Lemma reads_bind_lift {A B} (r : res A) (f : A -> M bytes B) bs a b :
  r = Ok a -> reads (f a) bs b -> reads (lift_res r ≫= f) bs b.
Proof. intros H1 H2. change bs with ([] ++ bs). eapply reads_bind; [by apply reads_lift | done]. Qed.

Lemma local_ret {A} (a : A) : local (mret a).
Proof. intros s r s' [= <- <-]. by exists []. Qed.

Lemma local_throw {A} e : local (@throw bytes A e).
Proof. intros s r s' [= <- <-]. by exists []. Qed.

Lemma local_lift {A} (r : res A) : local (lift_res r).
Proof. intros s r' s' [= <- <-]. exists []. split; [done|]. by destruct r. Qed.

Lemma local_bind {A B} (m : M bytes A) (f : A -> M bytes B) :
  local m -> (forall a, local (f a)) -> local (m ≫= f).
Proof.
  intros Hm Hf s r s' H. unfold mbind, M_bind in H.
  destruct (m s) as [[a|e] s1] eqn:E; apply Hm in E as (pre & -> & Hr).
  - apply Hf in H as (pre' & -> & Hr'). exists (pre ++ pre'). rewrite app_assoc. split; [done|].
    destruct r; [|done]. by eapply reads_bind.
  - injection H as <- <-. by exists pre.
Qed.

Lemma local_match_bool {A} (b : bool) (m m' : M bytes A) :
  local m -> local m' -> local (if b then m else m').
Proof. by destruct b. Qed.

#[export] Hint Resolve local_ret local_throw local_lift local_bind local_match_bool : mqtt.

(** ** Primitive readers *)

Lemma take_len_app {A} (l k : list A) : take (Z.to_nat (len l)) (l ++ k) = l.
Proof. unfold len. by rewrite Nat2Z.id, take_app_length. Qed.

Lemma drop_len_app {A} (l k : list A) : drop (Z.to_nat (len l)) (l ++ k) = k.
Proof. unfold len. by rewrite Nat2Z.id, drop_app_length. Qed.

Lemma reads_readFull bs n : n = len bs -> reads (readFull n) bs bs.
Proof.
  intros -> rest. unfold readFull. rewrite len_app, take_len_app, drop_len_app.
  rewrite (proj2 (Z.leb_le _ _)); [done|]. pose proof (len_nonneg rest). lia.
Qed.

Lemma readFull_inv n s buf s' :
  0 <= n -> readFull n s = (Ok buf, s') -> s = buf ++ s' /\ len buf = n.
Proof.
  intros Hn. unfold readFull. destruct (n <=? len s) eqn:E; [|done]. intros [= <- <-]. bools.
  rewrite take_drop. split; [done|]. unfold len in *. rewrite length_take. lia.
Qed.

Lemma local_readFull n : local (readFull n).
Proof.
  intros s r s'. unfold readFull. destruct (n <=? len s) eqn:E; intros [= <- <-].
  - exists (take (Z.to_nat n) s). rewrite take_drop. split; [done|].
    intros rest. bools. destruct (decide (0 <= n)).
    + assert (len (take (Z.to_nat n) s) = n) as Hl by (unfold len in *; rewrite length_take; lia).
      destruct (n <=? len (take (Z.to_nat n) s ++ rest)) eqn:E'.
      * rewrite <- Hl at 1 3. by rewrite take_len_app, drop_len_app.
      * bools. rewrite len_app in E'. pose proof (len_nonneg rest). lia.
    + rewrite Z2Nat.nonpos, take_0, drop_0, app_nil_l, take_0 by lia.
      destruct (n <=? len rest) eqn:E'; [done|].
      bools. pose proof (len_nonneg rest). lia.
  - exists s. by rewrite app_nil_r.
Qed.

Lemma reads_ReadByte b : reads ReadByte [b] b.
Proof. done. Qed.

Lemma local_ReadByte : local ReadByte.
Proof. intros [|b s] r s' [= <- <-]; [by exists [] | by exists [b]]. Qed.

Lemma readByte_spec s :
  readByte s = match s with b :: t => (Ok b, t) | [] => (Err ErrEOF, []) end.
Proof.
  destruct s as [|b t]; [done|]. unfold readByte, mbind, M_bind, readFull.
  rewrite len_cons, (proj2 (Z.leb_le _ _)); [done|]. pose proof (len_nonneg t). lia.
Qed.

Lemma reads_readByte b : reads readByte [b] b.
Proof. intros rest. by rewrite readByte_spec. Qed.

Lemma local_readByte : local readByte.
Proof. unfold readByte. eauto using local_bind, local_readFull, local_ret. Qed.

#[export] Hint Resolve local_readFull local_ReadByte local_readByte : mqtt.
#[export] Hint Resolve reads_ReadByte reads_readByte : mqtt.

(** ** Big-endian integers *)

Lemma shiftr_div v k : 0 <= k -> Z.shiftr v k = v `div` 2 ^ k.
Proof. apply Z.shiftr_div_pow2. Qed.

Lemma be16_join b0 b1 : byte_ok b1 -> Z.lor (Z.shiftl b0 8) b1 = b0 * 256 + b1.
Proof. intros. by apply (lor_shiftl_add b0 b1 8). Qed.

Lemma beUint16_put v : 0 <= v < 65536 -> beUint16 (putUint16 v) = v.
Proof.
  intros Hv. unfold beUint16, putUint16. rewrite be16_join by apply u8_ok.
  unfold u8. rewrite shiftr_div by lia. divmod.
Qed.

Lemma beUint32_join b0 b1 b2 b3 :
  byte_ok b1 -> byte_ok b2 -> byte_ok b3 ->
  beUint32 [b0; b1; b2; b3] = ((b0 * 256 + b1) * 256 + b2) * 256 + b3.
Proof.
  intros. unfold beUint32.
  change 24 with (8 + 8 + 8). change 16 with (8 + 8).
  rewrite <- !Z.shiftl_shiftl, <- !Z.shiftl_lor by lia. by rewrite !be16_join.
Qed.

Lemma beUint32_put v : 0 <= v < 4294967296 -> beUint32 (putUint32 v) = v.
Proof.
  intros Hv. unfold putUint32. rewrite beUint32_join by apply u8_ok.
  unfold u8. rewrite !shiftr_div by lia.
  change (2 ^ 24) with 16777216. change (2 ^ 16) with 65536. change (2 ^ 8) with 256. divmod.
Qed.

Lemma reads_readUint16 v : 0 <= v < 65536 -> reads readUint16 (writeUint16 v) v.
Proof.
  intros. eapply reads_bind_end; [by apply reads_readFull|].
  unfold writeUint16. rewrite beUint16_put by done. apply reads_ret.
Qed.

Lemma reads_readUint16FromReader v :
  0 <= v < 65536 -> reads readUint16FromReader (writeUint16 v) v.
Proof. apply reads_readUint16. Qed.

Lemma reads_readUint32FromReader v :
  0 <= v < 4294967296 -> reads readUint32FromReader (writeUint32ToWriter v) v.
Proof.
  intros. eapply reads_bind_end; [by apply reads_readFull|].
  unfold writeUint32ToWriter. rewrite beUint32_put by done. apply reads_ret.
Qed.

(** ** Strings and binary data *)

(** A string the encoder accepts. *)
Definition string_ok (s : bytes) : bool :=
  (len s <=? 65535) && (bool_decide (s = []) || bool_decide (validateUTF8 s = Ok tt)).

Lemma len_pos_nonempty {A} (s : list A) : s <> [] -> 0 < len s.
Proof. destruct s; [done|]. rewrite len_cons. pose proof (len_nonneg s). lia. Qed.

Lemma writeString_ok s :
  writeString s = if string_ok s then Ok (putUint16 (len s) ++ s) else
    match writeString s with Ok _ => Err ErrInvalidPacket | Err e => Err e end.
Proof.
  unfold string_ok, writeString. destruct (len s <=? 65535) eqn:El; bools; cbn.
  - replace (65535 <? len s) with false by (symmetry; apply Z.ltb_ge; lia).
    pose proof (len_nonneg s). assert (u16 (len s) = len s) as -> by (unfold u16; apply Z.mod_small; lia).
    destruct (decide (s = [])) as [->|Hs]; [done|].
    rewrite (proj2 (Z.ltb_lt 0 (len s))), (bool_decide_false (s = [])) by (done || by apply len_pos_nonempty).
    cbn. case_bool_decide as Hv; [by rewrite Hv|]. destruct (validateUTF8 s) as [[]|e]; done.
  - by rewrite (proj2 (Z.ltb_lt 65535 (len s))).
Qed.

Lemma writeString_inv s bs :
  writeString s = Ok bs -> string_ok s = true /\ bs = putUint16 (len s) ++ s.
Proof.
  intros H. pose proof (writeString_ok s) as E. rewrite H in E.
  by destruct (string_ok s); [injection E as ->|].
Qed.

Lemma string_ok_inv s :
  string_ok s = true -> len s <= 65535 /\ (s <> [] -> validateUTF8 s = Ok tt).
Proof.
  unfold string_ok. intros. bools. split; [done|]. intros.
  destruct (bool_decide (s = [])) eqn:E; bools; [done|]. cbn in *. by bools.
Qed.

Lemma reads_readStringBounded s n :
  string_ok s = true -> len s <= n -> reads (readStringBounded n) (putUint16 (len s) ++ s) s.
Proof.
  intros [Hl Hv]%string_ok_inv Hn. pose proof (len_nonneg s).
  eapply reads_bind; [by apply reads_readFull|]. cbn beta zeta. rewrite beUint16_put by lia.
  destruct (len s =? 0) eqn:E; bools; [by rewrite (len_0_inv s)|].
  rewrite (proj2 (Z.ltb_ge n (len s))) by lia.
  eapply reads_bind_end; [by apply reads_readFull|].
  eapply reads_bind_lift; [|apply reads_ret]. apply Hv. by intros ->.
Qed.

Lemma reads_readString s :
  string_ok s = true -> reads readString (putUint16 (len s) ++ s) s.
Proof. intros H. apply reads_readStringBounded; [done|]. by apply string_ok_inv in H as [? _]. Qed.

(** The two ReadBytes of the *FromReader functions read what one [readUint16] reads. *)
Lemma reads_two_bytes {A} v (f : Z -> M bytes A) bs a :
  0 <= v < 65536 -> reads (f v) bs a ->
  reads (l0 ← ReadByte; l1 ← ReadByte; f (Z.lor (Z.shiftl l0 8) l1)) (putUint16 v ++ bs) a.
Proof.
  intros Hv Hf. pose proof (beUint16_put v Hv) as E. unfold putUint16, beUint16 in *.
  apply (reads_bind _ _ [_] _ _ _ (reads_ReadByte _)).
  apply (reads_bind _ _ [_] _ _ _ (reads_ReadByte _)). by rewrite E.
Qed.

Lemma reads_readStringFromReader s :
  string_ok s = true -> reads readStringFromReader (putUint16 (len s) ++ s) s.
Proof.
  intros [Hl Hv]%string_ok_inv. pose proof (len_nonneg s).
  apply (reads_two_bytes (len s) (fun length => if length =? 0 then mret [] else
    s ← readFull length; _ ← lift_res (validateUTF8 s); mret s)); [lia|].
  destruct (len s =? 0) eqn:E; bools; [by rewrite (len_0_inv s)|].
  eapply reads_bind_end; [by apply reads_readFull|].
  eapply reads_bind_lift; [|apply reads_ret]. apply Hv. by intros ->.
Qed.

Lemma writeBinaryData_eq d : writeBinaryData d = putUint16 (len d) ++ d.
Proof. done. Qed.

Lemma reads_readBinaryDataFromReader d :
  d <> [] -> len d <= 65535 -> reads readBinaryDataFromReader (writeBinaryData d) (Some d).
Proof.
  intros Hd Hl. pose proof (len_pos_nonempty d Hd). rewrite writeBinaryData_eq.
  apply (reads_two_bytes (len d) (fun length => if length =? 0 then mret None else
    buf ← readFull length; mret (Some buf))); [lia|].
  rewrite (proj2 (Z.eqb_neq (len d) 0)) by lia.
  eapply reads_bind_end; [by apply reads_readFull | apply reads_ret].
Qed.

(** ** Variable byte integers *)

Lemma low7 b :
  0 <= b < 128 ->
  Z.land b 127 = b /\ Z.land b 128 = 0 /\
  Z.land (Z.lor b 128) 127 = b /\ Z.land (Z.lor b 128) 128 = 128 /\ Z.lor b 128 = b + 128.
Proof.
  intros Hb.
  pose proof (byte_forall (fun b => (Z.land b 127 =? b) && (Z.land b 128 =? 0) &&
    (Z.land (Z.lor b 128) 127 =? b) && (Z.land (Z.lor b 128) 128 =? 128) &&
    (Z.lor b 128 =? b + 128)) 128 b eq_refl Hb) as H.
  cbn beta in H. bools. auto.
Qed.

Lemma writeVarInt_step fuel v :
  0 <= v ->
  writeVarInt_loop (S fuel) v =
    if v <? 128 then [v]
    else Z.lor (v `mod` 128) 128 :: writeVarInt_loop fuel (v `div` 128).
Proof.
  intros Hv. cbn [writeVarInt_loop].
  rewrite u8_small by (unfold byte_ok; divmod).
  destruct (v <? 128) eqn:E; bools.
  - by rewrite Z.div_small, Z.mod_small by lia.
  - assert (0 < v `div` 128) by divmod.
    by rewrite (proj2 (Z.ltb_lt _ _)), (proj2 (Z.eqb_neq _ _)) by lia.
Qed.

(** Enough iterations: a value below [128 ^ k] takes at most [k] of them. *)
Lemma writeVarInt_fuel k v fuel :
  0 <= v < 128 ^ Z.of_nat (S k) -> (S k <= fuel)%nat ->
  writeVarInt_loop fuel v = writeVarInt_loop (S k) v.
Proof.
  revert v fuel. induction k as [|k IH]; intros v [|fuel] Hv Hf; try lia;
    rewrite !writeVarInt_step by lia.
  - by rewrite (proj2 (Z.ltb_lt v 128)) by lia.
  - destruct (v <? 128) eqn:E; [done|]. f_equal. apply IH; [|lia].
    rewrite Nat2Z.inj_succ, Z.pow_succ_r in Hv by lia. divmod.
Qed.

Lemma reads_varint_loop (rd : M bytes Z) k v val mult :
  (forall b, reads rd [b] b) ->
  (k < 4)%nat -> 0 <= v < 128 ^ Z.of_nat (S k) -> mult = 128 ^ (3 - Z.of_nat k) ->
  0 <= val -> val + v * mult < 4294967296 ->
  reads (readVarInt_loop rd (S k) val mult) (writeVarInt_loop (S k) v) (val + v * mult).
Proof.
  intros Hrd. revert v val mult. induction k as [|k IH]; intros v val mult Hk Hv -> Hval Hmax;
    rewrite writeVarInt_step by lia; cbn [readVarInt_loop].
  - change (128 ^ Z.of_nat 1) with 128 in Hv. rewrite (proj2 (Z.ltb_lt v 128)) by lia.
    eapply reads_bind_end; [apply Hrd|]. cbn zeta. destruct (low7 v) as (-> & -> & _); [lia|].
    unfold u32. rewrite Z.mod_small by lia. apply reads_ret.
  - rewrite Nat2Z.inj_succ, Z.pow_succ_r in Hv by lia.
    set (m := 128 ^ (3 - Z.of_nat (S k))) in *. assert (0 < m) by (apply Z.pow_pos_nonneg; lia).
    assert (m * 128 = 128 ^ (3 - Z.of_nat k)) as Hm.
    { subst m. rewrite Z.mul_comm, <- Z.pow_succ_r by lia. f_equal. lia. }
    destruct (v <? 128) eqn:E; bools.
    + eapply reads_bind_end; [apply Hrd|]. cbn zeta. destruct (low7 v) as (-> & -> & _); [lia|].
      unfold u32. rewrite Z.mod_small by nia. apply reads_ret.
    + eapply (reads_bind _ _ [_]); [apply Hrd|]. cbn zeta.
      destruct (low7 (v `mod` 128)) as (_ & _ & -> & -> & _); [divmod|].
      assert (v = 128 * (v `div` 128) + v `mod` 128) as Hdm by (apply Z.div_mod; lia).
      assert (0 <= v `mod` 128 < 128) by (apply Z.mod_pos_bound; lia).
      assert (0 <= v `div` 128) by (apply Z.div_pos; lia).
      assert (m <= 128 ^ 3) by (apply Z.pow_le_mono_r; lia).
      change (128 ^ 3) with 2097152 in *.
      unfold u32. rewrite (Z.mod_small (m * 128)), (Z.mod_small (val + _)) by nia.
      replace (val + v * m) with (val + v `mod` 128 * m + v `div` 128 * (m * 128)) by nia.
      apply IH; [lia | split; [lia|] | done | nia | nia].
      apply Z.div_lt_upper_bound; lia.
Qed.

Lemma reads_readVarInt v : 0 <= v < 268435456 -> reads readVarInt (writeVarInt v) v.
Proof.
  intros Hv. unfold writeVarInt. rewrite (writeVarInt_fuel 3) by (done || lia).
  replace v with (0 + v * 1) at 2 by lia.
  by apply reads_varint_loop; [apply reads_readByte | lia | .. | lia | lia].
Qed.

Lemma reads_readVarIntFromReader v :
  0 <= v < 268435456 -> reads readVarIntFromReader (writeVarInt v) v.
Proof.
  intros Hv. unfold writeVarInt. rewrite (writeVarInt_fuel 3) by (done || lia).
  replace v with (0 + v * 1) at 2 by lia.
  by apply reads_varint_loop; [apply reads_ReadByte | lia | .. | lia | lia].
Qed.

(** ** The fixed header *)

(** On a length that is not negative the two integer encoders agree. *)
Lemma encodeRemLen_varint fuel n : 0 <= n -> encodeRemLen fuel n = writeVarInt_loop fuel n.
Proof.
  revert n. induction fuel as [|fuel IH]; intros n Hn; [done|].
  cbn [encodeRemLen writeVarInt_loop].
  rewrite Z.rem_mod_nonneg, Z.quot_div_nonneg by lia.
  rewrite IH by (apply Z.div_pos; lia). done.
Qed.

Lemma reads_decodeRemLen k v mult cnt rl hs :
  (k < 4)%nat -> 0 <= v < 128 ^ Z.of_nat (S k) -> mult = 128 ^ (3 - Z.of_nat k) ->
  0 <= cnt -> (0 < cnt -> 0 < v) ->
  reads (decodeRemLen (S k) mult cnt rl hs) (writeVarInt_loop (S k) v)
        (rl + v * mult, hs + len (writeVarInt_loop (S k) v)).
Proof.
  revert v mult cnt rl hs. induction k as [|k IH]; intros v mult cnt rl hs Hk Hv -> Hc Hmin;
    rewrite writeVarInt_step by lia; cbn [decodeRemLen].
  - change (128 ^ Z.of_nat 1) with 128 in Hv. rewrite (proj2 (Z.ltb_lt v 128)) by lia.
    eapply reads_bind_end; [apply reads_readByte|]. cbn zeta.
    destruct (low7 v) as (-> & -> & _); [lia|]. cbn [Z.eqb].
    destruct ((1 <? cnt + 1) && (v =? 0)) eqn:E; bools; [lia|]. apply reads_ret.
  - rewrite Nat2Z.inj_succ, Z.pow_succ_r in Hv by lia.
    set (m := 128 ^ (3 - Z.of_nat (S k))) in *.
    assert (m * 128 = 128 ^ (3 - Z.of_nat k)) as Hm.
    { subst m. rewrite Z.mul_comm, <- Z.pow_succ_r by lia. f_equal. lia. }
    destruct (v <? 128) eqn:E; bools.
    + eapply reads_bind_end; [apply reads_readByte|]. cbn zeta.
      destruct (low7 v) as (-> & -> & _); [lia|]. cbn [Z.eqb].
      destruct ((1 <? cnt + 1) && (v =? 0)) eqn:E'; bools; [lia|]. apply reads_ret.
    + eapply (reads_bind _ _ [_]); [apply reads_readByte|]. cbn zeta.
      destruct (low7 (v `mod` 128)) as (_ & _ & -> & -> & _); [divmod|]. cbn [Z.eqb].
      assert (m * 128 <= 128 ^ 3) by (rewrite Hm; apply Z.pow_le_mono_r; lia).
      change (128 ^ 3) with (128 * 128 * 128) in *.
      rewrite (proj2 (Z.ltb_ge (128 * 128 * 128) (m * 128))) by lia.
      rewrite len_cons, Z.add_assoc.
      replace (rl + v * m) with (rl + v `mod` 128 * m + v `div` 128 * (m * 128))
        by (pose proof (Z.div_mod v 128); nia).
      apply IH; [lia | split; [apply Z.div_pos; lia|] | done | lia | intros _; divmod].
      apply Z.div_lt_upper_bound; lia.
Qed.

(** decodeFixedHeader never runs out of fuel: more of it changes nothing. *)
Lemma decodeRemLen_fuel k mult cnt rl hs s extra :
  128 ^ 4 <= mult * 128 ^ Z.of_nat (S k) ->
  decodeRemLen (S k + extra) mult cnt rl hs s = decodeRemLen (S k) mult cnt rl hs s.
Proof.
  revert mult cnt rl hs s. induction k as [|k IH]; intros mult cnt rl hs s Hm;
    cbn [decodeRemLen Nat.add]; unfold mbind, M_bind; rewrite readByte_spec;
    destruct s as [|b t]; try done; cbn zeta.
  - change (128 ^ 4) with 268435456 in Hm. change (128 ^ Z.of_nat 1) with 128 in Hm.
    by rewrite (proj2 (Z.ltb_lt (128 * 128 * 128) (mult * 128))) by lia.
  - destruct (Z.land b 128 =? 0); [done|]. destruct (_ <? mult * 128); [done|].
    apply IH. rewrite Nat2Z.inj_succ, Z.pow_succ_r in Hm by lia. lia.
Qed.

(** The fields of the first byte of the header. *)
Lemma firstByte_fields t d q r :
  0 <= t < 16 -> 0 <= q < 4 ->
  let b := match encodeFixedHeader {| PacketType := t; Dup := d; QoS := q; Retain := r;
                                      RemainingLength := 0; HeaderSize := 0 |} with
           | b :: _ => b | [] => 0 end in
  Z.land (Z.shiftr b 4) 15 = t /\ negb (Z.land b 8 =? 0) = d /\
  Z.land (Z.shiftr b 1) 3 = q /\ negb (Z.land b 1 =? 0) = r.
Proof.
  intros Ht Hq. cbn [encodeFixedHeader PacketType Dup QoS Retain].
  set (fb := fun t d q r => let f := u8 (Z.shiftl t 4) in
    let f := if (d : bool) then Z.lor f 8 else f in
    let f := Z.lor f (u8 (Z.shiftl (Z.land q 3) 1)) in if (r : bool) then Z.lor f 1 else f).
  assert (forall d r, forallb (fun t => forallb (fun q =>
      (Z.land (Z.shiftr (fb t d q r) 4) 15 =? t) && eqb (negb (Z.land (fb t d q r) 8 =? 0)) d &&
      (Z.land (Z.shiftr (fb t d q r) 1) 3 =? q) && eqb (negb (Z.land (fb t d q r) 1 =? 0)) r)
      (seqZ 0 4)) (seqZ 0 16) = true) as H by (intros [] []; vm_compute; done).
  specialize (H d r). eapply (byte_forall _ 16 t) in H; [|done].
  eapply (byte_forall _ 4 q) in H; [|done]. cbn beta in H.
  apply andb_true_iff in H as [[[H1 H2]%andb_true_iff H3]%andb_true_iff H4].
  apply Z.eqb_eq in H1, H3. apply eqb_prop in H2, H4. auto.
Qed.

(** The wire size of a header with this Remaining Length. *)
Definition headerSize (n : Z) : Z := 1 + len (encodeRemLen 10 n).

(** A header as decodeFixedHeader produces it from [encodeFixedHeader fh]. *)
Definition wire_header (fh : FixedHeader) : FixedHeader :=
  {| PacketType := PacketType fh; Dup := Dup fh; QoS := QoS fh; Retain := Retain fh;
     RemainingLength := RemainingLength fh; HeaderSize := headerSize (RemainingLength fh) |}.

Definition header_ok (fh : FixedHeader) : Prop :=
  0 <= PacketType fh < 16 /\ 0 <= QoS fh < 4 /\ 0 <= RemainingLength fh < 268435456.

Lemma reads_decodeFixedHeader fh :
  header_ok fh -> reads decodeFixedHeader (encodeFixedHeader fh) (wire_header fh).
Proof.
  intros (Ht & Hq & Hn). destruct fh as [t d q r n hs]. cbn in *.
  destruct (firstByte_fields t d q r Ht Hq) as (E1 & E2 & E3 & E4).
  unfold encodeFixedHeader in *. cbn [PacketType Dup QoS Retain RemainingLength] in *.
  unfold wire_header, headerSize. cbn [PacketType Dup QoS Retain RemainingLength].
  eapply (reads_bind _ _ [_]); [apply reads_readByte|].
  rewrite encodeRemLen_varint, (writeVarInt_fuel 3) by (done || lia).
  eapply reads_bind_end; [apply (reads_decodeRemLen 3 n 1 0 0 1); (done || lia)|].
  rewrite E1, E2, E3, E4, Z.mul_1_r. apply reads_ret.
Qed.

Lemma split7 b :
  byte_ok b ->
  0 <= Z.land b 127 < 128 /\ (if Z.land b 128 =? 0 then b = Z.land b 127
                              else b = Z.lor (Z.land b 127) 128).
Proof.
  intros Hb.
  pose proof (byte_forall (fun b => (0 <=? Z.land b 127) && (Z.land b 127 <? 128) &&
    (if Z.land b 128 =? 0 then b =? Z.land b 127 else b =? Z.lor (Z.land b 127) 128))
    256 b eq_refl Hb) as H.
  cbn beta in H. destruct (Z.land b 128 =? 0); bools; auto.
Qed.

(** What decodeRemLen accepts is the minimal encoding of what it returns. *)
Lemma decodeRemLen_inv k mult cnt rl hs s n hs' s' :
  (k < 4)%nat -> mult = 128 ^ (3 - Z.of_nat k) -> 0 <= cnt -> bytes_ok s ->
  decodeRemLen (S k) mult cnt rl hs s = (Ok (n, hs'), s') ->
  exists v, s = writeVarInt_loop (S k) v ++ s' /\ n = rl + v * mult /\
    hs' = hs + len (writeVarInt_loop (S k) v) /\ 0 <= v < 128 ^ Z.of_nat (S k) /\ (0 < cnt -> 0 < v).
Proof.
  revert mult cnt rl hs s. induction k as [|k IH]; intros mult cnt rl hs s Hk -> Hc Hok H;
    cbn [decodeRemLen] in H; bind_inv H; rewrite readByte_spec in E;
    destruct s as [|b t]; [done | injection E as -> -> | done | injection E as -> ->];
    apply bytes_ok_cons in Hok as [Hb Hok]; cbn zeta in H;
    destruct (split7 a Hb) as [Hr Hsp]; destruct (Z.land a 128 =? 0).
  - destruct (_ && _) eqn:Em in H; [done|]. injection H as <- <- <-. exists a.
    rewrite writeVarInt_step by lia. rewrite (proj2 (Z.ltb_lt a 128)) by lia.
    rewrite <- Hsp in *. assert (0 < cnt -> 0 < a) by
      (intros; apply andb_false_iff in Em as [Em|Em]; bools; lia).
    repeat split; (done || lia).
  - change (128 ^ (3 - Z.of_nat 0)) with (128 * 128 * 128) in H. by cbn in H.
  - destruct (_ && _) eqn:Em in H; [done|]. injection H as <- <- <-. exists a.
    rewrite writeVarInt_step by lia. rewrite (proj2 (Z.ltb_lt a 128)) by lia.
    rewrite <- Hsp in *. rewrite (Nat2Z.inj_succ (S k)), Z.pow_succ_r by lia.
    pose proof (Z.pow_pos_nonneg 128 (Z.of_nat (S k))).
    assert (0 < cnt -> 0 < a) by
      (intros; apply andb_false_iff in Em as [Em|Em]; bools; lia).
    repeat split; (done || lia).
  - destruct (_ <? _) in H; [done|].
    assert (128 ^ (3 - Z.of_nat (S k)) * 128 = 128 ^ (3 - Z.of_nat k)) as Hm.
    { rewrite Z.mul_comm, <- Z.pow_succ_r by lia. f_equal. lia. }
    apply IH in H as (v & -> & -> & -> & Hv & Hpos); [| lia | done | lia | done].
    set (c := Z.land a 127) in *. assert (0 < v) by (apply Hpos; lia).
    exists (c + 128 * v). rewrite (writeVarInt_step (S k)) by lia.
    assert ((c + 128 * v) `mod` 128 = c) as -> by divmod.
    assert ((c + 128 * v) `div` 128 = v) as -> by divmod.
    rewrite (proj2 (Z.ltb_ge _ _)), <- Hsp, len_cons by lia.
    rewrite (Nat2Z.inj_succ (S k)), Z.pow_succ_r by lia.
    repeat split; try lia.
Qed.

Definition header_of_byte (b n hs : Z) : FixedHeader :=
  {| PacketType := Z.land (Z.shiftr b 4) 15; Dup := negb (Z.land b 8 =? 0);
     QoS := Z.land (Z.shiftr b 1) 3; Retain := negb (Z.land b 1 =? 0);
     RemainingLength := n; HeaderSize := hs |}.

Lemma header_of_byte_inv b n hs :
  byte_ok b -> 0 <= n < 268435456 ->
  encodeFixedHeader (header_of_byte b n hs) = b :: encodeRemLen 10 n /\
  header_ok (header_of_byte b n hs).
Proof.
  intros Hb Hn. split.
  - unfold encodeFixedHeader. cbn [RemainingLength header_of_byte]. f_equal.
    apply Z.eqb_eq. revert b Hb. intros b.
    apply (byte_forall (fun b => let fh := header_of_byte b n hs in
      let f := u8 (Z.shiftl (PacketType fh) 4) in let f := if Dup fh then Z.lor f 8 else f in
      let f := Z.lor f (u8 (Z.shiftl (Z.land (QoS fh) 3) 1)) in
      (if Retain fh then Z.lor f 1 else f) =? b) 256). vm_compute. done.
  - unfold header_ok. cbn [PacketType QoS RemainingLength header_of_byte].
    rewrite (land_low _ 4), (land_low _ 2) by lia.
    repeat split; try apply Z.mod_pos_bound; lia.
Qed.

(** decodeFixedHeader succeeds only on the encoding of the header it returns. *)
Lemma decodeFixedHeader_inv s fh s' :
  bytes_ok s -> decodeFixedHeader s = (Ok fh, s') ->
  s = encodeFixedHeader fh ++ s' /\ header_ok fh /\
  HeaderSize fh = headerSize (RemainingLength fh) /\ bytes_ok s'.
Proof.
  intros Hok H. unfold decodeFixedHeader in H. bind_inv H. rewrite readByte_spec in E.
  destruct s as [|b t]; [done|]. injection E as -> ->.
  apply bytes_ok_cons in Hok as [Hb Hok]. bind_inv H. destruct a0 as [n hs].
  injection H as <- <-.
  apply decodeRemLen_inv in E as (v & -> & -> & -> & Hv & _); [| lia | done | lia | done].
  rewrite Z.mul_1_r, Z.add_0_l. change (128 ^ Z.of_nat 4) with 268435456 in Hv.
  destruct (header_of_byte_inv a v (1 + len (writeVarInt_loop 4 v)) Hb Hv) as [E Hh].
  unfold header_of_byte in *. rewrite E.
  cbn [HeaderSize RemainingLength]. unfold headerSize.
  rewrite encodeRemLen_varint, (writeVarInt_fuel 3 v 10) by (done || lia).
  by apply bytes_ok_app in Hok as [_ ?].
Qed.

(** ** Locality of the remaining readers *)

Lemma local_readUint16 : local readUint16.
Proof. unfold readUint16. eauto with mqtt. Qed.

Lemma local_readUint16FromReader : local readUint16FromReader.
Proof. apply local_readUint16. Qed.

Lemma local_readUint32FromReader : local readUint32FromReader.
Proof. unfold readUint32FromReader. eauto with mqtt. Qed.

Lemma local_readStringBounded n : local (readStringBounded n).
Proof. unfold readStringBounded. eauto 10 with mqtt. Qed.

Lemma local_readString : local readString.
Proof. apply local_readStringBounded. Qed.

Lemma local_readStringFromReader : local readStringFromReader.
Proof. unfold readStringFromReader. eauto 10 with mqtt. Qed.

Lemma local_readBinaryDataFromReader : local readBinaryDataFromReader.
Proof. unfold readBinaryDataFromReader. eauto 10 with mqtt. Qed.

Lemma local_readVarInt_loop rd n val mult : local rd -> local (readVarInt_loop rd n val mult).
Proof. intros Hrd. revert val mult. induction n; intros; cbn; eauto with mqtt. Qed.

Lemma local_readVarInt : local readVarInt.
Proof. apply local_readVarInt_loop, local_readByte. Qed.

Lemma local_readVarIntFromReader : local readVarIntFromReader.
Proof. apply local_readVarInt_loop, local_ReadByte. Qed.

#[export] Hint Resolve local_readUint16 local_readUint16FromReader local_readUint32FromReader
  local_readStringBounded local_readString local_readStringFromReader
  local_readBinaryDataFromReader local_readVarInt local_readVarIntFromReader : mqtt.
#[export] Hint Resolve reads_readUint16 reads_readUint16FromReader reads_readUint32FromReader
  reads_readString reads_readStringFromReader reads_readBinaryDataFromReader
  reads_readVarInt reads_readVarIntFromReader : mqtt.

(** [reads] inside a buffer: what is left to read fits 32 bits, as it does in
    every packet body. *)
Definition readsB {A} (m : M bytes A) (bs : bytes) (a : A) : Prop :=
  forall rest, len (bs ++ rest) < 4294967296 -> m (bs ++ rest) = (Ok a, rest).

Lemma reads_readsB {A} (m : M bytes A) bs a : reads m bs a -> readsB m bs a.
Proof. intros H rest _. apply H. Qed.

Lemma readsB_bind {A B} (m : M bytes A) (f : A -> M bytes B) bs bs' a b :
  readsB m bs a -> readsB (f a) bs' b -> readsB (m ≫= f) (bs ++ bs') b.
Proof.
  intros H1 H2 rest Hl. rewrite <- app_assoc in *.
  rewrite (M_bind_ok _ _ _ _ _ (H1 _ Hl)). apply H2.
  rewrite len_app in Hl. pose proof (len_nonneg bs). lia.
Qed.

Lemma readsB_bind_end {A B} (m : M bytes A) (f : A -> M bytes B) bs a b :
  readsB m bs a -> readsB (f a) [] b -> readsB (m ≫= f) bs b.
Proof. intros. rewrite <- (app_nil_r bs). by eapply readsB_bind. Qed.

#[export] Hint Resolve reads_readsB : mqtt.

(** ** Ranges of what the readers return *)

Lemma readFull_ok n s buf s' :
  bytes_ok s -> readFull n s = (Ok buf, s') -> bytes_ok buf /\ bytes_ok s'.
Proof.
  intros Hs. unfold readFull. destruct (n <=? len s); [|done]. intros [= <- <-]. auto with mqtt.
Qed.

Lemma ReadByte_ok s b s' : bytes_ok s -> ReadByte s = (Ok b, s') -> byte_ok b /\ bytes_ok s'.
Proof. destruct s; [done|]. intros H [= -> ->]. by apply bytes_ok_cons in H. Qed.

Lemma be16_range b0 b1 : byte_ok b0 -> byte_ok b1 -> 0 <= Z.lor (Z.shiftl b0 8) b1 < 65536.
Proof. intros H0 H1. rewrite be16_join by done. unfold byte_ok in *. lia. Qed.

Lemma len_S_inv {A} (l : list A) n : len l = Z.of_nat (S n) -> exists x l', l = x :: l' /\ len l' = Z.of_nat n.
Proof. destruct l as [|x l]; [done|]. rewrite len_cons. exists x, l. split; [done | lia]. Qed.

Lemma readUint16FromReader_ok s v s' :
  bytes_ok s -> readUint16FromReader s = (Ok v, s') -> 0 <= v < 65536 /\ bytes_ok s'.
Proof.
  intros Hs H. unfold readUint16FromReader in H. bind_inv H. injection H as <- <-.
  pose proof (readFull_ok _ _ _ _ Hs E) as [Ha Hs']. split; [|done].
  apply readFull_inv in E as [_ Hl]; [|lia].
  apply (len_S_inv _ 1) in Hl as (b0 & l & -> & Hl). apply (len_S_inv _ 0) in Hl as (b1 & l' & -> & Hl).
  apply len_0_inv in Hl as ->. apply bytes_ok_cons in Ha as [? Ha]. apply bytes_ok_cons in Ha as [? _].
  by apply be16_range.
Qed.

Lemma readUint32FromReader_ok s v s' :
  bytes_ok s -> readUint32FromReader s = (Ok v, s') -> 0 <= v < 4294967296 /\ bytes_ok s'.
Proof.
  intros Hs H. unfold readUint32FromReader in H. bind_inv H. injection H as <- <-.
  pose proof (readFull_ok _ _ _ _ Hs E) as [Ha Hs']. split; [|done].
  apply readFull_inv in E as [_ Hl]; [|lia].
  apply (len_S_inv _ 3) in Hl as (b0 & l & -> & Hl). apply (len_S_inv _ 2) in Hl as (b1 & l1 & -> & Hl).
  apply (len_S_inv _ 1) in Hl as (b2 & l2 & -> & Hl). apply (len_S_inv _ 0) in Hl as (b3 & l3 & -> & Hl).
  apply len_0_inv in Hl as ->. unfold bytes_ok in Ha. rewrite !Forall_cons in Ha. destruct_and!.
  rewrite beUint32_join by done. unfold byte_ok in *. lia.
Qed.

Lemma readStringFromReader_ok s v s' :
  bytes_ok s -> readStringFromReader s = (Ok v, s') -> string_ok v = true /\ bytes_ok s'.
Proof.
  intros Hs H. unfold readStringFromReader in H. bind_inv H. bind_inv H.
  apply ReadByte_ok in E as [Hb0 Hs0]; [|done]. apply ReadByte_ok in E0 as [Hb1 Hs1]; [|done].
  pose proof (be16_range _ _ Hb0 Hb1) as Hr.
  set (n := Z.lor (Z.shiftl a 8) a0) in *. destruct (n =? 0).
  { by injection H as <- <-. }
  bind_inv H. bind_inv H. injection H as <- <-. injection E0 as E0 <-. destruct a2.
  pose proof (readFull_ok _ _ _ _ Hs1 E) as [_ Hs']. split; [|done].
  apply readFull_inv in E as [_ Hl]; [|lia]. unfold string_ok.
  rewrite (proj2 (Z.leb_le _ _)) by lia. rewrite E0. by rewrite (bool_decide_true (Ok tt = Ok tt)), orb_true_r.
Qed.

Lemma readBinaryDataFromReader_ok s v s' :
  bytes_ok s -> readBinaryDataFromReader s = (Ok v, s') ->
  (match v with Some d => d <> [] /\ len d <= 65535 | None => True end) /\ bytes_ok s'.
Proof.
  intros Hs H. unfold readBinaryDataFromReader in H. bind_inv H. bind_inv H.
  apply ReadByte_ok in E as [Hb0 Hs0]; [|done]. apply ReadByte_ok in E0 as [Hb1 Hs1]; [|done].
  pose proof (be16_range _ _ Hb0 Hb1) as Hr.
  set (n := Z.lor (Z.shiftl a 8) a0) in *. destruct (n =? 0) eqn:En; bools.
  { by injection H as <- <-. }
  bind_inv H. injection H as <- <-.
  pose proof (readFull_ok _ _ _ _ Hs1 E) as [_ Hs']. split; [|done].
  apply readFull_inv in E as [_ Hl]; [|lia]. split; [|lia]. intros ->. done.
Qed.

Lemma readVarInt_loop_ok k val mult s v s' :
  (k < 4)%nat -> mult = 128 ^ (3 - Z.of_nat k) -> 0 <= val < mult ->
  bytes_ok s -> readVarInt_loop ReadByte (S k) val mult s = (Ok v, s') ->
  0 <= v < 268435456 /\ bytes_ok s'.
Proof.
  revert val mult s. induction k as [|k IH]; intros val mult s Hk -> Hval Hs H;
    cbn [readVarInt_loop] in H; bind_inv H; apply ReadByte_ok in E as [Hb Hs0]; try done;
    destruct (split7 a Hb) as [Hc _]; cbn zeta in H.
  - change (128 ^ (3 - Z.of_nat 0)) with 2097152 in *.
    destruct (Z.land a 128 =? 0); [|done]. injection H as <- <-. split; [|done].
    rewrite u32_small by lia. lia.
  - set (m := 128 ^ (3 - Z.of_nat (S k))) in *.
    assert (m * 128 = 128 ^ (3 - Z.of_nat k)) as Hm.
    { subst m. rewrite Z.mul_comm, <- Z.pow_succ_r by lia. f_equal. lia. }
    assert (m * 128 <= 128 ^ 3) by (rewrite Hm; apply Z.pow_le_mono_r; lia).
    change (128 ^ 3) with 2097152 in *.
    destruct (Z.land a 128 =? 0).
    + injection H as <- <-. rewrite u32_small by nia. split; [nia | done].
    + eapply (IH (u32 (val + Z.land a 127 * m)) (u32 (m * 128)) s0) in H; [done | lia | | | done];
        rewrite !u32_small by nia; [done | nia].
Qed.

Lemma readVarIntFromReader_ok s v s' :
  bytes_ok s -> readVarIntFromReader s = (Ok v, s') -> 0 <= v < 268435456 /\ bytes_ok s'.
Proof. intros Hs. by apply (readVarInt_loop_ok 3); [lia | | |]. Qed.
