(* ===== verification/Spec.v ===== *)
(** * Protocol versions and the codec's state: protocol/spec.go, constants.go
      and the [Codec] struct of protocol/codec.go

    [Spec] is the capability table of one MQTT version; a [Codec] caches the
    table of its negotiated version and [syncSpec] keeps the cache in step. *)

From S2P Require Import Prelude.
Open Scope Z_scope.

(** constants.go, PacketType values *)
Definition PacketTypeConnect := 1.
Definition PacketTypeConnAck := 2.
Definition PacketTypePublish := 3.
Definition PacketTypePubAck := 4.
Definition PacketTypePubRec := 5.
Definition PacketTypePubRel := 6.
Definition PacketTypePubComp := 7.
Definition PacketTypeSubscribe := 8.
Definition PacketTypeSubAck := 9.
Definition PacketTypeUnsubscribe := 10.
Definition PacketTypeUnsubAck := 11.
Definition PacketTypePingReq := 12.
Definition PacketTypePingResp := 13.
Definition PacketTypeDisconnect := 14.
Definition PacketTypeAuth := 15.

(** constants.go, protocol versions and names *)
Definition Version31 := 3.
Definition Version311 := 4.
Definition Version50 := 5.
Definition ProtocolNameMQTT := str "MQTT".
Definition ProtocolNameMQIsdp := str "MQIsdp".
#[global] Arguments ProtocolNameMQTT : simpl never.
#[global] Arguments ProtocolNameMQIsdp : simpl never.

(** spec.go, Spec; a field whose name a property or a packet also has carries the
    prefix [Spec]. *)
Record Spec := {
  Version : Z;
  Name : bytes;
  AllowEmptyID : bool;
  MaxClientIDLen : Z;
  ConnAckSessionPresent : bool;
  ConnAckHasReasonCode : bool;
  SubAckFailureSupported : bool;
  SpecProperties : bool;
  SpecReasonCodes : bool;
  ServerDisconnect : bool;
  SpecTopicAlias : bool;
  SpecAuthPacket : bool;
  RetransmitUnacked : bool;
}.

Definition specV31 : Spec :=
  {| Version := Version31; Name := ProtocolNameMQIsdp; AllowEmptyID := false;
     MaxClientIDLen := 23; ConnAckSessionPresent := false; ConnAckHasReasonCode := false;
     SubAckFailureSupported := false; SpecProperties := false; SpecReasonCodes := false;
     ServerDisconnect := false; SpecTopicAlias := false; SpecAuthPacket := false;
     RetransmitUnacked := true |}.

Definition specV311 : Spec :=
  {| Version := Version311; Name := ProtocolNameMQTT; AllowEmptyID := true;
     MaxClientIDLen := 0; ConnAckSessionPresent := true; ConnAckHasReasonCode := false;
     SubAckFailureSupported := true; SpecProperties := false; SpecReasonCodes := false;
     ServerDisconnect := false; SpecTopicAlias := false; SpecAuthPacket := false;
     RetransmitUnacked := true |}.

Definition specV50 : Spec :=
  {| Version := Version50; Name := ProtocolNameMQTT; AllowEmptyID := true;
     MaxClientIDLen := 0; ConnAckSessionPresent := true; ConnAckHasReasonCode := true;
     SubAckFailureSupported := true; SpecProperties := true; SpecReasonCodes := true;
     ServerDisconnect := true; SpecTopicAlias := true; SpecAuthPacket := true;
     RetransmitUnacked := false |}.

(** spec.go, SpecOf *)
Definition SpecOf (v : Z) : option Spec :=
  if v =? Version31 then Some specV31
  else if v =? Version311 then Some specV311
  else if v =? Version50 then Some specV50
  else None.

(** codec.go, Codec.  The buffer pool only recycles memory and is not modelled. *)
Record Codec := {
  maxPacketSize : Z;
  protocolVersion : Z;
  spec : Spec;
  outboundMax : Z;
}.

Definition with_spec (c : Codec) (s : Spec) : Codec :=
  {| maxPacketSize := maxPacketSize c; protocolVersion := protocolVersion c; spec := s;
     outboundMax := outboundMax c |}.

(** codec.go, syncSpec *)
Definition syncSpec (c : Codec) : Codec :=
  if Version (spec c) =? protocolVersion c then c
  else with_spec c (default specV311 (SpecOf (protocolVersion c))).

(** codec.go, setVersion *)
Definition setVersion (v : Z) (c : Codec) : Codec :=
  syncSpec {| maxPacketSize := maxPacketSize c; protocolVersion := v; spec := spec c;
              outboundMax := outboundMax c |}.

Definition zeroSpec : Spec :=
  {| Version := 0; Name := []; AllowEmptyID := false; MaxClientIDLen := 0;
     ConnAckSessionPresent := false; ConnAckHasReasonCode := false;
     SubAckFailureSupported := false; SpecProperties := false; SpecReasonCodes := false;
     ServerDisconnect := false; SpecTopicAlias := false; SpecAuthPacket := false;
     RetransmitUnacked := false |}.

(** codec.go, NewCodec and NewCodecForVersion *)
Definition NewCodec (max : Z) : Codec :=
  let max := if max <=? 0 then 256 * 1024 else max in
  setVersion Version311
    {| maxPacketSize := max; protocolVersion := 0; spec := zeroSpec; outboundMax := 0 |}.

Definition NewCodecForVersion (max version : Z) : Codec := setVersion version (NewCodec max).

(** codec.go, SetOutboundMaxPacketSize *)
Definition SetOutboundMaxPacketSize (n : Z) (c : Codec) : Codec :=
  {| maxPacketSize := maxPacketSize c; protocolVersion := protocolVersion c; spec := spec c;
     outboundMax := if n <? 0 then 0 else n |}.

(** ** The invariant of a codec: the cached table is one of the three, and it
    is the table of the negotiated version (3.1.1 for an unknown version). *)

Definition spec_for (v : Z) : Spec := default specV311 (SpecOf v).

Definition codec_ok (c : Codec) : Prop := spec c = spec_for (protocolVersion c).

Lemma spec_for_cases v :
  (v = 3 /\ spec_for v = specV31) \/ (v = 5 /\ spec_for v = specV50) \/
  (v <> 3 /\ v <> 5 /\ spec_for v = specV311).
Proof.
  unfold spec_for, SpecOf, Version31, Version311, Version50.
  destruct (v =? 3) eqn:E1; [left; bools; auto|].
  destruct (v =? 4) eqn:E2; [right; right; bools; repeat split; (done || lia)|].
  destruct (v =? 5) eqn:E3; bools; [right; left; auto | right; right; auto].
Qed.

Lemma syncSpec_ok c : (exists v, spec c = spec_for v) -> codec_ok (syncSpec c).
Proof.
  intros [v Hv]. unfold syncSpec, codec_ok. destruct (_ =? _) eqn:E; bools; [|done].
  rewrite <- E, Hv. by destruct (spec_for_cases v) as [[_ ->]|[[_ ->]|(_ & _ & ->)]].
Qed.

Lemma syncSpec_id c : codec_ok c -> syncSpec c = c.
Proof.
  intros H. unfold syncSpec. destruct (_ =? _); [done|].
  destruct c. unfold codec_ok, with_spec in *. cbn in *. by subst.
Qed.

Lemma setVersion_ok v c : (exists v', spec c = spec_for v') -> codec_ok (setVersion v c).
Proof. intros H. by apply syncSpec_ok. Qed.

Lemma setVersion_fields v c :
  protocolVersion (setVersion v c) = v /\ maxPacketSize (setVersion v c) = maxPacketSize c /\
  outboundMax (setVersion v c) = outboundMax c.
Proof. unfold setVersion, syncSpec. by case_goal. Qed.

Lemma NewCodec_ok max : codec_ok (NewCodec max).
Proof. done. Qed.

Lemma codec_ok_spec c : codec_ok c -> exists v, spec c = spec_for v.
Proof. intros. by eexists. Qed.

#[export] Hint Resolve syncSpec_ok setVersion_ok NewCodec_ok codec_ok_spec : mqtt.
