(* ===== verification/Topic.v ===== *)
(** * Topic names and topic filters: protocol/topic.go

    The four functions of the file with their loops, an abstract account of
    topics as lists of levels, and the theorems that relate the two: splitting
    and joining are inverse, [ValidateTopicFilter] accepts exactly the filters
    whose levels are well formed, and [MatchTopic] decides the matching relation
    of the MQTT specification. *)

From S2P Require Import Prelude.
Open Scope Z_scope.

(** ** Model *)

Definition slash : Z := 47.
Definition hash : Z := 35.
Definition plus : Z := 43.

(** topic.go, ValidatePublishTopic *)
Definition ValidatePublishTopic (topic : bytes) : bool :=
  negb (len topic =? 0) && forallb (fun b => negb ((b =? hash) || (b =? plus))) topic.

(** topic.go, SplitTopic: [cur] is topic[start:i] at the head of the loop. *)
Fixpoint SplitTopic_loop (cur topic : bytes) : list bytes :=
  match topic with
  | [] => [cur]
  | b :: t => if b =? slash then cur :: SplitTopic_loop [] t
              else SplitTopic_loop (cur ++ [b]) t
  end.

Definition SplitTopic (topic : bytes) : list bytes := SplitTopic_loop [] topic.

(** strings.IndexByte for the separator, and strings.Split(s, "/") *)
Fixpoint indexSlash (s : bytes) : option nat :=
  match s with
  | [] => None
  | b :: t => if b =? slash then Some O else S <$> indexSlash t
  end.

Fixpoint strings_Split_loop (fuel : nat) (s : bytes) : list bytes :=
  match fuel with
  | O => [s]
  | S fuel' =>
      match indexSlash s with
      | None => [s]
      | Some m => take m s :: strings_Split_loop fuel' (drop (S m) s)
      end
  end.

(** [len(s)] separators at most, so [len(s)] iterations are enough. *)
Definition strings_Split (s : bytes) : list bytes := strings_Split_loop (length s) s.

(** topic.go, matchLevels: [rest] is patternLevels[i:]. *)
Fixpoint matchLevels_loop (i : nat) (rest patternLevels topicLevels : list bytes) : bool :=
  match rest with
  | [] => bool_decide (length patternLevels = length topicLevels)
  | pattern :: rest' =>
      if bool_decide (pattern = [hash]) then true else
      match topicLevels !! i with
      | None => false
      | Some level =>
          if bool_decide (pattern = [plus])
          then matchLevels_loop (S i) rest' patternLevels topicLevels
          else if bool_decide (pattern <> level) then false
          else matchLevels_loop (S i) rest' patternLevels topicLevels
      end
  end.

Definition matchLevels (patternLevels topicLevels : list bytes) : bool :=
  matchLevels_loop 0 patternLevels patternLevels topicLevels.

(** topic.go, MatchTopic *)
Definition MatchTopic (pattern topic : bytes) : bool :=
  matchLevels (strings_Split pattern) (strings_Split topic).

(** topic.go, ValidateTopicFilter: [prev] is filter[i-1] ([None] when [i] is 0)
    and [rest] is filter[i:]. *)
Fixpoint ValidateTopicFilter_loop (prev : option Z) (rest : bytes) : bool :=
  match rest with
  | [] => true
  | b :: rest' =>
      let prev_ok := match prev with None => true | Some p => p =? slash end in
      let here :=
        if b =? hash then bool_decide (rest' = []) && prev_ok
        else if b =? plus then
          prev_ok && match rest' with [] => true | n :: _ => n =? slash end
        else true in
      here && ValidateTopicFilter_loop (Some b) rest'
  end.

Definition ValidateTopicFilter (filter : bytes) : bool :=
  negb (len filter =? 0) && ValidateTopicFilter_loop None filter.

(** ** Specification *)

(** Joining levels with the separator. *)
Fixpoint joinTopic (levels : list bytes) : bytes :=
  match levels with
  | [] => []
  | [l] => l
  | l :: ls => l ++ (slash :: joinTopic ls)
  end.

Definition no_slash (l : bytes) : Prop := slash ∉ l.
Definition plain (l : bytes) : Prop := (hash ∉ l) /\ (plus ∉ l).

(** The levels of a well-formed filter: a wildcard fills its level, and "#" is
    the last level. *)
Inductive filter_levels : list bytes -> Prop :=
  | fl_hash : filter_levels [[hash]]
  | fl_last l : plain l -> filter_levels [l]
  | fl_plus_last : filter_levels [[plus]]
  | fl_plus ls : filter_levels ls -> filter_levels ([plus] :: ls)
  | fl_plain l ls : plain l -> filter_levels ls -> filter_levels (l :: ls).

(** The matching relation of the MQTT specification (4.7.1): "+" stands for one
    level, "#" for any number of levels, the parent level included. *)
Inductive level_match : list bytes -> list bytes -> Prop :=
  | lm_nil : level_match [] []
  | lm_hash ps ts : level_match ([hash] :: ps) ts
  | lm_plus ps t ts : level_match ps ts -> level_match ([plus] :: ps) (t :: ts)
  | lm_level l ps ts : level_match ps ts -> level_match (l :: ps) (l :: ts).

#[export] Hint Constructors filter_levels level_match : mqtt.

(** ** Splitting and joining *)

Lemma joinTopic_cons l ls : ls <> [] -> joinTopic (l :: ls) = l ++ slash :: joinTopic ls.
Proof. by destruct ls. Qed.

Lemma SplitTopic_loop_nonempty cur t : SplitTopic_loop cur t <> [].
Proof. revert cur. induction t; intros; cbn; [done|]. by case_goal. Qed.

Lemma join_split_loop cur t : joinTopic (SplitTopic_loop cur t) = cur ++ t.
Proof.
  revert cur. induction t as [|b t IH]; intros cur; cbn [SplitTopic_loop]; [by rewrite app_nil_r|].
  destruct (b =? slash) eqn:E; bools; subst.
  - rewrite joinTopic_cons by apply SplitTopic_loop_nonempty. by rewrite IH.
  - by rewrite IH, <- app_assoc.
Qed.

Lemma split_loop_no_slash cur t : no_slash cur -> Forall no_slash (SplitTopic_loop cur t).
Proof.
  revert cur. induction t as [|b t IH]; intros cur Hc; cbn; [by constructor|].
  destruct (b =? slash) eqn:E; bools.
  - constructor; [done|]. apply IH, not_elem_of_nil.
  - apply IH. unfold no_slash in *. rewrite elem_of_app, list_elem_of_singleton. naive_solver.
Qed.

Lemma split_loop_app cur l t :
  no_slash l -> SplitTopic_loop cur (l ++ t) = SplitTopic_loop (cur ++ l) t.
Proof.
  unfold no_slash. revert cur. induction l as [|b l IH]; intros cur Hl; cbn [app SplitTopic_loop].
  - by rewrite app_nil_r.
  - rewrite elem_of_cons in Hl. destruct (b =? slash) eqn:E; bools; [naive_solver|].
    rewrite IH, <- app_assoc by naive_solver. done.
Qed.

Lemma split_join_levels ls :
  ls <> [] -> Forall no_slash ls -> SplitTopic (joinTopic ls) = ls.
Proof.
  unfold SplitTopic. intros Hne Hls. induction Hls as [|l ls Hl Hls IH]; [done|].
  destruct ls as [|l' ls].
  - cbn [joinTopic]. rewrite <- (app_nil_r l) at 1. by rewrite split_loop_app.
  - rewrite joinTopic_cons, split_loop_app by done. cbn [SplitTopic_loop app].
    change (slash =? slash) with true. cbn iota. by rewrite IH.
Qed.

Lemma join_split t : joinTopic (SplitTopic t) = t.
Proof. apply join_split_loop. Qed.

Lemma split_no_slash t : Forall no_slash (SplitTopic t).
Proof. apply split_loop_no_slash, not_elem_of_nil. Qed.

Lemma split_nonempty t : SplitTopic t <> [].
Proof. apply SplitTopic_loop_nonempty. Qed.

(** A topic determines its levels and the levels the topic. *)
Lemma SplitTopic_inj t t' : SplitTopic t = SplitTopic t' -> t = t'.
Proof. intros H. by rewrite <- (join_split t), <- (join_split t'), H. Qed.

Lemma indexSlash_spec s :
  match indexSlash s with
  | None => no_slash s
  | Some m => no_slash (take m s) /\ s = take m s ++ slash :: drop (S m) s
  end.
Proof.
  unfold no_slash. induction s as [|b s IH]; cbn; [apply not_elem_of_nil|].
  destruct (b =? slash) eqn:E; bools; [subst; split; [apply not_elem_of_nil | by rewrite drop_0] |].
  destruct (indexSlash s) as [m|]; cbn.
  - destruct IH as [H1 H2]. split; [rewrite elem_of_cons; naive_solver | by f_equal].
  - rewrite elem_of_cons. naive_solver.
Qed.

Lemma strings_Split_loop_eq fuel s :
  (length s <= fuel)%nat -> strings_Split_loop fuel s = SplitTopic s.
Proof.
  revert s. induction fuel as [|fuel IH]; intros s Hf; cbn [strings_Split_loop].
  - by destruct s; [|cbn in Hf; lia].
  - pose proof (indexSlash_spec s) as Hs. unfold SplitTopic. destruct (indexSlash s) as [m|].
    + destruct Hs as [H1 H2]. rewrite H2 at 3. rewrite split_loop_app by done.
      cbn [SplitTopic_loop app]. change (slash =? slash) with true. cbn iota. f_equal. apply IH.
      apply (f_equal length) in H2. rewrite length_app in H2. cbn [length] in H2. lia.
    + rewrite <- (app_nil_r s) at 2. by rewrite split_loop_app.
Qed.

(** strings.Split(s, "/") and SplitTopic(s) are the same function. *)
Lemma strings_Split_SplitTopic s : strings_Split s = SplitTopic s.
Proof. by apply strings_Split_loop_eq. Qed.

(** ** Matching *)

(** The loop as a recursion on the two lists of levels. *)
Fixpoint levels_matchb (ps ts : list bytes) : bool :=
  match ps with
  | [] => bool_decide (ts = [])
  | p :: ps' =>
      bool_decide (p = [hash]) ||
      match ts with
      | [] => false
      | t :: ts' => (bool_decide (p = [plus]) || bool_decide (p = t)) && levels_matchb ps' ts'
      end
  end.

Lemma matchLevels_loop_eq pre rest tpre ts :
  length pre = length tpre ->
  matchLevels_loop (length pre) rest (pre ++ rest) (tpre ++ ts) = levels_matchb rest ts.
Proof.
  revert pre tpre ts. induction rest as [|p rest IH]; intros pre tpre ts Hl; cbn.
  - apply bool_decide_ext. rewrite !length_app. cbn. split; [|intros ->; cbn; lia].
    destruct ts; [done|]. cbn. lia.
  - destruct (bool_decide (p = [hash])); [done|].
    rewrite Hl, lookup_app_r, Nat.sub_diag by lia. destruct ts as [|t ts]; cbn; [done|].
    specialize (IH (pre ++ [p]) (tpre ++ [t]) ts). rewrite !length_app in IH. cbn in IH.
    rewrite <- !app_assoc in IH. cbn in IH. rewrite Nat.add_1_r, Hl in IH.
    rewrite IH by lia.
    destruct (decide (p = t)) as [->|Hpt].
    + rewrite !(bool_decide_true (t = t)), (bool_decide_false (t <> t)), orb_true_r by naive_solver.
      by destruct (bool_decide (t = [plus])).
    + rewrite (bool_decide_false (p = t)), (bool_decide_true (p <> t)) by done.
      by destruct (bool_decide (p = [plus])).
Qed.

Lemma matchLevels_eq ps ts : matchLevels ps ts = levels_matchb ps ts.
Proof. by apply (matchLevels_loop_eq [] ps [] ts). Qed.

Lemma levels_matchb_spec ps ts : levels_matchb ps ts = true <-> level_match ps ts.
Proof.
  split.
  - revert ts. induction ps as [|p ps IH]; cbn; intros ts H.
    { bools. subst. constructor. }
    apply orb_true_iff in H as [H|H]; [bools; subst; constructor|].
    destruct ts as [|t ts]; [done|]. apply andb_true_iff in H as [H Hr]. apply IH in Hr.
    apply orb_true_iff in H as [H|H]; bools; subst; by constructor.
  - induction 1 as [|ps ts|ps t ts _ IH|l ps ts _ IH]; cbn; rewrite ?IH; [done..|].
    by rewrite (bool_decide_true (l = l)), !orb_true_r.
Qed.

Lemma MatchTopic_levels p t : MatchTopic p t = levels_matchb (SplitTopic p) (SplitTopic t).
Proof. unfold MatchTopic. by rewrite !strings_Split_SplitTopic, matchLevels_eq. Qed.

(** ** Filters *)

Definition plainb (l : bytes) : bool :=
  forallb (fun b => negb ((b =? hash) || (b =? plus))) l.

Lemma plainb_spec l : plainb l = true <-> plain l.
Proof.
  unfold plainb, plain. rewrite forallb_forall. split.
  - intros H. split; intros Hin%list_elem_of_In; by apply H in Hin.
  - intros [H1 H2] b Hb%list_elem_of_In. apply negb_true_iff, orb_false_iff.
    split; apply Z.eqb_neq; by intros ->.
Qed.

(** What follows a level: the end, or a separator and the next levels. *)
Definition level_end (rest : bytes) : Prop := rest = [] \/ exists r, rest = slash :: r.
Definition next_level (rest : bytes) : bool :=
  match rest with [] => true | _ :: r => ValidateTopicFilter_loop (Some slash) r end.

Lemma validate_at_end p rest :
  level_end rest -> ValidateTopicFilter_loop p rest = next_level rest.
Proof. by intros [->|[r ->]]. Qed.

(** Inside a level, past its first byte, no wildcard is accepted. *)
Lemma validate_inside p l rest :
  p <> slash -> no_slash l -> level_end rest ->
  ValidateTopicFilter_loop (Some p) (l ++ rest) = plainb l && next_level rest.
Proof.
  unfold no_slash. intros Hp Hl Hr. revert p Hp Hl.
  induction l as [|b l IH]; intros p Hp Hl; cbn [app]; [by apply validate_at_end|].
  rewrite elem_of_cons in Hl. cbn [ValidateTopicFilter_loop plainb forallb].
  rewrite (proj2 (Z.eqb_neq p slash)), IH by naive_solver.
  destruct (b =? hash); cbn; [by rewrite andb_false_r|]. by destruct (b =? plus).
Qed.

(** A level from its first byte on: a wildcard alone, or no wildcard. *)
Lemma validate_level prev l rest :
  match prev with None => True | Some p => p = slash end -> no_slash l -> level_end rest ->
  ValidateTopicFilter_loop prev (l ++ rest) =
    if bool_decide (l = [hash]) then bool_decide (rest = [])
    else if bool_decide (l = [plus]) then next_level rest
    else plainb l && next_level rest.
Proof.
  intros Hprev Hl Hr. destruct l as [|b l]; [by apply validate_at_end|].
  assert (b <> slash /\ no_slash l) as [Hb Hl'] by (unfold no_slash in *; set_solver).
  cbn [app ValidateTopicFilter_loop].
  assert (match prev with None => true | Some p => p =? slash end = true) as ->
    by (destruct prev; [by subst | done]).
  rewrite validate_inside by done.
  destruct (b =? hash) eqn:Eh; bools; subst.
  - destruct l as [|b' l]; cbn.
    + rewrite andb_true_r. destruct Hr as [->|[r ->]]; [done|]. by rewrite bool_decide_false.
    + done.
  - rewrite (bool_decide_false (b :: l = [hash])) by congruence.
    destruct (b =? plus) eqn:Ep; bools; subst.
    + destruct l as [|b' l]; cbn.
      * by destruct Hr as [->|[r ->]].
      * rewrite (proj2 (Z.eqb_neq b' slash)) by (unfold no_slash in *; set_solver). done.
    + rewrite (bool_decide_false (b :: l = [plus])) by congruence. cbn.
      by rewrite (proj2 (Z.eqb_neq b hash)), (proj2 (Z.eqb_neq b plus)).
Qed.

Fixpoint filter_levelsb (ls : list bytes) : bool :=
  match ls with
  | [] => false
  | [l] => bool_decide (l = [hash]) || bool_decide (l = [plus]) || plainb l
  | l :: ls' => (bool_decide (l = [plus]) || (negb (bool_decide (l = [hash])) && plainb l))
                && filter_levelsb ls'
  end.

Lemma filter_levelsb_spec ls : filter_levelsb ls = true <-> filter_levels ls.
Proof.
  split.
  - induction ls as [|l [|l' ls] IH]; [done|..]; cbn [filter_levelsb]; intros H.
    + apply orb_true_iff in H as [[H|H]%orb_true_iff|H%plainb_spec]; bools; subst; eauto with mqtt.
    + apply andb_true_iff in H as [H Hr]. apply IH in Hr.
      apply orb_true_iff in H as [H|[_ H%plainb_spec]%andb_true_iff]; bools; subst; eauto with mqtt.
  - induction 1 as [|l Hl%plainb_spec| |ls Hls IH|l ls Hl Hls IH]; cbn; try done.
    + by rewrite Hl, !orb_true_r.
    + by destruct ls.
    + assert (l <> [hash]) by (intros ->; destruct Hl as [Hl _]; set_solver).
      apply plainb_spec in Hl. rewrite Hl, (bool_decide_false (l = [hash])), IH by done.
      destruct ls; [inversion Hls|]. by rewrite orb_true_r.
Qed.

Lemma validate_levels prev ls :
  match prev with None => True | Some p => p = slash end ->
  Forall no_slash ls -> ls <> [] ->
  ValidateTopicFilter_loop prev (joinTopic ls) = filter_levelsb ls.
Proof.
  intros Hprev Hls. revert prev Hprev. induction Hls as [|l ls Hl Hls IH]; intros prev Hp Hne; [done|].
  destruct ls as [|l' ls].
  - cbn [joinTopic filter_levelsb]. rewrite <- (app_nil_r l) at 1.
    rewrite validate_level by (done || by left). cbn. rewrite andb_true_r.
    destruct (bool_decide (l = [hash])); [done|]. by destruct (bool_decide (l = [plus])).
  - rewrite joinTopic_cons, validate_level by (done || by right; eexists).
    cbn [next_level]. rewrite IH by done. cbn [filter_levelsb].
    destruct (decide (l = [hash])) as [->|Hh]; [done|].
    rewrite (bool_decide_false (l = [hash])) by done. by destruct (bool_decide (l = [plus])).
Qed.

Lemma ValidateTopicFilter_levels f :
  ValidateTopicFilter f = true <-> f <> [] /\ filter_levels (SplitTopic f).
Proof.
  unfold ValidateTopicFilter. rewrite <- filter_levelsb_spec.
  rewrite <- (join_split f) at 2.
  rewrite validate_levels by (done || apply split_no_slash || apply split_nonempty).
  rewrite andb_true_iff, negb_true_iff, Z.eqb_neq. split; intros [H ?]; (split; [|done]).
  - by intros ->.
  - intros Hz%len_0_inv. done.
Qed.

Lemma ValidatePublishTopic_plain t : ValidatePublishTopic t = true <-> t <> [] /\ plain t.
Proof.
  unfold ValidatePublishTopic. rewrite andb_true_iff, negb_true_iff, Z.eqb_neq.
  change (forallb _ t) with (plainb t). rewrite plainb_spec.
  split; intros [H ?]; (split; [|done]); [by intros -> | by intros Hz%len_0_inv].
Qed.

(** ** Properties *)

(** SplitTopic is the inverse of joining with "/": the levels it returns
    contain no separator and join back to the topic, and the levels of a joined
    list are that list.  strings.Split, which MatchTopic uses instead, is the
    same function. *)
Theorem SplitTopic_join_inverse :
  (forall t, joinTopic (SplitTopic t) = t /\ Forall no_slash (SplitTopic t) /\
             strings_Split t = SplitTopic t) /\
  (forall ls, ls = [] \/ ~ Forall no_slash ls \/ SplitTopic (joinTopic ls) = ls).
Proof.
  split.
  - auto using join_split, split_no_slash, strings_Split_SplitTopic.
  - intros [|l ls]; [by left|]. right.
    destruct (decide (Forall (fun l => slash ∉ l) (l :: ls))); [right | by left].
    by apply split_join_levels.
Qed.

(** C33: MatchTopic decides the matching relation of the MQTT specification on
    the levels of the filter and of the topic. *)
Theorem MatchTopic_decides_level_match pattern topic :
  MatchTopic pattern topic = true <-> level_match (SplitTopic pattern) (SplitTopic topic).
Proof. rewrite MatchTopic_levels. apply levels_matchb_spec. Qed.

(** ValidateTopicFilter accepts a filter exactly when it is not empty, every
    wildcard fills its level and "#" is the last level; ValidatePublishTopic
    accepts exactly the non-empty topics without a wildcard character. *)
Theorem topic_validation_exact s :
  (ValidateTopicFilter s = true <-> s <> [] /\ filter_levels (SplitTopic s)) /\
  (ValidatePublishTopic s = true <-> s <> [] /\ (hash ∉ s) /\ (plus ∉ s)).
Proof. split; [apply ValidateTopicFilter_levels | apply ValidatePublishTopic_plain]. Qed.
