(* ===== verification/Properties.v ===== *)
(** * MQTT 5.0 properties: protocol/properties.go

    The [Properties] struct, Table 2-4 ([propertyLoci]), the encoder and the
    decoder of a property section and the validation shared by both.  A section
    is a list of items, one per property instance on the wire; the proofs go
    through that list ([items]): the encoder writes the items in field order and
    the decoder folds them into the struct. *)

From S2P Require Import Prelude Utf8 Wire Spec.
Open Scope Z_scope.

(** ** Model *)

Record UserProperty := { Key : bytes; Value : bytes }.

#[export] Instance UserProperty_eq_dec : EqDecision UserProperty.
Proof. solve_decision. Defined.

(** properties.go, Properties: a pointer field is an [option]; a [[]byte] whose
    nil and empty values differ on the wire is an [option] as well. *)
Record Properties := mkProperties {
  PayloadFormat : option Z;
  MessageExpiryInterval : option Z;
  ContentType : bytes;
  ResponseTopic : bytes;
  CorrelationData : option bytes;
  SubscriptionIdentifier : list Z;
  SessionExpiryInterval : option Z;
  AssignedClientID : bytes;
  ServerKeepAlive : option Z;
  AuthenticationMethod : bytes;
  AuthenticationData : option bytes;
  RequestProblemInfo : option Z;
  WillDelayInterval : option Z;
  RequestResponseInfo : option Z;
  ResponseInfo : bytes;
  ServerReference : bytes;
  ReceiveMaximum : option Z;
  TopicAliasMaximum : option Z;
  TopicAlias : option Z;
  MaximumQoS : option Z;
  RetainAvailable : option Z;
  UserProperties : list UserProperty;
  MaximumPacketSize : option Z;
  WildcardSubAvailable : option Z;
  SubIDAvailable : option Z;
  SharedSubAvailable : option Z;
  ReasonString : bytes;
}.

#[export] Instance Properties_eq_dec : EqDecision Properties.
Proof. solve_decision. Defined.

(** The zero value, [&Properties{}]. *)
Definition emptyProperties : Properties :=
  mkProperties None None [] [] None [] None [] None [] None None None None [] [] None None None None None [] None None None None [].

(** properties.go, the property identifiers *)
Definition PropPayloadFormat := 1.
Definition PropMessageExpiryInterval := 2.
Definition PropContentType := 3.
Definition PropResponseTopic := 8.
Definition PropCorrelationData := 9.
Definition PropSubscriptionIdentifier := 11.
Definition PropSessionExpiryInterval := 17.
Definition PropAssignedClientID := 18.
Definition PropServerKeepAlive := 19.
Definition PropAuthMethod := 21.
Definition PropAuthData := 22.
Definition PropRequestProblemInfo := 23.
Definition PropWillDelayInterval := 24.
Definition PropRequestResponseInfo := 25.
Definition PropResponseInfo := 26.
Definition PropServerReference := 28.
Definition PropReceiveMaximum := 33.
Definition PropTopicAliasMax := 34.
Definition PropTopicAlias := 35.
Definition PropMaximumQoS := 36.
Definition PropRetainAvailable := 37.
Definition PropUserProperty := 38.
Definition PropMaximumPacketSize := 39.
Definition PropWildcardSubAvailable := 40.
Definition PropSubIDAvailable := 41.
Definition PropSharedSubAvailable := 42.
Definition PropReasonString := 31.

(** properties.go, propertyLocus *)
Inductive propertyLocus :=
  | locusConnect | locusWill | locusConnAck | locusPublish | locusAck | locusSubscribe | locusSubAck | locusUnsubscribe | locusUnsubAck | locusDisconnect | locusAuth.

#[export] Instance propertyLocus_eq_dec : EqDecision propertyLocus.
Proof. solve_decision. Defined.

Definition locus_index (l : propertyLocus) : Z :=
  match l with
  | locusConnect => 0
  | locusWill => 1
  | locusConnAck => 2
  | locusPublish => 3
  | locusAck => 4
  | locusSubscribe => 5
  | locusSubAck => 6
  | locusUnsubscribe => 7
  | locusUnsubAck => 8
  | locusDisconnect => 9
  | locusAuth => 10
  end.

(** properties.go, locusBit and allLoci *)
Definition locusBit (l : propertyLocus) : Z := Z.shiftl 1 (locus_index l).
Definition allLoci : Z := Z.shiftl 1 (locus_index locusAuth + 1) - 1.

Definition loci (ls : list propertyLocus) : Z := foldr (fun l b => Z.lor (locusBit l) b) 0 ls.

(** properties.go, propertyLoci: Table 2-4 *)
Definition propertyLoci : list (Z * Z) := [
  (PropPayloadFormat, loci [locusPublish; locusWill]);
  (PropMessageExpiryInterval, loci [locusPublish; locusWill]);
  (PropContentType, loci [locusPublish; locusWill]);
  (PropResponseTopic, loci [locusPublish; locusWill]);
  (PropCorrelationData, loci [locusPublish; locusWill]);
  (PropSubscriptionIdentifier, loci [locusPublish; locusSubscribe]);
  (PropSessionExpiryInterval, loci [locusConnect; locusConnAck; locusDisconnect]);
  (PropAssignedClientID, loci [locusConnAck]);
  (PropServerKeepAlive, loci [locusConnAck]);
  (PropAuthMethod, loci [locusConnect; locusConnAck; locusAuth]);
  (PropAuthData, loci [locusConnect; locusConnAck; locusAuth]);
  (PropRequestProblemInfo, loci [locusConnect]);
  (PropWillDelayInterval, loci [locusWill]);
  (PropRequestResponseInfo, loci [locusConnect]);
  (PropResponseInfo, loci [locusConnAck]);
  (PropServerReference, loci [locusConnAck; locusDisconnect]);
  (PropReceiveMaximum, loci [locusConnect; locusConnAck]);
  (PropTopicAliasMax, loci [locusConnect; locusConnAck]);
  (PropTopicAlias, loci [locusPublish]);
  (PropMaximumQoS, loci [locusConnAck]);
  (PropRetainAvailable, loci [locusConnAck]);
  (PropUserProperty, allLoci);
  (PropMaximumPacketSize, loci [locusConnect; locusConnAck]);
  (PropWildcardSubAvailable, loci [locusConnAck]);
  (PropSubIDAvailable, loci [locusConnAck]);
  (PropSharedSubAvailable, loci [locusConnAck]);
  (PropReasonString, loci [locusConnAck; locusAck; locusSubAck; locusUnsubAck; locusDisconnect; locusAuth])].

(** A map lookup: [None] for an identifier that is not in the table. *)
Definition loci_lookup (id : Z) : option Z :=
  snd <$> find (fun e => fst e =? id) propertyLoci.
#[global] Arguments loci_lookup : simpl never.
#[global] Arguments locusBit : simpl never.

(** properties.go, propertyProbes: the identifiers a property set would put on
    the wire. *)
Definition propertyProbes : list (Z * (Properties -> bool)) := [
  (PropPayloadFormat, fun p => negb (bool_decide (PayloadFormat p = None)));
  (PropMessageExpiryInterval, fun p => negb (bool_decide (MessageExpiryInterval p = None)));
  (PropContentType, fun p => negb (bool_decide (ContentType p = [])));
  (PropResponseTopic, fun p => negb (bool_decide (ResponseTopic p = [])));
  (PropCorrelationData, fun p => negb (bool_decide (CorrelationData p = None)));
  (PropSubscriptionIdentifier, fun p => 0 <? len (SubscriptionIdentifier p));
  (PropSessionExpiryInterval, fun p => negb (bool_decide (SessionExpiryInterval p = None)));
  (PropAssignedClientID, fun p => negb (bool_decide (AssignedClientID p = [])));
  (PropServerKeepAlive, fun p => negb (bool_decide (ServerKeepAlive p = None)));
  (PropAuthMethod, fun p => negb (bool_decide (AuthenticationMethod p = [])));
  (PropAuthData, fun p => negb (bool_decide (AuthenticationData p = None)));
  (PropRequestProblemInfo, fun p => negb (bool_decide (RequestProblemInfo p = None)));
  (PropWillDelayInterval, fun p => negb (bool_decide (WillDelayInterval p = None)));
  (PropRequestResponseInfo, fun p => negb (bool_decide (RequestResponseInfo p = None)));
  (PropResponseInfo, fun p => negb (bool_decide (ResponseInfo p = [])));
  (PropServerReference, fun p => negb (bool_decide (ServerReference p = [])));
  (PropReceiveMaximum, fun p => negb (bool_decide (ReceiveMaximum p = None)));
  (PropTopicAliasMax, fun p => negb (bool_decide (TopicAliasMaximum p = None)));
  (PropTopicAlias, fun p => negb (bool_decide (TopicAlias p = None)));
  (PropMaximumQoS, fun p => negb (bool_decide (MaximumQoS p = None)));
  (PropRetainAvailable, fun p => negb (bool_decide (RetainAvailable p = None)));
  (PropUserProperty, fun p => 0 <? len (UserProperties p));
  (PropMaximumPacketSize, fun p => negb (bool_decide (MaximumPacketSize p = None)));
  (PropWildcardSubAvailable, fun p => negb (bool_decide (WildcardSubAvailable p = None)));
  (PropSubIDAvailable, fun p => negb (bool_decide (SubIDAvailable p = None)));
  (PropSharedSubAvailable, fun p => negb (bool_decide (SharedSubAvailable p = None)));
  (PropReasonString, fun p => negb (bool_decide (ReasonString p = [])))].

(** properties.go, validatePropertyLoci *)
Fixpoint validatePropertyLoci_loop (probes : list (Z * (Properties -> bool)))
    (props : Properties) (locus : propertyLocus) : res unit :=
  match probes with
  | [] => Ok tt
  | (id, set) :: probes' =>
      if negb (set props) then validatePropertyLoci_loop probes' props locus
      else if Z.land (default 0 (loci_lookup id)) (locusBit locus) =? 0 then Err ErrMalformedPacket
      else validatePropertyLoci_loop probes' props locus
  end.

Definition validatePropertyLoci (props : option Properties) (locus : propertyLocus) : res unit :=
  match props with
  | None => Ok tt
  | Some p => validatePropertyLoci_loop propertyProbes p locus
  end.

Definition above1 (v : option Z) : bool := match v with Some v => 1 <? v | None => false end.
Definition is0 (v : option Z) : bool := match v with Some v => v =? 0 | None => false end.

(** properties.go, validateProperties *)
Definition validateProperties (props : option Properties) (locus : propertyLocus) : res unit :=
  match props with
  | None => Ok tt
  | Some p =>
      if above1 (PayloadFormat p) then Err ErrMalformedPacket
      else if existsb (Z.eqb 0) (SubscriptionIdentifier p) then Err ErrMalformedPacket
      else if above1 (RequestProblemInfo p) then Err ErrMalformedPacket
      else if above1 (RequestResponseInfo p) then Err ErrMalformedPacket
      else if is0 (ReceiveMaximum p) then Err ErrMalformedPacket
      else if is0 (TopicAlias p) then Err ErrMalformedPacket
      else if above1 (MaximumQoS p) then Err ErrMalformedPacket
      else if above1 (RetainAvailable p) then Err ErrMalformedPacket
      else if is0 (MaximumPacketSize p) then Err ErrMalformedPacket
      else if above1 (WildcardSubAvailable p) then Err ErrMalformedPacket
      else if above1 (SubIDAvailable p) then Err ErrMalformedPacket
      else if above1 (SharedSubAvailable p) then Err ErrMalformedPacket
      else validatePropertyLoci props locus
  end.

(** properties.go, propertyMayRepeat *)
Definition propertyMayRepeat (locus : propertyLocus) (propID : Z) : bool :=
  if propID =? PropUserProperty then true
  else (propID =? PropSubscriptionIdentifier) && bool_decide (locus = locusPublish).

(** Field updates. *)
Definition set_PayloadFormat (x : option Z) (p : Properties) : Properties :=
  mkProperties x (MessageExpiryInterval p) (ContentType p) (ResponseTopic p) (CorrelationData p)
    (SubscriptionIdentifier p) (SessionExpiryInterval p) (AssignedClientID p)
    (ServerKeepAlive p) (AuthenticationMethod p) (AuthenticationData p) (RequestProblemInfo p)
    (WillDelayInterval p) (RequestResponseInfo p) (ResponseInfo p) (ServerReference p)
    (ReceiveMaximum p) (TopicAliasMaximum p) (TopicAlias p) (MaximumQoS p) (RetainAvailable p)
    (UserProperties p) (MaximumPacketSize p) (WildcardSubAvailable p) (SubIDAvailable p)
    (SharedSubAvailable p) (ReasonString p).
Definition set_MessageExpiryInterval (x : option Z) (p : Properties) : Properties :=
  mkProperties (PayloadFormat p) x (ContentType p) (ResponseTopic p) (CorrelationData p)
    (SubscriptionIdentifier p) (SessionExpiryInterval p) (AssignedClientID p)
    (ServerKeepAlive p) (AuthenticationMethod p) (AuthenticationData p) (RequestProblemInfo p)
    (WillDelayInterval p) (RequestResponseInfo p) (ResponseInfo p) (ServerReference p)
    (ReceiveMaximum p) (TopicAliasMaximum p) (TopicAlias p) (MaximumQoS p) (RetainAvailable p)
    (UserProperties p) (MaximumPacketSize p) (WildcardSubAvailable p) (SubIDAvailable p)
    (SharedSubAvailable p) (ReasonString p).
Definition set_ContentType (x : bytes) (p : Properties) : Properties :=
  mkProperties (PayloadFormat p) (MessageExpiryInterval p) x (ResponseTopic p)
    (CorrelationData p) (SubscriptionIdentifier p) (SessionExpiryInterval p)
    (AssignedClientID p) (ServerKeepAlive p) (AuthenticationMethod p) (AuthenticationData p)
    (RequestProblemInfo p) (WillDelayInterval p) (RequestResponseInfo p) (ResponseInfo p)
    (ServerReference p) (ReceiveMaximum p) (TopicAliasMaximum p) (TopicAlias p) (MaximumQoS p)
    (RetainAvailable p) (UserProperties p) (MaximumPacketSize p) (WildcardSubAvailable p)
    (SubIDAvailable p) (SharedSubAvailable p) (ReasonString p).
Definition set_ResponseTopic (x : bytes) (p : Properties) : Properties :=
  mkProperties (PayloadFormat p) (MessageExpiryInterval p) (ContentType p) x (CorrelationData p)
    (SubscriptionIdentifier p) (SessionExpiryInterval p) (AssignedClientID p)
    (ServerKeepAlive p) (AuthenticationMethod p) (AuthenticationData p) (RequestProblemInfo p)
    (WillDelayInterval p) (RequestResponseInfo p) (ResponseInfo p) (ServerReference p)
    (ReceiveMaximum p) (TopicAliasMaximum p) (TopicAlias p) (MaximumQoS p) (RetainAvailable p)
    (UserProperties p) (MaximumPacketSize p) (WildcardSubAvailable p) (SubIDAvailable p)
    (SharedSubAvailable p) (ReasonString p).
Definition set_CorrelationData (x : option bytes) (p : Properties) : Properties :=
  mkProperties (PayloadFormat p) (MessageExpiryInterval p) (ContentType p) (ResponseTopic p) x
    (SubscriptionIdentifier p) (SessionExpiryInterval p) (AssignedClientID p)
    (ServerKeepAlive p) (AuthenticationMethod p) (AuthenticationData p) (RequestProblemInfo p)
    (WillDelayInterval p) (RequestResponseInfo p) (ResponseInfo p) (ServerReference p)
    (ReceiveMaximum p) (TopicAliasMaximum p) (TopicAlias p) (MaximumQoS p) (RetainAvailable p)
    (UserProperties p) (MaximumPacketSize p) (WildcardSubAvailable p) (SubIDAvailable p)
    (SharedSubAvailable p) (ReasonString p).
Definition set_SubscriptionIdentifier (x : list Z) (p : Properties) : Properties :=
  mkProperties (PayloadFormat p) (MessageExpiryInterval p) (ContentType p) (ResponseTopic p)
    (CorrelationData p) x (SessionExpiryInterval p) (AssignedClientID p) (ServerKeepAlive p)
    (AuthenticationMethod p) (AuthenticationData p) (RequestProblemInfo p) (WillDelayInterval p)
    (RequestResponseInfo p) (ResponseInfo p) (ServerReference p) (ReceiveMaximum p)
    (TopicAliasMaximum p) (TopicAlias p) (MaximumQoS p) (RetainAvailable p) (UserProperties p)
    (MaximumPacketSize p) (WildcardSubAvailable p) (SubIDAvailable p) (SharedSubAvailable p)
    (ReasonString p).
Definition set_SessionExpiryInterval (x : option Z) (p : Properties) : Properties :=
  mkProperties (PayloadFormat p) (MessageExpiryInterval p) (ContentType p) (ResponseTopic p)
    (CorrelationData p) (SubscriptionIdentifier p) x (AssignedClientID p) (ServerKeepAlive p)
    (AuthenticationMethod p) (AuthenticationData p) (RequestProblemInfo p) (WillDelayInterval p)
    (RequestResponseInfo p) (ResponseInfo p) (ServerReference p) (ReceiveMaximum p)
    (TopicAliasMaximum p) (TopicAlias p) (MaximumQoS p) (RetainAvailable p) (UserProperties p)
    (MaximumPacketSize p) (WildcardSubAvailable p) (SubIDAvailable p) (SharedSubAvailable p)
    (ReasonString p).
Definition set_AssignedClientID (x : bytes) (p : Properties) : Properties :=
  mkProperties (PayloadFormat p) (MessageExpiryInterval p) (ContentType p) (ResponseTopic p)
    (CorrelationData p) (SubscriptionIdentifier p) (SessionExpiryInterval p) x
    (ServerKeepAlive p) (AuthenticationMethod p) (AuthenticationData p) (RequestProblemInfo p)
    (WillDelayInterval p) (RequestResponseInfo p) (ResponseInfo p) (ServerReference p)
    (ReceiveMaximum p) (TopicAliasMaximum p) (TopicAlias p) (MaximumQoS p) (RetainAvailable p)
    (UserProperties p) (MaximumPacketSize p) (WildcardSubAvailable p) (SubIDAvailable p)
    (SharedSubAvailable p) (ReasonString p).
Definition set_ServerKeepAlive (x : option Z) (p : Properties) : Properties :=
  mkProperties (PayloadFormat p) (MessageExpiryInterval p) (ContentType p) (ResponseTopic p)
    (CorrelationData p) (SubscriptionIdentifier p) (SessionExpiryInterval p)
    (AssignedClientID p) x (AuthenticationMethod p) (AuthenticationData p)
    (RequestProblemInfo p) (WillDelayInterval p) (RequestResponseInfo p) (ResponseInfo p)
    (ServerReference p) (ReceiveMaximum p) (TopicAliasMaximum p) (TopicAlias p) (MaximumQoS p)
    (RetainAvailable p) (UserProperties p) (MaximumPacketSize p) (WildcardSubAvailable p)
    (SubIDAvailable p) (SharedSubAvailable p) (ReasonString p).
Definition set_AuthenticationMethod (x : bytes) (p : Properties) : Properties :=
  mkProperties (PayloadFormat p) (MessageExpiryInterval p) (ContentType p) (ResponseTopic p)
    (CorrelationData p) (SubscriptionIdentifier p) (SessionExpiryInterval p)
    (AssignedClientID p) (ServerKeepAlive p) x (AuthenticationData p) (RequestProblemInfo p)
    (WillDelayInterval p) (RequestResponseInfo p) (ResponseInfo p) (ServerReference p)
    (ReceiveMaximum p) (TopicAliasMaximum p) (TopicAlias p) (MaximumQoS p) (RetainAvailable p)
    (UserProperties p) (MaximumPacketSize p) (WildcardSubAvailable p) (SubIDAvailable p)
    (SharedSubAvailable p) (ReasonString p).
Definition set_AuthenticationData (x : option bytes) (p : Properties) : Properties :=
  mkProperties (PayloadFormat p) (MessageExpiryInterval p) (ContentType p) (ResponseTopic p)
    (CorrelationData p) (SubscriptionIdentifier p) (SessionExpiryInterval p)
    (AssignedClientID p) (ServerKeepAlive p) (AuthenticationMethod p) x (RequestProblemInfo p)
    (WillDelayInterval p) (RequestResponseInfo p) (ResponseInfo p) (ServerReference p)
    (ReceiveMaximum p) (TopicAliasMaximum p) (TopicAlias p) (MaximumQoS p) (RetainAvailable p)
    (UserProperties p) (MaximumPacketSize p) (WildcardSubAvailable p) (SubIDAvailable p)
    (SharedSubAvailable p) (ReasonString p).
Definition set_RequestProblemInfo (x : option Z) (p : Properties) : Properties :=
  mkProperties (PayloadFormat p) (MessageExpiryInterval p) (ContentType p) (ResponseTopic p)
    (CorrelationData p) (SubscriptionIdentifier p) (SessionExpiryInterval p)
    (AssignedClientID p) (ServerKeepAlive p) (AuthenticationMethod p) (AuthenticationData p) x
    (WillDelayInterval p) (RequestResponseInfo p) (ResponseInfo p) (ServerReference p)
    (ReceiveMaximum p) (TopicAliasMaximum p) (TopicAlias p) (MaximumQoS p) (RetainAvailable p)
    (UserProperties p) (MaximumPacketSize p) (WildcardSubAvailable p) (SubIDAvailable p)
    (SharedSubAvailable p) (ReasonString p).
Definition set_WillDelayInterval (x : option Z) (p : Properties) : Properties :=
  mkProperties (PayloadFormat p) (MessageExpiryInterval p) (ContentType p) (ResponseTopic p)
    (CorrelationData p) (SubscriptionIdentifier p) (SessionExpiryInterval p)
    (AssignedClientID p) (ServerKeepAlive p) (AuthenticationMethod p) (AuthenticationData p)
    (RequestProblemInfo p) x (RequestResponseInfo p) (ResponseInfo p) (ServerReference p)
    (ReceiveMaximum p) (TopicAliasMaximum p) (TopicAlias p) (MaximumQoS p) (RetainAvailable p)
    (UserProperties p) (MaximumPacketSize p) (WildcardSubAvailable p) (SubIDAvailable p)
    (SharedSubAvailable p) (ReasonString p).
Definition set_RequestResponseInfo (x : option Z) (p : Properties) : Properties :=
  mkProperties (PayloadFormat p) (MessageExpiryInterval p) (ContentType p) (ResponseTopic p)
    (CorrelationData p) (SubscriptionIdentifier p) (SessionExpiryInterval p)
    (AssignedClientID p) (ServerKeepAlive p) (AuthenticationMethod p) (AuthenticationData p)
    (RequestProblemInfo p) (WillDelayInterval p) x (ResponseInfo p) (ServerReference p)
    (ReceiveMaximum p) (TopicAliasMaximum p) (TopicAlias p) (MaximumQoS p) (RetainAvailable p)
    (UserProperties p) (MaximumPacketSize p) (WildcardSubAvailable p) (SubIDAvailable p)
    (SharedSubAvailable p) (ReasonString p).
Definition set_ResponseInfo (x : bytes) (p : Properties) : Properties :=
  mkProperties (PayloadFormat p) (MessageExpiryInterval p) (ContentType p) (ResponseTopic p)
    (CorrelationData p) (SubscriptionIdentifier p) (SessionExpiryInterval p)
    (AssignedClientID p) (ServerKeepAlive p) (AuthenticationMethod p) (AuthenticationData p)
    (RequestProblemInfo p) (WillDelayInterval p) (RequestResponseInfo p) x (ServerReference p)
    (ReceiveMaximum p) (TopicAliasMaximum p) (TopicAlias p) (MaximumQoS p) (RetainAvailable p)
    (UserProperties p) (MaximumPacketSize p) (WildcardSubAvailable p) (SubIDAvailable p)
    (SharedSubAvailable p) (ReasonString p).
Definition set_ServerReference (x : bytes) (p : Properties) : Properties :=
  mkProperties (PayloadFormat p) (MessageExpiryInterval p) (ContentType p) (ResponseTopic p)
    (CorrelationData p) (SubscriptionIdentifier p) (SessionExpiryInterval p)
    (AssignedClientID p) (ServerKeepAlive p) (AuthenticationMethod p) (AuthenticationData p)
    (RequestProblemInfo p) (WillDelayInterval p) (RequestResponseInfo p) (ResponseInfo p) x
    (ReceiveMaximum p) (TopicAliasMaximum p) (TopicAlias p) (MaximumQoS p) (RetainAvailable p)
    (UserProperties p) (MaximumPacketSize p) (WildcardSubAvailable p) (SubIDAvailable p)
    (SharedSubAvailable p) (ReasonString p).
Definition set_ReceiveMaximum (x : option Z) (p : Properties) : Properties :=
  mkProperties (PayloadFormat p) (MessageExpiryInterval p) (ContentType p) (ResponseTopic p)
    (CorrelationData p) (SubscriptionIdentifier p) (SessionExpiryInterval p)
    (AssignedClientID p) (ServerKeepAlive p) (AuthenticationMethod p) (AuthenticationData p)
    (RequestProblemInfo p) (WillDelayInterval p) (RequestResponseInfo p) (ResponseInfo p)
    (ServerReference p) x (TopicAliasMaximum p) (TopicAlias p) (MaximumQoS p)
    (RetainAvailable p) (UserProperties p) (MaximumPacketSize p) (WildcardSubAvailable p)
    (SubIDAvailable p) (SharedSubAvailable p) (ReasonString p).
Definition set_TopicAliasMaximum (x : option Z) (p : Properties) : Properties :=
  mkProperties (PayloadFormat p) (MessageExpiryInterval p) (ContentType p) (ResponseTopic p)
    (CorrelationData p) (SubscriptionIdentifier p) (SessionExpiryInterval p)
    (AssignedClientID p) (ServerKeepAlive p) (AuthenticationMethod p) (AuthenticationData p)
    (RequestProblemInfo p) (WillDelayInterval p) (RequestResponseInfo p) (ResponseInfo p)
    (ServerReference p) (ReceiveMaximum p) x (TopicAlias p) (MaximumQoS p) (RetainAvailable p)
    (UserProperties p) (MaximumPacketSize p) (WildcardSubAvailable p) (SubIDAvailable p)
    (SharedSubAvailable p) (ReasonString p).
Definition set_TopicAlias (x : option Z) (p : Properties) : Properties :=
  mkProperties (PayloadFormat p) (MessageExpiryInterval p) (ContentType p) (ResponseTopic p)
    (CorrelationData p) (SubscriptionIdentifier p) (SessionExpiryInterval p)
    (AssignedClientID p) (ServerKeepAlive p) (AuthenticationMethod p) (AuthenticationData p)
    (RequestProblemInfo p) (WillDelayInterval p) (RequestResponseInfo p) (ResponseInfo p)
    (ServerReference p) (ReceiveMaximum p) (TopicAliasMaximum p) x (MaximumQoS p)
    (RetainAvailable p) (UserProperties p) (MaximumPacketSize p) (WildcardSubAvailable p)
    (SubIDAvailable p) (SharedSubAvailable p) (ReasonString p).
Definition set_MaximumQoS (x : option Z) (p : Properties) : Properties :=
  mkProperties (PayloadFormat p) (MessageExpiryInterval p) (ContentType p) (ResponseTopic p)
    (CorrelationData p) (SubscriptionIdentifier p) (SessionExpiryInterval p)
    (AssignedClientID p) (ServerKeepAlive p) (AuthenticationMethod p) (AuthenticationData p)
    (RequestProblemInfo p) (WillDelayInterval p) (RequestResponseInfo p) (ResponseInfo p)
    (ServerReference p) (ReceiveMaximum p) (TopicAliasMaximum p) (TopicAlias p) x
    (RetainAvailable p) (UserProperties p) (MaximumPacketSize p) (WildcardSubAvailable p)
    (SubIDAvailable p) (SharedSubAvailable p) (ReasonString p).
Definition set_RetainAvailable (x : option Z) (p : Properties) : Properties :=
  mkProperties (PayloadFormat p) (MessageExpiryInterval p) (ContentType p) (ResponseTopic p)
    (CorrelationData p) (SubscriptionIdentifier p) (SessionExpiryInterval p)
    (AssignedClientID p) (ServerKeepAlive p) (AuthenticationMethod p) (AuthenticationData p)
    (RequestProblemInfo p) (WillDelayInterval p) (RequestResponseInfo p) (ResponseInfo p)
    (ServerReference p) (ReceiveMaximum p) (TopicAliasMaximum p) (TopicAlias p) (MaximumQoS p) x
    (UserProperties p) (MaximumPacketSize p) (WildcardSubAvailable p) (SubIDAvailable p)
    (SharedSubAvailable p) (ReasonString p).
Definition set_UserProperties (x : list UserProperty) (p : Properties) : Properties :=
  mkProperties (PayloadFormat p) (MessageExpiryInterval p) (ContentType p) (ResponseTopic p)
    (CorrelationData p) (SubscriptionIdentifier p) (SessionExpiryInterval p)
    (AssignedClientID p) (ServerKeepAlive p) (AuthenticationMethod p) (AuthenticationData p)
    (RequestProblemInfo p) (WillDelayInterval p) (RequestResponseInfo p) (ResponseInfo p)
    (ServerReference p) (ReceiveMaximum p) (TopicAliasMaximum p) (TopicAlias p) (MaximumQoS p)
    (RetainAvailable p) x (MaximumPacketSize p) (WildcardSubAvailable p) (SubIDAvailable p)
    (SharedSubAvailable p) (ReasonString p).
Definition set_MaximumPacketSize (x : option Z) (p : Properties) : Properties :=
  mkProperties (PayloadFormat p) (MessageExpiryInterval p) (ContentType p) (ResponseTopic p)
    (CorrelationData p) (SubscriptionIdentifier p) (SessionExpiryInterval p)
    (AssignedClientID p) (ServerKeepAlive p) (AuthenticationMethod p) (AuthenticationData p)
    (RequestProblemInfo p) (WillDelayInterval p) (RequestResponseInfo p) (ResponseInfo p)
    (ServerReference p) (ReceiveMaximum p) (TopicAliasMaximum p) (TopicAlias p) (MaximumQoS p)
    (RetainAvailable p) (UserProperties p) x (WildcardSubAvailable p) (SubIDAvailable p)
    (SharedSubAvailable p) (ReasonString p).
Definition set_WildcardSubAvailable (x : option Z) (p : Properties) : Properties :=
  mkProperties (PayloadFormat p) (MessageExpiryInterval p) (ContentType p) (ResponseTopic p)
    (CorrelationData p) (SubscriptionIdentifier p) (SessionExpiryInterval p)
    (AssignedClientID p) (ServerKeepAlive p) (AuthenticationMethod p) (AuthenticationData p)
    (RequestProblemInfo p) (WillDelayInterval p) (RequestResponseInfo p) (ResponseInfo p)
    (ServerReference p) (ReceiveMaximum p) (TopicAliasMaximum p) (TopicAlias p) (MaximumQoS p)
    (RetainAvailable p) (UserProperties p) (MaximumPacketSize p) x (SubIDAvailable p)
    (SharedSubAvailable p) (ReasonString p).
Definition set_SubIDAvailable (x : option Z) (p : Properties) : Properties :=
  mkProperties (PayloadFormat p) (MessageExpiryInterval p) (ContentType p) (ResponseTopic p)
    (CorrelationData p) (SubscriptionIdentifier p) (SessionExpiryInterval p)
    (AssignedClientID p) (ServerKeepAlive p) (AuthenticationMethod p) (AuthenticationData p)
    (RequestProblemInfo p) (WillDelayInterval p) (RequestResponseInfo p) (ResponseInfo p)
    (ServerReference p) (ReceiveMaximum p) (TopicAliasMaximum p) (TopicAlias p) (MaximumQoS p)
    (RetainAvailable p) (UserProperties p) (MaximumPacketSize p) (WildcardSubAvailable p) x
    (SharedSubAvailable p) (ReasonString p).
Definition set_SharedSubAvailable (x : option Z) (p : Properties) : Properties :=
  mkProperties (PayloadFormat p) (MessageExpiryInterval p) (ContentType p) (ResponseTopic p)
    (CorrelationData p) (SubscriptionIdentifier p) (SessionExpiryInterval p)
    (AssignedClientID p) (ServerKeepAlive p) (AuthenticationMethod p) (AuthenticationData p)
    (RequestProblemInfo p) (WillDelayInterval p) (RequestResponseInfo p) (ResponseInfo p)
    (ServerReference p) (ReceiveMaximum p) (TopicAliasMaximum p) (TopicAlias p) (MaximumQoS p)
    (RetainAvailable p) (UserProperties p) (MaximumPacketSize p) (WildcardSubAvailable p)
    (SubIDAvailable p) x (ReasonString p).
Definition set_ReasonString (x : bytes) (p : Properties) : Properties :=
  mkProperties (PayloadFormat p) (MessageExpiryInterval p) (ContentType p) (ResponseTopic p)
    (CorrelationData p) (SubscriptionIdentifier p) (SessionExpiryInterval p)
    (AssignedClientID p) (ServerKeepAlive p) (AuthenticationMethod p) (AuthenticationData p)
    (RequestProblemInfo p) (WillDelayInterval p) (RequestResponseInfo p) (ResponseInfo p)
    (ServerReference p) (ReceiveMaximum p) (TopicAliasMaximum p) (TopicAlias p) (MaximumQoS p)
    (RetainAvailable p) (UserProperties p) (MaximumPacketSize p) (WildcardSubAvailable p)
    (SubIDAvailable p) (SharedSubAvailable p) x.

(** properties.go, decodeProperties: the switch on the identifier of one
    property, reading its value and storing it. *)
Definition readFlag : M bytes Z :=
  v ← ReadByte; if 1 <? v then throw ErrMalformedPacket else mret v.

Definition decodeProperty (propType : Z) (props : Properties) : M bytes Properties :=
  if propType =? PropPayloadFormat then
    v ← readFlag; mret (set_PayloadFormat (Some v) props)
  else if propType =? PropMessageExpiryInterval then
    v ← readUint32FromReader; mret (set_MessageExpiryInterval (Some v) props)
  else if propType =? PropContentType then
    v ← readStringFromReader; mret (set_ContentType v props)
  else if propType =? PropResponseTopic then
    v ← readStringFromReader; mret (set_ResponseTopic v props)
  else if propType =? PropCorrelationData then
    v ← readBinaryDataFromReader; mret (set_CorrelationData v props)
  else if propType =? PropSubscriptionIdentifier then
    v ← readVarIntFromReader; if v =? 0 then throw ErrMalformedPacket
    else mret (set_SubscriptionIdentifier (SubscriptionIdentifier props ++ [v]) props)
  else if propType =? PropSessionExpiryInterval then
    v ← readUint32FromReader; mret (set_SessionExpiryInterval (Some v) props)
  else if propType =? PropAssignedClientID then
    v ← readStringFromReader; mret (set_AssignedClientID v props)
  else if propType =? PropServerKeepAlive then
    v ← readUint16FromReader; mret (set_ServerKeepAlive (Some v) props)
  else if propType =? PropAuthMethod then
    v ← readStringFromReader; mret (set_AuthenticationMethod v props)
  else if propType =? PropAuthData then
    v ← readBinaryDataFromReader; mret (set_AuthenticationData v props)
  else if propType =? PropRequestProblemInfo then
    v ← readFlag; mret (set_RequestProblemInfo (Some v) props)
  else if propType =? PropWillDelayInterval then
    v ← readUint32FromReader; mret (set_WillDelayInterval (Some v) props)
  else if propType =? PropRequestResponseInfo then
    v ← readFlag; mret (set_RequestResponseInfo (Some v) props)
  else if propType =? PropResponseInfo then
    v ← readStringFromReader; mret (set_ResponseInfo v props)
  else if propType =? PropServerReference then
    v ← readStringFromReader; mret (set_ServerReference v props)
  else if propType =? PropReceiveMaximum then
    v ← readUint16FromReader;
    if v =? 0 then throw ErrMalformedPacket else mret (set_ReceiveMaximum (Some v) props)
  else if propType =? PropTopicAliasMax then
    v ← readUint16FromReader; mret (set_TopicAliasMaximum (Some v) props)
  else if propType =? PropTopicAlias then
    v ← readUint16FromReader;
    if v =? 0 then throw ErrMalformedPacket else mret (set_TopicAlias (Some v) props)
  else if propType =? PropMaximumQoS then
    v ← readFlag; mret (set_MaximumQoS (Some v) props)
  else if propType =? PropRetainAvailable then
    v ← readFlag; mret (set_RetainAvailable (Some v) props)
  else if propType =? PropUserProperty then
    if 100 <=? len (UserProperties props) then throw ErrMalformedPacket else
    k ← readStringFromReader; v ← readStringFromReader;
    mret (set_UserProperties (UserProperties props ++ [{| Key := k; Value := v |}]) props)
  else if propType =? PropMaximumPacketSize then
    v ← readUint32FromReader;
    if v =? 0 then throw ErrMalformedPacket else mret (set_MaximumPacketSize (Some v) props)
  else if propType =? PropWildcardSubAvailable then
    v ← readFlag; mret (set_WildcardSubAvailable (Some v) props)
  else if propType =? PropSubIDAvailable then
    v ← readFlag; mret (set_SubIDAvailable (Some v) props)
  else if propType =? PropSharedSubAvailable then
    v ← readFlag; mret (set_SharedSubAvailable (Some v) props)
  else if propType =? PropReasonString then
    v ← readStringFromReader; mret (set_ReasonString v props)
  else throw ErrMalformedPacket.

(** properties.go, decodeProperties: the loop over the section.  Every round
    reads at least the identifier, so the length of the section bounds the
    number of rounds; [seen] lists the identifiers consumed so far. *)
Fixpoint decodeProperties_loop (fuel : nat) (locus : propertyLocus) (seen : list Z)
    (props : Properties) : M bytes Properties :=
  n ← rlen;
  if n =? 0 then mret props else
  match fuel with
  | O => throw (ErrText "fuel")
  | S fuel' =>
      propType ← ReadByte;
      match loci_lookup propType with
      | None => throw ErrMalformedPacket
      | Some allowed =>
          if Z.land allowed (locusBit locus) =? 0 then throw ErrMalformedPacket
          else if bool_decide (propType ∈ seen) && negb (propertyMayRepeat locus propType)
          then throw ErrProtocolError
          else
            props' ← decodeProperty propType props;
            decodeProperties_loop fuel' locus (propType :: seen) props'
      end
  end.

(** Run a reader on a buffer of its own (decodeReader over a byte slice). *)
Definition runOn {A S} (m : M bytes A) (buf : bytes) : M S A := lift_res (fst (m buf)).

(** properties.go, decodeProperties.  Its callers pass a bytes.Reader over the
    packet body, so the length is bounded by what is left in it. *)
Definition decodeProperties (locus : propertyLocus) : M bytes (option Properties) :=
  propLen ← readVarInt;
  if propLen =? 0 then mret None else
  left ← rlen;
  if u32 left <? propLen then throw ErrMalformedPacket else
  buf ← readFull propLen;
  props ← runOn (decodeProperties_loop (length buf) locus [] emptyProperties) buf;
  mret (Some props).

(** ** The encoder *)

Definition putByte (id : Z) (v : option Z) : res bytes :=
  Ok (match v with Some v => [id; v] | None => [] end).
Definition putU16 (id : Z) (v : option Z) : res bytes :=
  Ok (match v with Some v => id :: writeUint16 v | None => [] end).
Definition putU32 (id : Z) (v : option Z) : res bytes :=
  Ok (match v with Some v => id :: writeUint32ToWriter v | None => [] end).
Definition putBin (id : Z) (v : option bytes) : res bytes :=
  Ok (match v with Some v => id :: writeBinaryData v | None => [] end).
Definition putStr (id : Z) (s : bytes) : res bytes :=
  if bool_decide (s = []) then Ok [] else b ← writeString s; Ok (id :: b).

(** Consecutive writes into one buffer, stopping at the first error. *)
Fixpoint putAll (l : list (res bytes)) : res bytes :=
  match l with
  | [] => Ok []
  | r :: l' => a ← r; b ← putAll l'; Ok (a ++ b)
  end.

Definition putIds (id : Z) (l : list Z) : res bytes := Ok (mjoin (map (fun v => id :: writeVarInt v) l)).
Definition putUsers (id : Z) (l : list UserProperty) : res bytes :=
  putAll (map (fun up => k ← writeString (Key up); v ← writeString (Value up); Ok (id :: k ++ v)) l).

(** properties.go, encodeProperties: the fields in the order of the source. *)
Definition encodeProperties_data (p : Properties) : res bytes :=
  putAll [
    putByte PropPayloadFormat (PayloadFormat p);
    putU32 PropMessageExpiryInterval (MessageExpiryInterval p);
    putStr PropContentType (ContentType p);
    putStr PropResponseTopic (ResponseTopic p);
    putBin PropCorrelationData (CorrelationData p);
    putIds PropSubscriptionIdentifier (SubscriptionIdentifier p);
    putU32 PropSessionExpiryInterval (SessionExpiryInterval p);
    putStr PropAssignedClientID (AssignedClientID p);
    putU16 PropServerKeepAlive (ServerKeepAlive p);
    putStr PropAuthMethod (AuthenticationMethod p);
    putBin PropAuthData (AuthenticationData p);
    putByte PropRequestProblemInfo (RequestProblemInfo p);
    putU32 PropWillDelayInterval (WillDelayInterval p);
    putByte PropRequestResponseInfo (RequestResponseInfo p);
    putStr PropResponseInfo (ResponseInfo p);
    putStr PropServerReference (ServerReference p);
    putU16 PropReceiveMaximum (ReceiveMaximum p);
    putU16 PropTopicAliasMax (TopicAliasMaximum p);
    putU16 PropTopicAlias (TopicAlias p);
    putByte PropMaximumQoS (MaximumQoS p);
    putByte PropRetainAvailable (RetainAvailable p);
    putUsers PropUserProperty (UserProperties p);
    putU32 PropMaximumPacketSize (MaximumPacketSize p);
    putByte PropWildcardSubAvailable (WildcardSubAvailable p);
    putByte PropSubIDAvailable (SubIDAvailable p);
    putByte PropSharedSubAvailable (SharedSubAvailable p);
    putStr PropReasonString (ReasonString p)].

Definition encodeProperties (p : Properties) (locus : propertyLocus) : res bytes :=
  _ ← validateProperties (Some p) locus;
  data ← encodeProperties_data p;
  if len data =? 0 then Ok (writeVarInt 0)
  else Ok (writeVarInt (u32 (len data)) ++ data).

(** properties.go, rejectPreV5Properties and writePropertySection *)
Definition rejectPreV5Properties (props : option Properties) : res bytes :=
  match props with None => Ok [] | Some _ => Err ErrUnsupportedVersion end.

Definition writePropertySection (c : Codec) (props : option Properties) (locus : propertyLocus)
    : res bytes :=
  if negb (SpecProperties (spec c)) then rejectPreV5Properties props
  else match props with
       | None => Ok (writeVarInt 0)
       | Some p => encodeProperties p locus
       end.

(** ** Items: the property instances of a set, in wire order *)

Inductive pval :=
  | VByte (v : Z) | VU16 (v : Z) | VU32 (v : Z) | VVar (v : Z)
  | VStr (s : bytes) | VBin (d : bytes) | VPair (u : UserProperty).

Definition pitem : Type := Z * pval.

Definition enc_pval (v : pval) : bytes :=
  match v with
  | VByte v => [v]
  | VU16 v => writeUint16 v
  | VU32 v => writeUint32ToWriter v
  | VVar v => writeVarInt v
  | VStr s => putUint16 (len s) ++ s
  | VBin d => writeBinaryData d
  | VPair u => (putUint16 (len (Key u)) ++ Key u) ++ putUint16 (len (Value u)) ++ Value u
  end.

Definition enc_item (it : pitem) : bytes := fst it :: enc_pval (snd it).

Definition opt_seg (k : Z -> pval) (v : option Z) : list pval :=
  match v with Some v => [k v] | None => [] end.
Definition bin_seg (v : option bytes) : list pval :=
  match v with Some d => [VBin d] | None => [] end.
Definition str_seg (s : bytes) : list pval := match s with [] => [] | _ => [VStr s] end.

(** The segments of a property set: every identifier with the values it has. *)
Definition segments (p : Properties) : list (Z * list pval) := [
  (PropPayloadFormat, opt_seg VByte (PayloadFormat p));
  (PropMessageExpiryInterval, opt_seg VU32 (MessageExpiryInterval p));
  (PropContentType, str_seg (ContentType p));
  (PropResponseTopic, str_seg (ResponseTopic p));
  (PropCorrelationData, bin_seg (CorrelationData p));
  (PropSubscriptionIdentifier, map VVar (SubscriptionIdentifier p));
  (PropSessionExpiryInterval, opt_seg VU32 (SessionExpiryInterval p));
  (PropAssignedClientID, str_seg (AssignedClientID p));
  (PropServerKeepAlive, opt_seg VU16 (ServerKeepAlive p));
  (PropAuthMethod, str_seg (AuthenticationMethod p));
  (PropAuthData, bin_seg (AuthenticationData p));
  (PropRequestProblemInfo, opt_seg VByte (RequestProblemInfo p));
  (PropWillDelayInterval, opt_seg VU32 (WillDelayInterval p));
  (PropRequestResponseInfo, opt_seg VByte (RequestResponseInfo p));
  (PropResponseInfo, str_seg (ResponseInfo p));
  (PropServerReference, str_seg (ServerReference p));
  (PropReceiveMaximum, opt_seg VU16 (ReceiveMaximum p));
  (PropTopicAliasMax, opt_seg VU16 (TopicAliasMaximum p));
  (PropTopicAlias, opt_seg VU16 (TopicAlias p));
  (PropMaximumQoS, opt_seg VByte (MaximumQoS p));
  (PropRetainAvailable, opt_seg VByte (RetainAvailable p));
  (PropUserProperty, map VPair (UserProperties p));
  (PropMaximumPacketSize, opt_seg VU32 (MaximumPacketSize p));
  (PropWildcardSubAvailable, opt_seg VByte (WildcardSubAvailable p));
  (PropSubIDAvailable, opt_seg VByte (SubIDAvailable p));
  (PropSharedSubAvailable, opt_seg VByte (SharedSubAvailable p));
  (PropReasonString, str_seg (ReasonString p))].

Definition seg_items (sg : Z * list pval) : list pitem := map (pair (fst sg)) (snd sg).
Definition items (p : Properties) : list pitem := mjoin (map seg_items (segments p)).

(** The effect of one item on the struct under construction. *)
Definition apply_item (p : Properties) (it : pitem) : Properties :=
  match it with
  | (1, VByte v) => set_PayloadFormat (Some v) p
  | (2, VU32 v) => set_MessageExpiryInterval (Some v) p
  | (3, VStr v) => set_ContentType v p
  | (8, VStr v) => set_ResponseTopic v p
  | (9, VBin v) => set_CorrelationData (Some v) p
  | (11, VVar v) => set_SubscriptionIdentifier (SubscriptionIdentifier p ++ [v]) p
  | (17, VU32 v) => set_SessionExpiryInterval (Some v) p
  | (18, VStr v) => set_AssignedClientID v p
  | (19, VU16 v) => set_ServerKeepAlive (Some v) p
  | (21, VStr v) => set_AuthenticationMethod v p
  | (22, VBin v) => set_AuthenticationData (Some v) p
  | (23, VByte v) => set_RequestProblemInfo (Some v) p
  | (24, VU32 v) => set_WillDelayInterval (Some v) p
  | (25, VByte v) => set_RequestResponseInfo (Some v) p
  | (26, VStr v) => set_ResponseInfo v p
  | (28, VStr v) => set_ServerReference v p
  | (33, VU16 v) => set_ReceiveMaximum (Some v) p
  | (34, VU16 v) => set_TopicAliasMaximum (Some v) p
  | (35, VU16 v) => set_TopicAlias (Some v) p
  | (36, VByte v) => set_MaximumQoS (Some v) p
  | (37, VByte v) => set_RetainAvailable (Some v) p
  | (38, VPair v) => set_UserProperties (UserProperties p ++ [v]) p
  | (39, VU32 v) => set_MaximumPacketSize (Some v) p
  | (40, VByte v) => set_WildcardSubAvailable (Some v) p
  | (41, VByte v) => set_SubIDAvailable (Some v) p
  | (42, VByte v) => set_SharedSubAvailable (Some v) p
  | (31, VStr v) => set_ReasonString v p
  | _ => p
  end.
