(* ===== verification/PropertiesProofs.v ===== *)
(** * Property sections: encoder and decoder against each other

    The proofs about Properties.v: what the encoder writes is the
    concatenation of the items of the set, the decoder folds the items back into
    the set, and whatever the decoder accepts passes the encoder's validation. *)

From S2P Require Import Prelude Utf8 Wire Spec Properties.
Open Scope Z_scope.

(** ** The encoder writes the items *)

Definition enc_items (its : list pitem) : bytes := mjoin (map enc_item its).

Lemma enc_items_app l k : enc_items (l ++ k) = enc_items l ++ enc_items k.
Proof. unfold enc_items. by rewrite map_app, join_app. Qed.

(** The strings of a value are ones the string encoder accepts. *)
Definition strs_ok (v : pval) : bool :=
  match v with
  | VStr s => string_ok s
  | VPair u => string_ok (Key u) && string_ok (Value u)
  | _ => true
  end.

(** A write that, when it succeeds, has written one segment. *)
Definition seg_put (r : res bytes) (sg : Z * list pval) : Prop :=
  forall b, r = Ok b -> b = enc_items (seg_items sg) /\ forallb strs_ok (snd sg) = true.

Lemma putByte_seg id v : seg_put (putByte id v) (id, opt_seg VByte v).
Proof. by destruct v; intros b [= <-]. Qed.

Lemma putU16_seg id v : seg_put (putU16 id v) (id, opt_seg VU16 v).
Proof. by destruct v; intros b [= <-]. Qed.

Lemma putU32_seg id v : seg_put (putU32 id v) (id, opt_seg VU32 v).
Proof. by destruct v; intros b [= <-]. Qed.

Lemma putBin_seg id v : seg_put (putBin id v) (id, bin_seg v).
Proof.
  destruct v; intros b [= <-]; [|done]. unfold enc_items. cbn. by rewrite app_nil_r.
Qed.

Lemma putStr_seg id s : seg_put (putStr id s) (id, str_seg s).
Proof.
  unfold putStr. intros b. case_bool_decide as Hs; [by subst; intros [= <-]|]. intros H.
  bind_inv H. injection H as <-. apply writeString_inv in E as [Hok ->].
  destruct s as [|x s]; [done|]. unfold enc_items. cbn - [string_ok].
  by rewrite app_nil_r, Hok.
Qed.

Lemma putIds_seg id l : seg_put (putIds id l) (id, map VVar l).
Proof.
  intros b [= <-]. split; [|by induction l]. unfold enc_items, seg_items. cbn.
  by rewrite !map_map.
Qed.

Lemma putAll_cons r l b :
  putAll (r :: l) = Ok b -> exists b1 b2, r = Ok b1 /\ putAll l = Ok b2 /\ b = b1 ++ b2.
Proof. cbn. intros H. bind_inv H. bind_inv H. injection H as <-. eauto. Qed.

Lemma putUsers_seg id l : seg_put (putUsers id l) (id, map VPair l).
Proof.
  unfold putUsers. induction l as [|u l IH]; intros b H; [by injection H as <-|].
  cbn [map] in H. apply putAll_cons in H as (b1 & b2 & H1 & H2 & ->).
  apply IH in H2 as [-> Hl]. bind_inv H1. bind_inv H1. injection H1 as <-.
  apply writeString_inv in E as [Ek ->], E0 as [Ev ->].
  cbn [snd fst map seg_items forallb strs_ok]. rewrite Ek, Ev. split; [|done].
  unfold enc_items. cbn [map mjoin]. done.
Qed.

Lemma putAll_segs rs sgs b :
  Forall2 seg_put rs sgs -> putAll rs = Ok b ->
  b = enc_items (mjoin (map seg_items sgs)) /\ Forall (fun sg => forallb strs_ok (snd sg) = true) sgs.
Proof.
  intros H. revert b. induction H as [|r sg rs sgs Hr Hrs IH]; intros b Hb.
  { by injection Hb as <-. }
  apply putAll_cons in Hb as (b1 & b2 & H1 & H2 & ->).
  apply Hr in H1 as [-> H1]. apply IH in H2 as [-> H2].
  change (mjoin (map seg_items (sg :: sgs))) with (seg_items sg ++ mjoin (map seg_items sgs)).
  rewrite enc_items_app. by split; [|constructor].
Qed.

Lemma encodeProperties_data_items p b :
  encodeProperties_data p = Ok b ->
  b = enc_items (items p) /\ Forall (fun sg => forallb strs_ok (snd sg) = true) (segments p).
Proof.
  apply putAll_segs. unfold segments.
  repeat apply Forall2_cons_2;
    auto using putByte_seg, putU16_seg, putU32_seg, putBin_seg, putStr_seg, putIds_seg, putUsers_seg.
Qed.

(** ** The decoder reads one item *)

Definition is_user (it : pitem) : bool := fst it =? PropUserProperty.

(** An item the switch of the decoder reads back and stores. *)
Definition item_reads (it : pitem) : Prop :=
  forall q, (is_user it = true -> len (UserProperties q) < 100) ->
    reads (decodeProperty (fst it) q) (enc_pval (snd it)) (apply_item q it).

Lemma reads_readFlag v : v <= 1 -> reads readFlag [v] v.
Proof.
  intros Hv. eapply reads_bind_end; [apply reads_ReadByte|].
  rewrite (proj2 (Z.ltb_ge 1 v)) by done. apply reads_ret.
Qed.

(** Reading a value of each kind and continuing with the store. *)
Ltac read_with lem := eapply reads_bind_end; [by apply lem|].

Definition byte_id (id : Z) : bool :=
  existsb (Z.eqb id) [PropPayloadFormat; PropRequestProblemInfo; PropRequestResponseInfo;
    PropMaximumQoS; PropRetainAvailable; PropWildcardSubAvailable; PropSubIDAvailable;
    PropSharedSubAvailable].

(** Case analysis on a membership in a concrete list of identifiers. *)
Ltac ids H :=
  cbn in H; repeat (apply orb_true_iff in H as [H|H]; [apply Z.eqb_eq in H; subst|]); [..|done].

Lemma item_byte id v : byte_id id = true -> v <= 1 -> item_reads (id, VByte v).
Proof.
  unfold byte_id. intros H Hv. ids H; intros q _; read_with (reads_readFlag v Hv); apply reads_ret.
Qed.

Definition u16_id (id : Z) : bool :=
  existsb (Z.eqb id) [PropServerKeepAlive; PropTopicAliasMax; PropReceiveMaximum; PropTopicAlias].

Lemma item_u16 id v :
  u16_id id = true -> 0 <= v < 65536 ->
  (id = PropReceiveMaximum \/ id = PropTopicAlias -> v <> 0) -> item_reads (id, VU16 v).
Proof.
  unfold u16_id. intros H Hv Hnz. ids H; intros q _; read_with (reads_readUint16FromReader v Hv);
    try apply reads_ret; rewrite (proj2 (Z.eqb_neq v 0)) by (apply Hnz; auto); apply reads_ret.
Qed.

Definition u32_id (id : Z) : bool :=
  existsb (Z.eqb id) [PropMessageExpiryInterval; PropSessionExpiryInterval;
    PropWillDelayInterval; PropMaximumPacketSize].

Lemma item_u32 id v :
  u32_id id = true -> 0 <= v < 4294967296 -> (id = PropMaximumPacketSize -> v <> 0) ->
  item_reads (id, VU32 v).
Proof.
  unfold u32_id. intros H Hv Hnz. ids H; intros q _; read_with (reads_readUint32FromReader v Hv);
    try apply reads_ret; rewrite (proj2 (Z.eqb_neq v 0)) by (apply Hnz; auto); apply reads_ret.
Qed.

Definition str_id (id : Z) : bool :=
  existsb (Z.eqb id) [PropContentType; PropResponseTopic; PropAssignedClientID; PropAuthMethod;
    PropResponseInfo; PropServerReference; PropReasonString].

Lemma item_str id s : str_id id = true -> string_ok s = true -> item_reads (id, VStr s).
Proof.
  unfold str_id. intros H Hs. ids H; intros q _; read_with (reads_readStringFromReader s Hs);
    apply reads_ret.
Qed.

Definition bin_id (id : Z) : bool := existsb (Z.eqb id) [PropCorrelationData; PropAuthData].

Lemma item_bin id d :
  bin_id id = true -> d <> [] -> len d <= 65535 -> item_reads (id, VBin d).
Proof.
  unfold bin_id. intros H Hd Hl.
  ids H; intros q _; read_with (reads_readBinaryDataFromReader d Hd Hl); apply reads_ret.
Qed.

Lemma item_var v : 0 < v < 268435456 -> item_reads (PropSubscriptionIdentifier, VVar v).
Proof.
  intros Hv q _. eapply reads_bind_end; [apply reads_readVarIntFromReader; lia|].
  rewrite (proj2 (Z.eqb_neq v 0)) by lia. apply reads_ret.
Qed.

Lemma item_user u :
  string_ok (Key u) = true -> string_ok (Value u) = true -> item_reads (PropUserProperty, VPair u).
Proof.
  intros Hk Hv q Hq. cbn [fst snd enc_pval]. unfold decodeProperty. cbn.
  rewrite (proj2 (Z.leb_gt 100 _)) by (by apply Hq).
  eapply reads_bind; [by apply reads_readStringFromReader|].
  eapply reads_bind_end; [by apply reads_readStringFromReader|].
  destruct u. apply reads_ret.
Qed.

(** Only a user property touches the list of user properties. *)
Lemma apply_item_users q it :
  len (UserProperties (apply_item q it)) <= len (UserProperties q) + (if is_user it then 1 else 0).
Proof.
  pose proof (len_nonneg (UserProperties q)).
  destruct it as [id v]. unfold apply_item, is_user. cbn [fst].
  repeat match goal with |- context [match ?x with _ => _ end] => is_var x; destruct x end;
    cbn; rewrite ?len_app, ?len_cons, ?len_nil; repeat case_goal; lia.
Qed.

(** ** The decoder folds the items *)

Fixpoint dup_ok (locus : propertyLocus) (seen : list Z) (its : list pitem) : bool :=
  match its with
  | [] => true
  | it :: its' =>
      (propertyMayRepeat locus (fst it) || negb (bool_decide (fst it ∈ seen)))
      && dup_ok locus (fst it :: seen) its'
  end.

Definition locus_ok (locus : propertyLocus) (id : Z) : bool :=
  match loci_lookup id with
  | Some allowed => negb (Z.land allowed (locusBit locus) =? 0)
  | None => false
  end.

(** The number of user properties among the items. *)
Definition users (its : list pitem) : Z :=
  foldr (fun it n => (if is_user it then 1 else 0) + n) 0 its.

Lemma users_nonneg its : 0 <= users its.
Proof. unfold users. induction its as [|it its IH]; cbn; [done|]. destruct (is_user it); lia. Qed.

Lemma users_app l k : users (l ++ k) = users l + users k.
Proof. unfold users. induction l as [|it l IH]; cbn; [done|]. rewrite IH. lia. Qed.

Lemma decode_items_loop locus its q seen fuel :
  Forall item_reads its -> Forall (fun it => locus_ok locus (fst it) = true) its ->
  dup_ok locus seen its = true -> len (UserProperties q) + users its <= 100 ->
  (length its <= fuel)%nat ->
  decodeProperties_loop fuel locus seen q (enc_items its) = (Ok (foldl apply_item q its), []).
Proof.
  intros Hr. revert q seen fuel. induction Hr as [|it its Hit Hits IH]; intros q seen fuel Hl Hd Hu Hf.
  { by destruct fuel. }
  destruct fuel as [|fuel]; [cbn in Hf; lia|]. inversion_clear Hl as [|? ? Hlo Hl'].
  cbn [dup_ok] in Hd. apply andb_true_iff in Hd as [Hdup Hd].
  change (enc_items (it :: its)) with (fst it :: enc_pval (snd it) ++ enc_items its).
  cbn [decodeProperties_loop]. unfold mbind at 1, M_bind at 1, rlen at 1.
  rewrite len_cons, (proj2 (Z.eqb_neq _ 0)) by (pose proof (len_nonneg (enc_pval (snd it) ++ enc_items its)); lia).
  unfold mbind at 1, M_bind at 1, ReadByte at 1.
  unfold locus_ok in Hlo. destruct (loci_lookup (fst it)) as [allowed|]; [|done].
  apply negb_true_iff in Hlo. rewrite Hlo.
  replace (bool_decide _ && _) with false; cycle 1.
  { symmetry. apply andb_false_iff. apply orb_true_iff in Hdup as [->|H]; [by right|].
    left. by apply negb_true_iff. }
  cbn [users foldr] in Hu. fold (users its) in Hu. pose proof (users_nonneg its).
  pose proof (len_nonneg (UserProperties q)).
  pose proof (apply_item_users q it).
  rewrite (M_bind_ok _ _ _ _ _ (Hit q ltac:(intros Hus; rewrite Hus in *; lia) _)).
  apply IH; [done | done | destruct (is_user it); lia | cbn in Hf; lia].
Qed.

(** Identifiers of different segments differ, so a repeat can only come from
    one segment. *)
Lemma dup_ok_weaken locus seen seen' its :
  (forall x, x ∈ seen' -> x ∈ seen) -> dup_ok locus seen its = true -> dup_ok locus seen' its = true.
Proof.
  revert seen seen'. induction its as [|it its IH]; intros seen seen' Hs H; [done|].
  cbn in *. apply andb_true_iff in H as [H1 H2]. apply andb_true_iff. split.
  - apply orb_true_iff in H1 as [->|H1]; [done|]. apply orb_true_iff. right.
    bools. apply negb_true_iff, bool_decide_eq_false. auto.
  - eapply IH; [|done]. intros x. rewrite !elem_of_cons. naive_solver.
Qed.

Definition seg_once (locus : propertyLocus) (sg : Z * list pval) : Prop :=
  (length (snd sg) <= 1)%nat \/ propertyMayRepeat locus (fst sg) = true.

Lemma dup_ok_seg locus seen sg its :
  seg_once locus sg -> fst sg ∉ seen -> dup_ok locus (fst sg :: seen) its = true ->
  dup_ok locus seen (seg_items sg ++ its) = true.
Proof.
  destruct sg as [id vs]. unfold seg_once, seg_items. cbn. intros Ho Hs Hd.
  assert (forall seen0, (forall x, x ∈ seen0 -> x ∈ id :: seen) -> propertyMayRepeat locus id = true ->
    dup_ok locus seen0 (map (pair id) vs ++ its) = true) as Hrep.
  { clear Ho. induction vs as [|v vs IH]; cbn; intros seen0 Hsub Hm.
    - by eapply dup_ok_weaken.
    - rewrite Hm. cbn. apply IH; [|done]. intros x. rewrite elem_of_cons. set_solver. }
  destruct Ho as [Ho|Ho]; [|apply Hrep; [set_solver | done]].
  destruct vs as [|v [|]]; cbn in *; [|..|lia].
  - eapply dup_ok_weaken; [|done]. set_solver.
  - by rewrite bool_decide_false, orb_true_r.
Qed.

Lemma dup_ok_segs locus sgs seen :
  Forall (seg_once locus) sgs -> NoDup (map fst sgs) -> (forall x, x ∈ map fst sgs -> x ∉ seen) ->
  dup_ok locus seen (mjoin (map seg_items sgs)) = true.
Proof.
  intros H. revert seen. induction H as [|sg sgs Hsg Hsgs IH]; intros seen Hnd Hs; [done|].
  cbn [map] in *. apply NoDup_cons in Hnd as [Hni Hnd].
  change (mjoin (?a :: ?b)) with (a ++ mjoin b). apply dup_ok_seg; [done | set_solver |].
  apply IH; [done|]. intros x Hx. rewrite elem_of_cons. intros [->|Hx']; [done|].
  by eapply (Hs x); [set_solver|].
Qed.

(** ** Decoding the items of a set gives the set *)

#[local] Arguments apply_item : simpl never.

Lemma foldl_opt (k : Z -> pval) id v set q :
  (forall x q, apply_item q (id, k x) = set (Some x) q) -> (v = None -> set None q = q) ->
  foldl apply_item q (seg_items (id, opt_seg k v)) = set v q.
Proof. intros H Hn. destruct v; cbn; [by rewrite H | by rewrite Hn]. Qed.

Lemma foldl_list {A} (k : A -> pval) id l (get : Properties -> list A) set q :
  (forall x q, apply_item q (id, k x) = set (get q ++ [x]) q) ->
  (forall l q, get (set l q) = l) -> (forall l l' q, set l (set l' q) = set l q) ->
  (set (get q) q = q) ->
  foldl apply_item q (seg_items (id, map k l)) = set (get q ++ l) q.
Proof.
  intros Ha Hg Hs. unfold seg_items. cbn [fst snd]. revert q.
  induction l as [|x l IH]; intros q Hq; cbn; [by rewrite app_nil_r|].
  rewrite Ha, IH by (by rewrite Hg, Hs). by rewrite Hg, Hs, <- app_assoc.
Qed.

Lemma foldl_str id s set q :
  (forall x q, apply_item q (id, VStr x) = set x q) -> set [] q = q ->
  foldl apply_item q (seg_items (id, str_seg s)) = set s q.
Proof. intros H Hn. destruct s; cbn; [by rewrite Hn | by rewrite H]. Qed.

Lemma foldl_bin id v set q :
  (forall x q, apply_item q (id, VBin x) = set (Some x) q) -> set None q = q ->
  foldl apply_item q (seg_items (id, bin_seg v)) = set v q.
Proof. intros H Hn. destruct v; cbn; [by rewrite H | by rewrite Hn]. Qed.

(** Fold one segment after the other. *)
Lemma foldl_segs sg sgs q :
  foldl apply_item q (mjoin (map seg_items (sg :: sgs)))
  = foldl apply_item (foldl apply_item q (seg_items sg)) (mjoin (map seg_items sgs)).
Proof. cbn [map]. change (mjoin (?a :: ?b)) with (a ++ mjoin b). apply foldl_app. Qed.

(** Normalise a struct given by its constructor after an update. *)
Ltac norm_props := cbv beta iota delta [
    PayloadFormat MessageExpiryInterval ContentType ResponseTopic CorrelationData
    SubscriptionIdentifier SessionExpiryInterval AssignedClientID ServerKeepAlive
    AuthenticationMethod AuthenticationData RequestProblemInfo WillDelayInterval
    RequestResponseInfo ResponseInfo ServerReference ReceiveMaximum TopicAliasMaximum
    TopicAlias MaximumQoS RetainAvailable UserProperties MaximumPacketSize
    WildcardSubAvailable SubIDAvailable SharedSubAvailable ReasonString set_PayloadFormat
    set_MessageExpiryInterval set_ContentType set_ResponseTopic set_CorrelationData
    set_SubscriptionIdentifier set_SessionExpiryInterval set_AssignedClientID
    set_ServerKeepAlive set_AuthenticationMethod set_AuthenticationData set_RequestProblemInfo
    set_WillDelayInterval set_RequestResponseInfo set_ResponseInfo set_ServerReference
    set_ReceiveMaximum set_TopicAliasMaximum set_TopicAlias set_MaximumQoS set_RetainAvailable
    set_UserProperties set_MaximumPacketSize set_WildcardSubAvailable set_SubIDAvailable
    set_SharedSubAvailable set_ReasonString].

Ltac seg lem := rewrite foldl_segs, lem by done; norm_props.

Lemma items_apply p : foldl apply_item emptyProperties (items p) = p.
Proof.
  destruct p as [x1 x2 x3 x4 x5 x6 x7 x8 x9 x10 x11 x12 x13 x14 x15 x16 x17 x18 x19 x20 x21
    x22 x23 x24 x25 x26 x27].
  unfold items, segments, emptyProperties. norm_props.
  seg (foldl_opt VByte PropPayloadFormat x1 set_PayloadFormat).
  seg (foldl_opt VU32 PropMessageExpiryInterval x2 set_MessageExpiryInterval).
  seg (foldl_str PropContentType x3 set_ContentType).
  seg (foldl_str PropResponseTopic x4 set_ResponseTopic).
  seg (foldl_bin PropCorrelationData x5 set_CorrelationData).
  seg (foldl_list VVar PropSubscriptionIdentifier x6 SubscriptionIdentifier set_SubscriptionIdentifier).
  seg (foldl_opt VU32 PropSessionExpiryInterval x7 set_SessionExpiryInterval).
  seg (foldl_str PropAssignedClientID x8 set_AssignedClientID).
  seg (foldl_opt VU16 PropServerKeepAlive x9 set_ServerKeepAlive).
  seg (foldl_str PropAuthMethod x10 set_AuthenticationMethod).
  seg (foldl_bin PropAuthData x11 set_AuthenticationData).
  seg (foldl_opt VByte PropRequestProblemInfo x12 set_RequestProblemInfo).
  seg (foldl_opt VU32 PropWillDelayInterval x13 set_WillDelayInterval).
  seg (foldl_opt VByte PropRequestResponseInfo x14 set_RequestResponseInfo).
  seg (foldl_str PropResponseInfo x15 set_ResponseInfo).
  seg (foldl_str PropServerReference x16 set_ServerReference).
  seg (foldl_opt VU16 PropReceiveMaximum x17 set_ReceiveMaximum).
  seg (foldl_opt VU16 PropTopicAliasMax x18 set_TopicAliasMaximum).
  seg (foldl_opt VU16 PropTopicAlias x19 set_TopicAlias).
  seg (foldl_opt VByte PropMaximumQoS x20 set_MaximumQoS).
  seg (foldl_opt VByte PropRetainAvailable x21 set_RetainAvailable).
  seg (foldl_list VPair PropUserProperty x22 UserProperties set_UserProperties).
  seg (foldl_opt VU32 PropMaximumPacketSize x23 set_MaximumPacketSize).
  seg (foldl_opt VByte PropWildcardSubAvailable x24 set_WildcardSubAvailable).
  seg (foldl_opt VByte PropSubIDAvailable x25 set_SubIDAvailable).
  seg (foldl_opt VByte PropSharedSubAvailable x26 set_SharedSubAvailable).
  seg (foldl_str PropReasonString x27 set_ReasonString).
  done.
Qed.

(** ** From the encoder's validation to the decoder's conditions *)

(** The ranges of the Go types of the fields. *)
Definition within (n : Z) (v : option Z) : bool :=
  match v with Some v => (0 <=? v) && (v <? n) | None => true end.

Definition props_typed (p : Properties) : bool :=
  forallb (within 256) [PayloadFormat p; RequestProblemInfo p; RequestResponseInfo p; MaximumQoS p;
    RetainAvailable p; WildcardSubAvailable p; SubIDAvailable p; SharedSubAvailable p] &&
  forallb (within 65536) [ServerKeepAlive p; ReceiveMaximum p; TopicAliasMaximum p; TopicAlias p] &&
  forallb (within 4294967296) [MessageExpiryInterval p; SessionExpiryInterval p;
    WillDelayInterval p; MaximumPacketSize p] &&
  forallb (fun v => within 4294967296 (Some v)) (SubscriptionIdentifier p).

(** What the encoder does not check and the decoder (or the wire format) does:
    binary data that is present and fits its two length bytes, identifiers that
    fit four varint bytes, one identifier unless in a PUBLISH, 100 user
    properties. *)
Definition bin_ok (v : option bytes) : bool :=
  match v with Some d => negb (bool_decide (d = [])) && (len d <=? 65535) | None => true end.

Definition props_limits (locus : propertyLocus) (p : Properties) : bool :=
  bin_ok (CorrelationData p) && bin_ok (AuthenticationData p) &&
  forallb (fun v => v <? 268435456) (SubscriptionIdentifier p) &&
  ((len (SubscriptionIdentifier p) <=? 1) || bool_decide (locus = locusPublish)) &&
  (len (UserProperties p) <=? 100).

Lemma loci_loop_inv probes p locus :
  validatePropertyLoci_loop probes p locus = Ok tt ->
  Forall (fun e => snd e p = true ->
    (Z.land (default 0 (loci_lookup (fst e))) (locusBit locus) =? 0) = false) probes.
Proof.
  induction probes as [|[id set] probes IH]; cbn [validatePropertyLoci_loop]; intros H; [constructor|].
  destruct (set p) eqn:Es; cbn [negb] in H.
  - destruct (_ =? 0) eqn:El in H; [done|]. constructor; auto.
  - constructor; [|auto]. cbn. by rewrite Es.
Qed.

(** Every identifier of the table is in it. *)
Lemma probe_segment p :
  Forall2 (fun e sg => fst e = fst sg /\ (snd sg <> [] -> snd e p = true) /\
                       is_Some (loci_lookup (fst e))) propertyProbes (segments p).
Proof.
  unfold propertyProbes, segments.
  repeat (apply Forall2_cons_2; [split; [done|split; [|by eexists]]; cbn [fst snd]|]); [..|constructor];
    intros Hne; try (apply Z.ltb_lt, len_pos_nonempty; by intros Hz; apply Hne; rewrite Hz);
    apply negb_true_iff, bool_decide_eq_false; intros Hz; apply Hne; by rewrite Hz.
Qed.

Lemma locus_segs p locus es sgs :
  Forall2 (fun e sg => fst e = fst sg /\ (snd sg <> [] -> snd e p = true) /\
                       is_Some (loci_lookup (fst e))) es sgs ->
  validatePropertyLoci_loop es p locus = Ok tt ->
  Forall (fun it => locus_ok locus (fst it) = true) (mjoin (map seg_items sgs)).
Proof.
  intros H2 H%loci_loop_inv. revert H.
  induction H2 as [|e sg es sgs (Heq & Hset & [a Ha]) _ IH]; intros H; [constructor|].
  inversion_clear H as [|? ? He Hes]. cbn [map].
  change (mjoin (?a :: ?b)) with (a ++ mjoin b). apply Forall_app_2; [|auto].
  unfold seg_items. apply Forall_forall. intros it Hit. apply list_elem_of_fmap in Hit as (v & -> & Hv).
  cbn [fst]. unfold locus_ok. rewrite <- Heq, Ha. apply negb_true_iff.
  rewrite Ha in He. apply He, Hset. intros Hz. rewrite Hz in Hv. by apply not_elem_of_nil in Hv.
Qed.

Lemma validate_locus p locus :
  validatePropertyLoci (Some p) locus = Ok tt ->
  Forall (fun it => locus_ok locus (fst it) = true) (items p).
Proof. apply locus_segs, probe_segment. Qed.

(** The value rules of validateProperties, as one conjunction. *)
Definition values_ok (p : Properties) : bool :=
  negb (above1 (PayloadFormat p)) && negb (existsb (Z.eqb 0) (SubscriptionIdentifier p)) &&
  negb (above1 (RequestProblemInfo p)) && negb (above1 (RequestResponseInfo p)) &&
  negb (is0 (ReceiveMaximum p)) && negb (is0 (TopicAlias p)) && negb (above1 (MaximumQoS p)) &&
  negb (above1 (RetainAvailable p)) && negb (is0 (MaximumPacketSize p)) &&
  negb (above1 (WildcardSubAvailable p)) && negb (above1 (SubIDAvailable p)) &&
  negb (above1 (SharedSubAvailable p)).

Lemma validateProperties_split p locus :
  validateProperties (Some p) locus = Ok tt <->
  values_ok p = true /\ validatePropertyLoci (Some p) locus = Ok tt.
Proof.
  unfold validateProperties, values_ok.
  rewrite !guard_ok, !andb_true_iff. tauto.
Qed.

Lemma seg_byte id v :
  byte_id id = true -> above1 v = false -> Forall item_reads (seg_items (id, opt_seg VByte v)).
Proof.
  intros. destruct v as [v|]; constructor; [|constructor]. cbn in *. bools. by apply item_byte.
Qed.

Lemma seg_u16 id v :
  u16_id id = true -> within 65536 v = true ->
  (id = PropReceiveMaximum \/ id = PropTopicAlias -> is0 v = false) ->
  Forall item_reads (seg_items (id, opt_seg VU16 v)).
Proof.
  intros ? ? Hz. destruct v as [v|]; constructor; [|constructor]. cbn in *. bools.
  apply item_u16; [done | lia |]. intros Hid%Hz. by bools.
Qed.

Lemma seg_u32 id v :
  u32_id id = true -> within 4294967296 v = true -> (id = PropMaximumPacketSize -> is0 v = false) ->
  Forall item_reads (seg_items (id, opt_seg VU32 v)).
Proof.
  intros ? ? Hz. destruct v as [v|]; constructor; [|constructor]. cbn in *. bools.
  apply item_u32; [done | lia |]. intros Hid%Hz. by bools.
Qed.

Lemma seg_str id s :
  str_id id = true -> forallb strs_ok (str_seg s) = true ->
  Forall item_reads (seg_items (id, str_seg s)).
Proof.
  intros. destruct s as [|b s]; constructor; [|constructor]. cbn [forallb str_seg strs_ok] in *.
  bools. by apply item_str.
Qed.

Lemma seg_bin id v :
  bin_id id = true -> bin_ok v = true -> Forall item_reads (seg_items (id, bin_seg v)).
Proof.
  intros. destruct v as [d|]; constructor; [|constructor]. cbn [bin_ok] in *. bools.
  by apply item_bin.
Qed.

Lemma seg_ids l :
  existsb (Z.eqb 0) l = false -> forallb (fun v => within 4294967296 (Some v)) l = true ->
  forallb (fun v => v <? 268435456) l = true ->
  Forall item_reads (seg_items (PropSubscriptionIdentifier, map VVar l)).
Proof.
  induction l as [|v l IH]; intros Hz Ht Hl; [constructor|]. cbn [existsb forallb within] in *. bools.
  constructor; [apply item_var; lia | by apply IH].
Qed.

Lemma seg_users l :
  forallb strs_ok (map VPair l) = true ->
  Forall item_reads (seg_items (PropUserProperty, map VPair l)).
Proof.
  induction l as [|u l IH]; intros H; [constructor|]. cbn [forallb map strs_ok] in *. bools.
  constructor; [by apply item_user | by apply IH].
Qed.

Lemma items_read locus p :
  props_typed p = true -> props_limits locus p = true -> values_ok p = true ->
  Forall (fun sg => forallb strs_ok (snd sg) = true) (segments p) -> Forall item_reads (items p).
Proof.
  intros Ht Hl Hv Hs. unfold props_typed, props_limits, values_ok in *.
  cbn [forallb] in Ht. bools. unfold segments in Hs. rewrite !Forall_cons in Hs. cbn [snd] in Hs.
  destruct_and!. unfold items, segments. cbn [map].
  repeat (change (mjoin (?a :: ?b)) with (a ++ mjoin b); apply Forall_app_2; [|]); [..|constructor];
    (apply seg_byte || apply seg_u16 || apply seg_u32 || apply seg_str || apply seg_bin
     || apply seg_ids || apply seg_users); try done; intros [?|?] || intros ?; done.
Qed.

Lemma users_segs sgs :
  users (mjoin (map seg_items sgs))
  = foldr (fun sg n => (if fst sg =? PropUserProperty then len (snd sg) else 0) + n) 0 sgs.
Proof.
  induction sgs as [|[id vs] sgs IH]; [done|]. cbn [map foldr fst snd].
  change (mjoin (?a :: ?b)) with (a ++ mjoin b). rewrite users_app, IH. f_equal.
  unfold seg_items, users, is_user. cbn [fst snd]. clear IH.
  induction vs as [|v vs IH]; cbn [map foldr fst]; [by case_goal|].
  rewrite IH, len_cons. destruct (id =? PropUserProperty); lia.
Qed.

Lemma users_items p : users (items p) = len (UserProperties p).
Proof.
  unfold items. rewrite users_segs. cbn - [len Z.add]. unfold len. rewrite length_map. lia.
Qed.

Lemma seg_once_props p locus :
  props_limits locus p = true -> Forall (seg_once locus) (segments p).
Proof.
  unfold props_limits. intros H. bools. unfold segments, seg_once.
  repeat (apply Forall_cons_2; [cbn [fst snd]|]); [..|constructor];
    try (left; match goal with |- context [opt_seg _ ?v] => by destruct v; cbn; lia
                          | |- context [bin_seg ?v] => by destruct v; cbn; lia
                          | |- context [str_seg ?v] => by destruct v; cbn; lia end).
  - match goal with H : _ || _ = true |- _ => apply orb_true_iff in H as [H|H]; bools end.
    + left. rewrite length_map. unfold len in *. lia.
    + right. subst. done.
  - by right.
Qed.

Lemma items_nil p : items p = [] <-> p = emptyProperties.
Proof. split; [intros H; by rewrite <- (items_apply p), H | by intros ->]. Qed.

Lemma enc_items_length its : (length its <= length (enc_items its))%nat.
Proof.
  induction its as [|it its IH]; [done|].
  change (enc_items (it :: its)) with (fst it :: enc_pval (snd it) ++ enc_items its).
  cbn. rewrite length_app. lia.
Qed.

(** The section that decoding returns: a set without any property is nil. *)
Definition norm_section (p : option Properties) : option Properties :=
  match p with
  | Some p => if bool_decide (p = emptyProperties) then None else Some p
  | None => None
  end.

(** Decoding the written items of a set, whatever set they come from. *)
Lemma decode_section p locus :
  Forall item_reads (items p) -> Forall (fun it => locus_ok locus (fst it) = true) (items p) ->
  Forall (seg_once locus) (segments p) -> len (UserProperties p) <= 100 ->
  let data := enc_items (items p) in
  let bs := if len data =? 0 then writeVarInt 0 else writeVarInt (u32 (len data)) ++ data in
  len bs < 268435456 -> readsB (decodeProperties locus) bs (norm_section (Some p)).
Proof.
  intros Hr Hlo Ho Hu data. cbn zeta. cbn [norm_section].
  pose proof (enc_items_length (items p)) as Hlen. fold data in Hlen.
  destruct (len data =? 0) eqn:E0; bools; intros Hb.
  - apply len_0_inv in E0. rewrite E0 in Hlen. cbn [length] in Hlen.
    rewrite bool_decide_true by (apply items_nil, nil_length_inv; lia).
    apply readsB_bind_end with (a := 0); [by apply reads_readsB, reads_readVarInt | done].
  - pose proof (len_nonneg data) as Hnn.
    rewrite len_app in Hb. pose proof (len_nonneg (writeVarInt (u32 (len data)))).
    assert (len data < 268435456) as Hdata by lia. clear H Hb.
    rewrite u32_small by lia.
    rewrite bool_decide_false by (intros He%items_nil; subst data; by rewrite He in E0).
    eapply readsB_bind; [apply reads_readsB, reads_readVarInt; lia|].
    rewrite (proj2 (Z.eqb_neq _ 0)) by done. intros rest Hrest.
    unfold mbind at 1, M_bind at 1, rlen at 1. rewrite len_app in *. pose proof (len_nonneg rest).
    rewrite u32_small by lia.
    rewrite (proj2 (Z.ltb_ge _ _)) by lia.
    rewrite (M_bind_ok _ _ _ _ _ (reads_readFull _ _ eq_refl rest)).
    unfold mbind, M_bind, runOn, lift_res.
    subst data. rewrite decode_items_loop; [cbn [fst]; by rewrite items_apply | try done..].
    + apply dup_ok_segs; [done | by apply (bool_decide_unpack _) | intros x _; apply not_elem_of_nil].
    + by rewrite users_items.
Qed.

Lemma decode_encode_section p locus bs :
  encodeProperties p locus = Ok bs -> props_typed p = true -> props_limits locus p = true ->
  len bs < 268435456 -> readsB (decodeProperties locus) bs (norm_section (Some p)).
Proof.
  intros H Ht Hl Hb. unfold encodeProperties in H. bind_inv H. destruct a.
  apply validateProperties_split in E as [Hv Hlo%validate_locus]. bind_inv H.
  apply encodeProperties_data_items in E as [-> Hs].
  pose proof (items_read locus p Ht Hl Hv Hs) as Hr.
  pose proof (decode_section p locus Hr Hlo (seg_once_props p locus Hl)) as Hd.
  unfold props_limits in Hl. bools. cbn zeta in Hd.
  destruct (len (enc_items (items p)) =? 0); apply Ok_inj in H as <-; auto.
Qed.

(** ** Properties *)

(** C34: a property section the encoder writes is read back: if encodeProperties
    accepts a set (whose field values are in the range of their Go types) and the
    set respects the limits the encoder leaves unchecked, decodeProperties returns
    that set (nil for a set without any property) and leaves the rest unread. *)
Theorem properties_roundtrip p locus bs rest :
  encodeProperties p locus = Ok bs -> props_typed p = true -> props_limits locus p = true ->
  len bs < 268435456 -> len (bs ++ rest) < 4294967296 ->
  decodeProperties locus (bs ++ rest) = (Ok (norm_section (Some p)), rest).
Proof. intros H Ht Hl Hb. by apply (decode_encode_section p locus bs H Ht Hl Hb). Qed.

Definition sample_properties : Properties :=
  set_UserProperties [{| Key := str "k"; Value := str "v" |}; {| Key := str "k"; Value := [] |}]
  (set_SubscriptionIdentifier [1; 300; 268435455] (set_TopicAlias (Some 7)
  (set_CorrelationData (Some [0; 255]) (set_MessageExpiryInterval (Some 86400) emptyProperties)))).

Lemma properties_roundtrip_witness :
  match encodeProperties sample_properties locusPublish with
  | Ok bs => decodeProperties locusPublish (bs ++ [9; 9]) = (Ok (Some sample_properties), [9; 9])
  | Err _ => False
  end.
Proof.
  destruct (encodeProperties sample_properties locusPublish) as [bs|e] eqn:E; [|by vm_compute in E].
  assert (len bs = 37) as Hl by (vm_compute in E; injection E as <-; vm_compute; reflexivity).
  apply (properties_roundtrip sample_properties locusPublish bs [9; 9]);
    [exact E | vm_compute; reflexivity | vm_compute; reflexivity | rewrite Hl; lia
     | rewrite len_app, Hl; vm_compute; reflexivity].
Defined.
