(* ===== verification/PropertiesAccept.v ===== *)
(** * What the property decoder accepts

    A property set that decodeProperties returns passes validateProperties, has
    strings the encoder accepts and respects the limits of the wire format: the
    encoder takes it back, and decoding the result gives the same set. *)

From S2P Require Import Prelude Utf8 Wire Spec Properties PropertiesProofs.
Open Scope Z_scope.

(** ** Valid items and segments *)

(** A value that the encoder accepts for the identifier and the decoder reads. *)
Definition pval_ok (id : Z) (v : pval) : bool :=
  match v with
  | VByte v => byte_id id && (0 <=? v) && (v <=? 1)
  | VU16 v => u16_id id && (0 <=? v) && (v <? 65536) &&
              (negb ((id =? PropReceiveMaximum) || (id =? PropTopicAlias)) || negb (v =? 0))
  | VU32 v => u32_id id && (0 <=? v) && (v <? 4294967296) &&
              (negb (id =? PropMaximumPacketSize) || negb (v =? 0))
  | VVar v => (id =? PropSubscriptionIdentifier) && (0 <? v) && (v <? 268435456)
  | VStr s => str_id id && string_ok s
  | VBin d => bin_id id && negb (bool_decide (d = [])) && (len d <=? 65535)
  | VPair u => (id =? PropUserProperty) && string_ok (Key u) && string_ok (Value u)
  end.

Lemma pval_ok_reads id v : pval_ok id v = true -> item_reads (id, v).
Proof.
  destruct v; cbn [pval_ok]; intros H; bools; subst.
  - by apply item_byte.
  - apply item_u16; [done | lia |]. intros Hid ->.
    destruct Hid as [-> | ->]; cbn in *; done.
  - apply item_u32; [done | lia |]. intros -> ->. cbn in *; done.
  - by apply item_var.
  - by apply item_str.
  - by apply item_bin.
  - by apply item_user.
Qed.

(** A segment the decoder can have filled. *)
Definition seg_ok (locus : propertyLocus) (sg : Z * list pval) : Prop :=
  Forall (fun v => pval_ok (fst sg) v = true) (snd sg) /\
  (snd sg <> [] -> locus_ok locus (fst sg) = true) /\ seg_once locus sg.

(** The invariant of the decoding loop. *)
Definition section_ok (locus : propertyLocus) (p : Properties) : Prop :=
  Forall (seg_ok locus) (segments p) /\ len (UserProperties p) <= 100.

Lemma section_items locus p :
  section_ok locus p ->
  Forall item_reads (items p) /\ Forall (fun it => locus_ok locus (fst it) = true) (items p) /\
  Forall (seg_once locus) (segments p).
Proof.
  intros [H _]. unfold items. induction H as [|sg sgs (Hv & Hl & Ho) _ (IH1 & IH2 & IH3)];
    [repeat split; constructor|].
  cbn [map]. change (mjoin (?a :: ?b)) with (a ++ mjoin b).
  assert (forall it, it ∈ seg_items sg -> exists v, it = (fst sg, v) /\ v ∈ snd sg) as Hin.
  { intros it Hit. unfold seg_items in Hit. by apply list_elem_of_fmap in Hit as (v & -> & ?); eauto. }
  rewrite Forall_forall in Hv.
  split; [|split; [|by constructor]]; apply Forall_app_2; auto; apply Forall_forall;
    intros it (v & -> & Hin')%Hin.
  - by apply pval_ok_reads, Hv.
  - apply Hl. intros Hz. rewrite Hz in Hin'. by apply not_elem_of_nil in Hin'.
Qed.

(** An update of one field replaces one segment. *)
Lemma section_update locus p p' k sg :
  section_ok locus p -> segments p' = <[k := sg]> (segments p) -> seg_ok locus sg ->
  len (UserProperties p') <= 100 -> section_ok locus p'.
Proof. intros [H _] Heq Hsg Hu. split; [|done]. rewrite Heq. by apply Forall_insert. Qed.

Lemma seg_ok_one locus id v :
  pval_ok id v = true -> locus_ok locus id = true -> seg_ok locus (id, [v]).
Proof. intros. repeat split; cbn; [by constructor | done | by left]. Qed.

Lemma seg_ok_nil locus id : seg_ok locus (id, []).
Proof. repeat split; cbn; [constructor | done | left; cbn; lia]. Qed.

Lemma seg_ok_str locus id s :
  str_id id = true -> string_ok s = true -> locus_ok locus id = true -> seg_ok locus (id, str_seg s).
Proof.
  intros Hid Hs Hl. destruct s; [apply seg_ok_nil|]. apply seg_ok_one; [|done].
  cbn [pval_ok]. by rewrite Hid, Hs.
Qed.

Lemma seg_ok_bin locus id v :
  bin_id id = true -> match v with Some d => d <> [] /\ len d <= 65535 | None => True end ->
  locus_ok locus id = true -> seg_ok locus (id, bin_seg v).
Proof.
  intros Hid Hv Hl. destruct v as [d|]; [|apply seg_ok_nil]. apply seg_ok_one; [|done].
  destruct Hv as [Hd Hn]. cbn [pval_ok]. rewrite Hid, bool_decide_false by done. by apply Z.leb_le.
Qed.

Lemma pval_flag id v : byte_id id = true -> 0 <= v <= 1 -> pval_ok id (VByte v) = true.
Proof. intros Hid Hv. cbn [pval_ok]. rewrite Hid. cbn. apply andb_true_iff. rewrite !Z.leb_le. lia. Qed.

Lemma pval_u16 id v :
  u16_id id = true -> 0 <= v < 65536 ->
  (id = PropReceiveMaximum \/ id = PropTopicAlias -> v <> 0) -> pval_ok id (VU16 v) = true.
Proof.
  intros Hid Hv Hz. cbn [pval_ok]. rewrite Hid, (proj2 (Z.leb_le 0 v)), (proj2 (Z.ltb_lt v 65536)) by lia.
  cbn [andb]. destruct ((id =? PropReceiveMaximum) || (id =? PropTopicAlias)) eqn:E; [|done]. apply negb_true_iff, Z.eqb_neq, Hz.
  apply orb_true_iff in E as [E|E]; bools; auto.
Qed.

Lemma pval_u32 id v :
  u32_id id = true -> 0 <= v < 4294967296 -> (id = PropMaximumPacketSize -> v <> 0) ->
  pval_ok id (VU32 v) = true.
Proof.
  intros Hid Hv Hz. cbn [pval_ok].
  rewrite Hid, (proj2 (Z.leb_le 0 v)), (proj2 (Z.ltb_lt v 4294967296)) by lia.
  cbn [andb]. destruct (id =? _) eqn:E; [|done]. bools. by apply negb_true_iff, Z.eqb_neq, Hz.
Qed.

(** Appending to a repeatable segment. *)
Lemma seg_ok_snoc locus id vs v :
  seg_ok locus (id, vs) -> pval_ok id v = true -> locus_ok locus id = true ->
  vs = [] \/ propertyMayRepeat locus id = true -> seg_ok locus (id, vs ++ [v]).
Proof.
  intros (Hv & _ & _) Hp Hl Hr. repeat split; cbn in *; [|done|].
  - apply Forall_app_2; [done | by constructor].
  - destruct Hr as [-> | Hr]; [by left | by right].
Qed.

(** The position of the segment of an identifier. *)
Definition seg_index (id : Z) : nat :=
  default O (fst <$> list_find (fun i => i = id) (map fst (segments emptyProperties))).

Ltac upd q Hq id := eapply (section_update _ _ _ (seg_index id) _ Hq); [by destruct q | |apply Hq].

Lemma readFlag_ok s v s' :
  bytes_ok s -> readFlag s = (Ok v, s') -> (0 <= v <= 1) /\ bytes_ok s'.
Proof.
  intros Hs H. unfold readFlag in H. bind_inv H. apply ReadByte_ok in E as [Hb Hs']; [|done].
  destruct (1 <? a) eqn:Ea; [done|]. apply mret_inv in H as [-> ->]. bools.
  unfold byte_ok in Hb. split; [lia | done].
Qed.

Lemma section_at locus q k sg : section_ok locus q -> segments q !! k = Some sg -> seg_ok locus sg.
Proof. intros [H _]. by apply Forall_lookup_1. Qed.

Lemma section_user locus q k v :
  section_ok locus q -> locus_ok locus PropUserProperty = true -> len (UserProperties q) < 100 ->
  string_ok k = true -> string_ok v = true ->
  section_ok locus (set_UserProperties (UserProperties q ++ [{| Key := k; Value := v |}]) q).
Proof.
  intros Hq Hl Hn Hk Hv. pose proof (section_at locus q 21 _ Hq eq_refl) as Hsg.
  eapply (section_update _ _ _ 21
    (PropUserProperty, map VPair (UserProperties q ++ [{| Key := k; Value := v |}])) Hq).
  - by destruct q.
  - rewrite map_app. apply seg_ok_snoc; [done | | done | by right]. cbn [pval_ok Key Value]. by rewrite Hk, Hv.
  - change (len (UserProperties q ++ [{| Key := k; Value := v |}]) <= 100). rewrite len_app, len_cons, len_nil. lia.
Qed.

Lemma section_id locus q v :
  section_ok locus q -> locus_ok locus PropSubscriptionIdentifier = true -> 0 < v < 268435456 ->
  SubscriptionIdentifier q = [] \/ locus = locusPublish ->
  section_ok locus (set_SubscriptionIdentifier (SubscriptionIdentifier q ++ [v]) q).
Proof.
  intros Hq Hl Hv Hr. pose proof (section_at locus q 5 _ Hq eq_refl) as Hsg.
  eapply (section_update _ _ _ 5
    (PropSubscriptionIdentifier, map VVar (SubscriptionIdentifier q ++ [v])) Hq).
  - by destruct q.
  - rewrite map_app. apply seg_ok_snoc; [done | | done |].
    + cbn [pval_ok]. rewrite (proj2 (Z.ltb_lt 0 v)), (proj2 (Z.ltb_lt v _)) by lia. done.
    + destruct Hr as [-> | ->]; [by left | by right].
  - apply Hq.
Qed.

Lemma decodeProperty_ok locus id q s q' s' :
  bytes_ok s -> section_ok locus q -> locus_ok locus id = true ->
  (id = PropSubscriptionIdentifier -> SubscriptionIdentifier q = [] \/ locus = locusPublish) ->
  decodeProperty id q s = (Ok q', s') ->
  section_ok locus q' /\ bytes_ok s' /\
  (id <> PropSubscriptionIdentifier -> SubscriptionIdentifier q' = SubscriptionIdentifier q).
Proof.
  intros Hs Hq Hl Hrep H. unfold decodeProperty in H.
  repeat (destruct (id =? _) eqn:E in H; [apply Z.eqb_eq in E; subst id|clear E]); [..|done].
  all: try (bind_inv H; first
    [ apply readFlag_ok in E as [Hv Hs']; [|done]
    | apply readStringFromReader_ok in E as [Hv Hs']; [|done]
    | apply readBinaryDataFromReader_ok in E as [Hv Hs']; [|done]
    | apply readUint16FromReader_ok in E as [Hv Hs']; [|done]
    | apply readUint32FromReader_ok in E as [Hv Hs']; [|done]
    | apply readVarIntFromReader_ok in E as [Hv Hs']; [|done] ]).
  all: try (destruct (_ =? 0) eqn:Ez in H; [done|bools]).
  all: try apply mret_inv in H as [-> ->].
  all: try match goal with |- _ /\ _ /\ (?id <> _ -> _) =>
    lazymatch id with PropSubscriptionIdentifier => fail | PropUserProperty => fail | _ => idtac end; split; [upd q Hq id|done] end.
  all: try (apply seg_ok_str; done).
  all: try (apply seg_ok_bin; done).
  all: try (apply seg_ok_one; [apply pval_flag | ]; done).
  all: try (apply seg_ok_one; [apply pval_u16 | ]; try done; intros [|]; done).
  all: try (apply seg_ok_one; [apply pval_u32 | ]; done).
  - split; [|done]. apply section_id; [done | done | lia | auto].
  - destruct (100 <=? _) eqn:En in H; [done|]. bools. do 2 bind_inv H.
    apply readStringFromReader_ok in E as [Hk Hs1]; [|done].
    apply readStringFromReader_ok in E0 as [Hv Hs2]; [|done]. apply mret_inv in H as [-> ->].
    split; [by apply section_user | done].
Qed.

Lemma decodeProperties_loop_ok fuel locus seen q s p s' :
  bytes_ok s -> section_ok locus q ->
  (SubscriptionIdentifier q <> [] -> PropSubscriptionIdentifier ∈ seen) ->
  decodeProperties_loop fuel locus seen q s = (Ok p, s') -> section_ok locus p.
Proof.
  revert seen q s. induction fuel as [|fuel IH]; intros seen q s Hs Hq Hids H;
    cbn [decodeProperties_loop] in H; bind_inv H; injection E as <- <-;
    (destruct (len s =? 0); [by apply mret_inv in H as [-> _]|]); [done|].
  bind_inv H. apply ReadByte_ok in E as [Hb Hs1]; [|done].
  destruct (loci_lookup a) as [allowed|] eqn:Ea; [|done].
  destruct (Z.land allowed (locusBit locus) =? 0) eqn:El; [done|].
  destruct (bool_decide (a ∈ seen) && _) eqn:Ed in H; [done|]. bind_inv H.
  assert (locus_ok locus a = true) as Hl by (unfold locus_ok; rewrite Ea, El; done).
  assert (a = PropSubscriptionIdentifier -> SubscriptionIdentifier q = [] \/ locus = locusPublish) as Hrep.
  { intros ->. destruct (SubscriptionIdentifier q) eqn:Eq; [by left | right].
    rewrite bool_decide_true in Ed by (by apply Hids). cbn in Ed. by bools. }
  apply (decodeProperty_ok locus) in E as (Hq' & Hs' & Hkeep); [|done..].
  eapply IH in H; [done..|]. intros Hne. apply elem_of_cons.
  destruct (decide (a = PropSubscriptionIdentifier)) as [->|Hn]; [by left|].
  right. apply Hids. by rewrite <- Hkeep.
Qed.

(** ** The encoder takes an accepted set back *)

Lemma probe_set p :
  Forall2 (fun e sg => fst e = fst sg /\ (snd e p = true -> snd sg <> [])) propertyProbes (segments p).
Proof.
  unfold propertyProbes, segments.
  repeat (apply Forall2_cons_2; [split; [done|]; cbn [fst snd]|]); [..|constructor];
    match goal with |- context [?f p] => by destruct (f p) end.
Qed.

Lemma loci_segs p locus es sgs :
  Forall2 (fun e sg => fst e = fst sg /\ (snd e p = true -> snd sg <> [])) es sgs ->
  Forall (seg_ok locus) sgs -> validatePropertyLoci_loop es p locus = Ok tt.
Proof.
  induction 1 as [|[id set] sg es sgs [Hid Hset] _ IH]; intros H; [done|].
  inversion_clear H as [|? ? (_ & Hl & _) Hs]. cbn [validatePropertyLoci_loop].
  destruct (set p) eqn:Es; cbn [negb]; [|auto].
  specialize (Hl (Hset Es)). cbn in Hid. subst id. unfold locus_ok in Hl.
  destruct (loci_lookup (fst sg)) as [a|]; [|done].
  change (default 0 (Some a)) with a. apply negb_true_iff in Hl. rewrite Hl. auto.
Qed.

Lemma seg_flag locus id v : seg_ok locus (id, opt_seg VByte v) -> above1 v = false.
Proof.
  intros [H _]. destruct v as [v|]; [|done]. inversion_clear H as [|? ? Hv _].
  cbn [fst pval_ok] in Hv. bools. cbn. apply Z.ltb_ge. lia.
Qed.

Lemma seg_nz16 locus id v :
  (id =? PropReceiveMaximum) || (id =? PropTopicAlias) = true ->
  seg_ok locus (id, opt_seg VU16 v) -> is0 v = false.
Proof.
  intros Hid [H _]. destruct v as [v|]; [|done]. inversion_clear H as [|? ? Hv _].
  cbn [fst pval_ok] in Hv. rewrite Hid in Hv. cbn [negb orb is0] in *. by bools; apply Z.eqb_neq.
Qed.

Lemma seg_nz32 locus v : seg_ok locus (PropMaximumPacketSize, opt_seg VU32 v) -> is0 v = false.
Proof.
  intros [H _]. destruct v as [v|]; [|done]. inversion_clear H as [|? ? Hv _].
  cbn [fst pval_ok] in Hv. apply andb_true_iff in Hv as [_ Hv]. cbn in Hv. cbn. by bools; apply Z.eqb_neq.
Qed.

Lemma seg_nzid locus l :
  seg_ok locus (PropSubscriptionIdentifier, map VVar l) -> existsb (Z.eqb 0) l = false.
Proof.
  intros [H _]. cbn [fst snd] in H. induction l as [|v l IH]; [done|].
  inversion_clear H as [|? ? Hv Hl]. cbn [pval_ok] in Hv. bools. cbn [existsb].
  rewrite IH by done. rewrite orb_false_r. apply Z.eqb_neq. lia.
Qed.

Lemma section_values locus p : section_ok locus p -> values_ok p = true.
Proof.
  intros [H _]. unfold segments in H. rewrite !Forall_cons in H. destruct_and!.
  unfold values_ok.
  repeat (apply andb_true_iff; split); apply negb_true_iff;
    first [ eapply seg_flag; eassumption | eapply seg_nz16; [|eassumption]; done
          | eapply seg_nz32; eassumption | eapply seg_nzid; eassumption ].
Qed.

Lemma seg_putStr locus id s : seg_ok locus (id, str_seg s) -> exists b, putStr id s = Ok b.
Proof.
  intros [H _]. unfold putStr. destruct s as [|x s]; [by eexists|].
  inversion_clear H as [|? ? Hv _]. apply andb_true_iff in Hv as [_ Hs].
  rewrite bool_decide_false, writeString_ok, Hs by done. by eexists.
Qed.

Lemma seg_putUsers locus l :
  seg_ok locus (PropUserProperty, map VPair l) -> exists b, putUsers PropUserProperty l = Ok b.
Proof.
  intros [H _]. unfold putUsers. cbn [fst snd] in H. induction l as [|u l IH]; [by eexists|].
  inversion_clear H as [|? ? Hv Hl]. destruct (IH Hl) as [b Hb].
  apply andb_true_iff in Hv as [[_ Hk]%andb_true_iff Hv].
  cbn [map putAll]. rewrite Hb, (writeString_ok (Key u)), (writeString_ok (Value u)), Hk, Hv.
  by eexists.
Qed.

Lemma putAll_ok l : Forall (fun r => exists b, r = Ok b) l -> exists b, putAll l = Ok b.
Proof.
  induction 1 as [|r l [b ->] _ [b' IH]]; [by eexists|]. cbn. rewrite IH. by eexists.
Qed.

Lemma section_data locus p : section_ok locus p -> exists d, encodeProperties_data p = Ok d.
Proof.
  intros [H _]. unfold segments in H. rewrite !Forall_cons in H. destruct_and!. apply putAll_ok.
  repeat (apply Forall_cons_2; [first [ by eexists | eapply seg_putStr; eassumption
                                    | eapply seg_putUsers; eassumption ]|]).
  constructor.
Qed.

Lemma section_roundtrip locus p :
  section_ok locus p ->
  exists bs, encodeProperties p locus = Ok bs /\
    (len bs < 268435456 -> readsB (decodeProperties locus) bs (norm_section (Some p))).
Proof.
  intros Hp. destruct (section_data locus p Hp) as [d Hd].
  pose proof (section_items locus p Hp) as (Hr & Hl & Ho).
  pose proof (decode_section p locus Hr Hl Ho ltac:(apply Hp)) as Hdec. cbn zeta in Hdec.
  unfold encodeProperties.
  rewrite (proj2 (validateProperties_split p locus)); cycle 1.
  { split; [by eapply section_values | apply loci_segs with (sgs := segments p);
      [apply probe_set | apply Hp]]. }
  apply encodeProperties_data_items in Hd as Hd'. destruct Hd' as [-> _]. rewrite Hd.
  cbn [mbind res_bind]. destruct (len (enc_items (items p)) =? 0); eexists; (split; [done | exact Hdec]).
Qed.

(** What decodeProperties returns satisfies the invariant. *)
Lemma decodeProperties_section locus s p s' :
  bytes_ok s -> decodeProperties locus s = (Ok (Some p), s') -> section_ok locus p.
Proof.
  intros Hs H. unfold decodeProperties in H. bind_inv H. rename E into Ev.
  destruct (a =? 0); [done|]. bind_inv H. injection E as <- <-.
  destruct (u32 _ <? a); [done|]. bind_inv H. bind_inv H.
  apply mret_inv in H as [[= ->] ->]. unfold runOn, lift_res in E0. injection E0 as E0 <-.
  destruct (decodeProperties_loop _ _ _ _ _) as [r rest] eqn:El. cbn in E0. subst r.
  assert (bytes_ok s0) as Hs0.
  { pose proof (local_readVarInt _ _ _ Ev) as (pre & -> & _). by apply bytes_ok_app in Hs as [_ ?]. }
  apply readFull_ok in E as [Ha _]; [|done].
  eapply decodeProperties_loop_ok in El; [done | done | | by cbn].
  split; [|done]. repeat (apply Forall_cons_2; [apply seg_ok_nil|]). constructor.
Qed.

(** ** Properties *)

(** The decoder enforces what the encoder's validation demands: a property
    set that decodeProperties returns passes validateProperties for the same
    packet type, encodeProperties accepts it, and decoding the re-encoded section
    gives the same set (nil if no property is left). *)
Theorem accepted_properties_valid locus s p s' :
  bytes_ok s -> decodeProperties locus s = (Ok (Some p), s') ->
  validateProperties (Some p) locus = Ok tt /\
  exists bs, encodeProperties p locus = Ok bs /\
    (len bs < 268435456 -> readsB (decodeProperties locus) bs (norm_section (Some p))).
Proof.
  intros Hs H. apply decodeProperties_section in H as Hp; [|done]. split.
  - apply validateProperties_split. split; [by eapply section_values|].
    apply loci_segs with (sgs := segments p); [apply probe_set | apply Hp].
  - by apply section_roundtrip.
Qed.

Lemma accepted_properties_valid_witness :
  let s := [8; PropTopicAlias; 0; 7; PropMessageExpiryInterval; 0; 0; 1; 0; 42; 43] in
  exists p, decodeProperties locusPublish s = (Ok (Some p), [42; 43]) /\
    validateProperties (Some p) locusPublish = Ok tt.
Proof.
  eexists. split; [vm_compute; reflexivity|].
  apply (accepted_properties_valid locusPublish
    [8; PropTopicAlias; 0; 7; PropMessageExpiryInterval; 0; 0; 1; 0; 42; 43] _ [42; 43]);
    [repeat constructor; vm_compute; intuition congruence | vm_compute; reflexivity].
Defined.
