(* ===== verification/Packets.v ===== *)
(** * Control packets: protocol/packets.go and the validation of a CONNECT

    One record per packet struct; structs with the same fields share a record
    and are told apart by the constructor of [Packet] (the Go interface).  Every
    record embeds the fixed header, as the source does. *)

From S2P Require Import Prelude Utf8 Wire Spec Properties.
Open Scope Z_scope.

(** ** Model *)

(** packets.go, ConnectFlags *)
Record ConnectFlags := {
  UsernameFlag : bool;
  PasswordFlag : bool;
  WillRetain : bool;
  WillQoS : Z;
  WillFlag : bool;
  WillTopicFlag : bool;
  CleanSession : bool;
  Reserved : bool;
}.

(** packets.go, ConnectPacket *)
Record ConnectPacket := {
  con_FixedHeader : FixedHeader;
  ProtocolName : bytes;
  ProtocolVersion : Z;
  Flags : ConnectFlags;
  KeepAlive : Z;
  ClientID : bytes;
  WillTopic : bytes;
  WillMessage : bytes;
  Username : bytes;
  Password : bytes;
  con_Properties : option Properties;
  WillProperties : option Properties;
}.

(** packets.go, ConnAckPacket *)
Record ConnAckPacket := {
  cack_FixedHeader : FixedHeader;
  cack_ReasonCode : Z;
  SessionPresent : bool;
  cack_Properties : option Properties;
}.

(** packets.go, PublishPacket *)
Record PublishPacket := {
  pub_FixedHeader : FixedHeader;
  pub_PacketID : Z;
  pub_Topic : bytes;
  Payload : bytes;
  pub_Properties : option Properties;
}.

(** packets.go, PubAckPacket, PubRecPacket, PubRelPacket and PubCompPacket *)
Record AckPacket := {
  ack_FixedHeader : FixedHeader;
  ack_PacketID : Z;
  ack_ReasonCode : Z;
  ack_Properties : option Properties;
}.

(** packets.go, TopicFilter *)
Record TopicFilter := {
  tf_Topic : bytes;
  tf_QoS : Z;
  NoLocal : bool;
  RetainAsPublished : bool;
  RetainHandling : Z;
  tf_SubscriptionIdentifier : option Z;
}.

(** packets.go, SubscribePacket *)
Record SubscribePacket := {
  sub_FixedHeader : FixedHeader;
  sub_PacketID : Z;
  sub_Topics : list TopicFilter;
  sub_Properties : option Properties;
}.

(** packets.go, SubAckPacket and UnsubAckPacket *)
Record SubAckPacket := {
  sack_FixedHeader : FixedHeader;
  sack_PacketID : Z;
  sack_ReasonCodes : bytes;
  sack_Properties : option Properties;
}.

(** packets.go, UnsubscribePacket *)
Record UnsubscribePacket := {
  unsub_FixedHeader : FixedHeader;
  unsub_PacketID : Z;
  unsub_Topics : list bytes;
  unsub_Properties : option Properties;
}.

(** packets.go, DisconnectPacket and AuthPacket *)
Record DisconnectPacket := {
  dis_FixedHeader : FixedHeader;
  dis_ReasonCode : Z;
  dis_Properties : option Properties;
}.

(** packets.go, the Packet interface and its implementations *)
Inductive Packet :=
  | PConnect (p : ConnectPacket)
  | PConnAck (p : ConnAckPacket)
  | PPublish (p : PublishPacket)
  | PPubAck (p : AckPacket)
  | PPubRec (p : AckPacket)
  | PPubRel (p : AckPacket)
  | PPubComp (p : AckPacket)
  | PSubscribe (p : SubscribePacket)
  | PSubAck (p : SubAckPacket)
  | PUnsubscribe (p : UnsubscribePacket)
  | PUnsubAck (p : SubAckPacket)
  | PPingReq (fh : FixedHeader)
  | PPingResp (fh : FixedHeader)
  | PDisconnect (p : DisconnectPacket)
  | PAuth (p : DisconnectPacket).

(** packets.go, GetFixedHeader *)
Definition GetFixedHeader (p : Packet) : FixedHeader :=
  match p with
  | PConnect p => con_FixedHeader p
  | PConnAck p => cack_FixedHeader p
  | PPublish p => pub_FixedHeader p
  | PPubAck p | PPubRec p | PPubRel p | PPubComp p => ack_FixedHeader p
  | PSubscribe p => sub_FixedHeader p
  | PSubAck p | PUnsubAck p => sack_FixedHeader p
  | PUnsubscribe p => unsub_FixedHeader p
  | PPingReq fh | PPingResp fh => fh
  | PDisconnect p | PAuth p => dis_FixedHeader p
  end.

(** codec.go, validateFixedHeaderFlags *)
Definition validateFixedHeaderFlags (fh : FixedHeader) : res unit :=
  let t := PacketType fh in
  if t =? PacketTypePublish then
    if QoS fh =? 3 then Err ErrInvalidPacket else Ok tt
  else if (t =? PacketTypePubRel) || (t =? PacketTypeSubscribe) || (t =? PacketTypeUnsubscribe) then
    if negb (QoS fh =? 1) || Retain fh then Err ErrInvalidPacket else Ok tt
  else
    if Dup fh || negb (QoS fh =? 0) || Retain fh then Err ErrInvalidPacket else Ok tt.

(** connect.go, ValidateConnect *)
Definition ValidateConnect (pkt : ConnectPacket) : res unit :=
  let name := ProtocolName pkt in
  let ver := ProtocolVersion pkt in
  let flags := Flags pkt in
  if negb (bool_decide (name = ProtocolNameMQTT)) && negb (bool_decide (name = ProtocolNameMQIsdp))
  then Err (ErrText "protocol: invalid protocol name") else
  if negb (ver =? Version31) && negb (ver =? Version311) && negb (ver =? Version50)
  then Err (ErrText "protocol: unsupported protocol version") else
  if (ver =? Version31) && negb (bool_decide (name = ProtocolNameMQIsdp))
  then Err (ErrText "protocol: MQTT 3.1 requires protocol name") else
  if ((ver =? Version311) || (ver =? Version50)) && negb (bool_decide (name = ProtocolNameMQTT))
  then Err (ErrText "protocol: MQTT requires protocol name") else
  if Reserved flags then Err (ErrText "protocol: reserved flag must be 0") else
  if WillFlag flags && (2 <? WillQoS flags) then Err (ErrText "protocol: invalid will QoS") else
  if negb (WillFlag flags) && negb (WillQoS flags =? 0)
  then Err (ErrText "protocol: will QoS must be 0 when will flag is not set") else
  if negb (WillFlag flags) && WillRetain flags
  then Err (ErrText "protocol: will retain must be 0 when will flag is not set") else
  if PasswordFlag flags && negb (UsernameFlag flags)
  then Err (ErrText "protocol: password flag set but username flag not set") else
  let sp := default zeroSpec (SpecOf ver) in
  if (len (ClientID pkt) =? 0) && negb (AllowEmptyID sp)
  then Err (ErrText "protocol: zero-length client ID not allowed") else
  if (len (ClientID pkt) =? 0) && negb (CleanSession flags)
  then Err (ErrText "protocol: zero-length client ID requires clean session") else
  if (0 <? MaxClientIDLen sp) && (MaxClientIDLen sp <? len (ClientID pkt))
  then Err (ErrText "protocol: client ID too long") else
  if WillFlag flags && (len (WillTopic pkt) =? 0)
  then Err (ErrText "protocol: will flag set but will topic is empty") else
  Ok tt.

(** constants.go, the reason codes the broker and the client use *)
Definition ReasonCodeSuccess := 0.
Definition ReasonCodeGrantedQoS0 := 0.
Definition ReasonCodeFailureBase := 128.
Definition SubAckFailure := 128.
Definition ReasonCodeProtocolError := 130.
Definition ReasonCodeNotAuthorized := 135.
Definition ReasonCodePacketIdentifierInUse := 145.
Definition DisconnectReceiveMaximumExceeded := 147.
Definition ReasonCodeTopicAliasInvalid := 148.
Definition ReasonCodeQuotaExceeded := 151.
Definition DisconnectProtocolError := 130.
Definition ConnAckAccepted := 0.
Definition ConnAckUnacceptableProtocol := 1.
Definition ConnAckIdentifierRejected := 2.
Definition ConnAckServerUnavailable := 3.
Definition ConnAckBadUsernameOrPassword := 4.
Definition ConnAckNotAuthorized := 5.
Definition ConnAckUnspecifiedError := 128.
Definition ConnAckProtocolError := 130.
Definition ConnAckClientIdentifierNotValid := 133.
Definition ConnAckBadUsernameOrPassword5 := 134.
Definition ConnAckNotAuthorized5 := 135.
Definition ConnAckBanned := 138.
Definition ReasonCodeMalformedPacket := 129.
Definition ReasonCodeBadAuthMethod := 140.
Definition ReasonCodePacketTooLarge := 149.
Definition ReasonCodeConnectionRateExceeded := 159.
Definition DisconnectServerShuttingDown := 139.
Definition DisconnectKeepAliveTimeout := 141.
Definition DisconnectSessionTakenOver := 142.
Definition AuthSuccess := 0.
Definition AuthContinueAuth := 24.
Definition AuthReAuth := 25.

(** The packets the broker and the client build. *)
Definition header (t qos : Z) (dup retain : bool) : FixedHeader :=
  {| PacketType := t; Dup := dup; QoS := qos; Retain := retain; RemainingLength := 0; HeaderSize := 0 |}.

Definition mkPublish (qos : Z) (dup retain : bool) (id : Z) (topic payload : bytes) (props : option Properties)
    : PublishPacket :=
  {| pub_FixedHeader := header PacketTypePublish qos dup retain; pub_PacketID := id; pub_Topic := topic;
     Payload := payload; pub_Properties := props |}.

Definition pub_QoS (p : PublishPacket) : Z := QoS (pub_FixedHeader p).
Definition pub_Retain (p : PublishPacket) : bool := Retain (pub_FixedHeader p).
Definition pub_Dup (p : PublishPacket) : bool := Dup (pub_FixedHeader p).

Definition ackPacket (t qos id reason : Z) : AckPacket :=
  {| ack_FixedHeader := header t qos false false; ack_PacketID := id; ack_ReasonCode := reason; ack_Properties := None |}.

Definition pubAckPacket (id reason : Z) : Packet := PPubAck (ackPacket PacketTypePubAck 0 id reason).
Definition pubRecPacket (id reason : Z) : Packet := PPubRec (ackPacket PacketTypePubRec 0 id reason).
Definition pubCompPacket (id : Z) : Packet := PPubComp (ackPacket PacketTypePubComp 0 id 0).

(** qos_outbound.go, pubRelPacket *)
Definition pubRelPacket (id : Z) : Packet := PPubRel (ackPacket PacketTypePubRel 1 id 0).

Definition disconnectPacket (reason : Z) : Packet :=
  PDisconnect {| dis_FixedHeader := header PacketTypeDisconnect 0 false false; dis_ReasonCode := reason;
                 dis_Properties := None |}.

Definition subAckPacket (id : Z) (codes : bytes) : Packet :=
  PSubAck {| sack_FixedHeader := header PacketTypeSubAck 0 false false; sack_PacketID := id;
             sack_ReasonCodes := codes; sack_Properties := None |}.
Definition unsubAckPacket (id : Z) (codes : bytes) : Packet :=
  PUnsubAck {| sack_FixedHeader := header PacketTypeUnsubAck 0 false false; sack_PacketID := id;
               sack_ReasonCodes := codes; sack_Properties := None |}.

(** ** Properties *)

(** The CONNECT rules of the three protocol versions, declaratively. *)
Definition connect_identity_ok (p : ConnectPacket) : Prop :=
  match ProtocolVersion p with
  | 3 => ProtocolName p = ProtocolNameMQIsdp /\ 1 <= len (ClientID p) <= 23
  | 4 | 5 => ProtocolName p = ProtocolNameMQTT /\
             (ClientID p = [] -> CleanSession (Flags p) = true)
  | _ => False
  end.

Definition connect_flags_ok (p : ConnectPacket) : Prop :=
  let f := Flags p in
  Reserved f = false /\
  (if WillFlag f then WillQoS f <= 2 /\ WillTopic p <> []
   else WillQoS f = 0 /\ WillRetain f = false) /\
  (PasswordFlag f = true -> UsernameFlag f = true).

Lemma len_eqb_nil {A} (l : list A) : (len l =? 0) = bool_decide (l = []).
Proof. destruct l; [done|]. rewrite bool_decide_false by done. apply Z.eqb_neq.
  rewrite len_cons. pose proof (len_nonneg l). lia. Qed.

(** The checks of ValidateConnect that concern the name, version and client
    identifier, in the order of the source. *)
Definition identity_checks (p : ConnectPacket) : bool :=
  let name := ProtocolName p in
  let ver := ProtocolVersion p in
  let sp := default zeroSpec (SpecOf ver) in
  let empty := bool_decide (ClientID p = []) in
  negb (negb (bool_decide (name = ProtocolNameMQTT)) && negb (bool_decide (name = ProtocolNameMQIsdp))) &&
  negb (negb (ver =? Version31) && negb (ver =? Version311) && negb (ver =? Version50)) &&
  negb ((ver =? Version31) && negb (bool_decide (name = ProtocolNameMQIsdp))) &&
  negb (((ver =? Version311) || (ver =? Version50)) && negb (bool_decide (name = ProtocolNameMQTT))) &&
  negb (empty && negb (AllowEmptyID sp)) && negb (empty && negb (CleanSession (Flags p))) &&
  negb ((0 <? MaxClientIDLen sp) && (MaxClientIDLen sp <? len (ClientID p))).

Lemma identity_checks_spec p : identity_checks p = true <-> connect_identity_ok p.
Proof.
  unfold identity_checks, connect_identity_ok. cbn zeta.
  destruct (decide (ProtocolVersion p = 3)) as [->|N3]; [|destruct (decide (ProtocolVersion p = 4)) as [->|N4];
    [|destruct (decide (ProtocolVersion p = 5)) as [->|N5]]].
  - change (default zeroSpec (SpecOf 3)) with specV31. cbn [AllowEmptyID MaxClientIDLen specV31].
    case_bool_decide as Hn; case_bool_decide as Hn'; cbn; try (split; [done | intros []; congruence]).
    { by rewrite Hn in Hn'. }
    case_bool_decide as He; cbn.
    { rewrite He. split; [done|]. intros [_ [H _]]. by vm_compute in H. }
    assert (0 < len (ClientID p)) by (by destruct (ClientID p); [|rewrite len_cons; pose proof (len_nonneg l); lia]).
    destruct (23 <? len (ClientID p)) eqn:E; bools; cbn; (split; [intros ?|intros (? & ? & ?)]);
      try done; try lia. split; [done | lia].
  - change (default zeroSpec (SpecOf 4)) with specV311. cbn [AllowEmptyID MaxClientIDLen specV311].
    do 3 case_bool_decide; destruct (CleanSession (Flags p)); cbn; intuition congruence.
  - change (default zeroSpec (SpecOf 5)) with specV50. cbn [AllowEmptyID MaxClientIDLen specV50].
    do 3 case_bool_decide; destruct (CleanSession (Flags p)); cbn; intuition congruence.
  - unfold Version31, Version311, Version50.
    rewrite (proj2 (Z.eqb_neq _ 3)), (proj2 (Z.eqb_neq _ 4)), (proj2 (Z.eqb_neq _ 5)) by done. cbn.
    rewrite andb_false_r. cbn. split; [done|].
    destruct (ProtocolVersion p) as [|[[[]|[]|]|[[]|[]|]|]|]; cbn; done.
Qed.

(** ValidateConnect accepts exactly the CONNECT packets whose protocol name
    and version agree, whose client identifier is allowed in that version (1 to 23
    bytes in MQTT 3.1; in 3.1.1 and 5.0 an empty one only with a clean start) and
    whose flags are consistent. *)
Theorem ValidateConnect_exact p :
  ValidateConnect p = Ok tt <-> connect_identity_ok p /\ connect_flags_ok p.
Proof.
  rewrite <- identity_checks_spec. unfold ValidateConnect, identity_checks, connect_flags_ok. cbn zeta.
  rewrite !guard_ok, !len_eqb_nil, !andb_true_iff.
  destruct (Reserved (Flags p)), (WillFlag (Flags p)), (WillRetain (Flags p)), (PasswordFlag (Flags p)),
    (UsernameFlag (Flags p)), (2 <? WillQoS (Flags p)) eqn:E2, (WillQoS (Flags p) =? 0) eqn:E0; bools;
    cbn [andb negb]; pose proof (bool_decide_eq_false (WillTopic p = [])) as Hwt;
    rewrite <- negb_true_iff in Hwt; intuition (try done; try lia).
Qed.
