(* ===== verification/Codec.v ===== *)
(** * The packet codec: protocol/codec.go, connect.go, publish.go, subscribe.go

    Decoders are readers over the bytes left in the connection; only a CONNECT
    changes the codec (it fixes the protocol version, also when a later field is
    malformed).  Encoders assemble the body in a buffer and then write the
    fixed header and the body to an [io.Writer], which is the interface
    [Writer]: anything with a [write] that may fail. *)

From S2P Require Import Prelude Utf8 Wire Spec Topic Properties Packets.
Open Scope Z_scope.

(** ** Decoders *)

(** The property section of a packet, present in MQTT 5.0 only. *)
Definition decodeSection (c : Codec) (locus : propertyLocus) : M bytes (option Properties) :=
  if SpecProperties (spec c) then decodeProperties locus else mret None.

(** Two length bytes and as many bytes: the will message and the password. *)
Definition readLenBytes : M bytes bytes :=
  n ← readUint16;
  if 0 <? n then readFull n else mret [].

Definition connectFlags (b : Z) : ConnectFlags :=
  {| UsernameFlag := negb (Z.land b 128 =? 0);
     PasswordFlag := negb (Z.land b 64 =? 0);
     WillRetain := negb (Z.land b 32 =? 0);
     WillQoS := Z.land (Z.shiftr b 3) 3;
     WillFlag := negb (Z.land b 4 =? 0);
     WillTopicFlag := negb (Z.land b 4 =? 0);
     CleanSession := negb (Z.land b 2 =? 0);
     Reserved := negb (Z.land b 1 =? 0) |}.

(** connect.go, decodeConnect, from the connect flags on: [c] is the codec after
    setVersion(protoVer). *)
Definition decodeConnect_rest (c : Codec) (fh : FixedHeader) (protoName : bytes) (protoVer : Z)
    : M bytes ConnectPacket :=
  b ← ReadByte;
  let flags := connectFlags b in
  keepAlive ← readUint16;
  props ← decodeSection c locusConnect;
  clientID ← readString;
  '(willProps, willTopic, willMessage) ←
    (if WillFlag flags then
       willProps ← decodeSection c locusWill;
       willTopic ← readString;
       willMessage ← readLenBytes;
       mret (willProps, willTopic, willMessage)
     else mret (None, [], []));
  username ← (if UsernameFlag flags then readString else mret []);
  password ← (if PasswordFlag flags then readLenBytes else mret []);
  left ← rlen;
  if negb (left =? 0) then throw ErrMalformedPacket else
  mret {| con_FixedHeader := fh; ProtocolName := protoName; ProtocolVersion := protoVer;
          Flags := flags; KeepAlive := keepAlive; ClientID := clientID; WillTopic := willTopic;
          WillMessage := willMessage; Username := username; Password := password;
          con_Properties := props; WillProperties := willProps |}.

Definition decodeConnect_proto : M bytes (bytes * Z) :=
  protoName ← readString; protoVer ← ReadByte; mret (protoName, protoVer).

(** connect.go, decodeConnect *)
Definition decodeConnect (fh : FixedHeader) : M (Codec * bytes) ConnectPacket := fun '(c, r) =>
  match readFull (RemainingLength fh) r with
  | (Err e, r') => (Err e, (c, r'))
  | (Ok buf, r') =>
      match decodeConnect_proto buf with
      | (Err e, _) => (Err e, (c, r'))
      | (Ok (protoName, protoVer), reader) =>
          let c' := setVersion protoVer c in
          (fst (decodeConnect_rest c' fh protoName protoVer reader), (c', r'))
      end
  end.

(** connect.go, decodeConnAck *)
Definition decodeConnAck (c : Codec) (fh : FixedHeader) : M bytes ConnAckPacket :=
  buf ← readFull (RemainingLength fh);
  runOn (spFlag ← ReadByte;
    reasonCode ← ReadByte;
    if negb (SpecProperties (spec c)) && negb (RemainingLength fh =? 2) then throw ErrMalformedPacket else
    props ← (if SpecProperties (spec c) && (2 <? RemainingLength fh) then
               props ← decodeProperties locusConnAck;
               left ← rlen;
               if negb (left =? 0) then throw ErrMalformedPacket else mret props
             else mret None);
    mret {| cack_FixedHeader := fh; cack_ReasonCode := reasonCode;
            SessionPresent := negb (Z.land spFlag 1 =? 0); cack_Properties := props |}) buf.

(** A PUBLISH without a topic name needs a topic alias. *)
Definition publishTopic_ok (c : Codec) (topic : bytes) (props : option Properties) : bool :=
  if len topic =? 0 then
    SpecTopicAlias (spec c) &&
    match props with
    | Some p => match Properties.TopicAlias p with Some a => negb (a =? 0) | None => false end
    | None => false
    end
  else ValidatePublishTopic topic.

(** publish.go, decodePublish.  [reader.Read(payload)] of the [pl > 0] bytes that
    are left in the buffer reads all of them. *)
Definition decodePublish (c : Codec) (fh : FixedHeader) : M bytes PublishPacket :=
  if RemainingLength fh <? 2 then throw ErrMalformedPacket else
  topic ← readStringBounded (RemainingLength fh - 2);
  let headerBytes := 2 + len topic in
  '(packetID, headerBytes) ←
    (if 0 <? QoS fh then
       if RemainingLength fh <? headerBytes + 2 then throw ErrMalformedPacket else
       packetID ← readUint16;
       if packetID =? 0 then throw ErrMalformedPacket else
       mret (packetID, headerBytes + 2)
     else mret (0, headerBytes));
  let remaining := RemainingLength fh - headerBytes in
  if remaining <? 0 then throw ErrMalformedPacket else
  '(props, payload) ←
    (if SpecProperties (spec c) then
       data ← (if 0 <? remaining then readFull remaining else mret []);
       runOn (props ← decodeProperties locusPublish; payload ← get; mret (props, payload)) data
     else if 0 <? remaining then payload ← readFull remaining; mret (None, payload)
     else mret (None, []));
  if negb (publishTopic_ok c topic props) then throw ErrMalformedPacket else
  mret {| pub_FixedHeader := fh; pub_PacketID := packetID; pub_Topic := topic;
          Payload := payload; pub_Properties := props |}.

(** publish.go, decodeAckFields and the four decoders that use it *)
Definition decodeAckFields (c : Codec) (fh : FixedHeader) : M bytes (Z * Z * option Properties) :=
  if RemainingLength fh <? 2 then throw ErrMalformedPacket else
  if negb (SpecReasonCodes (spec c)) && negb (RemainingLength fh =? 2) then throw ErrMalformedPacket else
  data ← readFull (RemainingLength fh);
  runOn (packetID ← readUint16FromReader;
    if packetID =? 0 then throw ErrMalformedPacket else
    left ← rlen;
    reasonCode ← (if 0 <? left then readByte else mret 0);
    left ← rlen;
    props ← (if 0 <? left then
               props ← decodeProperties locusAck;
               left ← rlen;
               if negb (left =? 0) then throw ErrMalformedPacket else mret props
             else mret None);
    mret (packetID, reasonCode, props)) data.

Definition decodeAck (c : Codec) (fh : FixedHeader) : M bytes AckPacket :=
  '(packetID, reasonCode, props) ← decodeAckFields c fh;
  mret {| ack_FixedHeader := fh; ack_PacketID := packetID; ack_ReasonCode := reasonCode;
          ack_Properties := props |}.

(** subscribe.go, decodeSubscribe: the loop over the topic filters.  Every round
    reads at least three bytes; the length of the buffer bounds the rounds. *)
Fixpoint decodeFilters (fuel : nat) (c : Codec) (subID : option Z) : M bytes (list TopicFilter) :=
  left ← rlen;
  if left =? 0 then mret [] else
  match fuel with
  | O => throw (ErrText "fuel")
  | S fuel' =>
      topic ← readStringFromReader;
      optsByte ← ReadByte;
      if negb (SpecProperties (spec c)) && negb (Z.land optsByte 252 =? 0) then throw ErrMalformedPacket else
      if negb (Z.land optsByte 192 =? 0) || (Z.land optsByte 3 =? 3) ||
         (Z.land (Z.shiftr optsByte 4) 3 =? 3) then throw ErrMalformedPacket else
      topics ← decodeFilters fuel' c subID;
      mret ({| tf_Topic := topic; tf_QoS := Z.land optsByte 3;
               NoLocal := negb (Z.land optsByte 4 =? 0);
               RetainAsPublished := negb (Z.land optsByte 8 =? 0);
               RetainHandling := Z.land (Z.shiftr optsByte 4) 3;
               tf_SubscriptionIdentifier := subID |} :: topics)
  end.

(** The identifier that applies to every filter of a SUBSCRIBE. *)
Definition sectionSubID (props : option Properties) : option Z :=
  match props with Some p => head (SubscriptionIdentifier p) | None => None end.

(** The packet identifier that SUBSCRIBE, SUBACK, UNSUBSCRIBE and UNSUBACK start
    with, read off the connection once the length is known to cover it. *)
Definition decodePacketID (fh : FixedHeader) : M bytes Z :=
  if RemainingLength fh <? 2 then throw ErrMalformedPacket else
  packetID ← readUint16;
  if packetID =? 0 then throw ErrMalformedPacket else mret packetID.

(** subscribe.go, decodeSubscribe *)
Definition decodeSubscribe (c : Codec) (fh : FixedHeader) : M bytes SubscribePacket :=
  packetID ← decodePacketID fh;
  data ← readFull (RemainingLength fh - 2);
  runOn (props ← decodeSection c locusSubscribe;
    rest ← get;
    topics ← decodeFilters (length rest) c (sectionSubID props);
    if len topics =? 0 then throw ErrMalformedPacket else
    mret {| sub_FixedHeader := fh; sub_PacketID := packetID; sub_Topics := topics;
            sub_Properties := props |}) data.

(** subscribe.go: after the packet identifier a SUBACK or UNSUBACK has an
    optional property section and reason codes to its end. *)
Definition decodeCodes (c : Codec) (locus : propertyLocus) (fh : FixedHeader)
    : M bytes (option Properties * bytes) :=
  let remaining := RemainingLength fh - 2 in
  if 0 <? remaining then
    data ← readFull remaining;
    runOn (props ← decodeSection c locus;
      reasonLen ← rlen;
      codes ← (if 0 <? reasonLen then readFull reasonLen else mret []);
      mret (props, codes)) data
  else mret (None, []).

(** subscribe.go, decodeSubAck *)
Definition decodeSubAck (c : Codec) (fh : FixedHeader) : M bytes SubAckPacket :=
  packetID ← decodePacketID fh;
  '(props, codes) ← decodeCodes c locusSubAck fh;
  mret {| sack_FixedHeader := fh; sack_PacketID := packetID; sack_ReasonCodes := codes;
          sack_Properties := props |}.

(** subscribe.go, decodeUnsubAck *)
Definition decodeUnsubAck (c : Codec) (fh : FixedHeader) : M bytes SubAckPacket :=
  if negb (SpecReasonCodes (spec c)) && negb (RemainingLength fh =? 2) then throw ErrMalformedPacket else
  packetID ← decodePacketID fh;
  '(props, codes) ← decodeCodes c locusUnsubAck fh;
  mret {| sack_FixedHeader := fh; sack_PacketID := packetID; sack_ReasonCodes := codes;
          sack_Properties := props |}.

(** subscribe.go, decodeUnsubscribe *)
Fixpoint decodeTopics (fuel : nat) : M bytes (list bytes) :=
  left ← rlen;
  if left =? 0 then mret [] else
  match fuel with
  | O => throw (ErrText "fuel")
  | S fuel' =>
      topic ← readStringFromReader;
      topics ← decodeTopics fuel';
      mret (topic :: topics)
  end.

Definition decodeUnsubscribe (c : Codec) (fh : FixedHeader) : M bytes UnsubscribePacket :=
  packetID ← decodePacketID fh;
  data ← readFull (RemainingLength fh - 2);
  runOn (props ← decodeSection c locusUnsubscribe;
    rest ← get;
    topics ← decodeTopics (length rest);
    if len topics =? 0 then throw ErrMalformedPacket else
    mret {| unsub_FixedHeader := fh; unsub_PacketID := packetID; unsub_Topics := topics;
            unsub_Properties := props |}) data.

(** subscribe.go: the reason code and properties of a DISCONNECT or an AUTH; the
    check of the reason code comes between the two. *)
Definition decodeReason (locus : propertyLocus) (fh : FixedHeader) (code_ok : Z -> bool)
    : M bytes DisconnectPacket :=
  buf ← readFull (RemainingLength fh);
  runOn (reasonCode ← (if 0 <? RemainingLength fh then ReadByte else mret 0);
    if negb (code_ok reasonCode) then throw ErrMalformedPacket else
    props ← (if 1 <? RemainingLength fh then
               props ← decodeProperties locus;
               left ← rlen;
               if negb (left =? 0) then throw ErrMalformedPacket else mret props
             else mret None);
    mret {| dis_FixedHeader := fh; dis_ReasonCode := reasonCode; dis_Properties := props |}) buf.

(** subscribe.go, decodeDisconnect *)
Definition decodeDisconnect (c : Codec) (fh : FixedHeader) : M bytes DisconnectPacket :=
  if negb (SpecReasonCodes (spec c)) && (0 <? RemainingLength fh) then throw ErrMalformedPacket else
  decodeReason locusDisconnect fh (fun _ => true).

(** subscribe.go, validAuthReasonCode and decodeAuth *)
Definition validAuthReasonCode (code : Z) : bool :=
  (code =? AuthSuccess) || (code =? AuthContinueAuth) || (code =? AuthReAuth).

Definition decodeAuth (c : Codec) (fh : FixedHeader) : M bytes DisconnectPacket :=
  if negb (SpecAuthPacket (spec c)) then throw ErrInvalidPacket else
  decodeReason locusAuth fh validAuthReasonCode.

(** codec.go, Decode: the dispatch on the packet type.  [liftR] runs a decoder
    that does not touch the codec. *)
Definition liftR {A} (m : M bytes A) : M (Codec * bytes) A := fun '(c, r) =>
  let '(x, r') := m r in (x, (c, r')).

Definition decodeBody (c : Codec) (fh : FixedHeader) : M (Codec * bytes) Packet :=
  let t := PacketType fh in
  if t =? PacketTypeConnect then p ← decodeConnect fh; mret (PConnect p)
  else if t =? PacketTypeConnAck then p ← liftR (decodeConnAck c fh); mret (PConnAck p)
  else if t =? PacketTypePublish then p ← liftR (decodePublish c fh); mret (PPublish p)
  else if t =? PacketTypePubAck then p ← liftR (decodeAck c fh); mret (PPubAck p)
  else if t =? PacketTypePubRec then p ← liftR (decodeAck c fh); mret (PPubRec p)
  else if t =? PacketTypePubRel then p ← liftR (decodeAck c fh); mret (PPubRel p)
  else if t =? PacketTypePubComp then p ← liftR (decodeAck c fh); mret (PPubComp p)
  else if t =? PacketTypeSubscribe then p ← liftR (decodeSubscribe c fh); mret (PSubscribe p)
  else if t =? PacketTypeSubAck then p ← liftR (decodeSubAck c fh); mret (PSubAck p)
  else if t =? PacketTypeUnsubscribe then p ← liftR (decodeUnsubscribe c fh); mret (PUnsubscribe p)
  else if t =? PacketTypeUnsubAck then p ← liftR (decodeUnsubAck c fh); mret (PUnsubAck p)
  else if t =? PacketTypePingReq then
    if negb (RemainingLength fh =? 0) then throw ErrMalformedPacket else mret (PPingReq fh)
  else if t =? PacketTypePingResp then
    if negb (RemainingLength fh =? 0) then throw ErrMalformedPacket else mret (PPingResp fh)
  else if t =? PacketTypeDisconnect then p ← liftR (decodeDisconnect c fh); mret (PDisconnect p)
  else if t =? PacketTypeAuth then p ← liftR (decodeAuth c fh); mret (PAuth p)
  else throw ErrInvalidPacket.

Definition maxRemainingLength : Z := 256 * 1024 * 1024 - 1.

Definition Decode : M (Codec * bytes) Packet := fun '(c, r) =>
  (fh ← liftR decodeFixedHeader;
   _ ← lift_res (validateFixedHeaderFlags fh);
   if (RemainingLength fh <? 0) || (maxRemainingLength <? RemainingLength fh)
   then throw ErrPacketTooLarge else
   if maxPacketSize c <? RemainingLength fh + HeaderSize fh then throw ErrPacketTooLarge else
   decodeBody (syncSpec c) fh) (syncSpec c, r).

(** ** Encoders: the body of each packet *)

Definition with_length (fh : FixedHeader) (n : Z) : FixedHeader :=
  {| PacketType := PacketType fh; Dup := Dup fh; QoS := QoS fh; Retain := Retain fh;
     RemainingLength := n; HeaderSize := HeaderSize fh |}.

(** encodeSubscribe, encodeUnsubscribe and encodePubRel force the reserved bits. *)
Definition with_reserved (fh : FixedHeader) : FixedHeader :=
  {| PacketType := PacketType fh; Dup := Dup fh; QoS := 1; Retain := false;
     RemainingLength := RemainingLength fh; HeaderSize := HeaderSize fh |}.

Definition with_type (t : Z) (fh : FixedHeader) : FixedHeader :=
  {| PacketType := t; Dup := Dup fh; QoS := QoS fh; Retain := Retain fh;
     RemainingLength := RemainingLength fh; HeaderSize := HeaderSize fh |}.

(** connect.go, encodeConnect: the flags byte *)
Definition connectFlagsByte (f : ConnectFlags) : Z :=
  Z.lor (boolZ (UsernameFlag f) 128) (Z.lor (boolZ (PasswordFlag f) 64) (Z.lor (boolZ (WillRetain f) 32)
    (Z.lor (boolZ (WillFlag f) (Z.lor 4 (u8 (Z.shiftl (Z.land (WillQoS f) 3) 3))))
           (boolZ (CleanSession f) 2)))).

Definition putLenBytes (msg : string) (d : bytes) : res bytes :=
  if 65535 <? len d then Err (ErrText msg) else Ok (writeUint16 (u16 (len d)) ++ d).

(** connect.go, encodeConnect: [c] is the codec after setVersion *)
Definition encodeConnect_body (c : Codec) (p : ConnectPacket) : res bytes :=
  let f := Flags p in
  putAll [
    writeString (ProtocolName p);
    Ok [ProtocolVersion p];
    Ok [connectFlagsByte f];
    Ok (writeUint16 (KeepAlive p));
    writePropertySection c (con_Properties p) locusConnect;
    writeString (ClientID p);
    if WillFlag f then
      putAll [writePropertySection c (WillProperties p) locusWill;
              writeString (WillTopic p);
              putLenBytes "protocol: will message length exceeds MQTT max 65535" (WillMessage p)]
    else Ok [];
    if UsernameFlag f then writeString (Username p) else Ok [];
    if PasswordFlag f then putLenBytes "protocol: password length exceeds MQTT max 65535" (Password p)
    else Ok []].

(** connect.go, encodeConnAck *)
Definition encodeConnAck_body (c : Codec) (p : ConnAckPacket) : res bytes :=
  putAll [Ok [boolZ (SessionPresent p && ConnAckSessionPresent (spec c)) 1];
          Ok [cack_ReasonCode p];
          writePropertySection c (cack_Properties p) locusConnAck].

(** publish.go, encodePublish *)
Definition encodePublish_body (c : Codec) (p : PublishPacket) : res bytes :=
  let qos := QoS (pub_FixedHeader p) in
  if negb (publishTopic_ok c (pub_Topic p) (pub_Properties p)) then Err ErrMalformedPacket else
  if (qos =? 0) && negb (pub_PacketID p =? 0) then Err ErrMalformedPacket else
  if (0 <? qos) && (pub_PacketID p =? 0) then Err ErrMalformedPacket else
  putAll [writeString (pub_Topic p);
          Ok (if 0 <? qos then writeUint16 (pub_PacketID p) else []);
          writePropertySection c (pub_Properties p) locusPublish;
          Ok (Payload p)].

(** publish.go, encodeAckFields *)
Definition encodeAckFields (c : Codec) (p : AckPacket) : res bytes :=
  if ack_PacketID p =? 0 then Err ErrMalformedPacket else
  if negb (SpecReasonCodes (spec c)) &&
     (negb (ack_ReasonCode p =? 0) || negb (bool_decide (ack_Properties p = None)))
  then Err ErrMalformedPacket else
  putAll [Ok (writeUint16 (ack_PacketID p));
          Ok (if negb (ack_ReasonCode p =? 0) || negb (bool_decide (ack_Properties p = None))
              then [ack_ReasonCode p] else []);
          match ack_Properties p with Some ps => encodeProperties ps locusAck | None => Ok [] end].

(** subscribe.go, encodeSubscribe *)
Definition filterOptions (f : TopicFilter) : Z :=
  Z.lor (Z.lor (Z.lor (Z.land (tf_QoS f) 3) (boolZ (NoLocal f) 4)) (boolZ (RetainAsPublished f) 8))
        (u8 (Z.shiftl (Z.land (RetainHandling f) 3) 4)).

Definition encodeFilter (f : TopicFilter) : res bytes :=
  if (2 <? tf_QoS f) || (2 <? RetainHandling f) then Err ErrMalformedPacket
  else b ← writeString (tf_Topic f); Ok (b ++ [filterOptions f]).

Definition encodeSubscribe_body (c : Codec) (p : SubscribePacket) : res bytes :=
  if sub_PacketID p =? 0 then Err ErrMalformedPacket else
  putAll [Ok (writeUint16 (sub_PacketID p));
          writePropertySection c (sub_Properties p) locusSubscribe;
          putAll (map encodeFilter (sub_Topics p));
          if len (sub_Topics p) =? 0 then Err ErrMalformedPacket else Ok []].

(** subscribe.go, encodeSubAck and encodeUnsubAck *)
Definition encodeSubAck_body (c : Codec) (p : SubAckPacket) : res bytes :=
  if sack_PacketID p =? 0 then Err ErrMalformedPacket else
  putAll [Ok (writeUint16 (sack_PacketID p));
          writePropertySection c (sack_Properties p) locusSubAck;
          Ok (sack_ReasonCodes p)].

Definition encodeUnsubAck_body (c : Codec) (p : SubAckPacket) : res bytes :=
  if negb (SpecReasonCodes (spec c)) &&
     ((0 <? len (sack_ReasonCodes p)) || negb (bool_decide (sack_Properties p = None)))
  then Err ErrMalformedPacket else
  if sack_PacketID p =? 0 then Err ErrMalformedPacket else
  putAll [Ok (writeUint16 (sack_PacketID p));
          writePropertySection c (sack_Properties p) locusUnsubAck;
          Ok (sack_ReasonCodes p)].

(** subscribe.go, encodeUnsubscribe *)
Definition encodeUnsubscribe_body (c : Codec) (p : UnsubscribePacket) : res bytes :=
  if unsub_PacketID p =? 0 then Err ErrMalformedPacket else
  putAll [Ok (writeUint16 (unsub_PacketID p));
          writePropertySection c (unsub_Properties p) locusUnsubscribe;
          putAll (map writeString (unsub_Topics p));
          if len (unsub_Topics p) =? 0 then Err ErrMalformedPacket else Ok []].

(** subscribe.go, encodeDisconnect and encodeAuth *)
Definition encodeReason (locus : propertyLocus) (p : DisconnectPacket) : res bytes :=
  putAll [Ok (if negb (dis_ReasonCode p =? 0) || negb (bool_decide (dis_Properties p = None))
              then [dis_ReasonCode p] else []);
          match dis_Properties p with Some ps => encodeProperties ps locus | None => Ok [] end].

Definition encodeDisconnect_body (c : Codec) (p : DisconnectPacket) : res bytes :=
  if negb (SpecReasonCodes (spec c)) &&
     (negb (dis_ReasonCode p =? 0) || negb (bool_decide (dis_Properties p = None)))
  then Err ErrMalformedPacket else encodeReason locusDisconnect p.

Definition encodeAuth_body (c : Codec) (p : DisconnectPacket) : res bytes :=
  if negb (SpecAuthPacket (spec c)) then Err ErrInvalidPacket else
  if negb (validAuthReasonCode (dis_ReasonCode p)) then Err ErrMalformedPacket else
  encodeReason locusAuth p.

(** ** Writing packets out *)

(** io.Writer: one Write call, which may fail. *)
Class Writer (W : Type) := write : bytes -> M W unit.

(** bytes.Buffer: writes append and never fail. *)
#[export] Instance buffer_writer : Writer bytes := fun b w => (Ok tt, w ++ b).

Fixpoint writeAll `{Writer W} (bs : list bytes) : M W unit :=
  match bs with
  | [] => mret tt
  | b :: bs' => _ ← write b; writeAll bs'
  end.

(** The tail every encoder shares: the length of the body goes into the fixed
    header, then the header and the body are written. *)
Definition frame (fh : FixedHeader) (body : res bytes) : res (list bytes) :=
  b ← body; Ok [encodeFixedHeader (with_length fh (len b)); b].

(** codec.go, encodeTo: the dispatch on the packet.  The result is the sequence
    of Write calls. *)
Definition encodePacket (c : Codec) (p : Packet) : res (list bytes) :=
  match p with
  | PConnect q => frame (with_type PacketTypeConnect (con_FixedHeader q)) (encodeConnect_body c q)
  | PConnAck q => frame (cack_FixedHeader q) (encodeConnAck_body c q)
  | PPublish q => frame (pub_FixedHeader q) (encodePublish_body c q)
  | PPubAck q | PPubRec q | PPubComp q => frame (ack_FixedHeader q) (encodeAckFields c q)
  | PPubRel q => frame (with_reserved (ack_FixedHeader q)) (encodeAckFields c q)
  | PSubscribe q => frame (with_reserved (sub_FixedHeader q)) (encodeSubscribe_body c q)
  | PSubAck q => frame (sack_FixedHeader q) (encodeSubAck_body c q)
  | PUnsubscribe q => frame (with_reserved (unsub_FixedHeader q)) (encodeUnsubscribe_body c q)
  | PUnsubAck q => frame (sack_FixedHeader q) (encodeUnsubAck_body c q)
  | PPingReq fh | PPingResp fh => Ok [encodeFixedHeader (with_length fh 0)]
  | PDisconnect q => frame (dis_FixedHeader q) (encodeDisconnect_body c q)
  | PAuth q => frame (dis_FixedHeader q) (encodeAuth_body c q)
  end.

(** connect.go, encodeConnect binds the codec to the version of the packet. *)
Definition encodeVersion (p : Packet) (c : Codec) : Codec :=
  match p with PConnect q => setVersion (ProtocolVersion q) c | _ => c end.

Definition encodeTo `{Writer W} (p : Packet) : M (Codec * W) unit := fun '(c, w) =>
  let c := syncSpec c in
  match validateFixedHeaderFlags (GetFixedHeader p) with
  | Err e => (Err e, (c, w))
  | Ok _ =>
      let c := encodeVersion p c in
      match encodePacket c p with
      | Err e => (Err e, (c, w))
      | Ok bs => let '(r, w') := writeAll bs w in (r, (c, w'))
      end
  end.

(** codec.go, Encode *)
Definition Encode `{Writer W} (p : Packet) : M (Codec * W) unit := fun '(c, w) =>
  if outboundMax c <=? 0 then encodeTo p (c, w)
  else
    match encodeTo (W := bytes) p (c, []) with
    | (Err e, (c', _)) => (Err e, (c', w))
    | (Ok _, (c', buf)) =>
        if outboundMax c <? len buf then (Err ErrPacketTooLarge, (c', w))
        else let '(r, w') := write buf w in (r, (c', w'))
    end.
