(* ===== verification/CodecProofs.v ===== *)
(** * The codec: encoders and decoders against each other

    For every packet type: what the encoder writes is decoded to the packet it
    came from (header lengths filled in, an empty property set read as nil), and
    exactly the bytes of the packet are consumed. *)

From S2P Require Import Prelude Utf8 Wire Spec Topic Properties PropertiesProofs Packets Codec.
Open Scope Z_scope.

(** ** Shared steps *)

Lemma runOn_ok {A S} (m : M bytes A) bs a (s : S) :
  readsB m bs a -> len bs < 4294967296 -> runOn m bs s = (Ok a, s).
Proof.
  intros H Hl. unfold runOn, lift_res. specialize (H []). rewrite app_nil_r in H. by rewrite H.
Qed.

(** What an encoder does not check about the properties of a packet. *)
Definition section_wf (locus : propertyLocus) (o : option Properties) : bool :=
  match o with Some p => props_typed p && props_limits locus p | None => true end.

Lemma encodeProperties_reads p locus b :
  encodeProperties p locus = Ok b -> section_wf locus (Some p) = true -> len b < 268435456 ->
  readsB (decodeProperties locus) b (norm_section (Some p)).
Proof. intros H Hw Hl. apply andb_true_iff in Hw as [? ?]. by apply decode_encode_section. Qed.

Lemma section_reads c o locus b :
  writePropertySection c o locus = Ok b -> section_wf locus o = true -> len b < 268435456 ->
  readsB (decodeSection c locus) b (norm_section o).
Proof.
  unfold writePropertySection, decodeSection. intros H Hw Hl.
  destruct (SpecProperties (spec c)); cbn [negb] in H.
  - destruct o as [p|]; [by apply encodeProperties_reads|]. apply Ok_inj in H as <-.
    apply readsB_bind_end with (a := 0); [by apply reads_readsB, reads_readVarInt | done].
  - destruct o; [done|]. apply Ok_inj in H as <-. apply reads_readsB, reads_ret.
Qed.

Lemma writeString_reads s b : writeString s = Ok b -> reads readString b s.
Proof. intros [Hs ->]%writeString_inv. by apply reads_readString. Qed.

Lemma writeString_readsR s b : writeString s = Ok b -> reads readStringFromReader b s.
Proof. intros [Hs ->]%writeString_inv. by apply reads_readStringFromReader. Qed.

Lemma putLenBytes_reads msg d b : putLenBytes msg d = Ok b -> reads readLenBytes b d.
Proof.
  unfold putLenBytes. destruct (65535 <? len d) eqn:E; [done|]. bools. intros H%Ok_inj. subst b.
  pose proof (len_nonneg d). rewrite u16_small by lia.
  eapply reads_bind; [apply reads_readUint16; lia|].
  destruct (0 <? len d) eqn:E0; bools; [by apply reads_readFull|].
  rewrite (len_0_inv d) by lia. apply reads_ret.
Qed.

(** At the end of the buffer nothing is left. *)
Definition readsAll {A} (m : M bytes A) (bs : bytes) (a : A) : Prop := m bs = (Ok a, []).

Lemma readsAll_bind {A B} (m : M bytes A) (f : A -> M bytes B) bs bs' a b :
  readsB m bs a -> len (bs ++ bs') < 4294967296 -> readsAll (f a) bs' b -> readsAll (m ≫= f) (bs ++ bs') b.
Proof. intros H1 Hl H2. unfold readsAll. by rewrite (M_bind_ok _ _ _ _ _ (H1 _ Hl)). Qed.

Lemma readsAll_rlen {B} (f : Z -> M bytes B) bs b :
  readsAll (f (len bs)) bs b -> readsAll (rlen ≫= f) bs b.
Proof. done. Qed.

Lemma readsAll_get {B} (f : bytes -> M bytes B) bs b :
  readsAll (f bs) bs b -> readsAll (get ≫= f) bs b.
Proof. done. Qed.

Lemma readsAll_ret {A} (a : A) : readsAll (mret a) [] a.
Proof. done. Qed.

Lemma runOn_all {A S} (m : M bytes A) bs a (s : S) :
  readsAll m bs a -> runOn m bs s = (Ok a, s).
Proof. intros H. unfold runOn, lift_res. by rewrite H. Qed.

(** Successive writes: the parts of a body. *)
Ltac parts H :=
  repeat match type of H with
  | putAll (_ :: _) = Ok _ =>
      let b1 := fresh "b" in let b2 := fresh "b" in let E := fresh "E" in
      apply putAll_cons in H as (b1 & b2 & E & H & ->)
  | putAll [] = Ok _ => apply Ok_inj in H as <-
  end;
  repeat match goal with H : Ok _ = Ok _ |- _ => apply Ok_inj in H; subst end.

(** Name the one part that is not a plain write. *)
Ltac the_part E bp :=
  rename select (_ = Ok _) into E; match type of E with _ = Ok ?x => rename x into bp end.

Lemma len_u16 v : len (writeUint16 v) = 2.
Proof. done. Qed.

Lemma writeVarInt_nonempty v : 0 < len (writeVarInt v).
Proof. unfold writeVarInt. cbn [writeVarInt_loop]. rewrite len_cons. match goal with |- context [len ?l] => pose proof (len_nonneg l) end. lia. Qed.

Lemma encodeProperties_nonempty p locus b : encodeProperties p locus = Ok b -> 0 < len b.
Proof.
  unfold encodeProperties. intros H. do 2 bind_inv H.
  destruct (len a0 =? 0); apply Ok_inj in H as <-; rewrite ?len_app;
    pose proof (writeVarInt_nonempty 0); pose proof (writeVarInt_nonempty (u32 (len a0)));
    pose proof (len_nonneg a0); lia.
Qed.

(** The reason code and properties that end an acknowledgement, a DISCONNECT or
    an AUTH. *)
Lemma tail_props locus ps b :
  match ps with Some q => encodeProperties q locus | None => Ok [] end = Ok b ->
  section_wf locus ps = true -> len b < 268435456 ->
  readsAll (if 0 <? len b then
              props ← decodeProperties locus;
              left ← rlen;
              if negb (left =? 0) then throw ErrMalformedPacket else mret props
            else mret None) b (norm_section ps).
Proof.
  intros H Hw Hl. destruct ps as [q|].
  - pose proof (encodeProperties_nonempty _ _ _ H). rewrite (proj2 (Z.ltb_lt 0 _)) by done.
    rewrite <- (app_nil_r b). apply readsAll_bind with (a := norm_section (Some q)); [| rewrite app_nil_r; lia |].
    + by apply encodeProperties_reads.
    + done.
  - by apply Ok_inj in H as <-.
Qed.

(** Whether the reason code is written, and what that means when it is not. *)
Definition has_code (code : Z) (ps : option Properties) : bool :=
  negb (code =? 0) || negb (bool_decide (ps = None)).

Lemma has_code_false code ps : has_code code ps = false -> code = 0 /\ ps = None.
Proof. unfold has_code. intros. bools. done. Qed.

Lemma ack_reads c fh p b :
  encodeAckFields c p = Ok b -> 0 <= ack_PacketID p < 65536 ->
  section_wf locusAck (ack_Properties p) = true -> len b < 268435456 -> RemainingLength fh = len b ->
  reads (decodeAckFields c fh) b
    (ack_PacketID p, ack_ReasonCode p, norm_section (ack_Properties p)).
Proof.
  unfold encodeAckFields, decodeAckFields. fold (has_code (ack_ReasonCode p) (ack_Properties p)).
  intros H Hid Hw Hl Hrl. destruct (ack_PacketID p =? 0) eqn:E0; [done|].
  destruct (negb (SpecReasonCodes (spec c)) && _) eqn:Ev in H; [done|]. parts H.
  rewrite app_nil_r in *. the_part E bp.
  pose proof (tail_props locusAck (ack_Properties p) bp E Hw) as Ht.
  pose proof (len_nonneg bp).
  destruct (has_code _ _) eqn:Ec; rewrite !len_app, len_u16 in Hl, Hrl.
  - rewrite len_single in *. rewrite andb_true_r in Ev. rewrite Ev. cbn [andb].
    rewrite (proj2 (Z.ltb_ge (RemainingLength fh) 2)) by lia.
    eapply reads_bind_end; [apply reads_readFull; rewrite !len_app, len_u16, len_single; lia|].
    intros rest. apply runOn_all.
    eapply readsAll_bind; [apply reads_readsB, reads_readUint16FromReader; lia
      | rewrite !len_app, len_u16, len_single; lia |].
    rewrite E0. apply readsAll_rlen.
    replace (0 <? len ([ack_ReasonCode p] ++ bp)) with true
      by (symmetry; apply Z.ltb_lt; rewrite len_app, len_single; lia).
    eapply readsAll_bind; [apply reads_readsB, reads_readByte | rewrite len_app, len_single; lia |].
    apply readsAll_rlen. unfold readsAll. erewrite M_bind_ok; [|apply Ht; lia]. done.
  - apply has_code_false in Ec as [Hc Hp]. rewrite Hp in *. apply Ok_inj in E. subst bp.
    rewrite len_nil in *. rewrite (proj2 (Z.ltb_ge (RemainingLength fh) 2)) by lia.
    rewrite (proj2 (Z.eqb_eq (RemainingLength fh) 2)), andb_false_r by lia. cbn [app].
    eapply reads_bind_end; [by apply reads_readFull; rewrite app_nil_r|].
    intros rest. apply runOn_all.
    eapply readsAll_bind; [apply reads_readsB, reads_readUint16FromReader; lia | done |].
    rewrite E0, Hc. done.
Qed.

Lemma reads_decodePacketID fh id :
  2 <= RemainingLength fh -> 0 < id < 65536 -> reads (decodePacketID fh) (writeUint16 id) id.
Proof.
  intros Hr Hid. unfold decodePacketID. rewrite (proj2 (Z.ltb_ge _ 2)) by lia.
  eapply reads_bind_end; [apply reads_readUint16; lia|].
  rewrite (proj2 (Z.eqb_neq id 0)) by lia. apply reads_ret.
Qed.

(** The rest of a buffer, whatever it is. *)
Lemma readsAll_rest (bs : bytes) :
  readsAll (n ← rlen; if 0 <? n then readFull n else mret []) bs bs.
Proof.
  apply readsAll_rlen. destruct (0 <? len bs) eqn:E; bools.
  - unfold readsAll. pose proof (reads_readFull bs _ eq_refl []) as H. by rewrite app_nil_r in H.
  - pose proof (len_nonneg bs). rewrite (len_0_inv bs) by lia. apply readsAll_ret.
Qed.

Lemma readsAll_bind_end {A B} (m : M bytes A) (f : A -> M bytes B) bs a b :
  readsAll m bs a -> readsAll (f a) [] b -> readsAll (m ≫= f) bs b.
Proof. unfold readsAll. intros H1 H2. by rewrite (M_bind_ok _ _ _ _ _ H1). Qed.

Lemma M_bind_assoc {S A B C} (m : M S A) (f : A -> M S B) (g : B -> M S C) s :
  ((m ≫= f) ≫= g) s = (m ≫= fun a => f a ≫= g) s.
Proof. unfold mbind, M_bind. by destruct (m s) as [[]]. Qed.

Lemma codes_reads c locus fh o bp codes :
  writePropertySection c o locus = Ok bp -> section_wf locus o = true ->
  len (bp ++ codes) < 268435456 -> RemainingLength fh = 2 + len (bp ++ codes) ->
  reads (decodeCodes c locus fh) (bp ++ codes) (norm_section o, codes).
Proof.
  intros Hp Hw Hl Hr. unfold decodeCodes. cbn zeta.
  replace (RemainingLength fh - 2) with (len (bp ++ codes)) by lia.
  rewrite len_app in Hl. pose proof (len_nonneg bp). pose proof (len_nonneg codes).
  pose proof (section_reads c o locus bp Hp Hw ltac:(lia)) as Hsec.
  destruct (0 <? len (bp ++ codes)) eqn:E; bools.
  - eapply reads_bind_end; [by apply reads_readFull|].
    intros rest. apply runOn_all. eapply readsAll_bind; [done | rewrite len_app; lia |].
    pose proof (readsAll_rest codes) as Hc. unfold readsAll in *.
    rewrite <- M_bind_assoc. erewrite M_bind_ok; [|exact Hc]. done.
  - rewrite len_app in E. assert (bp = []) as -> by (apply len_0_inv; lia).
    assert (codes = []) as -> by (apply len_0_inv; lia).
    unfold writePropertySection in Hp. destruct (SpecProperties (spec c)); cbn [negb] in Hp.
    + destruct o as [q|].
      * by apply encodeProperties_nonempty in Hp.
      * apply Ok_inj in Hp. pose proof (writeVarInt_nonempty 0). rewrite Hp in *. done.
    + by destruct o.
Qed.

Lemma suback_reads c fh p b :
  encodeSubAck_body c p = Ok b -> 0 <= sack_PacketID p < 65536 ->
  section_wf locusSubAck (sack_Properties p) = true -> len b < 268435456 -> RemainingLength fh = len b ->
  reads (decodeSubAck c fh) b
    {| sack_FixedHeader := fh; sack_PacketID := sack_PacketID p;
       sack_ReasonCodes := sack_ReasonCodes p; sack_Properties := norm_section (sack_Properties p) |}.
Proof.
  unfold encodeSubAck_body, decodeSubAck. intros H Hid Hw Hl Hrl.
  destruct (sack_PacketID p =? 0) eqn:E0; [done|]. bools. parts H. rewrite app_nil_r in *.
  rename select (_ = Ok _) into E. rewrite len_app, len_u16 in Hl, Hrl.
  match goal with |- reads _ (_ ++ ?x) _ => pose proof (len_nonneg x) end.
  eapply reads_bind; [apply reads_decodePacketID; lia|].
  eapply reads_bind_end; [apply codes_reads; try done; lia|]. apply reads_ret.
Qed.

Lemma unsuback_reads c fh p b :
  encodeUnsubAck_body c p = Ok b -> 0 <= sack_PacketID p < 65536 -> codec_ok c ->
  section_wf locusUnsubAck (sack_Properties p) = true -> len b < 268435456 -> RemainingLength fh = len b ->
  reads (decodeUnsubAck c fh) b
    {| sack_FixedHeader := fh; sack_PacketID := sack_PacketID p;
       sack_ReasonCodes := sack_ReasonCodes p; sack_Properties := norm_section (sack_Properties p) |}.
Proof.
  unfold encodeUnsubAck_body, decodeUnsubAck. intros H Hid Hc Hw Hl Hrl.
  destruct (negb (SpecReasonCodes (spec c)) && _) eqn:Ev in H; [done|].
  destruct (sack_PacketID p =? 0) eqn:E0; [done|]. bools. parts H. rewrite app_nil_r in *.
  rename select (_ = Ok _) into E. rewrite len_app, len_u16 in Hl, Hrl.
  match goal with |- reads _ (_ ++ ?x) _ => pose proof (len_nonneg x) end.
  replace (_ && _) with false; cycle 1.
  { symmetry. apply andb_false_iff. apply andb_false_iff in Ev as [Ev|Ev]; [by left|].
    destruct (SpecReasonCodes (spec c)) eqn:Es; [by left | right]. bools.
    assert (SpecProperties (spec c) = false) as Hp.
    { rewrite Hc in *. by destruct (spec_for_cases (protocolVersion c)) as [[_ Hx]|[[_ Hx]|(_ & _ & Hx)]];
        rewrite Hx in *. }
    unfold writePropertySection in E. rewrite Hp in E. cbn [negb] in E.
    assert (sack_Properties p = None) as Hn by done. rewrite Hn in E. apply Ok_inj in E. subst.
    assert (sack_ReasonCodes p = []) as Hz
      by (apply len_0_inv; pose proof (len_nonneg (sack_ReasonCodes p)); lia).
    apply negb_false_iff, Z.eqb_eq. by rewrite Hrl, Hz. }
  eapply reads_bind; [apply reads_decodePacketID; lia|].
  eapply reads_bind_end; [apply codes_reads; try done; lia|]. apply reads_ret.
Qed.

(** ** CONNACK, DISCONNECT and AUTH *)

Lemma connack_reads c fh p b :
  encodeConnAck_body c p = Ok b -> codec_ok c ->
  section_wf locusConnAck (cack_Properties p) = true -> len b < 268435456 -> RemainingLength fh = len b ->
  reads (decodeConnAck c fh) b
    {| cack_FixedHeader := fh; cack_ReasonCode := cack_ReasonCode p;
       SessionPresent := SessionPresent p && ConnAckSessionPresent (spec c);
       cack_Properties := norm_section (cack_Properties p) |}.
Proof.
  unfold encodeConnAck_body, decodeConnAck. intros H Hc Hw Hl Hrl. parts H. rewrite app_nil_r in *.
  the_part E bp.
  eapply reads_bind_end; [by apply reads_readFull|]. intros rest. apply runOn_all.
  rewrite !len_app, !len_single in Hl, Hrl. pose proof (len_nonneg bp).
  eapply readsAll_bind; [apply reads_readsB, reads_ReadByte | rewrite !len_app, !len_single; lia |].
  eapply readsAll_bind; [apply reads_readsB, reads_ReadByte | rewrite !len_app, !len_single; lia |].
  assert (negb (Z.land (boolZ (SessionPresent p && ConnAckSessionPresent (spec c)) 1) 1 =? 0)
          = SessionPresent p && ConnAckSessionPresent (spec c)) as -> by (by destruct (_ && _)).
  unfold writePropertySection in E. destruct (SpecProperties (spec c)); cbn [negb andb] in *.
  - assert (readsB (decodeProperties locusConnAck) bp (norm_section (cack_Properties p))) as Hr.
    { destruct (cack_Properties p) as [q|]; [apply encodeProperties_reads; (done || lia)|].
      apply Ok_inj in E as <-.
      apply readsB_bind_end with (a := 0); [by apply reads_readsB, reads_readVarInt | done]. }
    assert (0 < len bp) as Hpos.
    { destruct (cack_Properties p); [by eapply encodeProperties_nonempty|].
      apply Ok_inj in E as <-. apply writeVarInt_nonempty. }
    rewrite (proj2 (Z.ltb_lt 2 _)) by lia. rewrite <- (app_nil_r bp) at 1.
    unfold readsAll. rewrite M_bind_assoc. erewrite M_bind_ok; [|apply Hr; rewrite app_nil_r; lia]. done.
  - destruct (cack_Properties p); [done|]. apply Ok_inj in E. subst bp.
    rewrite (proj2 (Z.eqb_eq (RemainingLength fh) 2)) by (rewrite Hrl; done). done.
Qed.

Lemma reason_reads locus code_ok fh p b :
  encodeReason locus p = Ok b -> code_ok (dis_ReasonCode p) = true ->
  section_wf locus (dis_Properties p) = true -> len b < 268435456 -> RemainingLength fh = len b ->
  reads (decodeReason locus fh code_ok) b
    {| dis_FixedHeader := fh; dis_ReasonCode := dis_ReasonCode p;
       dis_Properties := norm_section (dis_Properties p) |}.
Proof.
  unfold encodeReason, decodeReason. fold (has_code (dis_ReasonCode p) (dis_Properties p)).
  intros H Hc Hw Hl Hrl. parts H. rewrite app_nil_r in *.
  the_part E bp. pose proof (len_nonneg bp).
  pose proof (tail_props locus (dis_Properties p) bp E Hw) as Ht.
  eapply reads_bind_end; [by apply reads_readFull|]. intros rest. apply runOn_all.
  destruct (has_code _ _) eqn:Ec.
  - rewrite len_app, len_single in Hl, Hrl. rewrite (proj2 (Z.ltb_lt 0 _)) by lia.
    eapply readsAll_bind; [apply reads_readsB, reads_ReadByte | rewrite !len_app, !len_single; lia |].
    rewrite Hc. cbn [negb].
    replace (1 <? RemainingLength fh) with (0 <? len bp)
      by (destruct (0 <? len bp) eqn:?, (1 <? RemainingLength fh) eqn:?; bools; done || lia).
    unfold readsAll. erewrite M_bind_ok; [|apply Ht; lia]. done.
  - apply has_code_false in Ec as [Hz Hp]. rewrite Hp, Hz in *. apply Ok_inj in E. subst bp.
    replace (RemainingLength fh) with 0 by (by rewrite Hrl).
    change (0 <? 0) with false. change (1 <? 0) with false.
    unfold readsAll, mbind, M_bind, mret, M_ret. by rewrite Hc.
Qed.

Lemma disconnect_reads c fh p b :
  encodeDisconnect_body c p = Ok b ->
  section_wf locusDisconnect (dis_Properties p) = true -> len b < 268435456 -> RemainingLength fh = len b ->
  reads (decodeDisconnect c fh) b
    {| dis_FixedHeader := fh; dis_ReasonCode := dis_ReasonCode p;
       dis_Properties := norm_section (dis_Properties p) |}.
Proof.
  unfold encodeDisconnect_body, decodeDisconnect. fold (has_code (dis_ReasonCode p) (dis_Properties p)).
  intros H Hw Hl Hrl. destruct (negb (SpecReasonCodes (spec c)) && _) eqn:Ev in H; [done|].
  replace (_ && _) with false; [by apply reason_reads|].
  symmetry. apply andb_false_iff. apply andb_false_iff in Ev as [Ev|Ev]; [by left | right].
  unfold encodeReason in H. fold (has_code (dis_ReasonCode p) (dis_Properties p)) in H. rewrite Ev in H.
  apply has_code_false in Ev as [_ Hp]. rewrite Hp in H. parts H. by rewrite Hrl.
Qed.

Lemma auth_reads c fh p b :
  encodeAuth_body c p = Ok b ->
  section_wf locusAuth (dis_Properties p) = true -> len b < 268435456 -> RemainingLength fh = len b ->
  reads (decodeAuth c fh) b
    {| dis_FixedHeader := fh; dis_ReasonCode := dis_ReasonCode p;
       dis_Properties := norm_section (dis_Properties p) |}.
Proof.
  unfold encodeAuth_body, decodeAuth. intros H Hw Hl Hrl.
  destruct (SpecAuthPacket (spec c)); [|done]. cbn [negb] in *.
  destruct (validAuthReasonCode (dis_ReasonCode p)) eqn:Ev; [|done]. by apply reason_reads.
Qed.

(** ** PUBLISH *)

Lemma publishTopic_norm c topic o :
  publishTopic_ok c topic o = true -> publishTopic_ok c topic (norm_section o) = true.
Proof.
  unfold publishTopic_ok. destruct (len topic =? 0); [|done]. intros H. apply andb_true_iff in H as [-> H].
  destruct o as [p|]; [|done]. cbn [norm_section]. case_bool_decide as He; [by subst | done].
Qed.

(** The payload, with the property section in front of it in MQTT 5.0. *)
Lemma payload_reads c o bp payload remaining :
  writePropertySection c o locusPublish = Ok bp -> section_wf locusPublish o = true ->
  remaining = len (bp ++ payload) -> remaining < 268435456 ->
  reads (if SpecProperties (spec c) then
       data ← (if 0 <? remaining then readFull remaining else mret []);
       runOn (props ← decodeProperties locusPublish; payload ← get; mret (props, payload)) data
     else if 0 <? remaining then payload ← readFull remaining; mret (None, payload)
     else mret (None, [])) (bp ++ payload) (norm_section o, payload).
Proof.
  intros Hp Hw -> Hl. rewrite len_app in Hl. pose proof (len_nonneg bp). pose proof (len_nonneg payload).
  pose proof (section_reads c o locusPublish bp Hp Hw ltac:(lia)) as Hsec.
  unfold decodeSection in Hsec. unfold writePropertySection in Hp.
  destruct (SpecProperties (spec c)); cbn [negb] in *.
  - assert (0 < len bp) as Hpos.
    { destruct o; [by eapply encodeProperties_nonempty|]. apply Ok_inj in Hp as <-. apply writeVarInt_nonempty. }
    rewrite (proj2 (Z.ltb_lt 0 _)) by (rewrite len_app; lia).
    eapply reads_bind_end; [by apply reads_readFull|]. intros rest. unfold runOn, lift_res.
    rewrite (M_bind_ok _ _ _ _ _ (Hsec payload ltac:(rewrite len_app; lia))). done.
  - destruct o; [done|]. apply Ok_inj in Hp as <-. cbn [app].
    destruct (0 <? len payload) eqn:E; bools.
    + eapply reads_bind_end; [by apply reads_readFull | apply reads_ret].
    + rewrite (len_0_inv payload) by lia. apply reads_ret.
Qed.

Lemma publish_reads c fh p b :
  encodePublish_body c p = Ok b -> 0 <= pub_PacketID p < 65536 -> QoS fh = QoS (pub_FixedHeader p) ->
  0 <= QoS fh -> section_wf locusPublish (pub_Properties p) = true ->
  len b < 268435456 -> RemainingLength fh = len b ->
  reads (decodePublish c fh) b
    {| pub_FixedHeader := fh; pub_PacketID := pub_PacketID p; pub_Topic := pub_Topic p;
       Payload := Payload p; pub_Properties := norm_section (pub_Properties p) |}.
Proof.
  unfold encodePublish_body, decodePublish. intros H Hid Hq Hq0 Hw Hl Hrl. rewrite <- Hq in H.
  destruct (publishTopic_ok c (pub_Topic p) (pub_Properties p)) eqn:Et; [|done]. cbn [negb] in H.
  destruct ((QoS fh =? 0) && _) eqn:E1 in H; [done|].
  destruct ((0 <? QoS fh) && _) eqn:E2 in H; [done|]. parts H. rewrite app_nil_r in *.
  rename select (writeString _ = _) into Es. the_part E bp.
  apply writeString_inv in Es as [Hs ->]. rewrite !len_app in Hl, Hrl.
  change (len (putUint16 (len (pub_Topic p)))) with 2 in *.
  set (idb := if 0 <? QoS fh then _ else _) in *.
  pose proof (len_nonneg (pub_Topic p)). pose proof (len_nonneg idb).
  pose proof (len_nonneg bp). pose proof (len_nonneg (Payload p)).
  rewrite (proj2 (Z.ltb_ge _ 2)) by lia.
  eapply reads_bind; [apply reads_readStringBounded; [done | lia]|].
  eapply reads_bind with (a := (pub_PacketID p, 2 + len (pub_Topic p) + len idb)).
  - subst idb. destruct (0 <? QoS fh) eqn:Eq; bools.
    + rewrite len_u16 in *. rewrite (proj2 (Z.ltb_ge _ _)) by lia.
      eapply reads_bind_end; [by apply reads_readUint16|].
      rewrite (proj2 (Z.eqb_neq (pub_PacketID p) 0)); [apply reads_ret|].
      intros Hz. by rewrite Hz in E2.
    + replace (QoS fh) with 0 in E1 by lia. cbn in E1. bools. rewrite E1.
      change (len (@nil Z)) with 0. rewrite Z.add_0_r. apply reads_ret.
  - rewrite (proj2 (Z.ltb_ge _ 0)) by lia.
    eapply reads_bind_end; [apply payload_reads; [done | done | rewrite len_app; lia | lia]|].
    cbn beta iota. rewrite publishTopic_norm by done. apply reads_ret.
Qed.

(** ** SUBSCRIBE and UNSUBSCRIBE *)

(** A filter with values in the range of their types. *)
Definition filter_wf (c : Codec) (subID : option Z) (f : TopicFilter) : bool :=
  (0 <=? tf_QoS f) && (0 <=? RetainHandling f) &&
  bool_decide (tf_SubscriptionIdentifier f = subID) &&
  (SpecProperties (spec c) || (negb (NoLocal f) && negb (RetainAsPublished f) && (RetainHandling f =? 0))).

(** The options byte, over its 36 values. *)
Lemma filterOptions_fields q nl rap rh :
  0 <= q <= 2 -> 0 <= rh <= 2 ->
  let b := filterOptions {| tf_Topic := []; tf_QoS := q; NoLocal := nl; RetainAsPublished := rap;
                            RetainHandling := rh; tf_SubscriptionIdentifier := None |} in
  Z.land b 3 = q /\ negb (Z.land b 4 =? 0) = nl /\ negb (Z.land b 8 =? 0) = rap /\
  Z.land (Z.shiftr b 4) 3 = rh /\ Z.land b 192 = 0 /\
  (nl = false -> rap = false -> rh = 0 -> Z.land b 252 = 0).
Proof.
  intros Hq Hrh.
  assert (q = 0 \/ q = 1 \/ q = 2) as Hq' by lia. assert (rh = 0 \/ rh = 1 \/ rh = 2) as Hr' by lia.
  clear Hq Hrh. destruct Hq' as [->|[->| ->]], Hr' as [->|[->| ->]], nl, rap; vm_compute;
    repeat split; congruence.
Qed.

Lemma decodeFilters_reads c subID fs b fuel :
  putAll (map encodeFilter fs) = Ok b -> forallb (filter_wf c subID) fs = true ->
  len b < 4294967296 -> (length fs <= fuel)%nat -> readsAll (decodeFilters fuel c subID) b fs.
Proof.
  revert b fuel. induction fs as [|f fs IH]; intros b fuel H Hw Hl Hf.
  { apply Ok_inj in H as <-. by destruct fuel. }
  destruct fuel as [|fuel]; [cbn in Hf; lia|]. cbn [map] in H.
  apply putAll_cons in H as (b1 & b2 & H1 & H2 & ->). cbn [forallb] in Hw.
  apply andb_true_iff in Hw as [Hwf Hw]. unfold filter_wf in Hwf. bools.
  unfold encodeFilter in H1. destruct ((2 <? tf_QoS f) || _) eqn:Er in H1; [done|]. bools.
  bind_inv H1. apply Ok_inj in H1 as <-. apply writeString_inv in E as [Hs ->].
  destruct f as [tp q nl rap rh sid]. cbn [tf_Topic tf_QoS NoLocal RetainAsPublished RetainHandling
    tf_SubscriptionIdentifier] in *. subst sid.
  destruct (filterOptions_fields q nl rap rh) as (F1 & F2 & F3 & F4 & F5 & F6); [lia..|].
  unfold filterOptions in *. cbn [tf_QoS NoLocal RetainAsPublished RetainHandling] in *.
  set (opt := Z.lor _ _) in *. rewrite !len_app, len_single in Hl.
  change (len (putUint16 (len tp))) with 2 in Hl.
  pose proof (len_nonneg tp). pose proof (len_nonneg b2).
  cbn [decodeFilters]. apply readsAll_rlen. rewrite (proj2 (Z.eqb_neq _ 0))
    by (rewrite !len_app, len_single; change (len (putUint16 (len tp))) with 2; lia).
  rewrite <- app_assoc. eapply readsAll_bind; [by apply reads_readsB, reads_readStringFromReader
    | rewrite !len_app, len_single; change (len (putUint16 (len tp))) with 2; lia |].
  eapply readsAll_bind; [apply reads_readsB, reads_ReadByte | rewrite len_app, len_single; lia |].
  replace (negb (SpecProperties (spec c)) && _) with false; cycle 1.
  { symmetry. destruct (SpecProperties (spec c)); [done|]. cbn [negb andb orb] in *. bools.
    by rewrite F6. }
  rewrite F5, F1, F4. rewrite (proj2 (Z.eqb_neq q 3)), (proj2 (Z.eqb_neq rh 3)) by lia.
  change (negb (0 =? 0) || false || false) with false. cbn iota.
  eapply readsAll_bind_end; [apply (IH b2); [done | done | lia | cbn in Hf; lia]|].
  rewrite F2, F3. done.
Qed.

Lemma putAll_length l b :
  putAll l = Ok b -> Forall (fun r => forall x, r = Ok x -> x <> []) l -> (length l <= length b)%nat.
Proof.
  revert b. induction l as [|r l IH]; intros b H Hl; [cbn; lia|].
  apply putAll_cons in H as (b1 & b2 & H1 & H2 & ->). inversion_clear Hl as [|? ? Hr Hl'].
  apply IH in H2; [|done]. apply Hr in H1. rewrite length_app. destruct b1; [done|]. cbn. lia.
Qed.

Lemma encodeFilter_nonempty f x : encodeFilter f = Ok x -> x <> [].
Proof.
  unfold encodeFilter. destruct (_ || _); [done|]. intros H. bind_inv H. apply Ok_inj in H as <-.
  intros Hz. by apply app_eq_nil in Hz as [_ ?].
Qed.

Lemma writeString_nonempty s x : writeString s = Ok x -> x <> [].
Proof. by intros [_ ->]%writeString_inv. Qed.

Lemma Forall_map_all {A B} (P : B -> Prop) (f : A -> B) l : (forall x, P (f x)) -> Forall P (map f l).
Proof. intros H. induction l; cbn; constructor; auto. Qed.

Lemma decodeTopics_reads ts b fuel :
  putAll (map writeString ts) = Ok b -> len b < 4294967296 -> (length ts <= fuel)%nat ->
  readsAll (decodeTopics fuel) b ts.
Proof.
  revert b fuel. induction ts as [|t ts IH]; intros b fuel H Hl Hf.
  { apply Ok_inj in H as <-. by destruct fuel. }
  destruct fuel as [|fuel]; [cbn in Hf; lia|]. cbn [map] in H.
  apply putAll_cons in H as (b1 & b2 & H1 & H2 & ->).
  apply writeString_inv in H1 as [Hs ->]. rewrite !len_app in Hl.
  change (len (putUint16 (len t))) with 2 in Hl. pose proof (len_nonneg t). pose proof (len_nonneg b2).
  cbn [decodeTopics]. apply readsAll_rlen. rewrite (proj2 (Z.eqb_neq _ 0))
    by (rewrite !len_app; change (len (putUint16 (len t))) with 2; lia).
  eapply readsAll_bind; [by apply reads_readsB, reads_readStringFromReader
    | rewrite !len_app; change (len (putUint16 (len t))) with 2; lia |].
  eapply readsAll_bind_end; [apply (IH b2); [done | lia | cbn in Hf; lia] | done].
Qed.

(** The packet identifier, then a buffer that is parsed to its end. *)
Lemma idbody_reads {A} fh id body (k : Z -> M bytes A) a :
  0 <= id < 65536 -> id <> 0 -> RemainingLength fh = 2 + len body ->
  readsAll (k id) body a ->
  reads (packetID ← decodePacketID fh; data ← readFull (RemainingLength fh - 2); runOn (k packetID) data)
    (writeUint16 id ++ body) a.
Proof.
  intros Hid Hz Hr Hk. pose proof (len_nonneg body).
  eapply reads_bind; [apply reads_decodePacketID; lia|].
  eapply reads_bind_end; [apply reads_readFull; lia|]. intros rest. by apply runOn_all.
Qed.

Lemma subscribe_reads c fh p b :
  encodeSubscribe_body c p = Ok b -> 0 <= sub_PacketID p < 65536 ->
  section_wf locusSubscribe (sub_Properties p) = true ->
  forallb (filter_wf c (sectionSubID (norm_section (sub_Properties p)))) (sub_Topics p) = true ->
  len b < 268435456 -> RemainingLength fh = len b ->
  reads (decodeSubscribe c fh) b
    {| sub_FixedHeader := fh; sub_PacketID := sub_PacketID p; sub_Topics := sub_Topics p;
       sub_Properties := norm_section (sub_Properties p) |}.
Proof.
  unfold encodeSubscribe_body, decodeSubscribe. intros H Hid Hw Hf Hl Hrl.
  destruct (sub_PacketID p =? 0) eqn:E0; [done|]. bools. parts H. rewrite app_nil_r in *.
  rename select (writePropertySection _ _ _ = _) into Ep. rename select (putAll _ = _) into Et.
  match type of Ep with _ = Ok ?x => rename x into bp end.
  match type of Et with _ = Ok ?x => rename x into bt end.
  destruct (len (sub_Topics p) =? 0) eqn:En; [done|].
  match goal with E : Ok [] = Ok _ |- _ => apply Ok_inj in E; subst end.
  rewrite ?app_nil_r in *. rewrite !len_app, len_u16 in Hl, Hrl.
  pose proof (len_nonneg bp). pose proof (len_nonneg bt).
  pose proof (section_reads c _ _ _ Ep Hw ltac:(lia)) as Hsec.
  apply (idbody_reads fh (sub_PacketID p) (bp ++ bt)); [done | done | rewrite len_app; lia |].
  eapply readsAll_bind; [done | rewrite len_app; lia |]. apply readsAll_get.
  eapply readsAll_bind_end; [eapply decodeFilters_reads; [done | done | lia |]|].
  - rewrite <- (length_map encodeFilter). apply putAll_length; [done|].
    apply Forall_map_all. intros f x. apply encodeFilter_nonempty.
  - by rewrite En.
Qed.

Lemma unsubscribe_reads c fh p b :
  encodeUnsubscribe_body c p = Ok b -> 0 <= unsub_PacketID p < 65536 ->
  section_wf locusUnsubscribe (unsub_Properties p) = true ->
  len b < 268435456 -> RemainingLength fh = len b ->
  reads (decodeUnsubscribe c fh) b
    {| unsub_FixedHeader := fh; unsub_PacketID := unsub_PacketID p; unsub_Topics := unsub_Topics p;
       unsub_Properties := norm_section (unsub_Properties p) |}.
Proof.
  unfold encodeUnsubscribe_body, decodeUnsubscribe. intros H Hid Hw Hl Hrl.
  destruct (unsub_PacketID p =? 0) eqn:E0; [done|]. bools. parts H. rewrite app_nil_r in *.
  rename select (writePropertySection _ _ _ = _) into Ep. rename select (putAll _ = _) into Et.
  match type of Ep with _ = Ok ?x => rename x into bp end.
  match type of Et with _ = Ok ?x => rename x into bt end.
  destruct (len (unsub_Topics p) =? 0) eqn:En; [done|].
  match goal with E : Ok [] = Ok _ |- _ => apply Ok_inj in E; subst end.
  rewrite ?app_nil_r in *. rewrite !len_app, len_u16 in Hl, Hrl.
  pose proof (len_nonneg bp). pose proof (len_nonneg bt).
  pose proof (section_reads c _ _ _ Ep Hw ltac:(lia)) as Hsec.
  apply (idbody_reads fh (unsub_PacketID p) (bp ++ bt)); [done | done | rewrite len_app; lia |].
  eapply readsAll_bind; [done | rewrite len_app; lia |]. apply readsAll_get.
  eapply readsAll_bind_end; [eapply decodeTopics_reads; [done | lia |]|].
  - rewrite <- (length_map writeString). apply putAll_length; [done|].
    apply Forall_map_all. intros f x. apply writeString_nonempty.
  - by rewrite En.
Qed.

(** ** CONNECT *)

(** Flags that the flags byte carries in full. *)
Definition flags_wf (f : ConnectFlags) : bool :=
  (0 <=? WillQoS f) && (WillQoS f <? 4) && negb (Reserved f) && eqb (WillTopicFlag f) (WillFlag f) &&
  (WillFlag f || (WillQoS f =? 0)).

Lemma connectFlags_byte f : flags_wf f = true -> connectFlags (connectFlagsByte f) = f.
Proof.
  unfold flags_wf. intros H. bools.
  destruct f as [u pw wr wq wf wtf cs rs]. cbn [WillQoS Reserved WillTopicFlag WillFlag] in *.
  rename select (eqb _ _ = true) into Hwt. apply eqb_prop in Hwt. subst.
  assert (wq = 0 \/ wq = 1 \/ wq = 2 \/ wq = 3) as Hq by lia.
  destruct wf; cbn [orb] in *; bools; subst.
  - destruct Hq as [->|[->|[->| ->]]], u, pw, wr, cs; reflexivity.
  - destruct u, pw, wr, cs; reflexivity.
Qed.

Definition connect_wf (p : ConnectPacket) : bool :=
  flags_wf (Flags p) && (0 <=? KeepAlive p) && (KeepAlive p <? 65536) &&
  section_wf locusConnect (con_Properties p) &&
  (if WillFlag (Flags p) then section_wf locusWill (WillProperties p)
   else bool_decide (WillProperties p = None) && bool_decide (WillTopic p = []) &&
        bool_decide (WillMessage p = [])) &&
  (UsernameFlag (Flags p) || bool_decide (Username p = [])) &&
  (PasswordFlag (Flags p) || bool_decide (Password p = [])).

(** The packet that decoding returns. *)
Definition norm_connect (fh : FixedHeader) (p : ConnectPacket) : ConnectPacket :=
  {| con_FixedHeader := fh; ProtocolName := ProtocolName p; ProtocolVersion := ProtocolVersion p;
     Flags := Flags p; KeepAlive := KeepAlive p; ClientID := ClientID p; WillTopic := WillTopic p;
     WillMessage := WillMessage p; Username := Username p; Password := Password p;
     con_Properties := norm_section (con_Properties p);
     WillProperties := norm_section (WillProperties p) |}.

(** The optional parts of the payload. *)
Lemma will_reads c p b :
  (if WillFlag (Flags p) then
      putAll [writePropertySection c (WillProperties p) locusWill; writeString (WillTopic p);
              putLenBytes "protocol: will message length exceeds MQTT max 65535" (WillMessage p)]
    else Ok []) = Ok b -> connect_wf p = true -> len b < 268435456 ->
  readsB (if WillFlag (Flags p) then
       willProps ← decodeSection c locusWill;
       willTopic ← readString;
       willMessage ← readLenBytes;
       mret (willProps, willTopic, willMessage)
     else mret (None, [], [])) b (norm_section (WillProperties p), WillTopic p, WillMessage p).
Proof.
  intros H Hw Hl. unfold connect_wf in Hw. bools. destruct (WillFlag (Flags p)).
  - parts H. rewrite app_nil_r in *. rewrite !len_app in Hl.
    rename select (writePropertySection _ _ _ = _) into Ep.
    rename select (writeString _ = _) into Et. rename select (putLenBytes _ _ = _) into Em.
    repeat match goal with H : _ = Ok ?x |- _ => lazymatch goal with
      | _ : 0 <= len x |- _ => fail | _ => pose proof (len_nonneg x) end end.
    eapply readsB_bind; [by apply section_reads; (done || lia)|].
    eapply readsB_bind; [by apply reads_readsB, writeString_reads|].
    eapply readsB_bind_end; [by eapply reads_readsB, putLenBytes_reads | done].
  - apply Ok_inj in H as <-. bools.
    by repeat match goal with H : _ p = _ |- _ => rewrite H end.
Qed.

Lemma userpass_reads (f : bool) s (rd : M bytes bytes) b (w : res bytes) :
  (if f then w else Ok []) = Ok b -> f || bool_decide (s = []) = true ->
  (forall b, w = Ok b -> reads rd b s) -> readsB (if f then rd else mret []) b s.
Proof.
  intros H Hw Hr. destruct f; [by apply reads_readsB, Hr|]. cbn [orb] in Hw. bools. subst.
  apply Ok_inj in H as <-. done.
Qed.

Lemma connect_rest_reads c fh p b :
  putAll [Ok [connectFlagsByte (Flags p)]; Ok (writeUint16 (KeepAlive p));
    writePropertySection c (con_Properties p) locusConnect; writeString (ClientID p);
    if WillFlag (Flags p) then
      putAll [writePropertySection c (WillProperties p) locusWill; writeString (WillTopic p);
              putLenBytes "protocol: will message length exceeds MQTT max 65535" (WillMessage p)]
    else Ok [];
    if UsernameFlag (Flags p) then writeString (Username p) else Ok [];
    if PasswordFlag (Flags p) then putLenBytes "protocol: password length exceeds MQTT max 65535" (Password p)
    else Ok []] = Ok b ->
  connect_wf p = true -> len b < 268435456 ->
  readsAll (decodeConnect_rest c fh (ProtocolName p) (ProtocolVersion p)) b (norm_connect fh p).
Proof.
  intros H Hw Hl. pose proof Hw as Hw'. unfold connect_wf in Hw'. bools. parts H. rewrite app_nil_r in *.
  rename select (writePropertySection _ _ _ = _) into Ep. rename select (writeString _ = _) into Ec.
  rename select ((if WillFlag _ then _ else _) = _) into Ew.
  rename select ((if UsernameFlag _ then _ else _) = _) into Eu.
  rename select ((if PasswordFlag _ then _ else _) = _) into Epw.
  rewrite !len_app, len_u16, len_single in Hl.
  repeat match goal with H : _ = Ok ?x |- _ => lazymatch goal with
    | _ : 0 <= len x |- _ => fail | _ => pose proof (len_nonneg x) end end.
  unfold decodeConnect_rest.
  eapply readsAll_bind; [apply reads_readsB, reads_ReadByte | rewrite !len_app, len_u16, len_single; lia |].
  cbn beta zeta. rewrite connectFlags_byte by done.
  eapply readsAll_bind; [apply reads_readsB, reads_readUint16; lia | rewrite !len_app, len_u16; lia |].
  eapply readsAll_bind; [apply section_reads; (done || lia) | rewrite !len_app; lia |].
  eapply readsAll_bind; [by apply reads_readsB, writeString_reads | rewrite !len_app; lia |].
  eapply readsAll_bind; [apply will_reads; (done || lia) | rewrite !len_app; lia |]. cbn beta iota.
  eapply readsAll_bind; [eapply userpass_reads; [done | done | apply writeString_reads] | rewrite !len_app; lia |].
  eapply readsAll_bind_end.
  { pose proof (userpass_reads _ _ _ _ _ Epw ltac:(done) (putLenBytes_reads _ _) []) as Hpw.
    rewrite app_nil_r in Hpw. apply Hpw. lia. }
  done.
Qed.

Lemma writePropertySection_spec c c' o locus :
  spec c = spec c' -> writePropertySection c o locus = writePropertySection c' o locus.
Proof. unfold writePropertySection. by intros ->. Qed.

Lemma connect_reads c d fh p b rest :
  encodeConnect_body c p = Ok b -> connect_wf p = true -> len b < 268435456 ->
  RemainingLength fh = len b -> spec (setVersion (ProtocolVersion p) d) = spec c ->
  decodeConnect fh (d, b ++ rest) = (Ok (norm_connect fh p), (setVersion (ProtocolVersion p) d, rest)).
Proof.
  unfold encodeConnect_body, decodeConnect. cbn zeta. intros H Hw Hl Hrl Hspec.
  rewrite (reads_readFull b _ Hrl rest).
  apply putAll_cons in H as (b1 & b2 & E1 & H & ->).
  apply putAll_cons in H as (b3 & b4 & E2 & H & ->). apply Ok_inj in E2 as <-.
  rewrite !len_app, len_single in Hl. pose proof (len_nonneg b1). pose proof (len_nonneg b4).
  assert (reads decodeConnect_proto (b1 ++ [ProtocolVersion p]) (ProtocolName p, ProtocolVersion p)) as Hp.
  { eapply reads_bind; [by apply writeString_reads|].
    eapply reads_bind_end; [apply reads_ReadByte | apply reads_ret]. }
  rewrite app_assoc, Hp. f_equal.
  rewrite !(writePropertySection_spec c (setVersion (ProtocolVersion p) d)) in H by done.
  apply (connect_rest_reads _ fh) in H; [|done|lia]. by rewrite H.
Qed.
