(* ===== verification/RoundTrip.v ===== *)
(** * The whole codec: Decode after Encode, framing, and the size guard

    [Decode] on the bytes that [Encode] wrote returns the packet, whatever
    follows it in the stream; a successful [Decode] consumes exactly the bytes of
    one packet and a failed one never more; a packet above the peer's maximum
    size is refused before a byte is written. *)

From S2P Require Import Prelude Utf8 Wire Spec Topic Properties PropertiesProofs Packets Codec CodecProofs.
Open Scope Z_scope.

(** ** Packets that the wire can carry *)

Definition packet_type (p : Packet) : Z :=
  match p with
  | PConnect _ => PacketTypeConnect | PConnAck _ => PacketTypeConnAck
  | PPublish _ => PacketTypePublish | PPubAck _ => PacketTypePubAck
  | PPubRec _ => PacketTypePubRec | PPubRel _ => PacketTypePubRel
  | PPubComp _ => PacketTypePubComp | PSubscribe _ => PacketTypeSubscribe
  | PSubAck _ => PacketTypeSubAck | PUnsubscribe _ => PacketTypeUnsubscribe
  | PUnsubAck _ => PacketTypeUnsubAck | PPingReq _ => PacketTypePingReq
  | PPingResp _ => PacketTypePingResp | PDisconnect _ => PacketTypeDisconnect
  | PAuth _ => PacketTypeAuth
  end.

Definition is_u16 (v : Z) : bool := (0 <=? v) && (v <? 65536).

(** What the encoder takes on trust: the packet type of the header, the ranges of
    the Go types, and the limits of [section_wf]. *)
Definition packet_wf (c : Codec) (p : Packet) : bool :=
  (PacketType (GetFixedHeader p) =? packet_type p) &&
  (0 <=? QoS (GetFixedHeader p)) && (QoS (GetFixedHeader p) <? 4) &&
  match p with
  | PConnect q => connect_wf q
  | PConnAck q => section_wf locusConnAck (cack_Properties q)
  | PPublish q => is_u16 (pub_PacketID q) && section_wf locusPublish (pub_Properties q)
  | PPubAck q | PPubRec q | PPubRel q | PPubComp q =>
      is_u16 (ack_PacketID q) && section_wf locusAck (ack_Properties q)
  | PSubscribe q =>
      is_u16 (sub_PacketID q) && section_wf locusSubscribe (sub_Properties q) &&
      forallb (filter_wf c (sectionSubID (norm_section (sub_Properties q)))) (sub_Topics q)
  | PSubAck q => is_u16 (sack_PacketID q) && section_wf locusSubAck (sack_Properties q)
  | PUnsubscribe q => is_u16 (unsub_PacketID q) && section_wf locusUnsubscribe (unsub_Properties q)
  | PUnsubAck q => is_u16 (sack_PacketID q) && section_wf locusUnsubAck (sack_Properties q)
  | PPingReq _ | PPingResp _ => true
  | PDisconnect q => section_wf locusDisconnect (dis_Properties q)
  | PAuth q => section_wf locusAuth (dis_Properties q)
  end.

(** The packet that arrives: lengths in the header, an empty property set read as
    nil, no Session Present flag under MQTT 3.1. *)
Definition norm_packet (c : Codec) (h : FixedHeader) (p : Packet) : Packet :=
  let ack q := {| ack_FixedHeader := h; ack_PacketID := ack_PacketID q;
    ack_ReasonCode := ack_ReasonCode q; ack_Properties := norm_section (ack_Properties q) |} in
  let sack q := {| sack_FixedHeader := h; sack_PacketID := sack_PacketID q;
    sack_ReasonCodes := sack_ReasonCodes q; sack_Properties := norm_section (sack_Properties q) |} in
  let dis q := {| dis_FixedHeader := h; dis_ReasonCode := dis_ReasonCode q;
    dis_Properties := norm_section (dis_Properties q) |} in
  match p with
  | PConnect q => PConnect (norm_connect h q)
  | PConnAck q => PConnAck {| cack_FixedHeader := h; cack_ReasonCode := cack_ReasonCode q;
      SessionPresent := SessionPresent q && ConnAckSessionPresent (spec c);
      cack_Properties := norm_section (cack_Properties q) |}
  | PPublish q => PPublish {| pub_FixedHeader := h; pub_PacketID := pub_PacketID q;
      pub_Topic := pub_Topic q; Payload := Payload q;
      pub_Properties := norm_section (pub_Properties q) |}
  | PPubAck q => PPubAck (ack q)
  | PPubRec q => PPubRec (ack q)
  | PPubRel q => PPubRel (ack q)
  | PPubComp q => PPubComp (ack q)
  | PSubscribe q => PSubscribe {| sub_FixedHeader := h; sub_PacketID := sub_PacketID q;
      sub_Topics := sub_Topics q; sub_Properties := norm_section (sub_Properties q) |}
  | PSubAck q => PSubAck (sack q)
  | PUnsubscribe q => PUnsubscribe {| unsub_FixedHeader := h; unsub_PacketID := unsub_PacketID q;
      unsub_Topics := unsub_Topics q; unsub_Properties := norm_section (unsub_Properties q) |}
  | PUnsubAck q => PUnsubAck (sack q)
  | PPingReq _ => PPingReq h
  | PPingResp _ => PPingResp h
  | PDisconnect q => PDisconnect (dis q)
  | PAuth q => PAuth (dis q)
  end.

(** The header that goes out, and the body. *)
Definition sent_header (p : Packet) : FixedHeader :=
  match p with
  | PConnect q => with_type PacketTypeConnect (con_FixedHeader q)
  | PPubRel _ | PSubscribe _ | PUnsubscribe _ => with_reserved (GetFixedHeader p)
  | _ => GetFixedHeader p
  end.

Lemma writeAll_buffer ws (w : bytes) : writeAll ws w = (Ok tt, w ++ mjoin ws).
Proof.
  revert w. induction ws as [|b ws IH]; intros w; [by rewrite app_nil_r|].
  cbn. unfold mbind, M_bind, write, buffer_writer. by rewrite IH, <- app_assoc.
Qed.

(** Every encoder writes a header with the length of the body, then the body. *)
Lemma encodePacket_frame c p ws :
  encodePacket c p = Ok ws ->
  exists b, mjoin ws = encodeFixedHeader (with_length (sent_header p) (len b)) ++ b /\
    match p with
    | PConnect q => encodeConnect_body c q = Ok b
    | PConnAck q => encodeConnAck_body c q = Ok b
    | PPublish q => encodePublish_body c q = Ok b
    | PPubAck q | PPubRec q | PPubRel q | PPubComp q => encodeAckFields c q = Ok b
    | PSubscribe q => encodeSubscribe_body c q = Ok b
    | PSubAck q => encodeSubAck_body c q = Ok b
    | PUnsubscribe q => encodeUnsubscribe_body c q = Ok b
    | PUnsubAck q => encodeUnsubAck_body c q = Ok b
    | PPingReq _ | PPingResp _ => b = []
    | PDisconnect q => encodeDisconnect_body c q = Ok b
    | PAuth q => encodeAuth_body c q = Ok b
    end.
Proof.
  destruct p; cbn [encodePacket]; unfold frame; intros H;
    try (apply Ok_inj in H as <-; exists []; split; [done | done]);
    bind_inv H; apply Ok_inj in H as <-; exists a; (split; [|done]);
    cbn [mjoin list_join sent_header GetFixedHeader]; by rewrite app_nil_r.
Qed.

(** The encoders look at the codec only through its capability table. *)
Definition body_of (c : Codec) (p : Packet) : res bytes :=
  match p with
  | PConnect q => encodeConnect_body c q
  | PConnAck q => encodeConnAck_body c q
  | PPublish q => encodePublish_body c q
  | PPubAck q | PPubRec q | PPubRel q | PPubComp q => encodeAckFields c q
  | PSubscribe q => encodeSubscribe_body c q
  | PSubAck q => encodeSubAck_body c q
  | PUnsubscribe q => encodeUnsubscribe_body c q
  | PUnsubAck q => encodeUnsubAck_body c q
  | PPingReq _ | PPingResp _ => Ok []
  | PDisconnect q => encodeDisconnect_body c q
  | PAuth q => encodeAuth_body c q
  end.

Lemma body_of_spec c d p : spec c = spec d -> body_of c p = body_of d p.
Proof.
  intros H. destruct p; cbn [body_of];
    unfold encodeConnect_body, encodeConnAck_body, encodePublish_body, encodeAckFields,
      encodeSubscribe_body, encodeSubAck_body, encodeUnsubscribe_body, encodeUnsubAck_body,
      encodeDisconnect_body, encodeAuth_body, publishTopic_ok, writePropertySection;
    by rewrite ?H.
Qed.

Lemma packet_wf_spec c d p : spec c = spec d -> packet_wf c p = packet_wf d p.
Proof. intros H. destruct p; try done. unfold packet_wf, filter_wf. by rewrite H. Qed.

Lemma norm_packet_spec c d h p : spec c = spec d -> norm_packet c h p = norm_packet d h p.
Proof. intros H. destruct p; try done. cbn. by rewrite H. Qed.

Lemma encodePacket_body c p ws :
  encodePacket c p = Ok ws ->
  exists b, mjoin ws = encodeFixedHeader (with_length (sent_header p) (len b)) ++ b /\ body_of c p = Ok b.
Proof.
  intros (b & Hw & Hb)%encodePacket_frame. exists b. split; [done|].
  destruct p; cbn [body_of]; by rewrite ?Hb.
Qed.

Lemma liftR_reads {A} (m : M bytes A) b a (d : Codec) rest :
  reads m b a -> liftR m (d, b ++ rest) = (Ok a, (d, rest)).
Proof. intros H. unfold liftR. by rewrite H. Qed.

(** Select the branch of the dispatch for a known packet type. *)
Ltac dispatch Ht :=
  unfold decodeBody; cbn zeta; rewrite Ht;
  cbv beta iota delta [packet_type PacketTypeConnect PacketTypeConnAck PacketTypePublish PacketTypePubAck
    PacketTypePubRec PacketTypePubRel PacketTypePubComp PacketTypeSubscribe PacketTypeSubAck
    PacketTypeUnsubscribe PacketTypeUnsubAck PacketTypePingReq PacketTypePingResp
    PacketTypeDisconnect PacketTypeAuth Z.eqb Pos.eqb].

Lemma ack_decodes (d : Codec) h q b rest :
  encodeAckFields d q = Ok b -> 0 <= ack_PacketID q < 65536 ->
  section_wf locusAck (ack_Properties q) = true ->
  len b < 268435456 -> RemainingLength h = len b ->
  liftR (decodeAck d h) (d, b ++ rest)
  = (Ok {| ack_FixedHeader := h; ack_PacketID := ack_PacketID q; ack_ReasonCode := ack_ReasonCode q;
           ack_Properties := norm_section (ack_Properties q) |}, (d, rest)).
Proof.
  intros H Hid Hw Hl Hr. apply liftR_reads.
  eapply reads_bind_end; [by apply ack_reads | apply reads_ret].
Qed.

Lemma body_decodes d p h b rest :
  body_of (encodeVersion p d) p = Ok b -> packet_wf (encodeVersion p d) p = true ->
  codec_ok (encodeVersion p d) ->
  len b < 268435456 -> RemainingLength h = len b -> QoS h = QoS (sent_header p) ->
  PacketType h = packet_type p ->
  decodeBody d h (d, b ++ rest)
  = (Ok (norm_packet (encodeVersion p d) h p), (encodeVersion p d, rest)).
Proof.
  intros H Hw Hc Hl Hr Hq Ht. unfold packet_wf in Hw. apply andb_true_iff in Hw as [Hw0 Hw].
  destruct p; cbn [body_of encodeVersion sent_header GetFixedHeader] in *; dispatch Ht; unfold is_u16 in Hw; bools;
    unfold mbind, M_bind.
  - by rewrite (connect_reads (setVersion (ProtocolVersion p) d) d h p b rest).
  - by rewrite (liftR_reads _ _ _ _ _ (connack_reads d h p b H Hc Hw Hl Hr)).
  - by rewrite (liftR_reads _ _ _ _ _ (publish_reads d h p b H ltac:(lia) Hq ltac:(lia) ltac:(done) Hl Hr)).
  - by rewrite (ack_decodes d h p b) by (done || lia).
  - by rewrite (ack_decodes d h p b) by (done || lia).
  - by rewrite (ack_decodes d h p b) by (done || lia).
  - by rewrite (ack_decodes d h p b) by (done || lia).
  - by rewrite (liftR_reads _ _ _ _ _ (subscribe_reads d h p b H ltac:(lia) ltac:(done) ltac:(done) Hl Hr)).
  - by rewrite (liftR_reads _ _ _ _ _ (suback_reads d h p b H ltac:(lia) ltac:(done) Hl Hr)).
  - by rewrite (liftR_reads _ _ _ _ _ (unsubscribe_reads d h p b H ltac:(lia) ltac:(done) Hl Hr)).
  - by rewrite (liftR_reads _ _ _ _ _ (unsuback_reads d h p b H ltac:(lia) Hc ltac:(done) Hl Hr)).
  - apply Ok_inj in H as <-. by rewrite Hr.
  - apply Ok_inj in H as <-. by rewrite Hr.
  - by rewrite (liftR_reads _ _ _ _ _ (disconnect_reads d h p b H Hw Hl Hr)).
  - by rewrite (liftR_reads _ _ _ _ _ (auth_reads d h p b H Hw Hl Hr)).
Qed.

(** ** The round trip *)

Lemma sent_flags p :
  PacketType (GetFixedHeader p) = packet_type p ->
  validateFixedHeaderFlags (GetFixedHeader p) = Ok tt ->
  PacketType (sent_header p) = packet_type p /\
  QoS (sent_header p) = QoS (GetFixedHeader p) /\
  validateFixedHeaderFlags (sent_header p) = Ok tt.
Proof.
  intros Ht Hv.
  assert (forall fh, (PacketType fh =? PacketTypePublish) = false ->
    (PacketType fh =? PacketTypePubRel) || (PacketType fh =? PacketTypeSubscribe)
      || (PacketType fh =? PacketTypeUnsubscribe) = true ->
    validateFixedHeaderFlags fh = Ok tt ->
    QoS (with_reserved fh) = QoS fh /\ validateFixedHeaderFlags (with_reserved fh) = Ok tt) as Hres.
  { intros fh H1 H2 H. unfold validateFixedHeaderFlags in *. cbn [PacketType QoS Retain Dup with_reserved].
    rewrite H1, H2 in *. destruct (QoS fh =? 1) eqn:Eq; [|done]. bools. by rewrite Eq. }
  destruct p; cbn [sent_header GetFixedHeader packet_type] in *; try done;
    try (split; [done | apply Hres; [by rewrite Ht | by rewrite Ht | done]]).
  unfold validateFixedHeaderFlags in *. cbn [PacketType QoS Retain Dup with_type] in *.
  rewrite Ht in Hv. done.
Qed.

Lemma decode_packet d p b rest :
  body_of (encodeVersion p d) p = Ok b -> packet_wf (encodeVersion p d) p = true ->
  codec_ok d -> validateFixedHeaderFlags (GetFixedHeader p) = Ok tt ->
  let bs := encodeFixedHeader (with_length (sent_header p) (len b)) ++ b in
  len b < 268435456 -> len bs <= maxPacketSize d ->
  Decode (d, bs ++ rest)
  = (Ok (norm_packet (encodeVersion p d) (wire_header (with_length (sent_header p) (len b))) p),
     (encodeVersion p d, rest)).
Proof.
  intros H Hw Hc Hv bs Hl Hm. subst bs. pose proof Hw as Hw0. unfold packet_wf in Hw0.
  apply andb_true_iff in Hw0 as [[[Ht%Z.eqb_eq Hq1]%andb_true_iff Hq2]%andb_true_iff _]. bools.
  destruct (sent_flags p Ht Hv) as (Hst & Hsq & Hsv). pose proof (len_nonneg b) as Hnn.
  set (fh := with_length (sent_header p) (len b)) in *.
  assert (header_ok fh) as Hh.
  { unfold header_ok. subst fh. cbn. rewrite Hst, Hsq. repeat split; try lia; by destruct p. }
  unfold Decode. rewrite syncSpec_id by done. rewrite <- app_assoc.
  rewrite (M_bind_ok _ _ _ _ _ (liftR_reads _ _ _ d _ (reads_decodeFixedHeader fh Hh))).
  erewrite M_bind_ok; cycle 1.
  { unfold lift_res.
    change (validateFixedHeaderFlags (wire_header fh)) with (validateFixedHeaderFlags (sent_header p)).
    by rewrite Hsv. }
  replace (_ || _) with false by (symmetry; apply orb_false_iff; rewrite !Z.ltb_ge;
    unfold maxRemainingLength; subst fh; cbn; lia).
  rewrite (proj2 (Z.ltb_ge (maxPacketSize d) _)); cycle 1.
  { subst fh. cbn [wire_header with_length RemainingLength HeaderSize].
    rewrite len_app in Hm. unfold encodeFixedHeader in Hm. cbn [RemainingLength with_length] in Hm.
    rewrite len_cons in Hm. unfold headerSize. lia. }
  apply body_decodes; try done. destruct p; cbn [encodeVersion]; auto with mqtt.
Qed.

(** What a successful Encode into a buffer did. *)
Lemma Encode_inv c p c' bs :
  codec_ok c -> Encode (W := bytes) p (c, []) = (Ok tt, (c', bs)) ->
  validateFixedHeaderFlags (GetFixedHeader p) = Ok tt /\ c' = encodeVersion p c /\
  exists b, body_of c' p = Ok b /\ bs = encodeFixedHeader (with_length (sent_header p) (len b)) ++ b.
Proof.
  intros Hc H.
  assert (encodeTo (W := bytes) p (c, []) = (Ok tt, (c', bs))) as E.
  { unfold Encode in H. destruct (outboundMax c <=? 0); [done|].
    destruct (encodeTo p (c, [])) as [[[]|e] [c1 buf]] eqn:E; [|done].
    destruct (outboundMax c <? len buf); [done|]. cbn in H. by injection H as -> ->. }
  unfold encodeTo in E. rewrite syncSpec_id in E by done.
  destruct (validateFixedHeaderFlags (GetFixedHeader p)) as [[]|e]; [|done].
  destruct (encodePacket (encodeVersion p c) p) as [ws|e] eqn:Ep; [|done].
  rewrite writeAll_buffer in E. cbn [app] in E. injection E as <- <-.
  apply encodePacket_body in Ep as (b & Hw & Hb). eauto.
Qed.

Lemma encodeVersion_spec c d p :
  codec_ok c -> codec_ok d ->
  protocolVersion d = protocolVersion c \/ packet_type p = PacketTypeConnect ->
  spec (encodeVersion p c) = spec (encodeVersion p d).
Proof.
  intros Hc Hd Hv.
  assert (forall v c, codec_ok c -> spec (setVersion v c) = spec_for v) as Hset.
  { intros v c0 Hc0. rewrite (setVersion_ok v c0) by auto with mqtt.
    by destruct (setVersion_fields v c0) as [-> _]. }
  destruct p; cbn [encodeVersion packet_type] in *; try (rewrite !Hset by done; done);
    destruct Hv as [Hv|Hv]; try done; by rewrite Hc, Hd, Hv.
Qed.

(** ** Framing: how much of the stream a decoder takes *)

(** [takes m g n]: a run of [m] takes at most [n] bytes off the stream, and
    exactly [g a] of them when it succeeds with [a]. *)
Definition takes {A} (m : M bytes A) (g : A -> Z) (n : Z) : Prop :=
  forall s r s', bytes_ok s -> m s = (r, s') ->
    exists pre, s = pre ++ s' /\ len pre <= n /\ match r with Ok a => len pre = g a | Err _ => True end.

Lemma takes_ret {A} (a : A) g n : g a = 0 -> 0 <= n -> takes (mret a) g n.
Proof. intros Hg Hn s r s' _ [= <- <-]. exists []. by rewrite Hg. Qed.

Lemma takes_throw {A} e g n : 0 <= n -> takes (@throw bytes A e) g n.
Proof. intros Hn s r s' _ [= <- <-]. by exists []. Qed.

Lemma takes_lift {A} (x : res A) g n :
  0 <= n -> (forall a, g a = 0) -> takes (lift_res x) g n.
Proof. intros Hn Hg s r s' _ [= <- <-]. exists []. split_and!; [done..|]. by destruct x. Qed.

Lemma takes_bind {A B} (m : M bytes A) (f : A -> M bytes B) g h n1 n :
  takes m g n1 -> n1 <= n ->
  (forall a, g a <= n1 -> takes (f a) (fun b => h b - g a) (n - g a)) -> takes (m ≫= f) h n.
Proof.
  intros Hm Hn Hf s r s' Hok H. unfold mbind, M_bind in H.
  destruct (m s) as [[a|e] s1] eqn:E; apply Hm in E as (pre & -> & Hl & Hg); [|done| |done].
  - apply bytes_ok_app in Hok as [_ Hok].
    apply Hf in H as (pre' & -> & Hl' & Hg'); [|lia|done]. exists (pre ++ pre').
    rewrite app_assoc, len_app. split_and!; [done | lia |]. destruct r; [lia | done].
  - injection H as <- <-. exists pre. split_and!; [done | lia | done].
Qed.

Lemma takes_mono {A} (m : M bytes A) g n n' : takes m g n -> n <= n' -> takes m g n'.
Proof. intros H Hn s r s' Hok E. apply H in E as (pre & -> & Hl & Hg); [|done]. exists pre. split_and!; [done | lia | done]. Qed.

Lemma takes_ext {A} (m : M bytes A) g g' n : takes m g n -> (forall a, g a = g' a) -> takes m g' n.
Proof.
  intros H Hg s r s' Hok E. apply H in E as (pre & -> & Hl & Hga); [|done]. exists pre.
  split_and!; [done | done |]. destruct r; [by rewrite <- Hg | done].
Qed.

Lemma takes_if {A} (b : bool) (m m' : M bytes A) g n :
  (b = true -> takes m g n) -> (b = false -> takes m' g n) -> takes (if b then m else m') g n.
Proof. destruct b; auto. Qed.

Lemma takes_readFull n : 0 <= n -> takes (readFull n) (fun _ => n) n.
Proof.
  intros Hn s r s' _ H. unfold readFull in H. destruct (n <=? len s) eqn:E; injection H as <- <-; bools.
  - exists (take (Z.to_nat n) s). rewrite take_drop.
    assert (len (take (Z.to_nat n) s) = n) by (unfold len in *; rewrite length_take; lia).
    split_and!; [done | lia | done].
  - exists s. rewrite app_nil_r. split_and!; [done | lia | done].
Qed.

(** A buffer of [n] bytes read off the stream and parsed on its own. *)
Lemma takes_buffer {A} n (k : bytes -> M bytes A) :
  0 <= n -> takes (buf ← readFull n; runOn (k buf) buf) (fun _ => n) n.
Proof.
  intros Hn. eapply takes_bind; [by apply takes_readFull | lia |]. intros a _.
  apply takes_lift; [lia | intros; lia].
Qed.

Lemma takes_readUint16 : takes readUint16 (fun _ => 2) 2.
Proof.
  eapply takes_bind; [by apply takes_readFull | lia |]. intros. apply takes_ret; lia.
Qed.

Lemma takes_decodePacketID fh :
  0 <= RemainingLength fh -> takes (decodePacketID fh) (fun _ => 2) (RemainingLength fh).
Proof.
  intros Hr. apply takes_if; intros E; bools; [by apply takes_throw|].
  eapply takes_bind; [apply takes_readUint16 | lia |]. intros a _.
  apply takes_if; intros _; [apply takes_throw; lia | apply takes_ret; lia].
Qed.

(** The part of readStringBounded after the length prefix. *)
Lemma takes_string length maxLen :
  0 <= length -> 0 <= maxLen ->
  takes (if length =? 0 then mret []
         else if maxLen <? length then throw ErrMalformedPacket
         else s ← readFull length; _ ← lift_res (validateUTF8 s); mret s) (fun s => len s) maxLen.
Proof.
  intros Hl Hm. apply takes_if; intros E; bools; [by apply takes_ret|].
  apply takes_if; intros E'; bools; [by apply takes_throw|].
  intros s r s' Hok H. destruct (readFull length s) as [[str|e] s1] eqn:Er.
  - rewrite (M_bind_ok _ _ _ _ _ Er) in H. unfold mbind, M_bind, lift_res in H.
    apply readFull_inv in Er as [-> Hlen]; [|done]. exists str.
    destruct (validateUTF8 str); injection H as <- <-; split_and!; (done || lia).
  - rewrite (M_bind_err _ _ _ _ _ Er) in H. injection H as <- <-.
    apply takes_readFull in Er as (pre & -> & Hp & _); [|done..].
    exists pre. split_and!; [done | lia | done].
Qed.

Lemma beUint16_range b : bytes_ok b -> 0 <= beUint16 b < 65536.
Proof.
  intros H. destruct b as [|b0 [|b1 [|]]]; cbn; try lia.
  apply bytes_ok_cons in H as [? H]. apply bytes_ok_cons in H as [? _]. by apply be16_range.
Qed.

Lemma takes_bind_post {A B} (P : A -> Prop) (m : M bytes A) (f : A -> M bytes B) g h n1 n :
  takes m g n1 -> n1 <= n -> (forall s a s', bytes_ok s -> m s = (Ok a, s') -> P a) ->
  (forall a, P a -> g a <= n1 -> takes (f a) (fun b => h b - g a) (n - g a)) -> takes (m ≫= f) h n.
Proof.
  intros Hm Hn HP Hf s r s' Hok H. unfold mbind, M_bind in H.
  destruct (m s) as [[a|e] s1] eqn:E; pose proof E as E'; apply Hm in E as (pre & -> & Hl & Hg); [|done| |done].
  - pose proof (HP _ _ _ Hok E') as HPa. apply bytes_ok_app in Hok as [_ Hok].
    apply (Hf a HPa) in H as (pre' & -> & Hl' & Hg'); [|lia|done]. exists (pre ++ pre').
    rewrite app_assoc, len_app. split_and!; [done | lia |]. destruct r; [lia | done].
  - injection H as <- <-. exists pre. split_and!; [done | lia | done].
Qed.

Lemma takes_readStringBounded n :
  0 <= n -> takes (readStringBounded n) (fun s => 2 + len s) (2 + n).
Proof.
  intros Hn. apply (takes_bind_post bytes_ok) with (g := fun _ => 2) (n1 := 2).
  - by apply takes_readFull.
  - lia.
  - intros s a s' Hs H. by apply readFull_ok in H as [? _].
  - intros lb Hlb _. pose proof (beUint16_range lb Hlb).
    eapply takes_ext; [eapply takes_mono; [apply takes_string; [lia | exact Hn] | lia]|].
    intros a. cbn. lia.
Qed.

(** ** Every decoder takes exactly the Remaining Length of its packet *)

Section Framing.
Context (c : Codec) (fh : FixedHeader).
Hypothesis Hrl : 0 <= RemainingLength fh.

Definition framed {A} (m : M bytes A) : Prop :=
  takes m (fun _ => RemainingLength fh) (RemainingLength fh).

Lemma framed_guard {A} (b : bool) e (m : M bytes A) :
  (b = false -> framed m) -> framed (if b then throw e else m).
Proof. intros H. apply takes_if; [intros; by apply takes_throw | done]. Qed.

(** A last step that takes nothing. *)
Lemma framed_map {A B} (m : M bytes A) (f : A -> B) : framed m -> framed (a ← m; mret (f a)).
Proof. intros H. eapply takes_bind; [exact H | lia |]. intros. apply takes_ret; lia. Qed.

Lemma framed_id {A} (k : Z -> M bytes A) :
  (2 <= RemainingLength fh ->
   forall id, takes (k id) (fun _ => RemainingLength fh - 2) (RemainingLength fh - 2)) ->
  framed (id ← decodePacketID fh; k id).
Proof. intros H. eapply takes_bind; [by apply takes_decodePacketID | lia |]. intros a Ha. by apply H. Qed.

Lemma framed_connack : framed (decodeConnAck c fh).
Proof. by apply (takes_buffer (RemainingLength fh) (fun _ => _)). Qed.

Lemma framed_ackfields : framed (decodeAckFields c fh).
Proof.
  apply framed_guard; intros _. apply framed_guard; intros _.
  by apply (takes_buffer (RemainingLength fh) (fun _ => _)).
Qed.

Lemma framed_ack : framed (decodeAck c fh).
Proof.
  eapply takes_bind; [apply framed_ackfields | lia |]. intros [[? ?] ?] _. apply takes_ret; lia.
Qed.

Lemma framed_subscribe : framed (decodeSubscribe c fh).
Proof. apply framed_id. intros H id. apply (takes_buffer _ (fun _ => _)). lia. Qed.

Lemma framed_unsubscribe : framed (decodeUnsubscribe c fh).
Proof. apply framed_id. intros H id. apply (takes_buffer _ (fun _ => _)). lia. Qed.

Lemma takes_codes locus :
  2 <= RemainingLength fh ->
  takes (decodeCodes c locus fh) (fun _ => RemainingLength fh - 2) (RemainingLength fh - 2).
Proof.
  intros H. apply takes_if; intros E; bools.
  - apply (takes_buffer _ (fun _ => _)). lia.
  - apply takes_ret; lia.
Qed.

Lemma framed_suback : framed (decodeSubAck c fh).
Proof.
  apply framed_id. intros H id. eapply takes_bind; [by apply takes_codes | lia |].
  intros [? ?] _. apply takes_ret; lia.
Qed.

Lemma framed_unsuback : framed (decodeUnsubAck c fh).
Proof.
  apply framed_guard; intros _. apply framed_id. intros H id.
  eapply takes_bind; [by apply takes_codes | lia |]. intros [? ?] _. apply takes_ret; lia.
Qed.

Lemma framed_reason locus ok : framed (decodeReason locus fh ok).
Proof. by apply (takes_buffer (RemainingLength fh) (fun _ => _)). Qed.

Lemma framed_publish : framed (decodePublish c fh).
Proof.
  apply framed_guard; intros E; bools.
  eapply takes_bind; [apply takes_readStringBounded; lia | lia |]. intros topic Ht. cbn beta zeta in *.
  pose proof (len_nonneg topic).
  eapply takes_bind with (g := fun x => snd x - (2 + len topic)) (n1 := RemainingLength fh - (2 + len topic)).
  - apply takes_if; intros Eq; [|apply takes_ret; cbn [snd]; lia].
    apply takes_if; intros Er; bools; [apply takes_throw; lia|].
    eapply takes_bind; [apply takes_readUint16 | lia |]. intros id _.
    apply takes_if; intros _; [apply takes_throw; lia | apply takes_ret; cbn [snd]; lia].
  - lia.
  - intros [id hb] Hhb. cbn [snd] in Hhb. cbn beta iota.
    apply takes_if; intros Er; bools; [apply takes_throw; cbn [snd]; lia|].
    eapply takes_bind with (g := fun _ => RemainingLength fh - hb) (n1 := RemainingLength fh - hb).
    + apply takes_if; intros _.
      * eapply takes_bind with (g := fun _ => RemainingLength fh - hb) (n1 := RemainingLength fh - hb).
        -- apply takes_if; intros E0; bools; [apply takes_readFull; lia | apply takes_ret; lia].
        -- lia.
        -- intros data _. apply takes_lift; lia.
      * apply takes_if; intros E0; bools; [|apply takes_ret; lia].
        eapply takes_bind; [apply takes_readFull; lia | lia |]. intros. apply takes_ret; lia.
    + cbn [snd]. lia.
    + intros [props payload] _. cbn beta iota.
      apply takes_if; intros _; [apply takes_throw; cbn [snd]; lia | apply takes_ret; cbn [snd]; lia].
Qed.
End Framing.

(** ** What a decoded packet satisfies *)

Definition returns {S A} (m : M S A) (P : A -> Prop) : Prop :=
  forall s a s', m s = (Ok a, s') -> P a.

Lemma returns_ret {S A} (a : A) (P : A -> Prop) : P a -> returns (S := S) (mret a) P.
Proof. intros H s b s' [= <- <-]. done. Qed.

Lemma returns_throw {S A} e (P : A -> Prop) : returns (S := S) (throw e) P.
Proof. by intros s b s'. Qed.

Lemma returns_bind {S A B} (m : M S A) (f : A -> M S B) P Q :
  returns m Q -> (forall a, Q a -> returns (f a) P) -> returns (m ≫= f) P.
Proof. intros Hm Hf s b s' H. bind_inv H. eapply Hf; [by eapply Hm | done]. Qed.

Lemma returns_any {S A} (m : M S A) : returns m (fun _ => True).
Proof. done. Qed.

Lemma returns_then {S A B} (m : M S A) (f : A -> M S B) P :
  (forall a, returns (f a) P) -> returns (m ≫= f) P.
Proof. intros Hf. eapply returns_bind; [apply returns_any | auto]. Qed.

Lemma returns_if {S A} (b : bool) (m m' : M S A) P :
  (b = true -> returns m P) -> (b = false -> returns m' P) -> returns (if b then m else m') P.
Proof. destruct b; auto. Qed.

Lemma returns_runOn {S A} (m : M bytes A) buf P : returns m P -> returns (S := S) (runOn m buf) P.
Proof.
  intros H s a s' E. unfold runOn, lift_res in E. injection E as E <-.
  destruct (m buf) as [x y] eqn:Em. cbn in E. subst. by eapply H.
Qed.

(** The conditions of the specification that a decoder enforces. *)
Definition filter_valid (c : Codec) (f : TopicFilter) : Prop :=
  0 <= tf_QoS f <= 2 /\ 0 <= RetainHandling f <= 2 /\
  (SpecProperties (spec c) = false ->
   NoLocal f = false /\ RetainAsPublished f = false /\ RetainHandling f = 0).

Definition packet_valid (c : Codec) (p : Packet) : Prop :=
  match p with
  | PPublish q =>
      publishTopic_ok c (pub_Topic q) (pub_Properties q) = true /\
      (QoS (pub_FixedHeader q) = 0 -> pub_PacketID q = 0) /\
      (0 < QoS (pub_FixedHeader q) -> pub_PacketID q <> 0)
  | PPubAck q | PPubRec q | PPubRel q | PPubComp q => ack_PacketID q <> 0
  | PSubscribe q => sub_PacketID q <> 0 /\ sub_Topics q <> [] /\ Forall (filter_valid c) (sub_Topics q)
  | PSubAck q | PUnsubAck q => sack_PacketID q <> 0
  | PUnsubscribe q => unsub_PacketID q <> 0 /\ unsub_Topics q <> []
  | PAuth q => validAuthReasonCode (dis_ReasonCode q) = true
  | _ => True
  end.

Lemma returns_ackfields c fh : returns (decodeAckFields c fh) (fun x => fst (fst x) <> 0).
Proof.
  apply returns_if; intros _; [apply returns_throw|]. apply returns_if; intros _; [apply returns_throw|].
  apply returns_then. intros data. apply returns_runOn, returns_then. intros id.
  apply returns_if; intros E; bools; [apply returns_throw|].
  do 4 (apply returns_then; intros ?). by apply returns_ret.
Qed.

Lemma returns_ack c fh :
  returns (decodeAck c fh) (fun q => ack_FixedHeader q = fh /\ ack_PacketID q <> 0).
Proof.
  eapply returns_bind; [apply returns_ackfields|]. intros [[id code] props] H. by apply returns_ret.
Qed.

Lemma returns_packetID fh : returns (decodePacketID fh) (fun id => id <> 0).
Proof.
  apply returns_if; intros _; [apply returns_throw|]. apply returns_then. intros id.
  apply returns_if; intros E; bools; [apply returns_throw | by apply returns_ret].
Qed.

Lemma option_bits b : 0 <= Z.land b 3 < 4 /\ 0 <= Z.land (Z.shiftr b 4) 3 < 4.
Proof. rewrite !(land_low _ 2) by lia. split; apply Z.mod_pos_bound; lia. Qed.

(** Without bits 2 to 7 the three MQTT 5.0 options are off. *)
Lemma option_bits_v3 b :
  Z.land b 252 = 0 -> Z.land b 4 = 0 /\ Z.land b 8 = 0 /\ Z.land (Z.shiftr b 4) 3 = 0.
Proof.
  intros H.
  assert (forall m, Z.land 252 m = m -> Z.land b m = 0) as Hm.
  { intros m Hm. rewrite <- Hm, Z.land_assoc, H. apply Z.land_0_l. }
  split_and!; [by apply Hm | by apply Hm |].
  assert (Z.shiftr (Z.land b 48) 4 = 0) as E by (rewrite Hm; done).
  by rewrite Z.shiftr_land in E.
Qed.

Lemma returns_filters c subID fuel :
  returns (decodeFilters fuel c subID) (Forall (filter_valid c)).
Proof.
  induction fuel as [|fuel IH]; cbn [decodeFilters]; apply returns_then; intros n;
    (apply returns_if; intros _; [apply returns_ret; constructor|]); [apply returns_throw|].
  do 2 (apply returns_then; intros ?). apply returns_if; intros E1; [apply returns_throw|].
  apply returns_if; intros E2; [apply returns_throw|].
  eapply returns_bind; [exact IH|]. intros topics Ht. apply returns_ret. constructor; [|done].
  bools. destruct (option_bits a0) as [Hq Hh]. unfold filter_valid. cbn. split_and!; try lia.
  intros Hp. rewrite Hp in E1. cbn in E1. bools.
  apply option_bits_v3 in E1 as (-> & -> & ->). done.
Qed.

Lemma returns_subscribe c fh :
  returns (decodeSubscribe c fh) (fun q => sub_FixedHeader q = fh /\ packet_valid c (PSubscribe q)).
Proof.
  eapply returns_bind; [apply returns_packetID|]. intros id Hid. apply returns_then. intros data.
  apply returns_runOn. do 2 (apply returns_then; intros ?).
  eapply returns_bind; [apply returns_filters|]. intros topics Ht.
  apply returns_if; intros E; bools; [apply returns_throw|]. apply returns_ret.
  split; [done|]. cbn [packet_valid sub_PacketID sub_Topics].
  split_and!; [done | by intros -> | done].
Qed.

Lemma returns_unsubscribe c fh :
  returns (decodeUnsubscribe c fh) (fun q => unsub_FixedHeader q = fh /\ packet_valid c (PUnsubscribe q)).
Proof.
  eapply returns_bind; [apply returns_packetID|]. intros id Hid. apply returns_then. intros data.
  apply returns_runOn. do 2 (apply returns_then; intros ?). apply returns_then. intros topics.
  apply returns_if; intros E; bools; [apply returns_throw|]. apply returns_ret.
  split; [done|]. cbn [packet_valid unsub_PacketID unsub_Topics]. split; [done | by intros ->].
Qed.

Lemma returns_suback c fh :
  returns (decodeSubAck c fh) (fun q => sack_FixedHeader q = fh /\ sack_PacketID q <> 0).
Proof.
  eapply returns_bind; [apply returns_packetID|]. intros id Hid.
  apply returns_then. intros [? ?]. by apply returns_ret.
Qed.

Lemma returns_unsuback c fh :
  returns (decodeUnsubAck c fh) (fun q => sack_FixedHeader q = fh /\ sack_PacketID q <> 0).
Proof.
  apply returns_if; intros _; [apply returns_throw|].
  eapply returns_bind; [apply returns_packetID|]. intros id Hid.
  apply returns_then. intros [? ?]. by apply returns_ret.
Qed.

Lemma returns_reason locus fh ok :
  returns (decodeReason locus fh ok) (fun q => dis_FixedHeader q = fh /\ ok (dis_ReasonCode q) = true).
Proof.
  apply returns_then. intros buf. apply returns_runOn, returns_then. intros code.
  apply returns_if; intros E; bools; [apply returns_throw|]. apply returns_then. intros props.
  by apply returns_ret.
Qed.

Lemma returns_publish c fh :
  returns (decodePublish c fh) (fun q => pub_FixedHeader q = fh /\ packet_valid c (PPublish q)).
Proof.
  apply returns_if; intros _; [apply returns_throw|]. apply returns_then. intros topic. cbn zeta.
  apply returns_bind with (Q := fun x => (QoS fh = 0 -> fst x = 0) /\ (0 < QoS fh -> fst x <> 0)).
  { apply returns_if; intros Eq; bools; [|apply returns_ret; cbn; lia].
    apply returns_if; intros _; [apply returns_throw|]. apply returns_then. intros id.
    apply returns_if; intros Ei; bools; [apply returns_throw|]. apply returns_ret. cbn. lia. }
  intros [id hb] Hid. apply returns_if; intros _; [apply returns_throw|].
  apply returns_then. intros [props payload].
  apply returns_if; intros Et; bools; [apply returns_throw|]. by apply returns_ret.
Qed.

Lemma returns_connack c fh : returns (decodeConnAck c fh) (fun q => cack_FixedHeader q = fh).
Proof.
  apply returns_then. intros buf. apply returns_runOn. do 2 (apply returns_then; intros ?).
  apply returns_if; intros _; [apply returns_throw|]. apply returns_then. intros props.
  by apply returns_ret.
Qed.

Lemma returns_connect_rest c fh n v :
  returns (decodeConnect_rest c fh n v) (fun q => con_FixedHeader q = fh /\ ProtocolVersion q = v).
Proof.
  unfold decodeConnect_rest. do 4 (apply returns_then; intros ?). apply returns_then.
  intros [[? ?] ?]. do 3 (apply returns_then; intros ?).
  apply returns_if; intros _; [apply returns_throw | by apply returns_ret].
Qed.

(** ** One packet of the stream *)

(** The result of decoding one packet body: the bytes taken, the packet, and the
    codec, which only a CONNECT rebinds. *)
Definition body_result (c : Codec) (fh : FixedHeader) (s : bytes) (x : res Packet * (Codec * bytes)) : Prop :=
  exists pre, s = pre ++ snd (snd x) /\ len pre <= RemainingLength fh /\
    (fst (snd x) = c \/ exists v, fst (snd x) = setVersion v c) /\
    match fst x with
    | Ok p => len pre = RemainingLength fh /\ GetFixedHeader p = fh /\ packet_valid c p /\
              packet_type p = PacketType fh /\
              (packet_type p <> PacketTypeConnect -> fst (snd x) = c)
    | Err _ => True
    end.

Lemma lift_result {A} c fh s (m : M bytes A) (K : A -> Packet) :
  bytes_ok s -> framed fh m ->
  returns m (fun a => GetFixedHeader (K a) = fh /\ packet_valid c (K a)) ->
  (forall a, packet_type (K a) = PacketType fh) ->
  body_result c fh s ((p ← liftR m; mret (K p)) (c, s)).
Proof.
  intros Hs Hf Hr Ht. unfold body_result, mbind, M_bind, liftR.
  destruct (m s) as [[a|e] s'] eqn:E; cbn [fst snd]; pose proof E as E';
    apply Hf in E as (pre & -> & Hl & Hp); try done; exists pre; split_and!; try done; try (by left).
  apply Hr in E' as [? ?]. by split_and!.
Qed.

Lemma connect_result c fh s :
  0 <= RemainingLength fh -> bytes_ok s -> PacketType fh = PacketTypeConnect ->
  body_result c fh s ((p ← decodeConnect fh; mret (PConnect p)) (c, s)).
Proof.
  intros Hrl Hs Ht. unfold body_result, mbind, M_bind, decodeConnect.
  destruct (readFull (RemainingLength fh) s) as [[buf|e] r'] eqn:E;
    apply takes_readFull in E as (pre & -> & Hl & Hp); try done; exists pre.
  2: by split_and!; [| | left |].
  destruct (decodeConnect_proto buf) as [[[n v]|e] reader]; cbn [fst snd].
  2: by split_and!; [| | left |].
  destruct (decodeConnect_rest _ _ _ _ _) as [[q|e] rest] eqn:Er; cbn [fst snd].
  2: by split_and!; [| | right; eexists |].
  apply returns_connect_rest in Er as [Hh _].
  split_and!; [done | done | right; by eexists |].
  cbn [packet_type GetFixedHeader packet_valid]. by split_and!.
Qed.

Lemma decodeBody_result c fh s :
  0 <= RemainingLength fh -> bytes_ok s -> body_result c fh s (decodeBody c fh (c, s)).
Proof.
  intros Hrl Hs. unfold decodeBody. cbn zeta.
  assert (forall e, body_result c fh s (throw e (c, s))) as Hthrow.
  { intros e. exists []. cbn. split_and!; [done | done | by left | done]. }
  assert (forall P, PacketType fh = packet_type P -> GetFixedHeader P = fh -> packet_valid c P ->
    RemainingLength fh = 0 -> body_result c fh s (@mret (M (Codec * bytes)) _ _ P (c, s))) as Hret.
  { intros P H1 H2 H3 H4. exists []. cbn. rewrite H1, H4. split_and!; (done || by left). }
  repeat (destruct (PacketType fh =? _) eqn:E; [apply Z.eqb_eq in E|clear E]);
    [by apply connect_result | ..]; try apply Hthrow;
    try (destruct (RemainingLength fh =? 0) eqn:E0; bools; [by apply Hret | apply Hthrow]);
    (apply lift_result; [done | .. | by intros]).
  - by apply framed_connack.
  - intros x a x' Hx%returns_connack. done.
  - by apply framed_publish.
  - apply returns_publish.
  - by apply framed_ack.
  - apply returns_ack.
  - by apply framed_ack.
  - apply returns_ack.
  - by apply framed_ack.
  - apply returns_ack.
  - by apply framed_ack.
  - apply returns_ack.
  - by apply framed_subscribe.
  - apply returns_subscribe.
  - by apply framed_suback.
  - apply returns_suback.
  - by apply framed_unsubscribe.
  - apply returns_unsubscribe.
  - by apply framed_unsuback.
  - apply returns_unsuback.
  - apply framed_guard; [done|]. intros _. by apply framed_reason.
  - apply returns_if; intros _; [apply returns_throw|].
    intros x a x' [? _]%returns_reason. done.
  - apply framed_guard; [done|]. intros _. by apply framed_reason.
  - apply returns_if; intros _; [apply returns_throw | apply returns_reason].
Qed.

Lemma takes_readByte : takes readByte (fun _ => 1) 1.
Proof.
  eapply takes_bind; [by apply takes_readFull | lia |]. intros. apply takes_ret; lia.
Qed.

Lemma takes_decodeRemLen fuel mult cnt rl hs :
  takes (decodeRemLen fuel mult cnt rl hs) (fun x => snd x - hs) (Z.of_nat fuel).
Proof.
  revert mult cnt rl hs. induction fuel as [|fuel IH]; intros mult cnt rl hs; cbn [decodeRemLen].
  { by apply takes_throw. }
  eapply takes_bind; [apply takes_readByte | lia |]. intros b _.
  apply takes_if; intros _.
  - apply takes_if; intros _; [apply takes_throw; lia | apply takes_ret; cbn [snd]; lia].
  - apply takes_if; intros _; [apply takes_throw; lia|].
    eapply takes_ext; [eapply takes_mono; [apply IH | lia]|]. intros [n h]. cbn [snd]. lia.
Qed.

Lemma takes_decodeFixedHeader : takes decodeFixedHeader HeaderSize 5.
Proof.
  eapply takes_bind; [apply takes_readByte | lia |]. intros b _.
  eapply takes_bind; [apply takes_decodeRemLen | lia |]. intros [n h] Hn. cbn [snd] in Hn.
  apply takes_ret; cbn [HeaderSize snd]; lia.
Qed.

(** ** Properties *)

Lemma encode_decode c d p c' bs rest :
  codec_ok c -> codec_ok d ->
  protocolVersion d = protocolVersion c \/ packet_type p = PacketTypeConnect ->
  Encode (W := bytes) p (c, []) = (Ok tt, (c', bs)) -> packet_wf c' p = true ->
  len bs <= 268435456 -> len bs <= maxPacketSize d ->
  exists h, PacketType h = packet_type p /\ Dup h = Dup (GetFixedHeader p) /\
    QoS h = QoS (GetFixedHeader p) /\ HeaderSize h + RemainingLength h = len bs /\
    Decode (d, bs ++ rest) = (Ok (norm_packet c' h p), (encodeVersion p d, rest)).
Proof.
  intros Hc Hd Hv H Hw Hl Hm. apply Encode_inv in H as (Hf & -> & b & Hb & ->); [|done].
  pose proof (encodeVersion_spec c d p Hc Hd Hv) as Hs.
  rewrite (body_of_spec _ _ p Hs) in Hb. rewrite (packet_wf_spec _ _ p Hs) in Hw.
  setoid_rewrite (norm_packet_spec _ _ _ p Hs).
  pose proof Hw as Hw0. unfold packet_wf in Hw0.
  apply andb_true_iff in Hw0 as [[[Ht%Z.eqb_eq _]%andb_true_iff _]%andb_true_iff _].
  destruct (sent_flags p Ht Hf) as (Hst & Hsq & _).
  exists (wire_header (with_length (sent_header p) (len b))).
  cbn [wire_header with_length PacketType Dup QoS HeaderSize RemainingLength].
  assert (len (encodeFixedHeader (with_length (sent_header p) (len b))) = headerSize (len b)) as Hhs
    by (unfold encodeFixedHeader, headerSize; by rewrite len_cons).
  assert (1 <= headerSize (len b)).
  { unfold headerSize. pose proof (len_nonneg (encodeRemLen 10 (len b))). lia. }
  rewrite len_app, Hhs in Hl. split_and!; [done | by destruct p | done | by rewrite len_app, Hhs |].
  apply decode_packet; (done || lia).
Qed.


Definition sample_publish : Packet :=
  PPublish {| pub_FixedHeader := {| PacketType := 3; Dup := true; QoS := 2; Retain := true;
                                    RemainingLength := 0; HeaderSize := 0 |};
              pub_PacketID := 4660; pub_Topic := str "sensors/1/temp"; Payload := [0; 255; 17];
              pub_Properties := Some sample_properties |}.


Lemma decode_ok_inv c s p c' s' :
  codec_ok c -> bytes_ok s -> Decode (c, s) = (Ok p, (c', s')) ->
  exists fh s1 pre, decodeFixedHeader s = (Ok fh, s1) /\ s1 = pre ++ s' /\
    validateFixedHeaderFlags fh = Ok tt /\ RemainingLength fh + HeaderSize fh <= maxPacketSize c /\
    len pre = RemainingLength fh /\ GetFixedHeader p = fh /\ packet_valid c p /\
    packet_type p = PacketType fh /\
    (c' = c \/ exists v, c' = setVersion v c) /\ (packet_type p <> PacketTypeConnect -> c' = c).
Proof.
  intros Hc Hs H. unfold Decode in H. rewrite syncSpec_id in H by done. bind_inv H.
  unfold liftR in E. destruct (decodeFixedHeader s) as [[fh|e] s1] eqn:Eh; [|done].
  injection E as <- <-. bind_inv H. unfold lift_res in E. injection E as E <-. destruct a.
  destruct (_ || _) eqn:Er in H; [done|]. bools. destruct (maxPacketSize c <? _) eqn:Em in H; [done|].
  pose proof (decodeFixedHeader_inv _ _ _ Hs Eh) as (_ & _ & _ & Hs1). bools.
  pose proof (decodeBody_result c fh s1 ltac:(done) Hs1) as (pre & Hpre & _ & Hcc & Hr).
  rewrite H in *. cbn [fst snd] in *. destruct Hr as (Hl & Hh & Hval & Ht & Hkeep).
  exists fh, s1, pre. by split_and!.
Qed.

(** C26: framing.  A successful Decode takes exactly one packet off the stream:
    the bytes of the fixed header (which are its canonical encoding) and the
    Remaining Length it announces, no more than the maximum packet size; the
    packet carries that header, its flags are legal, and it satisfies the
    conditions of the specification that the decoders check (packet identifiers,
    topic names, subscription options, reason codes).  Only a CONNECT rebinds the
    codec, and the codec stays consistent. *)
Theorem decode_frames_one_packet c s p c' s' :
  codec_ok c -> bytes_ok s -> Decode (c, s) = (Ok p, (c', s')) ->
  let fh := GetFixedHeader p in
  exists body, s = encodeFixedHeader fh ++ body ++ s' /\ len body = RemainingLength fh /\
    HeaderSize fh = len (encodeFixedHeader fh) /\
    HeaderSize fh + RemainingLength fh <= maxPacketSize c /\
    PacketType fh = packet_type p /\ validateFixedHeaderFlags fh = Ok tt /\ packet_valid c p /\
    codec_ok c' /\ (packet_type p <> PacketTypeConnect -> c' = c).
Proof.
  intros Hc Hs H.
  apply decode_ok_inv in H as (fh & s1 & pre & Eh & -> & Hf & Hm & Hl & Hh & Hv & Ht & Hcc & Hkeep); try done.
  cbn zeta. rewrite Hh. apply decodeFixedHeader_inv in Eh as (-> & _ & Hhs & _); [|done].
  exists pre. split_and!; try done.
  - rewrite Hhs. unfold encodeFixedHeader, headerSize. by rewrite len_cons.
  - lia.
  - destruct Hcc as [->|[v ->]]; auto with mqtt.
Qed.

Lemma decode_frames_one_packet_witness :
  exists p c', Decode (NewCodec 0, [64; 2; 0; 9; 192; 0]) = (Ok p, (c', [192; 0])) /\
    PacketType (GetFixedHeader p) = packet_type p.
Proof.
  eexists _, _. split; [vm_compute; reflexivity|].
  edestruct (decode_frames_one_packet (NewCodec 0) [64; 2; 0; 9; 192; 0]) as (b & _ & _ & _ & _ & Ht & _);
    [reflexivity | repeat constructor; vm_compute; intuition congruence | vm_compute; reflexivity | exact Ht].
Defined.

(** A failed Decode never reads past the packet it rejects: whatever the
    error, it took at most the five bytes of a fixed header, or, once the fixed
    header was read, at most that header and the Remaining Length it announces;
    the codec stays consistent. *)
Theorem decode_error_stays_in_packet c s e c' s' :
  codec_ok c -> bytes_ok s -> Decode (c, s) = (Err e, (c', s')) ->
  codec_ok c' /\ exists pre, s = pre ++ s' /\
    match decodeFixedHeader s with
    | (Ok fh, _) => len pre <= HeaderSize fh + RemainingLength fh
    | (Err _, _) => len pre <= 5
    end.
Proof.
  intros Hc Hs H. unfold Decode in H. rewrite syncSpec_id in H by done.
  destruct (decodeFixedHeader s) as [[fh|e'] s1] eqn:Eh; pose proof Eh as Eh';
    apply takes_decodeFixedHeader in Eh' as (pre & -> & Hp & Hg); try done.
  - apply decodeFixedHeader_inv in Eh as Hi; [|done]. destruct Hi as (_ & (_ & _ & Hrl) & _ & Hs1).
    assert (c' = c /\ s' = s1 \/ decodeBody c fh (c, s1) = (Err e, (c', s'))) as Hcase.
    { unfold mbind, M_bind, liftR in H. rewrite Eh in H. unfold lift_res in H.
      destruct (validateFixedHeaderFlags fh); [|injection H as _ <- <-; by left].
      destruct (_ || _) in H; [injection H as _ <- <-; by left|].
      destruct (maxPacketSize c <? _) in H; [injection H as _ <- <-; by left | by right]. }
    destruct Hcase as [[-> ->]|Hb]; [split; [done|]; exists pre; split; [done | lia]|].
    pose proof (decodeBody_result c fh s1 ltac:(lia) Hs1) as (pre' & Hpre & Hl & Hcc & _).
    rewrite Hb in *. cbn [fst snd] in *. subst s1. split.
    + destruct Hcc as [->|[v ->]]; auto with mqtt.
    + exists (pre ++ pre'). rewrite <- app_assoc, len_app. split; [done | lia].
  - unfold mbind, M_bind, liftR in H. rewrite Eh in H. injection H as _ <- <-. eauto.
Qed.

Lemma decode_error_stays_in_packet_witness :
  Decode (NewCodec 0, [48; 5; 0; 9; 97; 98; 99; 192; 0]) = (Err ErrMalformedPacket, (NewCodec 0, [97; 98; 99; 192; 0])) /\
  codec_ok (NewCodec 0).
Proof.
  split; [vm_compute; reflexivity|].
  apply (decode_error_stays_in_packet (NewCodec 0) [48; 5; 0; 9; 97; 98; 99; 192; 0] ErrMalformedPacket
    (NewCodec 0) [97; 98; 99; 192; 0]);
    [reflexivity | repeat constructor; vm_compute; intuition congruence | vm_compute; reflexivity].
Defined.

(** The Maximum Packet Size of the peer.  With a limit set, an Encode into
    any writer either leaves the writer exactly as it was (and reports an error,
    ErrPacketTooLarge when the packet was well formed but too long), or makes a
    single Write of one complete packet that is no longer than the limit. *)
Theorem encode_respects_max_packet_size {W} `{!Writer W} c (w : W) p r c' w' :
  codec_ok c -> 0 < outboundMax c -> Encode p (c, w) = (r, (c', w')) ->
  (w' = w /\ exists e, r = Err e) \/
  exists b, body_of c' p = Ok b /\
    let bs := encodeFixedHeader (with_length (sent_header p) (len b)) ++ b in
    len bs <= outboundMax c /\ write bs w = (r, w').
Proof.
  intros Hc Ho H. unfold Encode in H. rewrite (proj2 (Z.leb_gt (outboundMax c) 0)) in H by done.
  destruct (encodeTo (W := bytes) p (c, [])) as [[[]|e] [c1 buf]] eqn:E.
  - destruct (outboundMax c <? len buf) eqn:El.
    { injection H as <- <- <-. left. eauto. }
    right. bools. destruct (write buf w) as [r1 w1] eqn:Ew. injection H as <- <- <-.
    assert (Encode (W := bytes) p (c, []) = (Ok tt, (c1, buf))) as HE.
    { unfold Encode. rewrite (proj2 (Z.leb_gt (outboundMax c) 0)), E by done.
      rewrite (proj2 (Z.ltb_ge _ _)) by done. done. }
    apply Encode_inv in HE as (_ & _ & b & Hb & ->); [|done]. exists b. by split.
  - injection H as <- <- <-. left. eauto.
Qed.

Lemma encode_respects_max_packet_size_witness :
  let c := SetOutboundMaxPacketSize 10 (NewCodecForVersion 0 5) in
  Encode (W := bytes) sample_publish (c, [1]) = (Err ErrPacketTooLarge, (c, [1])) /\
  (([1] = [1] /\ exists e, Err ErrPacketTooLarge = Err (A := unit) e) \/
   exists b, body_of c sample_publish = Ok b /\
    let bs := encodeFixedHeader (with_length (sent_header sample_publish) (len b)) ++ b in
    len bs <= outboundMax c /\ write bs [1] = (Err ErrPacketTooLarge, [1])).
Proof.
  split; [vm_compute; reflexivity|].
  apply (encode_respects_max_packet_size (W := bytes) (SetOutboundMaxPacketSize 10 (NewCodecForVersion 0 5))
    [1] sample_publish _ _ [1]); [reflexivity | vm_compute; reflexivity | vm_compute; reflexivity].
Defined.
