(* ===== verification/DecodeLoops.v ===== *)
(** * The loops of the decoder end

    The loops of decodeProperties, decodeSubscribe and decodeUnsubscribe run
    while bytes are left.  The model gives each the number of bytes as fuel; every
    round takes at least one, so more fuel changes nothing on any input. *)

From S2P Require Import Prelude Utf8 Wire Spec Topic Properties Packets Codec.
Open Scope Z_scope.

(** A successful run of [m] takes at least [k] bytes. *)
Definition shortens {A} (k : nat) (m : M bytes A) : Prop :=
  forall s a s', m s = (Ok a, s') -> (length s' + k <= length s)%nat.

Create HintDb shortens.

Lemma shortens_ret {A} (a : A) : shortens 0 (mret a).
Proof. intros s b s' [_ ->]%mret_inv. lia. Qed.

Lemma shortens_throw {A} k e : shortens k (@throw bytes A e).
Proof. intros s a s'. by intros [=]. Qed.

Lemma shortens_lift {A} (x : res A) : shortens 0 (lift_res x).
Proof. intros s a s' [= _ <-]. lia. Qed.

Lemma shortens_bind {A B} k (m : M bytes A) (f : A -> M bytes B) :
  shortens k m -> (forall a, shortens 0 (f a)) -> shortens k (m ≫= f).
Proof.
  intros Hm Hf s b s'. unfold mbind, M_bind. destruct (m s) as [[a|e] s1] eqn:E; [|by intros [=]].
  intros H. specialize (Hm _ _ _ E). specialize (Hf a _ _ _ H). lia.
Qed.

Lemma shortens_weaken {A} k (m : M bytes A) : shortens k m -> shortens 0 m.
Proof. intros Hm s a s' H. specialize (Hm _ _ _ H). lia. Qed.

Lemma shortens_if {A} (b : bool) k (m m' : M bytes A) : shortens k m -> shortens k m' -> shortens k (if b then m else m').
Proof. by destruct b. Qed.

Lemma shortens_ReadByte : shortens 1 ReadByte.
Proof. intros [|b s] a s'; [by intros [=]|]. intros [= _ <-]. cbn. lia. Qed.

Lemma shortens_readFull n : shortens 0 (readFull n).
Proof. intros s a s'. unfold readFull. destruct (n <=? len s); [|by intros [=]]. intros [= _ <-]. rewrite length_drop. lia. Qed.

#[export] Hint Resolve shortens_ret shortens_throw shortens_lift shortens_bind shortens_if shortens_ReadByte
  shortens_readFull : shortens.

Lemma shortens_readString : shortens 1 readStringFromReader.
Proof. unfold readStringFromReader. eauto 10 using shortens_weaken with shortens. Qed.

Lemma shortens_readBinary : shortens 1 readBinaryDataFromReader.
Proof. unfold readBinaryDataFromReader. eauto 10 using shortens_weaken with shortens. Qed.

Lemma shortens_varInt rd n val mult : shortens 1 rd -> shortens 0 (readVarInt_loop rd n val mult).
Proof.
  intros Hr. revert val mult. induction n as [|n IH]; intros val mult; cbn [readVarInt_loop]; [apply shortens_throw|].
  eauto using shortens_weaken with shortens.
Qed.

Lemma shortens_decodeProperty t p : shortens 0 (decodeProperty t p).
Proof.
  pose proof (shortens_weaken _ _ shortens_readString). pose proof (shortens_weaken _ _ shortens_readBinary).
  pose proof (shortens_weaken _ _ shortens_ReadByte). pose proof (shortens_varInt ReadByte 4 0 1 shortens_ReadByte).
  assert (shortens 0 readFlag) by (unfold readFlag; auto with shortens).
  assert (shortens 0 readUint16FromReader) by (unfold readUint16FromReader; auto with shortens).
  assert (shortens 0 readUint32FromReader) by (unfold readUint32FromReader; auto with shortens).
  unfold decodeProperty. repeat (apply shortens_if; [auto 8 with shortens|]). apply shortens_throw.
Qed.

(** Running [m ≫= f] or [m ≫= g] is the same when the continuations agree on what
    [m] leaves. *)
Lemma bind_ext {A B} k (m : M bytes A) (f g : A -> M bytes B) s :
  shortens k m -> (forall a s', (length s' + k <= length s)%nat -> f a s' = g a s') -> (m ≫= f) s = (m ≫= g) s.
Proof.
  intros Hm He. unfold mbind, M_bind. destruct (m s) as [[a|e] s1] eqn:E; [|done]. by apply He, (Hm _ a).
Qed.

Lemma decodeProperties_fuel n extra locus seen p s :
  (length s <= n)%nat -> decodeProperties_loop (n + extra) locus seen p s = decodeProperties_loop n locus seen p s.
Proof.
  revert seen p s. induction n as [|n IH]; intros seen p s Hn.
  { destruct s; [|cbn in Hn; lia]. by destruct extra. }
  cbn [Nat.add decodeProperties_loop]. apply (bind_ext 0); [intros ? ? ? [= _ <-]; lia|]. intros len0 s0 Hs0.
  destruct (len0 =? 0); [done|]. apply (bind_ext 1); [apply shortens_ReadByte|]. intros t s1 Hs1.
  destruct (loci_lookup t) as [allowed|]; [|done]. destruct (_ =? 0); [done|]. destruct (_ && _); [done|].
  apply (bind_ext 0); [apply shortens_decodeProperty|]. intros p' s2 Hs2. apply IH. lia.
Qed.

Lemma decodeFilters_fuel n extra c subID s :
  (length s <= n)%nat -> decodeFilters (n + extra) c subID s = decodeFilters n c subID s.
Proof.
  revert s. induction n as [|n IH]; intros s Hn.
  { destruct s; [|cbn in Hn; lia]. by destruct extra. }
  cbn [Nat.add decodeFilters]. apply (bind_ext 0); [intros ? ? ? [= _ <-]; lia|]. intros len0 s0 Hs0.
  destruct (len0 =? 0); [done|]. apply (bind_ext 1); [apply shortens_readString|]. intros t s1 Hs1.
  apply (bind_ext 1); [apply shortens_ReadByte|]. intros o s2 Hs2. destruct (_ && _); [done|]. destruct (_ || _); [done|].
  unfold mbind, M_bind. by rewrite IH by lia.
Qed.

Lemma decodeTopics_fuel n extra s : (length s <= n)%nat -> decodeTopics (n + extra) s = decodeTopics n s.
Proof.
  revert s. induction n as [|n IH]; intros s Hn.
  { destruct s; [|cbn in Hn; lia]. by destruct extra. }
  cbn [Nat.add decodeTopics]. apply (bind_ext 0); [intros ? ? ? [= _ <-]; lia|]. intros len0 s0 Hs0.
  destruct (len0 =? 0); [done|]. apply (bind_ext 1); [apply shortens_readString|]. intros t s1 Hs1.
  unfold mbind, M_bind. by rewrite IH by lia.
Qed.

