(* ===== verification/TopicTree.v ===== *)
(** * The subscription trie: broker/topic_tree.go

    The trie of [TopicNode]s with its counter, the shared subscriptions beside
    it, and the operations on both.  Go iterates over maps in an unspecified
    order; the model iterates in the order of the map library, and the theorems
    only speak about the contents of results, never about their order. *)

From stdpp Require Import sorting.
From S2P Require Import Prelude Topic.
Open Scope Z_scope.

(** ** Model *)

(** topic_tree.go, TopicNode: a level is a string, a client is a string. *)
Inductive TopicNode :=
  Node (children : gmap bytes TopicNode) (subscribers : gmap bytes Z).

Definition children (n : TopicNode) : gmap bytes TopicNode := match n with Node c _ => c end.
Definition subscribers (n : TopicNode) : gmap bytes Z := match n with Node _ s => s end.

Definition emptyNode : TopicNode := Node ∅ ∅.

(** topic_tree.go, TopicTree *)
Record TopicTree := {
  root : TopicNode;
  totalSubs : Z;
  sharedSubs : gmap bytes (gmap bytes (gmap bytes Z));
  sharedLast : gmap bytes bytes;
}.

Definition NewTopicTree : TopicTree :=
  {| root := emptyNode; totalSubs := 0; sharedSubs := ∅; sharedLast := ∅ |}.

(** topic_tree.go, subscribeNode: the new node and what is added to totalSubs;
    [parts] is parts[depth:]. *)
Fixpoint subscribeNode (node : TopicNode) (parts : list bytes) (clientID : bytes) (qos : Z)
    : TopicNode * Z :=
  match parts with
  | [] =>
      let added := match subscribers node !! clientID with Some _ => 0 | None => 1 end in
      (Node (children node) (<[clientID := qos]> (subscribers node)), added)
  | part :: parts' =>
      let child := default emptyNode (children node !! part) in
      let '(child', added) := subscribeNode child parts' clientID qos in
      (Node (<[part := child']> (children node)) (subscribers node), added)
  end.

Definition isEmptyNode (n : TopicNode) : bool :=
  bool_decide (size (subscribers n) = 0%nat) && bool_decide (size (children n) = 0%nat).

(** topic_tree.go, unsubscribeNode: the new node, what is added to totalSubs, and
    whether the caller may drop the node. *)
Fixpoint unsubscribeNode (node : TopicNode) (parts : list bytes) (clientID : bytes)
    : TopicNode * Z * bool :=
  match parts with
  | [] =>
      let added := match subscribers node !! clientID with Some _ => -1 | None => 0 end in
      let node' := Node (children node) (delete clientID (subscribers node)) in
      (node', added, isEmptyNode node')
  | part :: parts' =>
      match children node !! part with
      | None => (node, 0, false)
      | Some child =>
          let '(child', added, drop) := unsubscribeNode child parts' clientID in
          let node' :=
            if drop then Node (delete part (children node)) (subscribers node)
            else Node (<[part := child']> (children node)) (subscribers node) in
          (node', added, isEmptyNode node')
      end
  end.

Definition with_root (tt : TopicTree) (n : TopicNode) (added : Z) : TopicTree :=
  {| root := n; totalSubs := totalSubs tt + added; sharedSubs := sharedSubs tt;
     sharedLast := sharedLast tt |}.

(** topic_tree.go, Subscribe (SubscribeSystem has the same body) *)
Definition Subscribe (topic clientID : bytes) (qos : Z) (tt : TopicTree) : bool * TopicTree :=
  if negb (ValidateTopicFilter topic) then (false, tt)
  else
    let '(n, added) := subscribeNode (root tt) (SplitTopic topic) clientID qos in
    (true, with_root tt n added).

(** topic_tree.go, Unsubscribe *)
Definition Unsubscribe (topic clientID : bytes) (tt : TopicTree) : TopicTree :=
  let '(n, added, _) := unsubscribeNode (root tt) (SplitTopic topic) clientID in
  with_root tt n added.

(** topic_tree.go, Subscriber: a result and the QoS it was granted *)
Definition Subscriber : Type := bytes * Z.

(** The results slice and the dedup map of Match. *)
Definition MatchState : Type := list Subscriber * gmap bytes Z.

Fixpoint raiseQoS (results : list Subscriber) (clientID : bytes) (qos : Z) : list Subscriber :=
  match results with
  | [] => []
  | (cid, q) :: rest =>
      if bool_decide (cid = clientID) then (cid, qos) :: rest else (cid, q) :: raiseQoS rest clientID qos
  end.

(** topic_tree.go, addSubscriber *)
Definition addSubscriber (clientID : bytes) (qos : Z) (st : MatchState) : MatchState :=
  let '(results, visited) := st in
  match visited !! clientID with
  | None => (results ++ [(clientID, qos)], <[clientID := qos]> visited)
  | Some old =>
      if old <? qos then (raiseQoS results clientID qos, <[clientID := qos]> visited)
      else (results, visited)
  end.

Definition addSubscribers (subs : gmap bytes Z) (st : MatchState) : MatchState :=
  map_fold addSubscriber st subs.

(** topic_tree.go, collectAllSubscribers *)
Fixpoint collectAllSubscribers (node : TopicNode) (st : MatchState) : MatchState :=
  match node with
  | Node ch subs => map_fold (fun _ child st => collectAllSubscribers child st) (addSubscribers subs st) ch
  end.

Definition dollar : Z := 36.
Definition startsDollar (s : bytes) : bool := match s with b :: _ => b =? dollar | [] => false end.

(** topic_tree.go, matchNodeWithSys: [parts] is parts[depth:]. *)
Fixpoint matchNodeWithSys (node : TopicNode) (parts : list bytes) (depth : nat)
    (isSystemTopic wildcardsAllowed : bool) (st : MatchState) {struct parts} : MatchState :=
  let st := addSubscribers (subscribers node) st in
  let st :=
    if wildcardsAllowed then
      match children node !! [hash] with
      | Some hashChild => collectAllSubscribers hashChild st
      | None => st
      end
    else st in
  match parts with
  | [] => st
  | part :: parts' =>
      let st :=
        match children node !! part with
        | Some child =>
            let nextWildcardsAllowed :=
              wildcardsAllowed || (isSystemTopic && bool_decide (depth = 0%nat) && startsDollar part) in
            matchNodeWithSys child parts' (S depth) isSystemTopic nextWildcardsAllowed st
        | None => st
        end in
      if wildcardsAllowed then
        match children node !! [plus] with
        | Some plusChild => matchNodeWithSys plusChild parts' (S depth) isSystemTopic true st
        | None => st
        end
      else st
  end.

(** topic_tree.go, Match *)
Definition Match (topic : bytes) (tt : TopicTree) : list Subscriber :=
  let parts := SplitTopic topic in
  let isSystemTopic := match parts with p :: _ => startsDollar p | [] => false end in
  fst (matchNodeWithSys (root tt) parts 0 isSystemTopic (negb isSystemTopic) ([], ∅)).

(** topic_tree.go, SubscriberCount *)
Definition SubscriberCount (tt : TopicTree) : Z := totalSubs tt.

(** topic_tree.go, matchSysProtected *)
Definition matchSysProtected (pattern topic : bytes) : bool :=
  if startsDollar topic then
    let firstLevel := match indexSlash pattern with Some i => take i pattern | None => pattern end in
    if bool_decide (firstLevel = [hash]) || bool_decide (firstLevel = [plus]) then false
    else MatchTopic pattern topic
  else MatchTopic pattern topic.

(** ** Shared subscriptions *)

(** "$share/" *)
Definition sharedSubPrefix : bytes := [36; 115; 104; 97; 114; 101; 47].

(** topic_tree.go, IsSharedSubscription *)
Definition IsSharedSubscription (filter : bytes) : bool :=
  (len sharedSubPrefix <? len filter) && bool_decide (take (length sharedSubPrefix) filter = sharedSubPrefix).

(** topic_tree.go, ParseSharedFilter: the share name and the filter *)
Definition ParseSharedFilter (filter : bytes) : option (bytes * bytes) :=
  if negb (IsSharedSubscription filter) then None
  else
    let rest := drop (length sharedSubPrefix) filter in
    match indexSlash rest with
    | None => None
    | Some slashIdx =>
        if (Nat.leb slashIdx 0) || (Nat.leb (length rest - 1) slashIdx) then None
        else Some (take slashIdx rest, drop (S slashIdx) rest)
    end.

(** topic_tree.go, SubscribeShared *)
Definition SubscribeShared (shareName topicFilter clientID : bytes) (qos : Z) (tt : TopicTree) : TopicTree :=
  let filters := default ∅ (sharedSubs tt !! shareName) in
  let clients := default ∅ (filters !! topicFilter) in
  let added := match clients !! clientID with Some _ => 0 | None => 1 end in
  {| root := root tt; totalSubs := totalSubs tt + added;
     sharedSubs := <[shareName := <[topicFilter := <[clientID := qos]> clients]> filters]> (sharedSubs tt);
     sharedLast := sharedLast tt |}.

(** topic_tree.go, UnsubscribeShared *)
Definition UnsubscribeShared (shareName topicFilter clientID : bytes) (tt : TopicTree) : TopicTree :=
  match sharedSubs tt !! shareName with
  | None => tt
  | Some filters =>
      match filters !! topicFilter with
      | None => tt
      | Some clients =>
          let removed := match clients !! clientID with Some _ => 1 | None => 0 end in
          let clients' := delete clientID clients in
          let filters' :=
            if bool_decide (size clients' = 0%nat) then delete topicFilter filters
            else <[topicFilter := clients']> filters in
          if bool_decide (size filters' = 0%nat) then
            {| root := root tt; totalSubs := totalSubs tt - removed;
               sharedSubs := delete shareName (sharedSubs tt);
               sharedLast := delete shareName (sharedLast tt) |}
          else
            {| root := root tt; totalSubs := totalSubs tt - removed;
               sharedSubs := <[shareName := filters']> (sharedSubs tt);
               sharedLast := sharedLast tt |}
      end
  end.

(** topic_tree.go, SharedSubscriber *)
Record SharedSubscriber := {
  sharedClientID : bytes;
  sharedQoS : Z;
  sharedShareName : bytes;
}.

(** The members of a group for a topic: the clients of its matching filters,
    each once with its highest QoS, in the order of their ids. *)
Definition groupMembers (filters : gmap bytes (gmap bytes Z)) (topic : bytes) : list Subscriber :=
  let matchingFilters := base.filter (fun f => matchSysProtected f topic = true) (fst <$> map_to_list filters) in
  let members :=
    fst (foldl (fun st f => addSubscribers (default ∅ (filters !! f)) st) ([], ∅) matchingFilters) in
  merge_sort (fun a b => bytes_le (fst a) (fst b)) members.

Definition onlineMembers (isOnline : option (bytes -> bool)) (members : list Subscriber) : list Subscriber :=
  match isOnline with
  | None => members
  | Some online => base.filter (fun m => online (fst m) = true) members
  end.

(** The member after [last] in the order of the ids, and the first member when
    there is no [last] or it is not a member any more. *)
Definition selectMember (last : bytes) (members : list Subscriber) : bytes :=
  let ids := fst <$> members in
  let first := nth 0 ids [] in
  if bool_decide (last = []) then first
  else
    let i := sort_Search (length ids) (fun i => negb (bytes_ltb (nth i ids []) last)) in
    if Nat.ltb i (length ids) && bool_decide (nth i ids [] = last)
    then nth ((i + 1) mod length ids)%nat ids []
    else first.

Fixpoint memberQoS (sel : bytes) (members : list Subscriber) : Z :=
  match members with
  | [] => 0
  | (cid, q) :: rest => if bool_decide (cid = sel) then q else memberQoS sel rest
  end.

(** One iteration of matchShared's loop over the groups. *)
Definition matchGroup (topic : bytes) (isOnline : option (bytes -> bool)) (shareName : bytes)
    (filters : gmap bytes (gmap bytes Z)) (st : list SharedSubscriber * gmap bytes bytes)
    : list SharedSubscriber * gmap bytes bytes :=
  let '(results, lasts) := st in
  let members := onlineMembers isOnline (groupMembers filters topic) in
  match members with
  | [] => (results, lasts)
  | _ =>
      let sel := selectMember (default [] (lasts !! shareName)) members in
      (results ++ [{| sharedClientID := sel; sharedQoS := memberQoS sel members; sharedShareName := shareName |}],
       <[shareName := sel]> lasts)
  end.

(** topic_tree.go, matchShared (MatchShared passes no [isOnline],
    MatchSharedOnline its argument) *)
Definition matchShared (topic : bytes) (isOnline : option (bytes -> bool)) (tt : TopicTree)
    : list SharedSubscriber * TopicTree :=
  let '(results, lasts) := map_fold (matchGroup topic isOnline) ([], sharedLast tt) (sharedSubs tt) in
  (results, {| root := root tt; totalSubs := totalSubs tt; sharedSubs := sharedSubs tt; sharedLast := lasts |}).

(** ** Induction on the trie *)

Fixpoint node_size (n : TopicNode) : nat :=
  match n with Node ch _ => S (map_fold (fun _ c acc => (node_size c + acc)%nat) 0%nat ch) end.

Lemma node_size_child ch subs k c : ch !! k = Some c -> (node_size c < node_size (Node ch subs))%nat.
Proof.
  intros Hk. cbn [node_size].
  rewrite (map_fold_delete_L (fun _ c acc => (node_size c + acc)%nat) 0%nat k c ch); [lia | intros; lia | done].
Qed.

Lemma TopicNode_induction (P : TopicNode -> Prop) :
  (forall ch subs, (forall k c, ch !! k = Some c -> P c) -> P (Node ch subs)) -> forall n, P n.
Proof.
  intros Hnode n. remember (node_size n) as m eqn:Hm. revert n Hm.
  induction m as [m IH] using lt_wf_ind. intros [ch subs] ->. apply Hnode. intros k c Hk.
  by eapply IH; [eapply node_size_child|].
Qed.

(** ** The abstract state: the subscriptions at a filter *)

Fixpoint subs_at (n : TopicNode) (parts : list bytes) : gmap bytes Z :=
  match parts with
  | [] => subscribers n
  | p :: ps => match children n !! p with Some c => subs_at c ps | None => ∅ end
  end.

Lemma subs_at_empty parts : subs_at emptyNode parts = ∅.
Proof. by destruct parts. Qed.

Lemma subscribeNode_subs n parts cid q parts' :
  subs_at (fst (subscribeNode n parts cid q)) parts' =
  if decide (parts' = parts) then <[cid := q]> (subs_at n parts) else subs_at n parts'.
Proof.
  revert n parts'. induction parts as [|p ps IH]; intros n parts'; cbn [subscribeNode].
  - destruct parts' as [|p' ps']; [by rewrite decide_True | by rewrite decide_False].
  - specialize (IH (default emptyNode (children n !! p))).
    destruct (subscribeNode _ ps cid q) as [c' a] eqn:Ec. cbn [fst] in *.
    destruct parts' as [|p' ps']; cbn [subs_at children subscribers]; [by rewrite decide_False|].
    destruct (decide (p' = p)) as [->|Hp].
    + rewrite lookup_insert_eq, IH. destruct (children n !! p); cbn.
      * destruct (decide (ps' = ps)) as [->|]; [by rewrite decide_True | rewrite decide_False; congruence].
      * rewrite !subs_at_empty.
        destruct (decide (ps' = ps)) as [->|]; [by rewrite decide_True | rewrite decide_False; congruence].
    + rewrite lookup_insert_ne by done. rewrite decide_False; congruence.
Qed.

Lemma unsubscribeNode_subs n parts cid parts' :
  subs_at (fst (fst (unsubscribeNode n parts cid))) parts' =
  if decide (parts' = parts) then delete cid (subs_at n parts) else subs_at n parts'.
Proof.
  assert (forall c, isEmptyNode c = true -> forall ps, subs_at c ps = ∅) as Hempty.
  { intros [ch subs] H ps. unfold isEmptyNode in H. cbn in H. bools.
    apply map_size_empty_inv in H, H0. subst. by destruct ps. }
  revert n parts'. induction parts as [|p ps IH]; intros n parts'; cbn [unsubscribeNode].
  - destruct parts' as [|p' ps']; [by rewrite decide_True | by rewrite decide_False].
  - cbn [subs_at]. destruct (children n !! p) as [c|] eqn:Ec.
    + specialize (IH c). destruct (unsubscribeNode c ps cid) as [[c' a] drop] eqn:Eu. cbn [fst] in *.
      assert (drop = true -> isEmptyNode c' = true) as Hdrop.
      { intros ->. destruct ps as [|p2 ps]; cbn [unsubscribeNode] in Eu; [by injection Eu as <- _ <-|].
        destruct (children c !! p2); [|done].
        destruct (unsubscribeNode _ ps cid) as [[? ?] ?]. by injection Eu as <- _ <-. }
      destruct parts' as [|p' ps'];
        [rewrite decide_False by done; by destruct drop|].
      destruct (decide (p' = p)) as [->|Hp].
      * assert (subs_at (if drop then Node (delete p (children n)) (subscribers n)
                         else Node (<[p:=c']> (children n)) (subscribers n)) (p :: ps') = subs_at c' ps') as ->.
        { destruct drop; cbn [subs_at children].
          - rewrite lookup_delete_eq. symmetry. by apply Hempty, Hdrop.
          - by rewrite lookup_insert_eq. }
        rewrite IH. cbn [subs_at]. rewrite Ec.
        destruct (decide (ps' = ps)) as [->|]; [by rewrite decide_True | rewrite decide_False; congruence].
      * rewrite decide_False by congruence. destruct drop; cbn [subs_at children];
          by rewrite ?lookup_delete_ne, ?lookup_insert_ne by done.
    + cbn [fst]. destruct (decide (parts' = p :: ps)) as [->|]; [|done].
      cbn [subs_at]. rewrite Ec. by rewrite delete_empty.
Qed.

Lemma subscribeNode_added n parts cid q :
  snd (subscribeNode n parts cid q) = match subs_at n parts !! cid with Some _ => 0 | None => 1 end.
Proof.
  revert n. induction parts as [|p ps IH]; intros n; cbn [subscribeNode subs_at]; [done|].
  specialize (IH (default emptyNode (children n !! p))).
  destruct (subscribeNode _ ps cid q) as [c' a]. cbn [snd] in *. rewrite IH.
  destruct (children n !! p); cbn; [done|]. by rewrite subs_at_empty.
Qed.

Lemma unsubscribeNode_added n parts cid :
  snd (fst (unsubscribeNode n parts cid)) = match subs_at n parts !! cid with Some _ => -1 | None => 0 end.
Proof.
  revert n. induction parts as [|p ps IH]; intros n; cbn [unsubscribeNode subs_at]; [done|].
  destruct (children n !! p) as [c|]; [|done]. specialize (IH c).
  by destruct (unsubscribeNode c ps cid) as [[c' a] drop].
Qed.

(** ** Pruned tries: no node without a subscription below it *)

Inductive pruned : TopicNode -> Prop :=
  pruned_node ch subs :
    (forall k c, ch !! k = Some c -> isEmptyNode c = false) ->
    (forall k c, ch !! k = Some c -> pruned c) ->
    pruned (Node ch subs).

Lemma isEmptyNode_spec n : isEmptyNode n = true <-> n = emptyNode.
Proof.
  unfold isEmptyNode. rewrite andb_true_iff, !bool_decide_eq_true, !map_size_empty_iff.
  destruct n as [ch subs]; cbn. unfold emptyNode. split; [by intros [-> ->] | by intros [= -> ->]].
Qed.

Lemma pruned_empty : pruned emptyNode.
Proof. constructor; intros k c Hk; by rewrite lookup_empty in Hk. Qed.

Lemma pruned_inv n k c :
  pruned n -> children n !! k = Some c -> isEmptyNode c = false /\ pruned c.
Proof. intros [ch subs H1 H2]. eauto. Qed.

Lemma pruned_insert n k c :
  pruned n -> isEmptyNode c = false -> pruned c -> pruned (Node (<[k := c]> (children n)) (subscribers n)).
Proof.
  intros [ch subs H1 H2] Hne Hc. constructor; intros k' c'; cbn; rewrite lookup_insert_Some; naive_solver.
Qed.

Lemma pruned_delete n k : pruned n -> pruned (Node (delete k (children n)) (subscribers n)).
Proof.
  intros [ch subs H1 H2]. constructor; intros k' c'; cbn; rewrite lookup_delete_Some; naive_solver.
Qed.

Lemma pruned_subscribers n subs : pruned n -> pruned (Node (children n) subs).
Proof. intros [ch subs' H1 H2]. by constructor. Qed.

#[export] Hint Resolve pruned_empty pruned_insert pruned_delete pruned_subscribers : mqtt.

Lemma isEmptyNode_children n k c : children n !! k = Some c -> isEmptyNode n = false.
Proof.
  intros Hk. apply not_true_iff_false. rewrite isEmptyNode_spec. intros ->. cbn in Hk. by rewrite lookup_empty in Hk.
Qed.

Lemma subscribeNode_pruned n parts cid q :
  pruned n ->
  pruned (fst (subscribeNode n parts cid q)) /\ isEmptyNode (fst (subscribeNode n parts cid q)) = false.
Proof.
  revert n. induction parts as [|p ps IH]; intros n Hn; cbn [subscribeNode].
  - cbn [fst]. split; [by apply pruned_subscribers|]. apply not_true_iff_false. rewrite isEmptyNode_spec.
    intros [= _ H]. by apply insert_non_empty in H.
  - assert (pruned (default emptyNode (children n !! p))) as Hd.
    { destruct (children n !! p) eqn:E; cbn; [by eapply pruned_inv | auto with mqtt]. }
    specialize (IH _ Hd). destruct (subscribeNode _ ps cid q) as [c' a]. cbn [fst] in *.
    destruct IH. split; [auto with mqtt|]. apply (isEmptyNode_children _ p c'). apply lookup_insert_eq.
Qed.

Lemma unsubscribeNode_pruned n parts cid n' a drop :
  pruned n -> unsubscribeNode n parts cid = (n', a, drop) ->
  pruned n' /\ (drop = false -> isEmptyNode n = false -> isEmptyNode n' = false).
Proof.
  revert n n' a drop. induction parts as [|p ps IH]; intros n n' a drop Hn; cbn [unsubscribeNode].
  - intros [= <- _ <-]. auto with mqtt.
  - destruct (children n !! p) as [c|] eqn:Ec; [|by intros [= <- _ <-]].
    destruct (pruned_inv _ _ _ Hn Ec) as [Hne Hc].
    destruct (unsubscribeNode c ps cid) as [[c' a'] d] eqn:Eu. intros [= <- _ <-].
    destruct (IH _ _ _ _ Hc Eu) as [Hc' Hd]. destruct d; auto with mqtt.
Qed.

(** A pruned node that is not empty has a subscription below it. *)
Lemma pruned_nonempty n : pruned n -> isEmptyNode n = false -> exists path, subs_at n path <> ∅.
Proof.
  induction n as [ch subs IH] using TopicNode_induction. intros Hp Hne.
  destruct (decide (subs = ∅)) as [->|]; [|by exists []].
  destruct (map_choose ch) as (k & c & Hk).
  { intros ->. assert (emptyNode = emptyNode) as He by done. apply isEmptyNode_spec in He. unfold emptyNode in He. congruence. }
  destruct (pruned_inv _ k c Hp Hk) as [Hcne Hcp].
  destruct (IH k c Hk Hcp Hcne) as [path Hpath]. exists (k :: path). cbn. by rewrite Hk.
Qed.

(** The subscriptions determine the trie. *)
Lemma pruned_ext a b : pruned a -> pruned b -> (forall path, subs_at a path = subs_at b path) -> a = b.
Proof.
  revert b. induction a as [ch subs IH] using TopicNode_induction. intros [ch' subs'] Ha Hb Heq.
  assert (subs = subs') as <- by apply (Heq []). f_equal. apply map_eq. intros k.
  assert (forall path, match ch !! k with Some c => subs_at c path | None => ∅ end =
                       match ch' !! k with Some c => subs_at c path | None => ∅ end) as Hk
    by (intros path; apply (Heq (k :: path))).
  destruct (ch !! k) as [c|] eqn:Ec, (ch' !! k) as [c'|] eqn:Ec'; [f_equal| | |done].
  - apply (IH k c); [done | by eapply (pruned_inv _ k c) in Ha as [] | by eapply (pruned_inv _ k c') in Hb as [] | done].
  - destruct (pruned_inv _ k c Ha Ec) as [Hne Hp]. by destruct (pruned_nonempty c Hp Hne) as [path []].
  - destruct (pruned_inv _ k c' Hb Ec') as [Hne Hp]. destruct (pruned_nonempty c' Hp Hne) as [path []].
    by rewrite <- Hk.
Qed.
