(* ===== verification/TopicTreeProofs.v ===== *)
(** * The subscription trie implements a map of subscriptions

    The abstract state of broker/topic_tree.go is a map from (filter, client) to
    QoS for the plain subscriptions and one from (share name, filter, client) to
    QoS for the shared ones.  Every operation of the trie implements the obvious
    operation on these maps, the counter is the number of their entries, and the
    trie is determined by them. *)

From S2P Require Import Prelude Topic TopicTree.
Open Scope Z_scope.

(** ** The abstract specification *)

Inductive TreeOp :=
  | OpSubscribe (filter clientID : bytes) (qos : Z)
  | OpUnsubscribe (filter clientID : bytes)
  | OpSubscribeShared (shareName filter clientID : bytes) (qos : Z)
  | OpUnsubscribeShared (shareName filter clientID : bytes)
  | OpMatchShared (topic : bytes) (isOnline : option (bytes -> bool)).

Definition stepTree (op : TreeOp) (tt : TopicTree) : TopicTree :=
  match op with
  | OpSubscribe f c q => snd (Subscribe f c q tt)
  | OpUnsubscribe f c => Unsubscribe f c tt
  | OpSubscribeShared g f c q => SubscribeShared g f c q tt
  | OpUnsubscribeShared g f c => UnsubscribeShared g f c tt
  | OpMatchShared t online => snd (matchShared t online tt)
  end.

Definition runTree (ops : list TreeOp) (tt : TopicTree) : TopicTree := foldl (flip stepTree) tt ops.

Record SubscriptionMaps := {
  plainSubs : gmap (bytes * bytes) Z;
  groupSubs : gmap (bytes * bytes * bytes) Z;
}.

Definition noSubscriptions : SubscriptionMaps := {| plainSubs := ∅; groupSubs := ∅ |}.

Definition stepSpec (op : TreeOp) (s : SubscriptionMaps) : SubscriptionMaps :=
  match op with
  | OpSubscribe f c q =>
      if ValidateTopicFilter f
      then {| plainSubs := <[(f, c) := q]> (plainSubs s); groupSubs := groupSubs s |} else s
  | OpUnsubscribe f c => {| plainSubs := delete (f, c) (plainSubs s); groupSubs := groupSubs s |}
  | OpSubscribeShared g f c q =>
      {| plainSubs := plainSubs s; groupSubs := <[(g, f, c) := q]> (groupSubs s) |}
  | OpUnsubscribeShared g f c =>
      {| plainSubs := plainSubs s; groupSubs := delete (g, f, c) (groupSubs s) |}
  | OpMatchShared _ _ => s
  end.

Definition runSpec (ops : list TreeOp) (s : SubscriptionMaps) : SubscriptionMaps := foldl (flip stepSpec) s ops.

(** ** The refinement relation *)

Definition shared_lookup (tt : TopicTree) (g f c : bytes) : option Z :=
  sharedSubs tt !! g ≫= fun filters => filters !! f ≫= fun clients => clients !! c.

Definition nonempty_groups (m : gmap bytes (gmap bytes (gmap bytes Z))) : Prop :=
  map_Forall (fun _ filters => filters <> ∅ /\ map_Forall (fun _ clients => clients <> ∅) filters) m.

Record tree_refines (tt : TopicTree) (s : SubscriptionMaps) : Prop := {
  tr_plain f c : subs_at (root tt) (SplitTopic f) !! c = plainSubs s !! (f, c);
  tr_filters path c q : subs_at (root tt) path !! c = Some q ->
    exists f, ValidateTopicFilter f = true /\ path = SplitTopic f;
  tr_pruned : pruned (root tt);
  tr_shared g f c : shared_lookup tt g f c = groupSubs s !! (g, f, c);
  tr_groups : nonempty_groups (sharedSubs tt);
  tr_count : totalSubs tt = Z.of_nat (size (plainSubs s)) + Z.of_nat (size (groupSubs s));
}.

Lemma refines_empty : tree_refines NewTopicTree noSubscriptions.
Proof.
  split; cbn; intros; rewrite ?subs_at_empty, ?lookup_empty in *; try done; auto with mqtt.
Qed.

Lemma refines_subscribe tt s f c q :
  tree_refines tt s -> tree_refines (snd (Subscribe f c q tt)) (stepSpec (OpSubscribe f c q) s).
Proof.
  intros [H1 H2 H3 H4 H5 H6]. unfold Subscribe; cbn [stepSpec].
  destruct (ValidateTopicFilter f) eqn:Ev; cbn [negb]; [|by split].
  pose proof (subscribeNode_subs (root tt) (SplitTopic f) c q) as Hs.
  pose proof (subscribeNode_added (root tt) (SplitTopic f) c q) as Ha.
  pose proof (subscribeNode_pruned (root tt) (SplitTopic f) c q H3) as [Hp _].
  destruct (subscribeNode (root tt) (SplitTopic f) c q) as [n a]. cbn [fst snd] in *.
  split; cbn [with_root root totalSubs sharedSubs plainSubs groupSubs]; auto.
  - intros f' c'. rewrite Hs. case_decide as Hd.
    + apply SplitTopic_inj in Hd as ->. destruct (decide (c' = c)) as [->|].
      * by rewrite !lookup_insert_eq.
      * rewrite !lookup_insert_ne by congruence. apply H1.
    + rewrite lookup_insert_ne; [apply H1|]. congruence.
  - intros path c' q'. rewrite Hs. case_decide as Hd; [by exists f | apply H2].
  - rewrite size_insert_count, H6, Ha, H1. lia.
Qed.

Lemma refines_unsubscribe tt s f c :
  tree_refines tt s -> tree_refines (Unsubscribe f c tt) (stepSpec (OpUnsubscribe f c) s).
Proof.
  intros [H1 H2 H3 H4 H5 H6]. unfold Unsubscribe; cbn [stepSpec].
  pose proof (unsubscribeNode_subs (root tt) (SplitTopic f) c) as Hs.
  pose proof (unsubscribeNode_added (root tt) (SplitTopic f) c) as Ha.
  destruct (unsubscribeNode (root tt) (SplitTopic f) c) as [[n a] d] eqn:Eu. cbn [fst snd] in *.
  destruct (unsubscribeNode_pruned _ _ _ _ _ _ H3 Eu) as [Hp _].
  split; cbn [with_root root totalSubs sharedSubs plainSubs groupSubs]; auto.
  - intros f' c'. rewrite Hs. case_decide as Hd.
    + apply SplitTopic_inj in Hd as ->. destruct (decide (c' = c)) as [->|].
      * by rewrite !lookup_delete_eq.
      * rewrite !lookup_delete_ne by congruence. apply H1.
    + rewrite lookup_delete_ne; [apply H1|]. congruence.
  - intros path c' q'. rewrite Hs. case_decide as Hd; [|apply H2].
    intros [_ Hx]%lookup_delete_Some. subst path. by apply H2 in Hx.
  - rewrite size_delete_count, H6, Ha, H1. destruct (plainSubs s !! (f, c)); lia.
Qed.

(** ** Shared subscriptions *)

Lemma shared_lookup_insert tt g f c q g' f' c' :
  shared_lookup (SubscribeShared g f c q tt) g' f' c' =
  if decide ((g', f', c') = (g, f, c)) then Some q else shared_lookup tt g' f' c'.
Proof.
  unfold shared_lookup, SubscribeShared; cbn [sharedSubs].
  destruct (decide (g' = g)) as [->|].
  2: { rewrite lookup_insert_ne by done. rewrite decide_False; congruence. }
  rewrite lookup_insert_eq. cbn [mbind option_bind].
  destruct (decide (f' = f)) as [->|].
  2: { rewrite lookup_insert_ne by done. rewrite decide_False by congruence.
       destruct (sharedSubs tt !! g); cbn; [done|]. by rewrite lookup_empty. }
  rewrite lookup_insert_eq. cbn [mbind option_bind].
  destruct (decide (c' = c)) as [->|].
  - by rewrite lookup_insert_eq, decide_True.
  - rewrite lookup_insert_ne, decide_False by congruence.
    destruct (sharedSubs tt !! g) as [fs|]; cbn; [|by rewrite !lookup_empty].
    destruct (fs !! f) as [cs|]; cbn; [done|]. by rewrite lookup_empty.
Qed.

Lemma refines_subscribe_shared tt s g f c q :
  tree_refines tt s ->
  tree_refines (SubscribeShared g f c q tt) (stepSpec (OpSubscribeShared g f c q) s).
Proof.
  intros [H1 H2 H3 H4 H5 H6]. split; cbn [stepSpec plainSubs groupSubs]; auto.
  - intros g' f' c'. rewrite shared_lookup_insert, H4. case_decide as Hd.
    + by rewrite Hd, lookup_insert_eq.
    + by rewrite lookup_insert_ne.
  - cbn [SubscribeShared sharedSubs]. apply map_Forall_insert_2; [|done]. split; [apply insert_non_empty|].
    apply map_Forall_insert_2; [apply insert_non_empty|].
    destruct (sharedSubs tt !! g) as [fs|] eqn:Eg; cbn; [|apply map_Forall_empty]. by apply (H5 g fs).
  - cbn [SubscribeShared totalSubs]. rewrite size_insert_count, H6, <- H4. unfold shared_lookup.
    destruct (sharedSubs tt !! g) as [fs|]; cbn; [destruct (fs !! f) as [cs|]; cbn|];
      rewrite ?lookup_empty; cbn; rewrite ?lookup_empty; try destruct (cs !! c); lia.
Qed.

(** One level of UnsubscribeShared: drop [k] from the inner map at [j], and the
    inner map when it becomes empty. *)
Section DropEmpty.
Context {A : Type}.

Definition drop_empty (j : bytes) (inner : gmap bytes A) (m : gmap bytes (gmap bytes A)) :=
  if bool_decide (size inner = 0%nat) then delete j m else <[j := inner]> m.

Lemma drop_empty_lookup j inner m i :
  default ∅ (drop_empty j inner m !! i) = if decide (i = j) then inner else default ∅ (m !! i).
Proof.
  unfold drop_empty. case_bool_decide as Hs; [apply map_size_empty_iff in Hs as ->|];
    (destruct (decide (i = j)) as [->|]; [by rewrite ?lookup_delete_eq, ?lookup_insert_eq
      | by rewrite ?lookup_delete_ne, ?lookup_insert_ne by done]).
Qed.

Lemma drop_empty_nonempty j inner m :
  map_Forall (fun _ x => x <> ∅) m -> map_Forall (fun _ x => x <> ∅) (drop_empty j inner m).
Proof.
  intros Hm. unfold drop_empty. case_bool_decide as Hs; [by apply map_Forall_delete|].
  apply map_Forall_insert_2; [by rewrite map_size_empty_iff in Hs | done].
Qed.
End DropEmpty.

Lemma shared_lookup_default tt g f c :
  shared_lookup tt g f c = default ∅ (default ∅ (sharedSubs tt !! g) !! f) !! c.
Proof.
  unfold shared_lookup. destruct (sharedSubs tt !! g) as [fs|]; cbn; [|by rewrite lookup_empty].
  destruct (fs !! f); cbn; [done|]. by rewrite lookup_empty.
Qed.

Lemma UnsubscribeShared_groups g f c tt :
  (sharedSubs tt !! g ≫= fun filters => filters !! f) <> None ->
  sharedSubs (UnsubscribeShared g f c tt) =
  drop_empty g (drop_empty f (delete c (default ∅ (default ∅ (sharedSubs tt !! g) !! f)))
                  (default ∅ (sharedSubs tt !! g))) (sharedSubs tt).
Proof.
  unfold UnsubscribeShared, drop_empty. destruct (sharedSubs tt !! g) as [fs|]; [|done]. cbn.
  destruct (fs !! f) as [cs|]; [cbn|done]. intros _.
  by destruct (bool_decide (size (if _ : bool then _ else _) = 0%nat)).
Qed.

Lemma UnsubscribeShared_absent g f c tt :
  (sharedSubs tt !! g ≫= fun filters => filters !! f) = None -> UnsubscribeShared g f c tt = tt.
Proof.
  unfold UnsubscribeShared. destruct (sharedSubs tt !! g) as [fs|]; [cbn|done]. by intros ->.
Qed.

Lemma shared_lookup_delete tt g f c g' f' c' :
  shared_lookup (UnsubscribeShared g f c tt) g' f' c' =
  if decide ((g', f', c') = (g, f, c)) then None else shared_lookup tt g' f' c'.
Proof.
  destruct (sharedSubs tt !! g ≫= fun filters => filters !! f) eqn:E.
  - rewrite !shared_lookup_default, UnsubscribeShared_groups by congruence.
    rewrite drop_empty_lookup. destruct (decide (g' = g)) as [->|]; [|by rewrite decide_False by congruence].
    rewrite drop_empty_lookup. destruct (decide (f' = f)) as [->|]; [|by rewrite decide_False by congruence].
    destruct (decide (c' = c)) as [->|].
    + by rewrite lookup_delete_eq, decide_True.
    + by rewrite lookup_delete_ne, decide_False by congruence.
  - rewrite UnsubscribeShared_absent by done. case_decide as Hd; [|done]. injection Hd as -> -> ->.
    unfold shared_lookup. destruct (sharedSubs tt !! g); [cbn in *|done]. by rewrite E.
Qed.

Lemma UnsubscribeShared_nonempty tt g f c :
  nonempty_groups (sharedSubs tt) -> nonempty_groups (sharedSubs (UnsubscribeShared g f c tt)).
Proof.
  intros Hne. destruct (sharedSubs tt !! g ≫= fun filters => filters !! f) eqn:E.
  2: by rewrite UnsubscribeShared_absent.
  rewrite UnsubscribeShared_groups by congruence.
  assert (map_Forall (fun _ x => x <> ∅) (default ∅ (sharedSubs tt !! g))) as Hg.
  { destruct (sharedSubs tt !! g) eqn:Eg; cbn; [by apply (Hne g) | apply map_Forall_empty]. }
  intros g' fs Hfs.
  assert (map_Forall (fun _ x => x <> ∅) (sharedSubs tt)) as Hgs by (intros ? ? Hx; by apply Hne in Hx as []).
  split; [by eapply (drop_empty_nonempty g _ _ Hgs)|].
  pose proof (drop_empty_lookup g (drop_empty f (delete c (default ∅ (default ∅ (sharedSubs tt !! g) !! f)))
                  (default ∅ (sharedSubs tt !! g))) (sharedSubs tt) g') as Hl.
  rewrite Hfs in Hl. cbn in Hl. subst fs. case_decide; [by apply drop_empty_nonempty|].
  destruct (sharedSubs tt !! g') eqn:Eg'; cbn; [by apply (Hne g') | apply map_Forall_empty].
Qed.

Lemma refines_unsubscribe_shared tt s g f c :
  tree_refines tt s -> tree_refines (UnsubscribeShared g f c tt) (stepSpec (OpUnsubscribeShared g f c) s).
Proof.
  intros [H1 H2 H3 H4 H5 H6].
  assert (root (UnsubscribeShared g f c tt) = root tt /\
          totalSubs (UnsubscribeShared g f c tt) =
          totalSubs tt - match shared_lookup tt g f c with Some _ => 1 | None => 0 end) as [Hr Ht].
  { unfold UnsubscribeShared, shared_lookup. destruct (sharedSubs tt !! g) as [fs|]; cbn; [|split; [done|lia]].
    destruct (fs !! f) as [cs|]; cbn; [|split; [done|lia]]. by case_bool_decide. }
  split; cbn [stepSpec plainSubs groupSubs]; rewrite ?Hr; auto.
  - intros g' f' c'. rewrite shared_lookup_delete, H4. case_decide as Hd.
    + by rewrite Hd, lookup_delete_eq.
    + by rewrite lookup_delete_ne.
  - by apply UnsubscribeShared_nonempty.
  - rewrite Ht, size_delete_count, H6, H4. lia.
Qed.

Lemma refines_step op tt s : tree_refines tt s -> tree_refines (stepTree op tt) (stepSpec op s).
Proof.
  destruct op; cbn [stepTree];
    auto using refines_subscribe, refines_unsubscribe, refines_subscribe_shared, refines_unsubscribe_shared.
  unfold matchShared. destruct (map_fold _ _ _). cbn [snd stepSpec]. by intros [].
Qed.

Lemma refines_run ops tt s : tree_refines tt s -> tree_refines (runTree ops tt) (runSpec ops s).
Proof. revert tt s. induction ops; intros; cbn; [done|]. by apply IHops, refines_step. Qed.

Lemma refines_root_ext tt s tt' s' :
  tree_refines tt s -> tree_refines tt' s' -> plainSubs s = plainSubs s' -> root tt = root tt'.
Proof.
  intros H H' Heq. apply pruned_ext; [apply H | apply H' |]. intros path. apply map_eq. intros c.
  assert (forall tt s, tree_refines tt s -> forall q, subs_at (root tt) path !! c = Some q ->
            exists f, path = SplitTopic f) as Hpath.
  { intros ?? Hr q Hq. apply (tr_filters _ _ Hr) in Hq as (f & _ & ->). eauto. }
  destruct (subs_at (root tt) path !! c) as [q|] eqn:E, (subs_at (root tt') path !! c) as [q'|] eqn:E'; [| | |done].
  all: first [destruct (Hpath _ _ H q E) as [f ->] | destruct (Hpath _ _ H' q' E') as [f ->]];
    rewrite (tr_plain _ _ H) in E; rewrite (tr_plain _ _ H') in E'; congruence.
Qed.

(** ** Properties *)

(** C14: The trie implements a map of subscriptions.  After any sequence of
    subscribe, unsubscribe and shared operations, the QoS stored for a client at
    a filter is the one the map of the abstract operations holds, the counter of
    SubscriberCount is the number of entries of the maps, every filter in the
    trie is a valid one, and no node or group without a subscription is left
    behind. *)
Theorem tree_refines_subscription_map ops :
  let tt := runTree ops NewTopicTree in
  let s := runSpec ops noSubscriptions in
  (forall f c, subs_at (root tt) (SplitTopic f) !! c = plainSubs s !! (f, c)) /\
  (forall g f c, shared_lookup tt g f c = groupSubs s !! (g, f, c)) /\
  SubscriberCount tt = Z.of_nat (size (plainSubs s)) + Z.of_nat (size (groupSubs s)) /\
  (forall path c q, subs_at (root tt) path !! c = Some q ->
     exists f, ValidateTopicFilter f = true /\ path = SplitTopic f) /\
  pruned (root tt) /\ nonempty_groups (sharedSubs tt).
Proof.
  intros tt s. assert (tree_refines tt s) as [H1 H2 H3 H4 H5 H6] by (apply refines_run, refines_empty).
  by split_and!.
Qed.

(** The subscriptions determine the trie: two histories of operations leave
    the same trie exactly when they leave the same subscriptions.  In particular
    an unsubscribe leaves the trie as it was before the subscribe it undoes. *)
Theorem subscriptions_determine_trie ops ops' :
  root (runTree ops NewTopicTree) = root (runTree ops' NewTopicTree) <->
  plainSubs (runSpec ops noSubscriptions) = plainSubs (runSpec ops' noSubscriptions).
Proof.
  assert (forall ops, tree_refines (runTree ops NewTopicTree) (runSpec ops noSubscriptions)) as Hr
    by (intros; apply refines_run, refines_empty).
  split; [|by eapply refines_root_ext].
  intros Heq. apply map_eq. intros [f c]. by rewrite <- !(tr_plain _ _ (Hr _)), Heq.
Qed.
