(* ===== verification/TopicMatch.v ===== *)
(** * What TopicTree.Match returns

    Match walks the trie along the levels of a topic.  The walk is described by
    the set of subscriptions it meets; the result holds each client of that set
    once, with its highest QoS. *)

From S2P Require Import Prelude Topic TopicTree TopicTreeProofs.
Open Scope Z_scope.

(** ** The accumulator *)

Definition match_ok (st : MatchState) : Prop :=
  NoDup (fst <$> fst st) /\ forall c q, (c, q) ∈ fst st <-> snd st !! c = Some q.

(** [st'] is [st] after meeting the entries of [H]: a client keeps its highest QoS. *)
Definition absorbs (H : bytes -> Z -> Prop) (st st' : MatchState) : Prop :=
  (match_ok st -> match_ok st') /\
  (forall c q, snd st' !! c = Some q -> snd st !! c = Some q \/ H c q) /\
  (forall c q, snd st !! c = Some q \/ H c q -> exists q', snd st' !! c = Some q' /\ q <= q').

Lemma absorbs_refl st : absorbs (fun _ _ => False) st st.
Proof. split_and!; [done | auto | intros c q [?|[]]; eauto with lia]. Qed.

Lemma absorbs_trans H1 H2 st1 st2 st3 :
  absorbs H1 st1 st2 -> absorbs H2 st2 st3 -> absorbs (fun c q => H1 c q \/ H2 c q) st1 st3.
Proof.
  intros (A1 & A2 & A3) (B1 & B2 & B3). split_and!; [auto| |].
  - intros c q [Hq|Hq]%B2; [apply A2 in Hq|]; naive_solver.
  - intros c q Hq.
    assert ((exists q', snd st2 !! c = Some q' /\ q <= q') \/ H2 c q) as [(q' & Hq' & Hle)|Hq'].
    { destruct Hq as [?|[?|?]]; auto. }
    + destruct (B3 c q') as (q'' & ? & ?); [by left|]. exists q''. split; [done|lia].
    + apply B3. by right.
Qed.

Lemma absorbs_ext H H' st st' :
  (forall c q, H c q <-> H' c q) -> absorbs H st st' -> absorbs H' st st'.
Proof. intros He (A1 & A2 & A3). split_and!; [done | |]; intros c q; rewrite <- He; auto. Qed.

Lemma raiseQoS_ids rs c q : fst <$> raiseQoS rs c q = fst <$> rs.
Proof.
  induction rs as [|[c' q'] rs IH]; cbn; [done|]. case_bool_decide; cbn; [by subst | by f_equal].
Qed.

Lemma raiseQoS_elem rs c q c' q' :
  NoDup (fst <$> rs) ->
  (c', q') ∈ raiseQoS rs c q <-> if decide (c' = c) then q' = q /\ c ∈ fst <$> rs else (c', q') ∈ rs.
Proof.
  induction rs as [|[c0 q0] rs IH]; cbn.
  - intros _. case_decide; rewrite ?elem_of_nil; naive_solver.
  - intros [Hnin Hnd]%NoDup_cons. case_bool_decide as Hc.
    + subst c0. case_decide as Hd; rewrite !elem_of_cons; [subst|naive_solver].
      assert ((c, q') ∉ rs) by (intros Hin; apply Hnin; apply list_elem_of_fmap; by exists (c, q')).
      naive_solver.
    + specialize (IH Hnd). case_decide; rewrite !elem_of_cons, IH; naive_solver.
Qed.

Lemma match_ok_elem st c : match_ok st -> c ∈ fst <$> fst st <-> exists q, snd st !! c = Some q.
Proof.
  intros [_ Hok]. rewrite list_elem_of_fmap. split.
  - intros ([? q] & -> & Hin%Hok). eauto.
  - intros [q Hq%Hok]. by exists (c, q).
Qed.

Lemma addSubscriber_ok c q st : match_ok st -> match_ok (addSubscriber c q st).
Proof.
  intros Hst. pose proof (match_ok_elem _ c Hst) as Hel. destruct Hst as [Hnd Hok].
  destruct st as [rs vis]. cbn [fst snd] in *. unfold addSubscriber. destruct (vis !! c) as [old|] eqn:Ec.
  - destruct (old <? q); [|done]. split; cbn [fst snd]; [by rewrite raiseQoS_ids|].
    intros c' q'. rewrite raiseQoS_elem by done. case_decide as Hd.
    + subst. rewrite lookup_insert_eq, Hel. naive_solver.
    + by rewrite lookup_insert_ne.
  - split; cbn [fst snd].
    + rewrite fmap_app, NoDup_app. split_and!; [done| |apply NoDup_singleton].
      intros x Hx Hx'%list_elem_of_singleton. cbn in Hx'. subst. apply Hel in Hx. naive_solver.
    + intros c' q'. rewrite elem_of_app, list_elem_of_singleton, lookup_insert_Some, Hok.
      destruct (decide (c' = c)) as [->|]; naive_solver.
Qed.

Lemma addSubscriber_visited c q st c' :
  snd (addSubscriber c q st) !! c' =
  if decide (c' = c) then Some (match snd st !! c with Some old => Z.max old q | None => q end)
  else snd st !! c'.
Proof.
  destruct st as [rs vis]. unfold addSubscriber. cbn [snd].
  destruct (vis !! c) as [old|] eqn:Ec; [destruct (Z.ltb_spec old q)|]; cbn [snd];
    (case_decide; [subst; rewrite ?lookup_insert_eq | by rewrite ?lookup_insert_ne by done]).
  - f_equal. lia.
  - rewrite Ec. f_equal. lia.
  - done.
Qed.

Lemma absorbs_add c q st : absorbs (fun c' q' => c' = c /\ q' = q) st (addSubscriber c q st).
Proof.
  split_and!; [apply addSubscriber_ok | |]; intros c' q'; rewrite addSubscriber_visited.
  - case_decide; [subst|auto]. intros [= <-]. destruct (snd st !! c) as [old|]; [|auto].
    destruct (Z.max_spec old q) as [[_ ->]|[_ ->]]; auto.
  - intros [Hq|[-> ->]]; [|rewrite decide_True by done; eexists; split; [done|]; destruct (snd st !! c); lia].
    case_decide; [subst; rewrite Hq|]; eexists; split; eauto; lia.
Qed.

Lemma absorbs_fold {A} (m : gmap bytes A) (H : bytes -> A -> bytes -> Z -> Prop) f st :
  (forall k x st, m !! k = Some x -> absorbs (H k x) st (f k x st)) ->
  absorbs (fun c q => exists k x, m !! k = Some x /\ H k x c q) st (map_fold f st m).
Proof.
  apply (map_fold_weak_ind (fun r m =>
    (forall k x st, m !! k = Some x -> absorbs (H k x) st (f k x st)) ->
    absorbs (fun c q => exists k x, m !! k = Some x /\ H k x c q) st r)).
  - intros _. apply (absorbs_ext (fun _ _ => False)); [|apply absorbs_refl].
    intros c q. split; [done|]. by intros (k & x & Hk & _).
  - intros k x m' r Hk IH Hf.
    eapply absorbs_ext; [|eapply absorbs_trans; [apply IH|apply (Hf k x); apply lookup_insert_eq]].
    + intros c q. cbn. setoid_rewrite lookup_insert_Some. split; [|naive_solver].
      intros [(k' & x' & Hk' & Hh)|Hh]; [|naive_solver].
      exists k', x'. split; [|done]. right. split; [intros ->; congruence | done].
    + intros k' x' st' Hk'. apply Hf. rewrite lookup_insert_ne; [done|]. intros ->. congruence.
Qed.

Lemma absorbs_subscribers subs st : absorbs (fun c q => subs !! c = Some q) st (addSubscribers subs st).
Proof.
  eapply absorbs_ext; [|apply (absorbs_fold subs (fun k x c q => c = k /\ q = x))].
  - intros c q. naive_solver.
  - intros k x st' _. apply absorbs_add.
Qed.

(** ** The walk *)

Lemma absorbs_collect n st :
  absorbs (fun c q => exists path, subs_at n path !! c = Some q) st (collectAllSubscribers n st).
Proof.
  revert st. induction n as [ch subs IH] using TopicNode_induction. intros st. cbn [collectAllSubscribers].
  eapply absorbs_ext; [|eapply absorbs_trans; [apply absorbs_subscribers|
    apply (absorbs_fold ch (fun _ n c q => exists path, subs_at n path !! c = Some q)); eauto]].
  intros c q. cbn. split.
  - intros [?|(k & x & Hk & path & Hp)]; [by exists []|]. exists (k :: path). cbn. by rewrite Hk.
  - intros [[|k path] Hp]; [by left|]. right. cbn in Hp. destruct (ch !! k) as [x|] eqn:Hk; [|done].
    by exists k, x; eauto.
Qed.

(** The filters the walk meets: those that match a prefix of the topic's levels. *)
Definition reaches (parts path : list bytes) : Prop := exists n, level_match path (take n parts).

Lemma reaches_nil path : reaches [] path <-> path = [] \/ exists ps, path = [hash] :: ps.
Proof.
  unfold reaches. split.
  - intros [n Hm]. rewrite take_nil in Hm. inversion Hm; subst; eauto.
  - intros [->|[ps ->]]; exists 0%nat; constructor.
Qed.

Lemma reaches_cons p ps path :
  reaches (p :: ps) path <->
  path = [] \/ (exists path', path = [hash] :: path') \/
  exists path', (path = p :: path' \/ path = [plus] :: path') /\ reaches ps path'.
Proof.
  unfold reaches. split.
  - intros [[|n] Hm]; cbn [take] in Hm; inversion Hm; subst; eauto; right; right; eexists; split; eauto.
  - intros [->|[[path' ->]|(path' & [->| ->] & n & Hm)]].
    + exists 0%nat. constructor.
    + exists 0%nat. constructor.
    + exists (S n). by constructor.
    + exists (S n). by constructor.
Qed.

Lemma absorbs_child n k (P : list bytes -> Prop) F st :
  (forall child st, absorbs (fun c q => exists path, subs_at child path !! c = Some q /\ P path) st (F child st)) ->
  absorbs (fun c q => exists path, subs_at n (k :: path) !! c = Some q /\ P path) st
    (match children n !! k with Some child => F child st | None => st end).
Proof.
  intros HF. cbn [subs_at]. destruct (children n !! k) as [child|]; [apply HF|].
  apply (absorbs_ext (fun _ _ => False)); [|apply absorbs_refl].
  intros c q. split; [done|]. by intros (path & Hp & _).
Qed.

Lemma absorbs_match n parts depth sys st :
  absorbs (fun c q => exists path, subs_at n path !! c = Some q /\ reaches parts path) st
    (matchNodeWithSys n parts depth sys true st).
Proof.
  revert n depth st. induction parts as [|p ps IH]; intros n depth st; cbn [matchNodeWithSys orb].
  - eapply absorbs_ext; [|eapply absorbs_trans; [apply absorbs_subscribers|
      apply (absorbs_child n [hash] (fun _ => True) collectAllSubscribers)]].
    + intros c q. cbn beta. setoid_rewrite reaches_nil. split; [|naive_solver].
      intros [H|(path & H & _)]; [by exists []; auto | exists ([hash] :: path); eauto].
    + intros child st'. eapply absorbs_ext; [|apply absorbs_collect]. naive_solver.
  - set (walk child st := matchNodeWithSys child ps (S depth) sys true st).
    eapply absorbs_ext; [|eapply absorbs_trans; [eapply absorbs_trans; [eapply absorbs_trans;
      [apply absorbs_subscribers | apply (absorbs_child n [hash] (fun _ => True) collectAllSubscribers)] |
       apply (absorbs_child n p (reaches ps) walk)] | apply (absorbs_child n [plus] (reaches ps) walk)]].
    + intros c q. cbn beta. setoid_rewrite reaches_cons. split; [|naive_solver].
      intros [[[H|(path & H & _)]|(path & H & Hr)]|(path & H & Hr)].
      * by exists []; auto.
      * exists ([hash] :: path). eauto.
      * exists (p :: path). split; [done|]. eauto 6.
      * exists ([plus] :: path). split; [done|]. eauto 6.
    + intros child st'. eapply absorbs_ext; [|apply absorbs_collect]. naive_solver.
    + intros. apply IH.
    + intros. apply IH.
Qed.

(** A topic whose first level starts with "$" is only met by filters that name
    that level. *)
Lemma absorbs_match_sys n p ps st :
  startsDollar p = true ->
  absorbs (fun c q => subscribers n !! c = Some q \/
                      exists path, subs_at n (p :: path) !! c = Some q /\ reaches ps path) st
    (matchNodeWithSys n (p :: ps) 0 true false st).
Proof.
  intros Hp. cbn [matchNodeWithSys orb andb]. rewrite Hp, bool_decide_eq_true_2 by done. cbn [andb].
  eapply absorbs_trans; [apply absorbs_subscribers |
    apply (absorbs_child n p (reaches ps) (fun child st => matchNodeWithSys child ps 1 true true st))].
  intros. apply absorbs_match.
Qed.

(** The filters Match meets for a topic. *)
Definition met (topic filter : bytes) : Prop :=
  exists n, (0 < n)%nat /\ matchSysProtected filter (joinTopic (take n (SplitTopic topic))) = true.

Lemma split_prefix n t : (0 < n)%nat -> SplitTopic (joinTopic (take n (SplitTopic t))) = take n (SplitTopic t).
Proof.
  intros Hn. apply split_join_levels; [|apply Forall_take, split_no_slash].
  pose proof (split_nonempty t). destruct (SplitTopic t), n; [done|done|lia|done].
Qed.

Lemma split_head t : startsDollar t = match SplitTopic t with p :: _ => startsDollar p | [] => false end.
Proof.
  rewrite <- (join_split t) at 1. destruct (SplitTopic t) as [|p ps] eqn:E; [done|].
  destruct ps; [done|]. rewrite joinTopic_cons by done. by destruct p.
Qed.

Lemma firstLevel_split f :
  match indexSlash f with Some i => take i f | None => f end = nth 0 (SplitTopic f) [].
Proof.
  pose proof (indexSlash_spec f) as Hi. destruct (indexSlash f) as [i|].
  - destruct Hi as [Hns Hf]. rewrite Hf at 2. unfold SplitTopic. by rewrite split_loop_app.
  - rewrite <- (app_nil_r f) at 2. unfold SplitTopic. by rewrite split_loop_app.
Qed.

Lemma matchSysProtected_levels f t :
  matchSysProtected f t =
  negb (startsDollar t && (bool_decide (nth 0 (SplitTopic f) [] = [hash]) || bool_decide (nth 0 (SplitTopic f) [] = [plus])))
  && levels_matchb (SplitTopic f) (SplitTopic t).
Proof.
  unfold matchSysProtected. rewrite firstLevel_split, MatchTopic_levels.
  by destruct (startsDollar t), (bool_decide _), (bool_decide _).
Qed.

Lemma met_plain t f :
  startsDollar t = false -> met t f <-> reaches (SplitTopic t) (SplitTopic f).
Proof.
  intros Ht. unfold met, reaches.
  assert (forall n, (0 < n)%nat -> matchSysProtected f (joinTopic (take n (SplitTopic t))) =
    levels_matchb (SplitTopic f) (take n (SplitTopic t))) as Hm.
  { intros n Hn. rewrite matchSysProtected_levels, (split_head (joinTopic _)), split_prefix by done.
    rewrite split_head in Ht. destruct (SplitTopic t), n; [done|done|lia|]. cbn [take]. by rewrite Ht. }
  split.
  - intros (n & Hn & H). rewrite Hm in H by done. exists n. by apply levels_matchb_spec.
  - intros [n H]. destruct n as [|n].
    + exists 1%nat. split; [lia|]. rewrite Hm by lia. apply levels_matchb_spec.
      pose proof (split_nonempty f). cbn in H. inversion H; subst; [congruence|constructor].
    + exists (S n). split; [lia|]. rewrite Hm by lia. by apply levels_matchb_spec.
Qed.

Lemma met_sys t f p ps :
  SplitTopic t = p :: ps -> startsDollar p = true ->
  met t f <-> exists path, SplitTopic f = p :: path /\ reaches ps path.
Proof.
  intros Ht Hp. unfold met, reaches.
  assert (forall n, matchSysProtected f (joinTopic (take (S n) (SplitTopic t))) = true <->
    exists path, SplitTopic f = p :: path /\ level_match path (take n ps)) as Hm.
  { intros n. rewrite matchSysProtected_levels, (split_head (joinTopic _)), split_prefix by lia.
    rewrite Ht. cbn [take]. rewrite Hp. cbn [andb]. rewrite andb_true_iff, negb_true_iff, orb_false_iff.
    rewrite !bool_decide_eq_false, levels_matchb_spec. split.
    - intros [[Hh Hpl] H]. inversion H as [|? ? E|? ? ? ? E|? ? ? ? E]; subst; rewrite <- E in *; cbn in *; eauto; done.
    - intros (path & -> & H). cbn [nth]. split; [|by constructor].
      split; intros ->; vm_compute in Hp; done. }
  split.
  - intros ([|n] & Hn & H); [lia|]. apply Hm in H as (path & ? & ?). eauto.
  - intros (path & Hf & n & H). exists (S n). split; [lia|]. apply Hm. eauto.
Qed.

(** The accumulator at the end of Match. *)
Definition Match_state (topic : bytes) (tt : TopicTree) : MatchState :=
  let parts := SplitTopic topic in
  let isSystemTopic := match parts with p :: _ => startsDollar p | [] => false end in
  matchNodeWithSys (root tt) parts 0 isSystemTopic (negb isSystemTopic) ([], ∅).

Lemma absorbs_Match tt s t :
  tree_refines tt s ->
  absorbs (fun c q => exists f, plainSubs s !! (f, c) = Some q /\ met t f) ([], ∅) (Match_state t tt).
Proof.
  intros Hr. unfold Match_state. rewrite <- split_head. destruct (startsDollar t) eqn:Ht; cbn [negb].
  - pose proof Ht as Hp. rewrite split_head in Hp. destruct (SplitTopic t) as [|p ps] eqn:Et; [done|].
    eapply absorbs_ext; [|by apply absorbs_match_sys]. intros c q. cbn beta. split.
    + intros [H|(path & H & Hreach)].
      * apply (tr_filters _ _ Hr []) in H as (f & _ & Hf). by destruct (split_nonempty f).
      * destruct (tr_filters _ _ Hr _ _ _ H) as (f & _ & Hf). rewrite Hf, (tr_plain _ _ Hr) in H.
        exists f. split; [done|]. rewrite met_sys by done. eauto.
    + intros (f & H & Hmet). rewrite met_sys in Hmet by done. destruct Hmet as (path & Hf & Hreach).
      right. exists path. by rewrite <- Hf, (tr_plain _ _ Hr).
  - eapply absorbs_ext; [|apply absorbs_match]. intros c q. cbn beta. split.
    + intros (path & H & Hreach). destruct (tr_filters _ _ Hr _ _ _ H) as (f & _ & ->).
      rewrite (tr_plain _ _ Hr) in H. exists f. by rewrite met_plain.
    + intros (f & H & Hmet). rewrite met_plain in Hmet by done. exists (SplitTopic f).
      by rewrite (tr_plain _ _ Hr).
Qed.

(** Reading the accumulator: each client once, with its highest QoS. *)
Lemma absorbs_result H st :
  absorbs H ([], ∅) st ->
  NoDup (fst <$> fst st) /\
  (forall c q, (c, q) ∈ fst st <-> H c q /\ forall q', H c q' -> q' <= q) /\
  (forall c q, H c q -> exists q', (c, q') ∈ fst st /\ q <= q').
Proof.
  intros (A1 & A2 & A3).
  assert (match_ok st) as [Hnd Hok].
  { apply A1. split; [constructor|]. intros c q. cbn. rewrite elem_of_nil, lookup_empty. naive_solver. }
  split; [done|]. split.
  2: { intros c q Hq. destruct (A3 c q) as (q' & Hq'%Hok & Hle); eauto. }
  intros c q. rewrite Hok. split.
  - intros Hq. destruct (A2 c q Hq) as [Hc|Hc]; [cbn in Hc; by rewrite lookup_empty in Hc|].
    split; [done|]. intros q' Hq'. destruct (A3 c q') as (q'' & ? & ?); [by right|]. congruence.
  - intros [Hq Hmax]. destruct (A3 c q) as (q' & Hq' & Hle); [by right|].
    destruct (A2 c q' Hq') as [Hc|Hc]; [cbn in Hc; by rewrite lookup_empty in Hc|].
    apply Hmax in Hc. rewrite Hq'. f_equal. lia.
Qed.

(** ** Properties *)

(** C32: Match returns exactly the clients with a subscription the walk of the
    trie meets, each once and with the highest QoS of those subscriptions.  The
    subscriptions it meets are those whose filter matches the topic or a prefix
    of the topic's levels; when the topic starts with "$" a filter that starts
    with a wildcard is never met. *)
Theorem Match_exact ops topic :
  let tt := runTree ops NewTopicTree in
  let subs := plainSubs (runSpec ops noSubscriptions) in
  NoDup (fst <$> Match topic tt) /\
  forall c q, (c, q) ∈ Match topic tt <->
    (exists f, subs !! (f, c) = Some q /\ met topic f) /\
    (forall f' q', subs !! (f', c) = Some q' -> met topic f' -> q' <= q).
Proof.
  intros tt subs.
  assert (tree_refines tt (runSpec ops noSubscriptions)) as Hr by (apply refines_run, refines_empty).
  destruct (absorbs_result _ _ (absorbs_Match _ _ topic Hr)) as (Hnd & Hin & _).
  split; [done|]. intros c q. etrans; [apply Hin|]. naive_solver.
Qed.

Lemma met_of_match topic f : matchSysProtected f topic = true -> met topic f.
Proof.
  intros H. pose proof (split_nonempty topic). exists (length (SplitTopic topic)).
  split; [destruct (SplitTopic topic); [done|cbn; lia]|]. by rewrite take_ge, join_split by done.
Qed.

(** No delivery is missed: a client with a subscription whose filter matches
    the topic, by the rules of MatchTopic and of the "$" topics, is in the result
    of Match, with a QoS at least that of the subscription. *)
Theorem Match_complete ops topic f c q :
  plainSubs (runSpec ops noSubscriptions) !! (f, c) = Some q ->
  matchSysProtected f topic = true ->
  exists q', (c, q') ∈ Match topic (runTree ops NewTopicTree) /\ q <= q'.
Proof.
  intros Hs Hm. set (tt := runTree ops NewTopicTree).
  assert (tree_refines tt (runSpec ops noSubscriptions)) as Hr by (apply refines_run, refines_empty).
  destruct (absorbs_result _ _ (absorbs_Match _ _ topic Hr)) as (_ & _ & Hin).
  apply Hin. eauto using met_of_match.
Qed.

Definition sample_ops : list TreeOp :=
  [OpSubscribe (str "a/+") (str "c1") 1; OpSubscribe (str "a/#") (str "c1") 2;
   OpSubscribe (str "a") (str "c2") 0; OpSubscribe (str "#") (str "c3") 1].

Lemma Match_complete_witness :
  exists q', (str "c1", q') ∈ Match (str "a/b") (runTree sample_ops NewTopicTree) /\ 1 <= q'.
Proof.
  apply (Match_complete sample_ops (str "a/b") (str "a/+") (str "c1") 1); vm_compute; reflexivity.
Defined.

(** Match returns subscribers of filters that do not match the topic: after
    subscribing to "a" and "a/b", the topic "a/b/c" is given to both clients,
    although neither filter matches it. *)
Theorem Match_returns_parent_filters :
  let tt := runTree [OpSubscribe (str "a") (str "c1") 1; OpSubscribe (str "a/b") (str "c2") 0] NewTopicTree in
  Match (str "a/b/c") tt = [(str "c1", 1); (str "c2", 0)] /\
  MatchTopic (str "a") (str "a/b/c") = false /\ MatchTopic (str "a/b") (str "a/b/c") = false.
Proof. vm_compute. auto. Qed.
