(* ===== verification/TopicStats.v ===== *)
(** * The listing of subscriptions: broker/topic_tree.go, Stats

    The walk behind the /topics endpoint and what it reports: every plain and
    every shared filter with exactly its subscribers, except that the levels a
    filter starts with are lost when they are empty. *)

From S2P Require Import Prelude Topic TopicTree TopicTreeProofs.
Open Scope Z_scope.

(** ** Model *)

(** topic_tree.go, TopicFilterStat *)
Record TopicFilterStat := mkStat {
  st_Filter : bytes;
  st_Shared : bool;
  st_Group : bytes;
  st_Subscribers : gmap bytes Z;
}.

(** topic_tree.go, splitSharedFilter *)
Definition splitSharedFilter (filter : bytes) : bytes * bytes * bool :=
  if negb (IsSharedSubscription filter) then (filter, [], false)
  else
    let rest := drop (length sharedSubPrefix) filter in
    match indexSlash rest with
    | Some i => (drop (S i) rest, take i rest, true)
    | None => (rest, [], true)
    end.

(** What Stats reports for a node of the trie at a prefix *)
Definition nodeStat (prefix : bytes) (subs : gmap bytes Z) : TopicFilterStat :=
  let '(filter, group, shared) := splitSharedFilter prefix in mkStat filter shared group subs.

Definition extendPrefix (prefix part : bytes) : bytes :=
  match prefix with [] => part | _ => prefix ++ slash :: part end.

(** The walk of Stats *)
Fixpoint statsWalk (node : TopicNode) (prefix : bytes) (out : list TopicFilterStat) : list TopicFilterStat :=
  match node with
  | Node ch subs =>
      let out := if bool_decide (0 < size subs)%nat then out ++ [nodeStat prefix subs] else out in
      map_fold (fun part child out => statsWalk child (extendPrefix prefix part) out) out ch
  end.

(** topic_tree.go, Stats *)
Definition Stats (tt : TopicTree) : list TopicFilterStat :=
  map_fold (fun group filters out =>
      map_fold (fun filter clients out => out ++ [mkStat filter true group clients]) out filters)
    (statsWalk (root tt) [] []) (sharedSubs tt).

(** ** What the listing holds *)

Section Folds.
Context {A B : Type}.

(** A fold over a map that only adds to the output *)
Lemma map_fold_adds (m : gmap bytes A) (H : bytes -> A -> B -> Prop) (f : bytes -> A -> list B -> list B) out y :
  (forall k x out, m !! k = Some x -> y ∈ f k x out <-> y ∈ out \/ H k x y) ->
  y ∈ map_fold f out m <-> y ∈ out \/ exists k x, m !! k = Some x /\ H k x y.
Proof.
  apply (map_fold_weak_ind (fun r m => (forall k x out, m !! k = Some x -> y ∈ f k x out <-> y ∈ out \/ H k x y) ->
    y ∈ r <-> y ∈ out \/ exists k x, m !! k = Some x /\ H k x y)).
  - intros _. split; [by left|]. by intros [?|(k & x & Hk & _)].
  - intros k x m' r Hk IH Hf. rewrite (Hf k x r) by apply lookup_insert_eq. rewrite IH.
    + setoid_rewrite lookup_insert_Some. split; [|naive_solver].
      intros [[?|(k' & x' & Hk' & Hh)]|Hh]; [by left | right | naive_solver].
      exists k', x'. split; [|done]. right. split; [intros ->; congruence | done].
    + intros k' x' o Hk'. apply Hf. rewrite lookup_insert_ne; [done|]. intros ->. congruence.
Qed.
End Folds.

Lemma size_pos_ne {A} (m : gmap bytes A) : (0 < size m)%nat <-> m <> ∅.
Proof. rewrite <- map_size_non_empty_iff. lia. Qed.

Lemma statsWalk_elem n prefix out y :
  y ∈ statsWalk n prefix out <->
  y ∈ out \/ exists path, subs_at n path <> ∅ /\ y = nodeStat (foldl extendPrefix prefix path) (subs_at n path).
Proof.
  revert prefix out. induction n as [ch subs IH] using TopicNode_induction. intros prefix out. cbn [statsWalk].
  rewrite (map_fold_adds ch (fun k child y => exists path, subs_at child path <> ∅ /\
    y = nodeStat (foldl extendPrefix (extendPrefix prefix k) path) (subs_at child path))).
  2: { intros k child out' Hk. by apply (IH k child). }
  assert (y ∈ (if bool_decide (0 < size subs)%nat then out ++ [nodeStat prefix subs] else out) <->
    y ∈ out \/ subs <> ∅ /\ y = nodeStat prefix subs) as ->.
  { case_bool_decide as Hs; rewrite size_pos_ne in Hs; [rewrite elem_of_app, list_elem_of_singleton|]; tauto. }
  split.
  - intros [[?|[Hs ->]]|(k & x & Hk & path & Hp & ->)]; [by left | right; by exists [] | right].
    exists (k :: path). cbn. rewrite Hk. done.
  - intros [?|([|k path] & Hp & ->)]; [by do 2 left | left; right; done | right].
    cbn in Hp |- *. destruct (ch !! k) as [x|] eqn:Hk; [|done]. exists k, x. split; [done|]. by exists path.
Qed.

(** Leading separators *)
Fixpoint trimSlashes (f : bytes) : bytes :=
  match f with
  | b :: t => if b =? slash then trimSlashes t else f
  | [] => []
  end.

Lemma extend_nonempty prefix path : prefix <> [] -> foldl extendPrefix prefix path = joinTopic (prefix :: path).
Proof.
  revert prefix. induction path as [|p ps IH]; intros prefix Hp; [done|]. cbn [foldl].
  rewrite joinTopic_cons by done. destruct prefix as [|b pre]; [done|]. rewrite IH by done. cbn [extendPrefix].
  destruct ps as [|q ps]; [done|]. rewrite !joinTopic_cons by done. by rewrite <- app_assoc.
Qed.

Lemma walk_prefix f : foldl extendPrefix [] (SplitTopic f) = trimSlashes f.
Proof.
  induction f as [|b t IH]; [done|]. cbn [trimSlashes]. destruct (b =? slash) eqn:Eb.
  - unfold SplitTopic. cbn [SplitTopic_loop]. rewrite Eb. exact IH.
  - refine (eq_trans _ (join_split (b :: t))). unfold SplitTopic. cbn [SplitTopic_loop]. rewrite Eb.
    assert (forall cur, cur <> [] -> exists l ls, SplitTopic_loop cur t = l :: ls /\ l <> []) as K.
    { clear IH. induction t as [|c t IH]; intros cur Hc; cbn [SplitTopic_loop]; [by exists cur, []|].
      destruct (c =? slash); [by eexists _, _|]. apply IH. by destruct cur. }
    destruct (K ([] ++ [b])) as (l & ls & -> & Hl); [done|]. cbn [foldl extendPrefix].
    by apply extend_nonempty.
Qed.

(** The subscribers a map of (filter, client) pairs has for a filter *)
Lemma subs_of_filter tt s f : tree_refines tt s -> forall c, subs_at (root tt) (SplitTopic f) !! c = plainSubs s !! (f, c).
Proof. intros Ht c. apply (tr_plain _ _ Ht). Qed.

Lemma walk_root_elem tt s y :
  tree_refines tt s ->
  y ∈ statsWalk (root tt) [] [] <->
  exists f, y = nodeStat (trimSlashes f) (st_Subscribers y) /\ st_Subscribers y <> ∅ /\
    forall c, st_Subscribers y !! c = plainSubs s !! (f, c).
Proof.
  intros Ht. assert (forall p m, st_Subscribers (nodeStat p m) = m) as Hsub.
  { intros p m. unfold nodeStat. by destruct (splitSharedFilter p) as [[? ?] ?]. }
  rewrite statsWalk_elem. split.
  - intros [?%not_elem_of_nil|(path & Hp & ->)]; [done|]. destruct (map_choose _ Hp) as (c & q & Hc).
    destruct (tr_filters _ _ Ht path c q Hc) as (f & _ & ->). exists f. rewrite Hsub, walk_prefix.
    split_and!; [done..|]. by apply subs_of_filter.
  - intros (f & Hy & Hne & Hc). right. exists (SplitTopic f).
    assert (subs_at (root tt) (SplitTopic f) = st_Subscribers y) as ->; [|by rewrite walk_prefix].
    apply map_eq. intros c. rewrite (subs_of_filter tt s) by done. symmetry. apply Hc.
Qed.

