(* ===== verification/SharedSubs.v ===== *)
(** * Shared subscriptions: one member per group, in turn

    What matchShared of broker/topic_tree.go selects: for each share group with
    an eligible member exactly one of them, and successive calls go round the
    members in the order of their ids. *)

From stdpp Require Import sorting.
From S2P Require Import Prelude Topic TopicTree TopicTreeProofs TopicMatch.
Open Scope Z_scope.

(** ** The members of a group *)

Lemma absorbs_foldl {A} (l : list A) (H : A -> bytes -> Z -> Prop) f st :
  (forall x st, x ∈ l -> absorbs (H x) st (f st x)) ->
  absorbs (fun c q => exists x, x ∈ l /\ H x c q) st (foldl f st l).
Proof.
  revert st. induction l as [|x l IH]; intros st Hf; cbn.
  - apply (absorbs_ext (fun _ _ => False)); [|apply absorbs_refl].
    intros c q. split; [done|]. by intros (x & ?%elem_of_nil & _).
  - eapply absorbs_ext; [|eapply absorbs_trans; [apply Hf, list_elem_of_here | apply IH]].
    + intros c q. cbn beta. setoid_rewrite elem_of_cons. naive_solver.
    + intros y st' Hy. by apply Hf, list_elem_of_further.
Qed.

(** A client is a member of a group for a topic with QoS [q]. *)
Definition member_with (filters : gmap bytes (gmap bytes Z)) (topic c : bytes) (q : Z) : Prop :=
  exists f clients, filters !! f = Some clients /\ matchSysProtected f topic = true /\ clients !! c = Some q.

Definition id_order (a b : Subscriber) : Prop := bytes_le (fst a) (fst b).

#[local] Instance id_order_trans : Transitive id_order.
Proof. intros a b c. unfold id_order. apply bytes_le_trans. Qed.
#[local] Instance id_order_total : Total id_order.
Proof. intros a b. apply bytes_le_total. Qed.

Lemma groupMembers_spec filters topic :
  let members := groupMembers filters topic in
  NoDup (fst <$> members) /\ StronglySorted id_order members /\
  (forall c q, (c, q) ∈ members <->
    member_with filters topic c q /\ forall q', member_with filters topic c q' -> q' <= q) /\
  (forall c q, member_with filters topic c q -> exists q', (c, q') ∈ members).
Proof.
  intros members. unfold members, groupMembers. cbv zeta.
  set (fs := base.filter _ _).
  set (st := foldl _ _ _).
  assert (absorbs (member_with filters topic) ([], ∅) st) as Ha.
  { eapply absorbs_ext; [|apply (absorbs_foldl fs (fun f c q => default ∅ (filters !! f) !! c = Some q))].
    - intros c q. unfold member_with. split.
      + intros (f & [Hm Hin]%list_elem_of_filter & Hq). exists f.
        destruct (filters !! f) as [cs|]; [by eauto | by cbn in Hq; rewrite lookup_empty in Hq].
      + intros (f & cs & Hf & Hm & Hq). exists f. rewrite Hf. split; [|done].
        apply list_elem_of_filter. split; [done|]. apply list_elem_of_fmap. exists (f, cs).
        split; [done|]. by apply elem_of_map_to_list.
    - intros f st' _. apply absorbs_subscribers. }
  apply absorbs_result in Ha as (Hnd & Hin & Hex).
  pose proof (merge_sort_Permutation (fun a b => bytes_le a.1 b.1) (fst st)) as Hperm.
  split_and!.
  - by rewrite Hperm.
  - apply (StronglySorted_merge_sort id_order).
  - intros c q. by rewrite Hperm.
  - intros c q (q' & Hq' & _)%Hex. exists q'. by rewrite Hperm.
Qed.

Lemma onlineMembers_spec isOnline members c q :
  (c, q) ∈ onlineMembers isOnline members <->
  (c, q) ∈ members /\ match isOnline with Some online => online c = true | None => True end.
Proof. destruct isOnline; cbn; [rewrite list_elem_of_filter; cbn|]; naive_solver. Qed.

Lemma filter_sublist {A} (P : A -> Prop) `{!forall x, Decision (P x)} (l : list A) :
  base.filter P l `sublist_of` l.
Proof. induction l as [|x l IH]; [done|]. rewrite filter_cons. case_decide; by constructor. Qed.

Lemma onlineMembers_sublist isOnline members : onlineMembers isOnline members `sublist_of` members.
Proof. destruct isOnline; cbn; [apply filter_sublist | done]. Qed.

(** The members that matchShared chooses from. *)
Definition candidates (isOnline : option (bytes -> bool)) (filters : gmap bytes (gmap bytes Z)) (topic : bytes)
    : list Subscriber := onlineMembers isOnline (groupMembers filters topic).

Lemma sublist_sorted {A} (R : A -> A -> Prop) l l' :
  l `sublist_of` l' -> StronglySorted R l' -> StronglySorted R l.
Proof.
  intros Hsub. induction Hsub as [|x l l' Hsub IH|x l l' Hsub IH]; rewrite ?StronglySorted_cons; [done| |tauto].
  intros [Hx Hs]. split; [|auto]. rewrite Forall_forall in *. intros y Hy. apply Hx.
  by eapply elem_of_submseteq, sublist_submseteq.
Qed.

Lemma sublist_map {A B} (f : A -> B) l l' : l `sublist_of` l' -> (f <$> l) `sublist_of` (f <$> l').
Proof. induction 1; cbn; by constructor. Qed.

Lemma candidates_sorted isOnline filters topic :
  NoDup (fst <$> candidates isOnline filters topic) /\
  StronglySorted bytes_le (fst <$> candidates isOnline filters topic).
Proof.
  destruct (groupMembers_spec filters topic) as (Hnd & Hs & _).
  pose proof (onlineMembers_sublist isOnline (groupMembers filters topic)) as Hsub. split.
  - eapply sublist_NoDup; [done|].
    by apply sublist_map.
  - apply (StronglySorted_fmap _ id_order); [done|]. by eapply sublist_sorted.
Qed.

(** ** The choice *)

Lemma sorted_lookup {A} (R : A -> A -> Prop) l a b x y :
  StronglySorted R l -> l !! a = Some x -> l !! b = Some y -> (a < b)%nat -> R x y.
Proof.
  intros Hs. revert a b. induction Hs as [|z l Hs IH Hz]; intros [|a] [|b] Ha Hb Hab; try done; try lia.
  - cbn in *. simplify_eq. rewrite Forall_forall in Hz. by eapply Hz, list_elem_of_lookup_2.
  - cbn in *. apply (IH a b); [done|done|lia].
Qed.

Section Select.
Context (members : list Subscriber).
Hypothesis Hnd : NoDup (fst <$> members).
Hypothesis Hsorted : StronglySorted bytes_le (fst <$> members).

Let ids := fst <$> members.

Lemma sorted_nth a b : (a < b < length ids)%nat -> bytes_ltb (nth a ids []) (nth b ids []) = true.
Proof.
  intros Hab.
  destruct (lookup_lt_is_Some_2 ids a) as [x Hx]; [lia|].
  destruct (lookup_lt_is_Some_2 ids b) as [y Hy]; [lia|].
  rewrite (nth_lookup_Some _ _ _ _ Hx), (nth_lookup_Some _ _ _ _ Hy).
  assert (bytes_le x y) as Hle by (eapply (sorted_lookup bytes_le ids a b); eauto; lia).
  apply bytes_le_cases in Hle as [?| ->]; [done|].
  assert (a = b) by (by eapply NoDup_lookup). lia.
Qed.

Lemma nth_id_inj a b :
  (a < length ids)%nat -> (b < length ids)%nat -> nth a ids [] = nth b ids [] -> a = b.
Proof.
  intros Ha Hb Heq. destruct (Nat.lt_trichotomy a b) as [H|[H|H]]; [|done|];
    [pose proof (sorted_nth a b) as Hlt | pose proof (sorted_nth b a) as Hlt];
    rewrite Heq, bytes_ltb_irrefl in Hlt; discriminate Hlt; lia.
Qed.

(** sort.Search finds the member [last] when it is one. *)
Lemma search_finds k :
  (k < length ids)%nat ->
  sort_Search (length ids) (fun i => negb (bytes_ltb (nth i ids []) (nth k ids []))) = k.
Proof.
  intros Hk. set (f i := negb (bytes_ltb (nth i ids []) (nth k ids []))).
  assert (forall i, (i < length ids)%nat -> f i = true <-> (k <= i)%nat) as Hf.
  { intros i Hi. unfold f. rewrite negb_true_iff. destruct (Nat.lt_trichotomy i k) as [H|[->|H]].
    - rewrite sorted_nth by lia. split; [done|lia].
    - rewrite bytes_ltb_irrefl. split; [lia|done].
    - split; [lia|]. intros _. apply bytes_le_cases. left. apply sorted_nth. lia. }
  destruct (sort_Search_spec (length ids) f) as (H1 & H2 & H3).
  { intros a b Hab. rewrite !Hf by lia. lia. }
  destruct (Nat.lt_trichotomy (sort_Search (length ids) f) k) as [H|[H|H]]; [|done|].
  - assert (f (sort_Search (length ids) f) = true) as Hr by (apply H3; lia). apply Hf in Hr; lia.
  - assert (f k = false) as Hr by (apply H2; lia).
    assert (f k = true) by (apply Hf; lia). congruence.
Qed.

Lemma selectMember_next k :
  (k < length ids)%nat -> nth k ids [] <> [] ->
  selectMember (nth k ids []) members = nth ((k + 1) mod length ids) ids [].
Proof.
  intros Hk Hne. unfold selectMember. fold ids. cbv zeta.
  rewrite bool_decide_eq_false_2, search_finds by done.
  rewrite (proj2 (Nat.ltb_lt _ _) Hk), bool_decide_eq_true_2 by done. done.
Qed.

Lemma selectMember_index last :
  ids <> [] -> exists k, (k < length ids)%nat /\ selectMember last members = nth k ids [].
Proof.
  intros Hne. unfold selectMember. fold ids. cbv zeta.
  assert (0 < length ids)%nat by (destruct ids; [done|cbn; lia]).
  case_bool_decide; [by exists 0%nat|]. destruct (_ && _) eqn:E; [|by exists 0%nat].
  eexists. split; [|done]. apply Nat.mod_upper_bound. lia.
Qed.
End Select.

(** ** One call *)

(** What a call selects in one group. *)
Definition choice (topic : bytes) (isOnline : option (bytes -> bool)) (lasts : gmap bytes bytes)
    (g : bytes) (filters : gmap bytes (gmap bytes Z)) : option SharedSubscriber :=
  let members := candidates isOnline filters topic in
  match members with
  | [] => None
  | _ =>
      let sel := selectMember (default [] (lasts !! g)) members in
      Some {| sharedClientID := sel; sharedQoS := memberQoS sel members; sharedShareName := g |}
  end.

Lemma choice_name topic isOnline lasts g filters x :
  choice topic isOnline lasts g filters = Some x -> sharedShareName x = g.
Proof. unfold choice. destruct (candidates _ _ _); [done|]. by intros [= <-]. Qed.

Lemma matchGroup_choice topic isOnline g filters results lasts :
  matchGroup topic isOnline g filters (results, lasts) =
  match choice topic isOnline lasts g filters with
  | None => (results, lasts)
  | Some x => (results ++ [x], <[g := sharedClientID x]> lasts)
  end.
Proof. unfold matchGroup, choice, candidates. by destruct (onlineMembers _ _). Qed.

Lemma choice_lasts topic isOnline lasts lasts' g filters :
  lasts !! g = lasts' !! g -> choice topic isOnline lasts g filters = choice topic isOnline lasts' g filters.
Proof. intros H. unfold choice. by rewrite H. Qed.

Lemma matchGroups_spec topic isOnline lasts m :
  let r := map_fold (matchGroup topic isOnline) ([], lasts) m in
  NoDup (sharedShareName <$> fst r) /\
  (forall x, x ∈ fst r <-> m !! sharedShareName x ≫= choice topic isOnline lasts (sharedShareName x) = Some x) /\
  (forall g, snd r !! g = match m !! g ≫= choice topic isOnline lasts g with
                         | Some x => Some (sharedClientID x) | None => lasts !! g end).
Proof.
  cbv zeta. apply (map_fold_weak_ind (fun r m =>
    NoDup (sharedShareName <$> fst r) /\
    (forall x, x ∈ fst r <-> m !! sharedShareName x ≫= choice topic isOnline lasts (sharedShareName x) = Some x) /\
    (forall g, snd r !! g = match m !! g ≫= choice topic isOnline lasts g with
                           | Some x => Some (sharedClientID x) | None => lasts !! g end))).
  - cbn [fst snd]. split_and!; [constructor | |]; intros x; [rewrite elem_of_nil|];
      rewrite lookup_empty; cbn; naive_solver.
  - intros g fs m' [rs ls] Hg (Hnd & Hin & Hl). rewrite matchGroup_choice. cbn [fst snd] in *.
    assert (ls !! g = lasts !! g) as Hlg by (by rewrite Hl, Hg).
    rewrite (choice_lasts _ _ _ _ _ _ Hlg).
    assert (forall x, x ∈ rs -> sharedShareName x <> g) as Hnew.
    { intros x Hx Heq. apply Hin in Hx. by rewrite Heq, Hg in Hx. }
    destruct (choice topic isOnline lasts g fs) as [y|] eqn:Ey; cbn [fst snd].
    + pose proof (choice_name _ _ _ _ _ _ Ey) as Hy. split_and!.
      * rewrite fmap_app, NoDup_app. split_and!; [done| |apply NoDup_singleton].
        intros n (x & -> & Hx)%list_elem_of_fmap Hn%list_elem_of_singleton. apply Hnew in Hx. congruence.
      * intros x. rewrite elem_of_app, list_elem_of_singleton.
        destruct (decide (sharedShareName x = g)) as [Heq|Hne].
        -- rewrite Heq, lookup_insert_eq. cbn. rewrite Ey. naive_solver.
        -- rewrite lookup_insert_ne, Hin by done. naive_solver.
      * intros g'. destruct (decide (g' = g)) as [->|].
        -- rewrite !lookup_insert_eq. cbn. by rewrite Ey.
        -- rewrite !lookup_insert_ne by done. apply Hl.
    + split_and!; [done| |].
      * intros x. destruct (decide (sharedShareName x = g)) as [Heq|Hne].
        -- rewrite Heq, lookup_insert_eq. cbn. rewrite Ey. naive_solver.
        -- rewrite lookup_insert_ne by done. apply Hin.
      * intros g'. destruct (decide (g' = g)) as [->|].
        -- rewrite lookup_insert_eq. cbn. by rewrite Ey.
        -- rewrite lookup_insert_ne by done. apply Hl.
Qed.

Lemma matchShared_spec topic isOnline tt :
  let results := fst (matchShared topic isOnline tt) in
  let tt' := snd (matchShared topic isOnline tt) in
  sharedSubs tt' = sharedSubs tt /\ NoDup (sharedShareName <$> results) /\
  (forall x, x ∈ results <->
     sharedSubs tt !! sharedShareName x ≫= choice topic isOnline (sharedLast tt) (sharedShareName x) = Some x) /\
  (forall g, sharedLast tt' !! g = match sharedSubs tt !! g ≫= choice topic isOnline (sharedLast tt) g with
                                  | Some x => Some (sharedClientID x) | None => sharedLast tt !! g end).
Proof.
  unfold matchShared. pose proof (matchGroups_spec topic isOnline (sharedLast tt) (sharedSubs tt)) as H.
  cbv zeta in H. destruct (map_fold _ _ _). cbn in *. tauto.
Qed.

Lemma memberQoS_elem members c : c ∈ fst <$> members -> (c, memberQoS c members) ∈ members.
Proof.
  induction members as [|[c' q'] members IH]; cbn; [by intros ?%elem_of_nil|].
  case_bool_decide; [subst; intros _; apply list_elem_of_here|].
  intros [->|H']%elem_of_cons; [done|]. by apply list_elem_of_further, IH.
Qed.

(** The selected client is a candidate. *)
Lemma choice_elem topic isOnline lasts g filters x :
  choice topic isOnline lasts g filters = Some x ->
  (sharedClientID x, sharedQoS x) ∈ candidates isOnline filters topic.
Proof.
  unfold choice. destruct (candidates_sorted isOnline filters topic) as [Hnd Hs].
  remember (candidates isOnline filters topic) as members eqn:Em.
  assert (members <> [] -> forall last, selectMember last members ∈ fst <$> members) as Hsel.
  { intros Hne last. destruct (selectMember_index members last) as (k & Hk & ->); [by destruct members|].
    apply list_elem_of_In, nth_In. by rewrite length_fmap in *. }
  destruct members; [done|]. intros Hx. apply (inj Some) in Hx as <-. cbn [sharedClientID sharedQoS].
  by apply memberQoS_elem, Hsel.
Qed.

(** A client of a group that may be given a message: a filter of the group that
    it subscribed to matches the topic, and it is online. *)
Definition eligible (tt : TopicTree) (topic : bytes) (isOnline : option (bytes -> bool)) (g c : bytes) (q : Z)
    : Prop :=
  (exists f, shared_lookup tt g f c = Some q /\ matchSysProtected f topic = true) /\
  match isOnline with Some online => online c = true | None => True end.

Lemma eligible_member tt topic isOnline g filters c q :
  sharedSubs tt !! g = Some filters ->
  eligible tt topic isOnline g c q <->
  member_with filters topic c q /\ match isOnline with Some online => online c = true | None => True end.
Proof.
  intros Hg. unfold eligible, member_with, shared_lookup. rewrite Hg. cbn. split.
  - intros [(f & Hf & Hm) Ho]. split; [|done]. exists f.
    destruct (filters !! f) as [cs|]; [|done]. eauto.
  - intros [(f & cs & Hf & Hm & Hc) Ho]. split; [|done]. exists f. by rewrite Hf.
Qed.

Lemma candidates_eligible tt topic isOnline g filters c q :
  sharedSubs tt !! g = Some filters ->
  (c, q) ∈ candidates isOnline filters topic <->
  eligible tt topic isOnline g c q /\ forall q', eligible tt topic isOnline g c q' -> q' <= q.
Proof.
  intros Hg. unfold candidates. rewrite onlineMembers_spec.
  destruct (groupMembers_spec filters topic) as (_ & _ & Hm & _). rewrite Hm.
  setoid_rewrite eligible_member; [|done..]. naive_solver.
Qed.

(** A client with an eligible subscription is a candidate. *)
Lemma candidates_nonempty tt topic isOnline g filters c q :
  sharedSubs tt !! g = Some filters -> eligible tt topic isOnline g c q ->
  candidates isOnline filters topic <> [].
Proof.
  intros Hg He. unfold candidates. apply (eligible_member _ _ _ _ filters) in He as [Hm Ho]; [|done].
  destruct (groupMembers_spec filters topic) as (_ & _ & _ & Hex).
  destruct (Hex _ _ Hm) as [q' Hq']. intros Hnil.
  assert ((c, q') ∈ onlineMembers isOnline (groupMembers filters topic)) as Hin by (by apply onlineMembers_spec).
  rewrite Hnil in Hin. by apply elem_of_nil in Hin.
Qed.

(** ** Successive calls *)

(** The clients of group [g] that [k] successive calls select. *)
Fixpoint sharedChoices (k : nat) (g topic : bytes) (isOnline : option (bytes -> bool)) (tt : TopicTree)
    : list bytes :=
  match k with
  | O => []
  | S k' =>
      let '(results, tt') := matchShared topic isOnline tt in
      (sharedClientID <$> base.filter (fun r => sharedShareName r = g) results) ++
      sharedChoices k' g topic isOnline tt'
  end.

(** A call adds what it selects in the group. *)
Lemma filter_unique (rs : list SharedSubscriber) x :
  NoDup (sharedShareName <$> rs) -> x ∈ rs ->
  base.filter (fun r => sharedShareName r = sharedShareName x) rs = [x].
Proof.
  induction rs as [|y rs IH]; [by intros _ ?%elem_of_nil|]. rewrite fmap_cons, filter_cons.
  intros [Hnin Hnd]%NoDup_cons Hx. apply elem_of_cons in Hx as [<-|Hx].
  - rewrite decide_True by done. f_equal. apply elem_of_nil_inv.
    intros z [Heq Hz]%list_elem_of_filter. apply Hnin. rewrite <- Heq. apply list_elem_of_fmap. eauto.
  - rewrite decide_False; [auto|]. intros Heq. apply Hnin. rewrite Heq. apply list_elem_of_fmap. eauto.
Qed.

Lemma call_selects topic isOnline tt g filters :
  sharedSubs tt !! g = Some filters -> candidates isOnline filters topic <> [] ->
  let members := candidates isOnline filters topic in
  let sel := selectMember (default [] (sharedLast tt !! g)) members in
  let '(results, tt') := matchShared topic isOnline tt in
  (sharedClientID <$> base.filter (fun r => sharedShareName r = g) results) = [sel] /\
  sharedSubs tt' = sharedSubs tt /\ sharedLast tt' !! g = Some sel.
Proof.
  intros Hg Hne. cbv zeta. pose proof (matchShared_spec topic isOnline tt) as (H1 & H2 & H3 & H4).
  destruct (matchShared topic isOnline tt) as [results tt']. cbn [fst snd] in *.
  remember (choice topic isOnline (sharedLast tt) g filters) as o eqn:Eo. symmetry in Eo.
  specialize (H4 g). rewrite Hg in H4. cbn in H4. rewrite Eo in H4.
  assert (exists x, o = Some x /\ sharedClientID x =
    selectMember (default [] (sharedLast tt !! g)) (candidates isOnline filters topic)) as (x & -> & Hx).
  { subst o. unfold choice. destruct (candidates isOnline filters topic); [done|]. by eexists. }
  pose proof (choice_name _ _ _ _ _ _ Eo) as Hname.
  assert (x ∈ results) as Hin by (apply H3; by rewrite Hname, Hg).
  split_and!; [|done | by rewrite H4, Hx].
  rewrite <- Hname, filter_unique by done. cbn. by rewrite Hx, Hname.
Qed.

(** From a call that selected the member at index [i], the next [k] calls select
    the members at the following indices, going round. *)
Lemma sharedChoices_from k topic isOnline tt g filters i :
  let ids := fst <$> candidates isOnline filters topic in
  sharedSubs tt !! g = Some filters -> ([] : bytes) ∉ ids -> (i < length ids)%nat ->
  sharedLast tt !! g = Some (nth i ids []) ->
  sharedChoices k g topic isOnline tt = (fun j => nth ((i + 1 + j) mod length ids) ids []) <$> seq 0 k.
Proof.
  cbv zeta. revert tt i. induction k as [|k IH]; intros tt i Hg Hids Hi Hl; cbn [sharedChoices]; [done|].
  set (ids := fst <$> candidates isOnline filters topic) in *.
  assert (candidates isOnline filters topic <> []) as Hne by (intros Hn; subst ids; rewrite Hn in Hi; cbn in Hi; lia).
  pose proof (call_selects topic isOnline tt g filters Hg Hne) as Hc. cbv zeta in Hc.
  destruct (matchShared topic isOnline tt) as [results tt']. destruct Hc as (-> & Hs & Hl').
  destruct (candidates_sorted isOnline filters topic) as [Hnd Hsort].
  assert (nth i ids [] <> []) as Hlast.
  { intros Hn. apply Hids. rewrite <- Hn. by apply list_elem_of_In, nth_In. }
  pose proof (selectMember_next _ Hnd Hsort i Hi Hlast) as Hnext. fold ids in Hnext.
  rewrite Hl in *. cbn [default] in *. unfold default, from_option, id in *. rewrite Hnext in *.
  rewrite (IH tt' ((i + 1) mod length ids)%nat); [|by rewrite Hs|done|apply Nat.mod_upper_bound; lia | done].
  cbn [seq fmap list_fmap app]. rewrite Nat.add_0_r. f_equal. rewrite <- fmap_S_seq, <- list_fmap_compose.
  apply list_fmap_ext. intros _ j _. cbn. f_equal.
  rewrite <- !Nat.add_assoc, Nat.Div0.add_mod_idemp_l. f_equal. lia.
Qed.

Lemma rotation_permutation (l : list bytes) i :
  l <> [] -> (fun j => nth ((i + j) mod length l) l []) <$> seq 0 (length l) ≡ₚ l.
Proof.
  intros Hl. assert (0 < length l)%nat by (destruct l; [done|cbn; lia]).
  transitivity (rotate i l).
  2: { unfold rotate. rewrite Permutation_app_comm. by rewrite take_drop. }
  assert ((fun j => nth ((i + j) mod length l) l []) <$> seq 0 (length l) = rotate i l) as ->; [|done].
  apply list_eq. intros j. rewrite list_lookup_fmap.
  destruct (decide (j < length l)%nat) as [Hj|Hj].
  - rewrite lookup_seq_lt by done. cbn. rewrite lookup_rotate_r by done. unfold rotate_nat_add.
    assert (Z.to_nat ((Z.of_nat i + Z.of_nat j) `mod` Z.of_nat (length l)) = (i + j) mod length l)%nat as ->.
    { rewrite <- Nat2Z.inj_add, <- Nat2Z.inj_mod. by rewrite Nat2Z.id. }
    destruct (nth_lookup_or_length l ((i + j) mod length l) []) as [->|Hge]; [done|].
    pose proof (Nat.mod_upper_bound (i + j) (length l)). lia.
  - rewrite lookup_seq_ge by lia. cbn. symmetry. apply lookup_ge_None. rewrite length_rotate. lia.
Qed.

(** ** Properties *)

(** C29: A call of matchShared selects exactly one member in every share group
    that has an eligible one and none in the others, never selects a client that
    is not eligible, reports the highest QoS of the selected client's matching
    subscriptions in the group, and changes no subscription. *)
Theorem matchShared_one_per_group topic isOnline tt :
  let results := fst (matchShared topic isOnline tt) in
  let tt' := snd (matchShared topic isOnline tt) in
  NoDup (sharedShareName <$> results) /\
  (forall g, g ∈ sharedShareName <$> results <-> exists c q, eligible tt topic isOnline g c q) /\
  (forall r, r ∈ results ->
     eligible tt topic isOnline (sharedShareName r) (sharedClientID r) (sharedQoS r) /\
     forall q, eligible tt topic isOnline (sharedShareName r) (sharedClientID r) q -> q <= sharedQoS r) /\
  sharedSubs tt' = sharedSubs tt /\ root tt' = root tt.
Proof.
  cbv zeta. destruct (matchShared_spec topic isOnline tt) as (H1 & H2 & H3 & _).
  assert (forall r, r ∈ fst (matchShared topic isOnline tt) ->
     eligible tt topic isOnline (sharedShareName r) (sharedClientID r) (sharedQoS r) /\
     forall q, eligible tt topic isOnline (sharedShareName r) (sharedClientID r) q -> q <= sharedQoS r) as Hr.
  { intros r Hr%H3. destruct (sharedSubs tt !! sharedShareName r) as [filters|] eqn:Eg; [|done].
    apply choice_elem in Hr. by rewrite (candidates_eligible _ _ _ _ filters) in Hr by exact Eg. }
  split_and!; [done | | done | done | unfold matchShared; by destruct (map_fold _ _ _)].
  intros g. rewrite list_elem_of_fmap. split.
  - intros (r & -> & [He _]%Hr). eauto.
  - intros (c & q & He). destruct (sharedSubs tt !! g) as [filters|] eqn:Eg.
    2: { destruct He as [(f & Hf & _) _]. unfold shared_lookup in Hf. by rewrite Eg in Hf. }
    pose proof (candidates_nonempty _ _ _ _ _ _ _ Eg He) as Hne.
    destruct (choice topic isOnline (sharedLast tt) g filters) as [x|] eqn:Ex.
    + pose proof (choice_name _ _ _ _ _ _ Ex) as Hname. exists x. split; [done|]. apply H3. by rewrite Hname, Eg.
    + unfold choice in Ex. by destruct (candidates isOnline filters topic).
Qed.

(** The selection is fair.  While the membership of a share group does not
    change, as many successive calls as the group has eligible members select
    each of them exactly once, from whatever member the round starts. *)
Theorem matchShared_round_robin topic isOnline tt g filters :
  let ids := fst <$> candidates isOnline filters topic in
  sharedSubs tt !! g = Some filters -> ([] : bytes) ∉ ids ->
  sharedChoices (length ids) g topic isOnline tt ≡ₚ ids.
Proof.
  cbv zeta. set (ids := fst <$> candidates isOnline filters topic). intros Hg Hids.
  destruct (decide (ids = [])) as [->|Hne]; [done|].
  assert (candidates isOnline filters topic <> []) as Hcne by (intros Hn; subst ids; by rewrite Hn in Hne).
  pose proof (call_selects topic isOnline tt g filters Hg Hcne) as Hc. cbv zeta in Hc.
  destruct (selectMember_index (candidates isOnline filters topic) (default [] (sharedLast tt !! g)) Hne)
    as (i & Hi & Hsel). rewrite Hsel in Hc. fold ids in Hc, Hi.
  rewrite <- (rotation_permutation ids i Hne) at 2.
  remember (length ids) as n eqn:En. destruct n as [|n]; [lia|]. cbn [sharedChoices].
  destruct (matchShared topic isOnline tt) as [results tt']. destruct Hc as (-> & Hs & Hl).
  rewrite (sharedChoices_from n topic isOnline tt' g filters i); [|by rewrite Hs|done|fold ids; lia|done].
  fold ids. rewrite <- En. cbn [seq fmap list_fmap app]. rewrite Nat.add_0_r, Nat.mod_small by lia.
  apply Permutation_cons; [done|]. rewrite <- (fmap_S_seq 0), <- list_fmap_compose.
  rewrite (list_fmap_ext _ ((fun j => nth ((i + j) mod S n) ids []) ∘ S) (seq 0 n)); [done|].
  intros _ j _. cbn. by replace (i + 1 + j)%nat with (i + S j)%nat by lia.
Qed.

Definition sample_group : TopicTree :=
  runTree [OpSubscribeShared (str "g") (str "a/+") (str "c2") 1; OpSubscribeShared (str "g") (str "a/#") (str "c1") 2;
           OpSubscribeShared (str "g") (str "a/+") (str "c3") 0] NewTopicTree.

Lemma matchShared_round_robin_witness :
  sharedChoices 3 (str "g") (str "a/b") None sample_group ≡ₚ [str "c1"; str "c2"; str "c3"].
Proof.
  assert (exists filters, sharedSubs sample_group !! str "g" = Some filters /\
    fst <$> candidates None filters (str "a/b") = [str "c1"; str "c2"; str "c3"]) as (filters & Hg & Hids).
  { exists (default ∅ (sharedSubs sample_group !! str "g")). split; vm_compute; reflexivity. }
  pose proof (matchShared_round_robin (str "a/b") None sample_group (str "g") filters) as H.
  cbv zeta in H. rewrite Hids in H. apply H; [exact Hg|].
  rewrite !not_elem_of_cons. split_and!; [done..|apply not_elem_of_nil].
Defined.

(** When the member that was selected last goes offline the rotation starts
    again at the first member, it does not go on with the member that follows:
    of three members the first two have had their turn, the second goes offline,
    and the first is selected again instead of the third. *)
Theorem matchShared_restarts_when_last_leaves :
  let call online tt := snd (matchShared (str "a/b") online tt) in
  let tt2 := call None (call None sample_group) in
  let c2_offline := Some (fun c => negb (bool_decide (c = str "c2"))) in
  sharedChoices 2 (str "g") (str "a/b") None sample_group = [str "c1"; str "c2"] /\
  sharedChoices 1 (str "g") (str "a/b") None tt2 = [str "c3"] /\
  sharedChoices 1 (str "g") (str "a/b") c2_offline tt2 = [str "c1"].
Proof. vm_compute. auto. Qed.
