(* ===== verification/QoSEngine.v ===== *)
(** * The QoS engine: broker/qos_engine.go

    The table of unacknowledged deliveries, the acknowledgement handlers and one
    round of the retry loop.  The callbacks the broker installs are modelled by
    the calls the engine makes, in order; time is an argument ([time.Now] of the
    call, in nanoseconds). *)

From S2P Require Import Prelude Spec.
Open Scope Z_scope.

(** ** Model *)

Inductive InflightState := StateSent | StateAcked.

#[export] Instance InflightState_eq_dec : EqDecision InflightState.
Proof. solve_decision. Defined.

(** qos_engine.go, InflightMessage *)
Record InflightMessage := {
  im_PacketID : Z;
  im_ClientID : bytes;
  im_State : InflightState;
  im_SentAt : Z;
  im_Retries : Z;
  im_MaxRetries : Z;
  im_Topic : bytes;
  im_Payload : bytes;
  im_QoS : Z;
  im_Retain : bool;
  im_IsOutbound : bool;
}.

(** The callbacks that are set. *)
Record Callbacks := {
  cb_sendPubRel : bool;
  cb_sendPubComp : bool;
  cb_republish : bool;
  cb_onError : bool;
  cb_onGiveUp : bool;
}.

(** qos_engine.go, QoSEngine *)
Record QoSEngine := {
  inflight : gmap bytes (gmap Z InflightMessage);
  maxInflight : Z;
  retryInterval : Z;
  maxRetries : Z;
  sessionVersions : gmap bytes Z;
  callbacks : Callbacks;
}.

(** A call of a callback. *)
Inductive QoSCall :=
  | CallPubRel (clientID : bytes) (packetID : Z)
  | CallPubComp (clientID : bytes) (packetID : Z)
  | CallRepublish (clientID : bytes) (packetID : Z) (topic payload : bytes) (qos : Z) (retain : bool)
  | CallGiveUp (clientID : bytes) (packetID : Z)
  | CallError (clientID : bytes) (packetID : Z).

Definition noCallbacks : Callbacks :=
  {| cb_sendPubRel := false; cb_sendPubComp := false; cb_republish := false; cb_onError := false;
     cb_onGiveUp := false |}.

(** qos_engine.go, NewQoSEngine with the three options applied to the defaults *)
Definition NewQoSEngine (maxInfl interval retries : Z) : QoSEngine :=
  {| inflight := ∅; maxInflight := maxInfl; retryInterval := interval; maxRetries := retries;
     sessionVersions := ∅; callbacks := noCallbacks |}.

Definition defaultQoSEngine : QoSEngine := NewQoSEngine 100 (10 * 1000000000) 3.

Definition with_inflight (q : QoSEngine) (m : gmap bytes (gmap Z InflightMessage)) : QoSEngine :=
  {| inflight := m; maxInflight := maxInflight q; retryInterval := retryInterval q;
     maxRetries := maxRetries q; sessionVersions := sessionVersions q; callbacks := callbacks q |}.

Definition with_versions (q : QoSEngine) (v : gmap bytes Z) : QoSEngine :=
  {| inflight := inflight q; maxInflight := maxInflight q; retryInterval := retryInterval q;
     maxRetries := maxRetries q; sessionVersions := v; callbacks := callbacks q |}.

Definition with_callbacks (q : QoSEngine) (cb : Callbacks) : QoSEngine :=
  {| inflight := inflight q; maxInflight := maxInflight q; retryInterval := retryInterval q;
     maxRetries := maxRetries q; sessionVersions := sessionVersions q; callbacks := cb |}.

(** qos_engine.go, SetClientVersion *)
Definition SetClientVersion (clientID : bytes) (ver : Z) (q : QoSEngine) : QoSEngine :=
  with_versions q (<[clientID := ver]> (sessionVersions q)).

(** qos_engine.go, retransmitPermitted: a client without an entry has version 0. *)
Definition retransmitPermitted (q : QoSEngine) (clientID : bytes) : bool :=
  match SpecOf (default 0 (sessionVersions q !! clientID)) with
  | None => true
  | Some sp => RetransmitUnacked sp
  end.

(** qos_engine.go, SetCallbacks, SetErrorCallback and SetGiveUpCallback *)
Definition SetCallbacks (pubRel pubComp republish : bool) (q : QoSEngine) : QoSEngine :=
  with_callbacks q
    {| cb_sendPubRel := pubRel; cb_sendPubComp := pubComp; cb_republish := republish;
       cb_onError := cb_onError (callbacks q); cb_onGiveUp := cb_onGiveUp (callbacks q) |}.

Definition SetErrorCallback (b : bool) (q : QoSEngine) : QoSEngine :=
  with_callbacks q
    {| cb_sendPubRel := cb_sendPubRel (callbacks q); cb_sendPubComp := cb_sendPubComp (callbacks q);
       cb_republish := cb_republish (callbacks q); cb_onError := b; cb_onGiveUp := cb_onGiveUp (callbacks q) |}.

Definition SetGiveUpCallback (b : bool) (q : QoSEngine) : QoSEngine :=
  with_callbacks q
    {| cb_sendPubRel := cb_sendPubRel (callbacks q); cb_sendPubComp := cb_sendPubComp (callbacks q);
       cb_republish := cb_republish (callbacks q); cb_onError := cb_onError (callbacks q); cb_onGiveUp := b |}.

(** The in-flight messages of a client; [None] when the client has no table. *)
Definition clientInflight (q : QoSEngine) (clientID : bytes) : gmap Z InflightMessage :=
  default ∅ (inflight q !! clientID).

(** qos_engine.go, track *)
Definition track (clientID : bytes) (packetID : Z) (topic payload : bytes) (retain : bool) (qos : Z)
    (outbound : bool) (now : Z) (q : QoSEngine) : res unit * QoSEngine :=
  let m := clientInflight q clientID in
  if (0 <? maxInflight q) && (maxInflight q <=? Z.of_nat (size m)) then
    (Err ErrInflightFull, with_inflight q (<[clientID := m]> (inflight q)))
  else
    let msg := {| im_PacketID := packetID; im_ClientID := clientID; im_State := StateSent; im_SentAt := now;
                  im_Retries := 0; im_MaxRetries := maxRetries q; im_Topic := topic; im_Payload := payload;
                  im_QoS := qos; im_Retain := retain; im_IsOutbound := outbound |} in
    (Ok tt, with_inflight q (<[clientID := <[packetID := msg]> m]> (inflight q))).

Definition TrackQoS1 c id topic payload retain := track c id topic payload retain 1 false.
Definition TrackQoS2 c id topic payload retain := track c id topic payload retain 2 false.
Definition TrackOutboundQoS1 c id topic payload retain := track c id topic payload retain 1 true.
Definition TrackOutboundQoS2 c id topic payload retain := track c id topic payload retain 2 true.

Definition with_state (s : InflightState) (m : InflightMessage) : InflightMessage :=
  {| im_PacketID := im_PacketID m; im_ClientID := im_ClientID m; im_State := s; im_SentAt := im_SentAt m;
     im_Retries := im_Retries m; im_MaxRetries := im_MaxRetries m; im_Topic := im_Topic m;
     im_Payload := im_Payload m; im_QoS := im_QoS m; im_Retain := im_Retain m; im_IsOutbound := im_IsOutbound m |}.

(** The write through the pointer [clientInflight[packetID]] when it exists. *)
Definition updateInflight (clientID : bytes) (packetID : Z) (f : InflightMessage -> InflightMessage)
    (q : QoSEngine) : QoSEngine :=
  with_inflight q (alter (alter f packetID) clientID (inflight q)).

(** qos_engine.go, TrackOutboundQoS2AwaitingPubComp *)
Definition TrackOutboundQoS2AwaitingPubComp (c : bytes) (id : Z) (topic payload : bytes) (retain : bool)
    (now : Z) (q : QoSEngine) : res unit * QoSEngine :=
  match TrackOutboundQoS2 c id topic payload retain now q with
  | (Err e, q') => (Err e, q')
  | (Ok _, q') => (Ok tt, updateInflight c id (with_state StateAcked) q')
  end.

(** The [delete(clientInflight, packetID)] of the acknowledgement handlers. *)
Definition removeInflight (clientID : bytes) (packetID : Z) (q : QoSEngine) : QoSEngine :=
  with_inflight q (alter (delete packetID) clientID (inflight q)).

(** qos_engine.go, AckQoS1, ReleaseInflight and AckPubComp *)
Definition AckQoS1 := removeInflight.
Definition ReleaseInflight := removeInflight.
Definition AckPubComp := removeInflight.

(** qos_engine.go, GetInflight and InflightCount *)
Definition GetInflight (clientID : bytes) (packetID : Z) (q : QoSEngine) : option InflightMessage :=
  clientInflight q clientID !! packetID.

Definition InflightCount (clientID : bytes) (q : QoSEngine) : Z := Z.of_nat (size (clientInflight q clientID)).

(** qos_engine.go, RemoveClient *)
Definition RemoveClient (clientID : bytes) (q : QoSEngine) : QoSEngine :=
  with_versions (with_inflight q (delete clientID (inflight q))) (delete clientID (sessionVersions q)).

(** The operations that call out.  [fails] says which calls of a callback return
    an error. *)
Section Calls.
Context (fails : QoSCall -> bool).

(** A callback call followed by the error report when it fails. *)
Definition callOut (set : bool) (c : QoSCall) (clientID : bytes) (packetID : Z) (q : QoSEngine) : list QoSCall :=
  if set then
    c :: (if fails c && cb_onError (callbacks q) then [CallError clientID packetID] else [])
  else [].

(** qos_engine.go, AckPubRec *)
Definition AckPubRec (clientID : bytes) (packetID : Z) (q : QoSEngine) : list QoSCall * QoSEngine :=
  match GetInflight clientID packetID q with
  | Some _ =>
      (callOut (cb_sendPubRel (callbacks q)) (CallPubRel clientID packetID) clientID packetID q,
       updateInflight clientID packetID (with_state StateAcked) q)
  | None => ([], q)
  end.

(** qos_engine.go, AckPubRel *)
Definition AckPubRel (clientID : bytes) (packetID : Z) (q : QoSEngine) : list QoSCall * QoSEngine :=
  (callOut (cb_sendPubComp (callbacks q)) (CallPubComp clientID packetID) clientID packetID q,
   AckQoS1 clientID packetID q).

(** qos_engine.go, doRetry: what happens to one entry. *)
Inductive RetryAction := RetryKeep | RetryDrop | RetrySend (m : InflightMessage).

Definition retryAction (q : QoSEngine) (now : Z) (clientID : bytes) (m : InflightMessage) : RetryAction :=
  if negb (retransmitPermitted q clientID) then RetryKeep
  else if now - im_SentAt m <? retryInterval q then RetryKeep
  else if im_MaxRetries m <=? im_Retries m then RetryDrop
  else RetrySend
    {| im_PacketID := im_PacketID m; im_ClientID := im_ClientID m; im_State := im_State m; im_SentAt := now;
       im_Retries := im_Retries m + 1; im_MaxRetries := im_MaxRetries m; im_Topic := im_Topic m;
       im_Payload := im_Payload m; im_QoS := im_QoS m; im_Retain := im_Retain m;
       im_IsOutbound := im_IsOutbound m |}.

Definition retryEntry (q : QoSEngine) (now : Z) (clientID : bytes) (m : InflightMessage) : option InflightMessage :=
  match retryAction q now clientID m with RetryKeep => Some m | RetryDrop => None | RetrySend m' => Some m' end.

(** The entries of the table: client, packet id and message. *)
Definition entries (q : QoSEngine) : list (bytes * Z * InflightMessage) :=
  map_to_list (inflight q) ≫= fun '(c, m) => (fun '(id, msg) => (c, id, msg)) <$> map_to_list m.

Definition reportCalls (q : QoSEngine) (now : Z) (e : bytes * Z * InflightMessage) : list QoSCall :=
  let '(c, id, m) := e in
  match retryAction q now c m with
  | RetryDrop =>
      (if cb_onGiveUp (callbacks q) then [CallGiveUp c id] else []) ++
      (if cb_onError (callbacks q) then [CallError c id] else [])
  | _ => []
  end.

Definition resendCalls (q : QoSEngine) (now : Z) (e : bytes * Z * InflightMessage) : list QoSCall :=
  let '(c, id, m) := e in
  match retryAction q now c m with
  | RetrySend msg =>
      if im_IsOutbound msg && (im_QoS msg =? 2) && bool_decide (im_State msg = StateAcked) then
        callOut (cb_sendPubRel (callbacks q)) (CallPubRel c (im_PacketID msg)) c (im_PacketID msg) q
      else
        callOut (cb_republish (callbacks q))
          (CallRepublish c (im_PacketID msg) (im_Topic msg) (im_Payload msg) (im_QoS msg) (im_Retain msg))
          c (im_PacketID msg) q
  | _ => []
  end.

Definition retryTable (q : QoSEngine) (now : Z) (c : bytes) (m : gmap Z InflightMessage)
    : gmap Z InflightMessage := omap (retryEntry q now c) m.

(** qos_engine.go, doRetry: the calls, in their order, and the new table. *)
Definition doRetry (now : Z) (q : QoSEngine) : list QoSCall * QoSEngine :=
  let reports := entries q ≫= reportCalls q now in
  let resends := entries q ≫= resendCalls q now in
  (reports ++ resends,
   with_inflight q (map_imap (fun c m => Some (retryTable q now c m)) (inflight q))).
End Calls.
