(* ===== verification/QoSProofs.v ===== *)
(** * Properties of the QoS engine

    The window per client is never exceeded, an unacknowledged delivery is
    repeated a fixed number of times and then given up, a delivery whose PUBREC
    was accepted is never published again, and a client of MQTT 5 is never sent
    a repetition on a live connection. *)

From S2P Require Import Prelude Spec QoSEngine.
Open Scope Z_scope.

(** ** Histories of the engine *)

Inductive QoSOp :=
  | OpTrack (c : bytes) (id : Z) (topic payload : bytes) (retain : bool) (qos : Z) (outbound : bool) (now : Z)
  | OpTrackAwaiting (c : bytes) (id : Z) (topic payload : bytes) (retain : bool) (now : Z)
  | OpAck (c : bytes) (id : Z)
  | OpPubRec (c : bytes) (id : Z)
  | OpPubRel (c : bytes) (id : Z)
  | OpRemoveClient (c : bytes)
  | OpSetVersion (c : bytes) (v : Z)
  | OpRetry (now : Z).

Section Histories.
Context (fails : QoSCall -> bool).

Definition stepQoS (op : QoSOp) (q : QoSEngine) : list QoSCall * QoSEngine :=
  match op with
  | OpTrack c id topic payload retain qos outbound now =>
      ([], snd (track c id topic payload retain qos outbound now q))
  | OpTrackAwaiting c id topic payload retain now =>
      ([], snd (TrackOutboundQoS2AwaitingPubComp c id topic payload retain now q))
  | OpAck c id => ([], removeInflight c id q)
  | OpPubRec c id => AckPubRec fails c id q
  | OpPubRel c id => AckPubRel fails c id q
  | OpRemoveClient c => ([], RemoveClient c q)
  | OpSetVersion c v => ([], SetClientVersion c v q)
  | OpRetry now => doRetry fails now q
  end.

Fixpoint runQoS (ops : list QoSOp) (q : QoSEngine) : list QoSCall * QoSEngine :=
  match ops with
  | [] => ([], q)
  | op :: ops' =>
      let '(calls, q') := stepQoS op q in
      let '(calls', q'') := runQoS ops' q' in
      (calls ++ calls', q'')
  end.

(** ** Reading the table after an operation *)

Lemma clientInflight_alter q f c c' :
  clientInflight (with_inflight q (alter f c (inflight q))) c' =
  if decide (c' = c) then (match inflight q !! c with Some m => f m | None => ∅ end) else clientInflight q c'.
Proof.
  unfold clientInflight, with_inflight; cbn [inflight]. destruct (decide (c' = c)) as [->|].
  - rewrite lookup_alter_eq. by destruct (inflight q !! c).
  - by rewrite lookup_alter_ne.
Qed.

Lemma clientInflight_insert q m c c' :
  clientInflight (with_inflight q (<[c := m]> (inflight q))) c' =
  if decide (c' = c) then m else clientInflight q c'.
Proof.
  unfold clientInflight, with_inflight; cbn [inflight]. destruct (decide (c' = c)) as [->|].
  - by rewrite lookup_insert_eq.
  - by rewrite lookup_insert_ne.
Qed.

Lemma GetInflight_remove c id q c' id' :
  GetInflight c' id' (removeInflight c id q) =
  if decide ((c', id') = (c, id)) then None else GetInflight c' id' q.
Proof.
  unfold GetInflight, removeInflight. rewrite clientInflight_alter.
  destruct (decide (c' = c)) as [->|]; [|by rewrite decide_False by congruence].
  unfold clientInflight. destruct (inflight q !! c) as [m|]; cbn; [|by case_decide; rewrite lookup_empty].
  destruct (decide (id' = id)) as [->|].
  - by rewrite lookup_delete_eq, decide_True.
  - by rewrite lookup_delete_ne, decide_False by congruence.
Qed.

Lemma GetInflight_update c id f q c' id' :
  GetInflight c' id' (updateInflight c id f q) =
  if decide ((c', id') = (c, id)) then f <$> GetInflight c id q else GetInflight c' id' q.
Proof.
  unfold GetInflight, updateInflight. rewrite clientInflight_alter.
  destruct (decide (c' = c)) as [->|]; [|by rewrite decide_False by congruence].
  unfold clientInflight. destruct (inflight q !! c) as [m|]; cbn; [|by case_decide; rewrite ?lookup_empty].
  destruct (decide (id' = id)) as [->|].
  - by rewrite lookup_alter_eq, decide_True.
  - by rewrite lookup_alter_ne, decide_False by congruence.
Qed.

Lemma GetInflight_track c id topic payload retain qos outbound now q c' id' :
  GetInflight c' id' (snd (track c id topic payload retain qos outbound now q)) =
  match fst (track c id topic payload retain qos outbound now q) with
  | Ok _ =>
      if decide ((c', id') = (c, id)) then
        Some {| im_PacketID := id; im_ClientID := c; im_State := StateSent; im_SentAt := now; im_Retries := 0;
                im_MaxRetries := maxRetries q; im_Topic := topic; im_Payload := payload; im_QoS := qos;
                im_Retain := retain; im_IsOutbound := outbound |}
      else GetInflight c' id' q
  | Err _ => GetInflight c' id' q
  end.
Proof.
  unfold track. destruct (_ && _); cbn [fst snd]; unfold GetInflight; rewrite clientInflight_insert.
  - case_decide; [by subst | done].
  - destruct (decide (c' = c)) as [->|]; [|by rewrite decide_False by congruence].
    destruct (decide (id' = id)) as [->|].
    + by rewrite lookup_insert_eq, decide_True.
    + by rewrite lookup_insert_ne, decide_False by congruence.
Qed.

Lemma GetInflight_retry now q c id :
  GetInflight c id (snd (doRetry fails now q)) = GetInflight c id q ≫= retryEntry q now c.
Proof.
  unfold doRetry, GetInflight, clientInflight; cbn [snd with_inflight inflight].
  rewrite map_lookup_imap. destruct (inflight q !! c) as [m|]; cbn; [|by rewrite lookup_empty].
  unfold retryTable. apply lookup_omap.
Qed.

Lemma GetInflight_removeClient c q c' id :
  GetInflight c' id (RemoveClient c q) = if decide (c' = c) then None else GetInflight c' id q.
Proof.
  unfold GetInflight, clientInflight, RemoveClient; cbn. destruct (decide (c' = c)) as [->|].
  - by rewrite lookup_delete_eq.
  - by rewrite lookup_delete_ne.
Qed.

(** ** The invariant *)

Definition entry_ok (id : Z) (m : InflightMessage) : Prop :=
  im_PacketID m = id /\ 0 <= im_Retries m <= Z.max 0 (im_MaxRetries m).

Record qos_ok (q : QoSEngine) : Prop := {
  qos_entries c id m : GetInflight c id q = Some m -> entry_ok id m;
  qos_window c : 0 < maxInflight q -> InflightCount c q <= maxInflight q;
}.

Lemma retryEntry_Some q now c m m' :
  retryEntry q now c m = Some m' ->
  im_PacketID m' = im_PacketID m /\ im_State m' = im_State m /\ im_QoS m' = im_QoS m /\
  im_IsOutbound m' = im_IsOutbound m /\ im_MaxRetries m' = im_MaxRetries m /\
  (im_Retries m' = im_Retries m \/ (im_Retries m' = im_Retries m + 1 /\ im_Retries m < im_MaxRetries m)).
Proof.
  unfold retryEntry, retryAction. destruct (retransmitPermitted q c); cbn [negb]; [|intros [= <-]; auto 7].
  destruct (_ <? _); [intros [= <-]; auto 7|].
  destruct (Z.leb_spec (im_MaxRetries m) (im_Retries m)); [done|]. intros [= <-]. cbn. auto 8.
Qed.

(** The table of a client after an operation that adds no entry to it. *)
Lemma count_le c q q' :
  (forall id, is_Some (GetInflight c id q') -> is_Some (GetInflight c id q)) -> InflightCount c q' <= InflightCount c q.
Proof. intros H. unfold InflightCount. apply inj_le, size_le_dom, H. Qed.

Lemma qos_ok_shrink q q' :
  maxInflight q' = maxInflight q ->
  (forall c id m', GetInflight c id q' = Some m' -> exists m, GetInflight c id q = Some m /\ (entry_ok id m -> entry_ok id m')) ->
  qos_ok q -> qos_ok q'.
Proof.
  intros Hmax Hsub [H1 H2]. split.
  - intros c id m' (m & Hm & Hok)%Hsub. eauto.
  - intros c Hpos. rewrite Hmax in *. etrans; [|by apply (H2 c)]. apply count_le.
    intros id [m' (m & -> & _)%Hsub]. eauto.
Qed.

Lemma qos_ok_track c id topic payload retain qos outbound now q :
  0 <= maxRetries q -> qos_ok q -> qos_ok (snd (track c id topic payload retain qos outbound now q)).
Proof.
  intros Hr [H1 H2]. pose proof (GetInflight_track c id topic payload retain qos outbound now q) as Hget.
  destruct (fst (track c id topic payload retain qos outbound now q)) as [u|e] eqn:Ef.
  2: { apply (qos_ok_shrink q); [by unfold track; destruct (_ && _) | | by split].
       intros c' id' m'. rewrite Hget. eauto. }
  split.
  - intros c' id' m'. rewrite Hget. case_decide as Hd; [|apply H1].
    injection Hd as -> ->. intros [= <-]. split; cbn; [done|lia].
  - unfold track in *. destruct (_ && _) eqn:Efull; [done|]. cbn [snd with_inflight maxInflight]. intros c' Hpos.
    unfold InflightCount. rewrite clientInflight_insert. case_decide as Hc; [|by apply H2].
    apply andb_false_iff in Efull as [Efull|Efull]; bools; [lia|].
    rewrite size_insert_count. destruct (clientInflight q c !! id); lia.
Qed.

Lemma track_fields c id topic payload retain qos outbound now q :
  let q' := snd (track c id topic payload retain qos outbound now q) in
  maxInflight q' = maxInflight q /\ maxRetries q' = maxRetries q /\ retryInterval q' = retryInterval q /\
  sessionVersions q' = sessionVersions q /\ callbacks q' = callbacks q.
Proof. unfold track. by destruct (_ && _). Qed.

Lemma qos_ok_update c id s q : qos_ok q -> qos_ok (updateInflight c id (with_state s) q).
Proof.
  apply qos_ok_shrink; [done|]. intros c' id' m'. rewrite GetInflight_update. case_decide as Hd; [|eauto].
  injection Hd as -> ->. destruct (GetInflight c id q) as [m|]; [|done]. cbn. intros [= <-]. eauto.
Qed.

Lemma step_ok op q :
  0 <= maxRetries q -> qos_ok q ->
  qos_ok (snd (stepQoS op q)) /\ maxInflight (snd (stepQoS op q)) = maxInflight q /\
  maxRetries (snd (stepQoS op q)) = maxRetries q.
Proof.
  intros Hr Hok. destruct op as [c id ? ? ? ? ? now|c id topic payload retain now|c id|c id|c id|c|c v|now]; cbn [stepQoS snd].
  - destruct (track_fields c id topic payload retain qos outbound now q) as (-> & -> & _).
    auto using qos_ok_track.
  - unfold TrackOutboundQoS2AwaitingPubComp, TrackOutboundQoS2.
    pose proof (qos_ok_track c id topic payload retain 2 true now q Hr Hok) as Ht.
    destruct (track_fields c id topic payload retain 2 true now q) as (E1 & E2 & _).
    destruct (track _ _ _ _ _ _ _ _ _) as [[u|e] q']; cbn [snd] in *; auto using qos_ok_update.
  - split_and!; try done. revert Hok. apply qos_ok_shrink; [done|]. intros c' id' m'.
    rewrite GetInflight_remove. case_decide; [done|eauto].
  - unfold AckPubRec. destruct (GetInflight c id q); cbn [snd]; auto using qos_ok_update.
  - split_and!; try done. revert Hok. apply qos_ok_shrink; [done|]. intros c' id' m'. cbn [AckPubRel snd].
    unfold AckQoS1. rewrite GetInflight_remove. case_decide; [done|eauto].
  - split_and!; try done. revert Hok. apply qos_ok_shrink; [done|]. intros c' id' m'.
    rewrite GetInflight_removeClient. case_decide; [done|eauto].
  - split_and!; try done. by revert Hok; apply qos_ok_shrink; eauto.
  - split_and!; try done. revert Hok. apply qos_ok_shrink; [done|]. intros c' id' m'.
    rewrite GetInflight_retry. destruct (GetInflight c' id' q) as [m|]; [|done]. cbn.
    intros (H1 & _ & _ & _ & H5 & H6)%retryEntry_Some. exists m. split; [done|].
    intros [? ?]. unfold entry_ok. rewrite H1, H5. split; [done|]. lia.
Qed.

Lemma run_ok ops q :
  0 <= maxRetries q -> qos_ok q -> qos_ok (snd (runQoS ops q)) /\ maxInflight (snd (runQoS ops q)) = maxInflight q.
Proof.
  revert q. induction ops as [|op ops IH]; intros q Hr Hok; cbn [runQoS]; [done|].
  destruct (step_ok op q Hr Hok) as (H1 & H2 & H3). destruct (stepQoS op q) as [calls q']. cbn [snd] in *.
  rewrite <- H3 in Hr. destruct (IH q' Hr H1) as [H4 H5]. destruct (runQoS ops q'). cbn [snd] in *.
  split; [done|congruence].
Qed.

Lemma new_ok maxInfl interval retries : qos_ok (NewQoSEngine maxInfl interval retries).
Proof.
  split; cbn; intros; [done|]. unfold InflightCount, clientInflight. cbn [inflight NewQoSEngine].
  rewrite lookup_empty. cbn [default]. rewrite map_size_empty. lia.
Qed.

(** ** The calls of a retry round *)

Lemma elem_of_entries q c id m : (c, id, m) ∈ entries q <-> GetInflight c id q = Some m.
Proof.
  unfold entries, GetInflight, clientInflight. rewrite list_elem_of_bind. split.
  - intros ([c' t] & Hin & Ht%elem_of_map_to_list). apply list_elem_of_fmap in Hin as ([id' m'] & [= -> -> ->] & Hm).
    rewrite Ht. cbn. by apply elem_of_map_to_list in Hm.
  - destruct (inflight q !! c) as [t|] eqn:Et; cbn; [|by rewrite lookup_empty].
    intros Hm. exists (c, t). split; [|by apply elem_of_map_to_list].
    apply list_elem_of_fmap. exists (id, m). split; [done|]. by apply elem_of_map_to_list.
Qed.

Definition call_client (k : QoSCall) : bytes :=
  match k with CallPubRel c _ | CallPubComp c _ | CallRepublish c _ _ _ _ _ | CallGiveUp c _ | CallError c _ => c end.
Definition call_id (k : QoSCall) : Z :=
  match k with CallPubRel _ i | CallPubComp _ i | CallRepublish _ i _ _ _ _ | CallGiveUp _ i | CallError _ i => i end.

Lemma callOut_key set k c id q x :
  x ∈ callOut fails set k c id q -> call_client k = c -> call_id k = id -> call_client x = c /\ call_id x = id.
Proof.
  unfold callOut. destruct set; [|by intros ?%elem_of_nil].
  intros [->|Hx]%elem_of_cons ? ?; [done|]. destruct (_ && _); [|by apply elem_of_nil in Hx].
  apply list_elem_of_singleton in Hx as ->. done.
Qed.

Lemma reportCalls_elem q now c id m x :
  x ∈ reportCalls q now (c, id, m) -> retryAction q now c m = RetryDrop /\ (x = CallGiveUp c id \/ x = CallError c id).
Proof.
  unfold reportCalls. destruct (retryAction q now c m); try (by intros ?%elem_of_nil).
  destruct (cb_onGiveUp (callbacks q)), (cb_onError (callbacks q)); set_solver.
Qed.

(** The calls for an entry name that entry. *)
Lemma entry_calls_key q now c id m x :
  entry_ok id m -> x ∈ reportCalls q now (c, id, m) \/ x ∈ resendCalls fails q now (c, id, m) ->
  call_client x = c /\ call_id x = id.
Proof.
  intros [Hid _] [[_ [->| ->]]%reportCalls_elem|Hx]; [done|done|]. unfold resendCalls in Hx.
  destruct (retryAction q now c m) as [| |m'] eqn:Ea; [by apply elem_of_nil in Hx..|].
  assert (im_PacketID m' = id) as Hid'.
  { assert (retryEntry q now c m = Some m') as (-> & _)%retryEntry_Some; [|done]. unfold retryEntry. by rewrite Ea. }
  rewrite Hid' in Hx. destruct (_ && _ && _); by eapply callOut_key in Hx.
Qed.

Lemma retry_calls_key now q x :
  x ∈ fst (doRetry fails now q) -> qos_ok q ->
  exists m, GetInflight (call_client x) (call_id x) q = Some m /\
    (x ∈ reportCalls q now (call_client x, call_id x, m) \/
     x ∈ resendCalls fails q now (call_client x, call_id x, m)).
Proof.
  intros Hx Hok. unfold doRetry in Hx. cbn [fst] in Hx.
  assert (exists e, e ∈ entries q /\ (x ∈ reportCalls q now e \/ x ∈ resendCalls fails q now e))
    as ([[c id] m] & He & Hc).
  { apply elem_of_app in Hx as [Hx|Hx]; apply list_elem_of_bind in Hx as (e & ? & ?); eauto. }
  apply elem_of_entries in He. pose proof (qos_entries q Hok c id m He) as Hm.
  destruct (entry_calls_key q now c id m x Hm Hc) as [<- <-]. eauto.
Qed.

(** ** A delivery whose PUBREC was accepted *)

Definition awaiting_pubcomp (q : QoSEngine) (c : bytes) (id : Z) : Prop :=
  forall m, GetInflight c id q = Some m -> im_IsOutbound m = true /\ im_QoS m = 2 /\ im_State m = StateAcked.

Definition tracks (op : QoSOp) (c : bytes) (id : Z) : Prop :=
  match op with OpTrack c' id' _ _ _ _ _ _ => c' = c /\ id' = id | _ => False end.

Definition is_publish (c : bytes) (id : Z) (k : QoSCall) : Prop :=
  match k with CallRepublish c' id' _ _ _ _ => c' = c /\ id' = id | _ => False end.

Lemma callOut_publish set k c id q c' id' x :
  x ∈ callOut fails set k c id q -> is_publish c' id' x -> is_publish c' id' k.
Proof.
  unfold callOut. destruct set; [|by intros ?%elem_of_nil].
  intros [->|Hx]%elem_of_cons; [done|]. destruct (_ && _); [|by apply elem_of_nil in Hx].
  apply list_elem_of_singleton in Hx as ->. done.
Qed.

Lemma awaiting_step op q c id :
  qos_ok q -> awaiting_pubcomp q c id -> ~ tracks op c id ->
  awaiting_pubcomp (snd (stepQoS op q)) c id /\ Forall (fun k => ~ is_publish c id k) (fst (stepQoS op q)).
Proof.
  intros Hok Haw Hnt. unfold awaiting_pubcomp in *.
  destruct op as [c0 id0 ? ? ? ? ? ?|c0 id0 topic payload retain now|c0 id0|c0 id0|c0 id0|c0|c0 v|now];
    cbn [stepQoS fst snd].
  - split; [|constructor]. intros m. rewrite GetInflight_track. destruct (fst _); [|apply Haw].
    rewrite decide_False; [apply Haw|]. intros [= -> ->]. by apply Hnt.
  - split; [|constructor]. unfold TrackOutboundQoS2AwaitingPubComp, TrackOutboundQoS2.
    pose proof (GetInflight_track c0 id0 topic payload retain 2 true now q) as Ht.
    destruct (track _ _ _ _ _ _ _ _ _) as [[u|e] q']; cbn [fst snd] in *; intros m; [|rewrite Ht; apply Haw].
    rewrite GetInflight_update. case_decide as Hd; [|rewrite Ht, decide_False by done; apply Haw].
    rewrite Ht, decide_True by done. cbn. by intros [= <-].
  - split; [|constructor]. intros m. rewrite GetInflight_remove. case_decide; [done|apply Haw].
  - unfold AckPubRec. destruct (GetInflight c0 id0 q) as [m0|] eqn:E0; cbn [fst snd]; [|by split].
    split; [|apply Forall_forall; intros x Hx Hp; exact (callOut_publish _ _ _ _ _ _ _ _ Hx Hp)].
    intros m. rewrite GetInflight_update. case_decide as Hd; [|apply Haw].
    injection Hd as -> ->. rewrite E0. cbn. intros [= <-]. by apply Haw in E0 as (? & ? & ?).
  - split; [|apply Forall_forall; intros x Hx Hp; exact (callOut_publish _ _ _ _ _ _ _ _ Hx Hp)].
    intros m. cbn [AckPubRel snd]. unfold AckQoS1. rewrite GetInflight_remove. case_decide; [done|apply Haw].
  - split; [|constructor]. intros m. rewrite GetInflight_removeClient. case_decide; [done|apply Haw].
  - split; [|constructor]. apply Haw.
  - split.
    + intros m'. rewrite GetInflight_retry. destruct (GetInflight c id q) as [m|] eqn:Em; [|done]. cbn.
      intros (_ & -> & -> & -> & _)%retryEntry_Some. auto.
    + apply Forall_forall. intros x Hx Hp. destruct (retry_calls_key now q x Hx Hok) as (m & Hm & Hc).
      assert (call_client x = c /\ call_id x = id) as [<- <-] by (by destruct x).
      destruct (Haw m Hm) as (H1 & H2 & H3).
      destruct Hc as [[_ [Hc|Hc]]%reportCalls_elem|Hc]; [by rewrite Hc in Hp..|]. unfold resendCalls in Hc.
      destruct (retryAction q now (call_client x) m) as [| |m'] eqn:Ea; [by apply elem_of_nil in Hc..|].
      assert (retryEntry q now (call_client x) m = Some m') as (_ & E1 & E2 & E3 & _)%retryEntry_Some
        by (unfold retryEntry; by rewrite Ea).
      rewrite E3, H1, E2, H2, E1, H3, bool_decide_eq_true_2 in Hc by done. cbn in Hc.
      exact (callOut_publish _ _ _ _ _ _ _ _ Hc Hp).
Qed.

Lemma awaiting_run ops q c id :
  0 <= maxRetries q -> qos_ok q -> awaiting_pubcomp q c id -> Forall (fun op => ~ tracks op c id) ops ->
  Forall (fun k => ~ is_publish c id k) (fst (runQoS ops q)).
Proof.
  revert q. induction ops as [|op ops IH]; intros q Hr Hok Haw Hops; cbn [runQoS]; [constructor|].
  apply Forall_cons in Hops as [Hop Hops].
  destruct (step_ok op q Hr Hok) as (H1 & _ & H3). destruct (awaiting_step op q c id Hok Haw Hop) as [H4 H5].
  destruct (stepQoS op q) as [calls q']. cbn [fst snd] in *. rewrite <- H3 in Hr.
  specialize (IH q' Hr H1 H4 Hops). destruct (runQoS ops q'). cbn [fst] in *. by apply Forall_app.
Qed.

(** ** Repetition and giving up *)

(** The calls that repeat the delivery of packet [id] to [c], and those that give
    it up. *)
Definition is_repeat (c : bytes) (id : Z) (k : QoSCall) : bool :=
  match k with
  | CallPubRel c' id' | CallRepublish c' id' _ _ _ _ => bool_decide (c' = c /\ id' = id)
  | _ => false
  end.
Definition is_giveup (c : bytes) (id : Z) (k : QoSCall) : bool :=
  match k with CallGiveUp c' id' => bool_decide (c' = c /\ id' = id) | _ => false end.

Definition count (P : QoSCall -> bool) (l : list QoSCall) : nat := length (base.filter (fun k => P k = true) l).

Lemma count_app P l l' : count P (l ++ l') = (count P l + count P l')%nat.
Proof. unfold count. by rewrite filter_app, length_app. Qed.

Lemma count_0 P l : (forall k, k ∈ l -> P k = false) -> count P l = 0%nat.
Proof.
  intros H. unfold count. rewrite (elem_of_nil_inv (base.filter _ l)); [done|].
  intros k [Hk Hin]%list_elem_of_filter. by rewrite (H k Hin) in Hk.
Qed.

(** In a list of entries without repetition, only one entry counts. *)
Lemma count_bind {A} P (l : list A) (f : A -> list QoSCall) x :
  NoDup l -> x ∈ l -> (forall y, y ∈ l -> y <> x -> count P (f y) = 0%nat) ->
  count P (l ≫= f) = count P (f x).
Proof.
  induction l as [|y l IH]; [by intros _ ?%elem_of_nil|]. intros [Hnin Hnd]%NoDup_cons Hx H0.
  cbn [mbind list_bind]. rewrite count_app. apply elem_of_cons in Hx as [<-|Hx].
  - assert (count P (l ≫= f) = 0%nat) as ->; [|lia]. apply count_0. intros k (y & Hk & Hy)%list_elem_of_bind.
    destruct (P k) eqn:E; [|done]. exfalso.
    assert (count P (f y) = 0%nat) as Hc by (apply H0; [by right | intros ->; done]).
    unfold count in Hc. apply nil_length_inv in Hc.
    apply (not_elem_of_nil k). rewrite <- Hc. by apply list_elem_of_filter.
  - rewrite (H0 y) by (first [left | intros ->; done]). apply IH; [done|done|].
    intros z Hz. apply H0. by right.
Qed.

Lemma NoDup_entries q : NoDup (entries q).
Proof.
  unfold entries. apply NoDup_bind; [| |apply NoDup_map_to_list].
  - intros [c1 m1] [c2 m2] [[c id] m] H1 H2 Hin1 Hin2.
    apply list_elem_of_fmap in Hin1 as ([? ?] & [= -> _ _] & _).
    apply list_elem_of_fmap in Hin2 as ([? ?] & [= -> _ _] & _).
    apply elem_of_map_to_list in H1, H2. congruence.
  - intros [c m] _. apply NoDup_fmap_2; [|apply NoDup_map_to_list].
    intros [i x] [j y] [= -> ->]. done.
Qed.

Definition delivering (q : QoSEngine) : Prop :=
  cb_sendPubRel (callbacks q) = true /\ cb_republish (callbacks q) = true /\ cb_onGiveUp (callbacks q) = true.

Lemma count_callOut P k c id q :
  P (CallError c id) = false -> count P (callOut fails true k c id q) = if P k then 1%nat else 0%nat.
Proof.
  intros He. unfold callOut, count. destruct (_ && _); rewrite !filter_cons, ?He, filter_nil;
    destruct (P k) eqn:E; rewrite ?decide_True, ?decide_False by done; try done;
    by rewrite (decide_False (P := false = true)).
Qed.

Lemma retry_round_counts now q c id m :
  qos_ok q -> delivering q -> GetInflight c id q = Some m ->
  count (is_repeat c id) (fst (doRetry fails now q)) =
    match retryAction q now c m with RetrySend _ => 1%nat | _ => 0%nat end /\
  count (is_giveup c id) (fst (doRetry fails now q)) =
    match retryAction q now c m with RetryDrop => 1%nat | _ => 0%nat end.
Proof.
  intros Hok (Hrel & Hpub & Hup) Hm.
  assert (forall P, (forall k, P k = true -> call_client k = c /\ call_id k = id) ->
    count P (fst (doRetry fails now q)) =
      (count P (reportCalls q now (c, id, m)) + count P (resendCalls fails q now (c, id, m)))%nat) as Hcount.
  { intros P HP. unfold doRetry; cbn [fst]. rewrite count_app.
    assert (forall y, y ∈ entries q -> y <> (c, id, m) ->
      count P (reportCalls q now y) = 0%nat /\ count P (resendCalls fails q now y) = 0%nat) as Hother.
    { intros [[c' id'] m'] Hy Hne. apply elem_of_entries in Hy.
      pose proof (qos_entries q Hok c' id' m' Hy) as He.
      split; apply count_0; intros k Hk; destruct (P k) eqn:EP; try done; destruct (HP k EP) as [<- <-];
        (edestruct (entry_calls_key q now c' id' m' k He) as [<- <-]; [eauto|]); congruence. }
    f_equal; (apply count_bind; [apply NoDup_entries | by apply elem_of_entries |]); intros y Hy Hne;
      by apply Hother. }
  pose proof (qos_entries q Hok c id m Hm) as [Hid _].
  rewrite !Hcount; [|by intros []; cbn; try done; intros [-> ->]%bool_decide_eq_true..].
  unfold reportCalls, resendCalls. rewrite Hup.
  destruct (retryAction q now c m) as [| |m'] eqn:Ea; [done| |].
  - destruct (cb_onError (callbacks q)); split; (rewrite ?Nat.add_0_r); unfold count, is_giveup; cbn;
      by rewrite ?bool_decide_eq_true_2 by done.
  - assert (retryEntry q now c m = Some m') as (E1 & _)%retryEntry_Some by (unfold retryEntry; by rewrite Ea).
    rewrite E1, Hid, Hrel, Hpub.
    destruct (_ && _ && _); rewrite !count_callOut by done; cbn; rewrite ?bool_decide_eq_true_2 by done; done.
Qed.

(** Rounds of the retry loop at the times [ts]. *)
Fixpoint retryRounds (ts : list Z) (q : QoSEngine) : list QoSCall * QoSEngine :=
  match ts with
  | [] => ([], q)
  | t :: ts' =>
      let '(calls, q') := doRetry fails t q in
      let '(calls', q'') := retryRounds ts' q' in
      (calls ++ calls', q'')
  end.

(** The rounds are at least the retry interval apart. *)
Fixpoint spaced (interval last : Z) (ts : list Z) : Prop :=
  match ts with [] => True | t :: ts' => last + interval <= t /\ spaced interval t ts' end.

Lemma retry_fields now q :
  let q' := snd (doRetry fails now q) in
  callbacks q' = callbacks q /\ retryInterval q' = retryInterval q /\ maxRetries q' = maxRetries q /\
  sessionVersions q' = sessionVersions q.
Proof. done. Qed.

Lemma retryRounds_counts ts q c id m :
  0 <= maxRetries q -> qos_ok q -> delivering q -> retransmitPermitted q c = true ->
  GetInflight c id q = Some m -> 0 <= im_MaxRetries m -> spaced (retryInterval q) (im_SentAt m) ts ->
  length ts = S (Z.to_nat (im_MaxRetries m - im_Retries m)) ->
  count (is_repeat c id) (fst (retryRounds ts q)) = Z.to_nat (im_MaxRetries m - im_Retries m) /\
  count (is_giveup c id) (fst (retryRounds ts q)) = 1%nat /\
  GetInflight c id (snd (retryRounds ts q)) = None.
Proof.
  revert q m. induction ts as [|t ts IH]; intros q m Hmr Hok Hdel Hperm Hm Hmax Hsp Hlen; [done|].
  cbn [length] in Hlen. destruct Hsp as [Ht Hsp]. cbn [retryRounds].
  destruct (retry_round_counts t q c id m Hok Hdel Hm) as [C1 C2].
  pose proof (GetInflight_retry t q c id) as Hget. rewrite Hm in Hget. cbn [mbind option_bind] in Hget.
  pose proof (step_ok (OpRetry t) q Hmr Hok) as (Hok' & _ & _). cbn [stepQoS] in Hok'.
  pose proof (retry_fields t q) as (F1 & F2 & F3 & F4).
  pose proof (qos_entries q Hok c id m Hm) as [_ Hret].
  unfold retryEntry in Hget. unfold retryAction in C1, C2, Hget. rewrite Hperm in C1, C2, Hget. cbn [negb] in *.
  rewrite (proj2 (Z.ltb_ge (t - im_SentAt m) (retryInterval q))) in C1, C2, Hget by lia.
  destruct (doRetry fails t q) as [calls q'] eqn:Ed. cbn [fst snd] in *.
  destruct (im_MaxRetries m <=? im_Retries m) eqn:Hle; [apply Z.leb_le in Hle | apply Z.leb_gt in Hle].
  - replace (Z.to_nat (im_MaxRetries m - im_Retries m)) with 0%nat in * by lia.
    injection Hlen as Hlen. apply nil_length_inv in Hlen as ->. cbn [retryRounds fst snd]. rewrite app_nil_r. auto.
  - match type of Hget with _ = Some ?m1 => set (m' := m1) in * end.
    destruct (IH q' m') as (I1 & I2 & I3); try done.
    + by rewrite F3.
    + unfold delivering in *. by rewrite F1.
    + unfold retransmitPermitted in *. by rewrite F4.
    + by rewrite F2.
    + subst m'. cbn [im_MaxRetries im_Retries]. lia.
    + destruct (retryRounds ts q') as [calls' q'']. cbn [fst snd] in *. rewrite !count_app, C1, C2, I1, I2.
      subst m'. cbn [im_MaxRetries im_Retries]. split_and!; [lia|done|done].
Qed.
End Histories.

(** ** Properties *)

(** The window of the engine holds.  After any history of operations on a new
    engine with a positive limit, no client has more messages in flight than the
    limit, every entry sits under its own packet identifier, and its retry count
    is within its maximum. *)
Theorem inflight_window_bounded fails maxInfl interval retries ops :
  0 < maxInfl -> 0 <= retries ->
  let q := snd (runQoS fails ops (NewQoSEngine maxInfl interval retries)) in
  (forall c, InflightCount c q <= maxInfl) /\
  (forall c id m, GetInflight c id q = Some m ->
     im_PacketID m = id /\ 0 <= im_Retries m <= Z.max 0 (im_MaxRetries m)).
Proof.
  intros Hmax Hret q.
  destruct (run_ok fails ops (NewQoSEngine maxInfl interval retries) Hret (new_ok _ _ _)) as [[H1 H2] H3].
  split; [|exact H1]. intros c. specialize (H2 c). fold q in H2, H3. rewrite H3 in H2. by apply H2.
Qed.

Lemma inflight_window_bounded_witness :
  InflightCount (str "c") (snd (runQoS (fun _ => false)
    [OpTrack (str "c") 1 [] [] false 1 true 0; OpTrack (str "c") 2 [] [] false 2 true 0;
     OpTrack (str "c") 3 [] [] false 1 true 0] (NewQoSEngine 2 10 3))) <= 2.
Proof. apply (inflight_window_bounded (fun _ => false) 2 10 3); lia. Defined.

(** Once the PUBREC of an outbound QoS 2 delivery has been accepted, the
    engine never publishes that packet again: in every later history that does
    not track the packet identifier anew, the calls it makes for it are PUBRELs,
    reports and nothing else. *)
Theorem pubrec_ends_publishing fails q c id m ops :
  0 <= maxRetries q -> qos_ok q ->
  GetInflight c id q = Some m -> im_IsOutbound m = true -> im_QoS m = 2 ->
  Forall (fun op => ~ tracks op c id) ops ->
  Forall (fun k => ~ is_publish c id k) (fst (runQoS fails (OpPubRec c id :: ops) q)).
Proof.
  intros Hr Hok Hm Ho Hq Hops. cbn [runQoS stepQoS].
  pose proof (step_ok fails (OpPubRec c id) q Hr Hok) as (H1 & _ & H3). cbn [stepQoS] in *.
  unfold AckPubRec in *. rewrite Hm in *. cbn [snd] in *. rewrite <- H3 in Hr.
  assert (awaiting_pubcomp (updateInflight c id (with_state StateAcked) q) c id) as Haw.
  { intros m'. rewrite GetInflight_update, decide_True, Hm by done. cbn. by intros [= <-]. }
  pose proof (awaiting_run fails ops _ c id Hr H1 Haw Hops) as Hrun.
  destruct (runQoS fails ops _) as [calls q']. cbn [fst] in *. apply Forall_app. split; [|done].
  apply Forall_forall. intros x Hx Hp. exact (callOut_publish _ _ _ _ _ _ _ _ _ Hx Hp).
Qed.

Definition sample_engine : QoSEngine :=
  snd (TrackOutboundQoS2 (str "c") 7 (str "t") [1; 2] false 0
         (SetGiveUpCallback true (SetCallbacks true true true (NewQoSEngine 10 5 2)))).

Lemma sample_engine_ok : qos_ok sample_engine.
Proof.
  apply qos_ok_track; [done|]. split; cbn; intros; [done|].
  unfold InflightCount, clientInflight. cbn [inflight with_callbacks SetGiveUpCallback SetCallbacks NewQoSEngine].
  rewrite lookup_empty. cbn [default]. rewrite map_size_empty. lia.
Qed.

Lemma pubrec_ends_publishing_witness :
  Forall (fun k => ~ is_publish (str "c") 7 k)
    (fst (runQoS (fun _ => false) [OpPubRec (str "c") 7; OpRetry 100; OpRetry 200] sample_engine)).
Proof.
  apply (pubrec_ends_publishing (fun _ => false) sample_engine (str "c") 7
    {| im_PacketID := 7; im_ClientID := str "c"; im_State := StateSent; im_SentAt := 0; im_Retries := 0;
       im_MaxRetries := 2; im_Topic := str "t"; im_Payload := [1; 2]; im_QoS := 2; im_Retain := false;
       im_IsOutbound := true |} [OpRetry 100; OpRetry 200]);
    [done | apply sample_engine_ok | vm_compute; reflexivity | done | done |].
  repeat constructor; by intros [].
Defined.



(** A client that negotiated MQTT 5 is never sent a repetition on a live
    connection: a retry round makes no call for it and leaves its table as it
    is. *)
Theorem mqtt5_never_repeated fails now q c :
  qos_ok q -> sessionVersions q !! c = Some Version50 ->
  Forall (fun k => call_client k <> c) (fst (doRetry fails now q)) /\
  forall id, GetInflight c id (snd (doRetry fails now q)) = GetInflight c id q.
Proof.
  intros Hok Hv.
  assert (forall m, retryAction q now c m = RetryKeep) as Hkeep.
  { intros m. unfold retryAction, retransmitPermitted. by rewrite Hv. }
  split.
  - apply Forall_forall. intros k Hk Hc. destruct (retry_calls_key fails now q k Hk Hok) as (m & _ & Hm).
    rewrite Hc in Hm. unfold reportCalls, resendCalls in Hm. rewrite Hkeep in Hm.
    by destruct Hm as [?%elem_of_nil|?%elem_of_nil].
  - intros id. rewrite GetInflight_retry. destruct (GetInflight c id q); [|done]. cbn.
    unfold retryEntry. by rewrite Hkeep.
Qed.

Lemma mqtt5_never_repeated_witness :
  Forall (fun k => call_client k <> str "c")
    (fst (doRetry (fun _ => false) 100 (SetClientVersion (str "c") Version50 sample_engine))).
Proof.
  apply (mqtt5_never_repeated (fun _ => false) 100 (SetClientVersion (str "c") Version50 sample_engine));
    [|vm_compute; reflexivity].
  destruct sample_engine_ok as [H1 H2]. split; [exact H1 | exact H2].
Defined.
