(* ===== verification/RateLimit.v ===== *)
(** * Rate limiters: broker/rate_limit.go

    The sliding window of connection attempts and the window counter of a
    client's publishes.  Times are nanoseconds of the monotonic clock, given as
    the argument [now] of a call. *)

From S2P Require Import Prelude.
Open Scope Z_scope.

(** ** connRateLimiter *)

Module ConnRate.

(** rate_limit.go, connRateLimiter.  [limited] is [maxRate > 0], and [perWindow]
    is [int(math.Ceil(maxRate * window.Seconds()))]: the code uses the rate in
    these two ways only, and the floating-point product is not modelled. *)
Record connRateLimiter := {
  window : Z;
  limited : bool;
  perWindow : Z;
  timestamps : list Z;
}.

(** rate_limit.go, newConnRateLimiter and SetRate *)
Definition newConnRateLimiter (w : Z) : connRateLimiter :=
  {| window := w; limited := false; perWindow := 0; timestamps := [] |}.

Definition SetRate (l : bool) (n : Z) (r : connRateLimiter) : connRateLimiter :=
  {| window := window r; limited := l; perWindow := n; timestamps := timestamps r |}.

(** The pruning loop of Allow: the index of the first timestamp after the cutoff. *)
Fixpoint firstValid (i : nat) (cutoff : Z) (ts : list Z) : nat :=
  match ts with
  | [] => i
  | t :: ts' => if cutoff <? t then i else firstValid (S i) cutoff ts'
  end.

Definition maxInWindow (r : connRateLimiter) : Z := if perWindow r <? 1 then 1 else perWindow r.

(** rate_limit.go, connRateLimiter.Allow *)
Definition Allow (now : Z) (r : connRateLimiter) : bool * connRateLimiter :=
  if negb (limited r) then (true, r)
  else
    let ts := drop (firstValid 0 (now - window r) (timestamps r)) (timestamps r) in
    let with_ts l := {| window := window r; limited := limited r; perWindow := perWindow r; timestamps := l |} in
    if maxInWindow r <=? len ts then (false, with_ts ts) else (true, with_ts (ts ++ [now])).

(** Calls at the times [ts]: the attempts accepted, oldest first. *)
Fixpoint runAllow (ts : list Z) (r : connRateLimiter) : list Z * connRateLimiter :=
  match ts with
  | [] => ([], r)
  | t :: ts' =>
      let '(ok, r') := Allow t r in
      let '(acc, r'') := runAllow ts' r' in
      ((if ok then [t] else []) ++ acc, r'')
  end.

(** The reference: keep every accepted attempt, count those in the window. *)
Definition inWindow (w now : Z) (acc : list Z) : list Z := base.filter (fun t => now - w < t) acc.

Fixpoint refAllow (w max : Z) (ts acc : list Z) : list Z :=
  match ts with
  | [] => acc
  | t :: ts' => refAllow w max ts' (if len (inWindow w t acc) <? max then acc ++ [t] else acc)
  end.

(** *** Proofs *)

Lemma firstValid_add i cutoff ts : firstValid i cutoff ts = (i + firstValid 0 cutoff ts)%nat.
Proof.
  revert i. induction ts as [|t ts IH]; intros i; cbn; [lia|].
  destruct (cutoff <? t); [lia|]. rewrite (IH (S i)), (IH 1%nat). lia.
Qed.

(** On sorted timestamps pruning keeps exactly the ones after the cutoff. *)
Lemma prune_sorted cutoff ts :
  StronglySorted Z.le ts -> drop (firstValid 0 cutoff ts) ts = base.filter (fun t => cutoff < t) ts.
Proof.
  induction 1 as [|t ts Hs IH Hall]; cbn [firstValid]; [done|]. rewrite filter_cons.
  destruct (Z.ltb_spec cutoff t) as [Hlt|Hge].
  - rewrite decide_True, drop_0 by done. f_equal. symmetry. apply filter_all.
    eapply Forall_impl; [exact Hall|]. cbn. lia.
  - rewrite decide_False, firstValid_add by lia. exact IH.
Qed.

(** What the limiter holds after a call at time [last]: the accepted attempts of
    the window, in order. *)
Definition tracks_window (r : connRateLimiter) (last : Z) (acc : list Z) : Prop :=
  timestamps r = inWindow (window r) last acc /\ StronglySorted Z.le acc /\ Forall (fun t => t <= last) acc.

Lemma inWindow_narrow w last now acc :
  last <= now -> inWindow w now (inWindow w last acc) = inWindow w now acc.
Proof. intros. unfold inWindow. apply list_filter_filter_l. lia. Qed.

Lemma sorted_app_last acc t : StronglySorted Z.le acc -> Forall (fun x => x <= t) acc -> StronglySorted Z.le (acc ++ [t]).
Proof.
  intros Hs Ht. apply StronglySorted_app_2; [|done|repeat constructor].
  intros x y Hx Hy%list_elem_of_singleton. subst. rewrite Forall_forall in Ht. by apply Ht.
Qed.

Lemma filter_sorted w now acc : StronglySorted Z.le acc -> StronglySorted Z.le (inWindow w now acc).
Proof.
  induction 1 as [|x l Hs IH Hx]; [constructor|]. unfold inWindow in *. rewrite filter_cons. case_decide; [|done].
  constructor; [done|]. rewrite Forall_forall in *. intros y [_ Hy]%list_elem_of_filter. by apply Hx.
Qed.

Lemma Allow_step r last now acc :
  limited r = true -> 0 < window r -> tracks_window r last acc -> last <= now ->
  let '(ok, r') := Allow now r in
  ok = (len (inWindow (window r) now acc) <? maxInWindow r) /\
  tracks_window r' now (if ok then acc ++ [now] else acc) /\
  limited r' = true /\ window r' = window r /\ maxInWindow r' = maxInWindow r.
Proof.
  intros Hl Hw (Hts & Hs & Hle) Hnow. unfold Allow. rewrite Hl. cbn [negb].
  rewrite prune_sorted by (rewrite Hts; by apply filter_sorted). rewrite Hts.
  change (base.filter (fun t => now - window r < t) ?l) with (inWindow (window r) now l).
  rewrite inWindow_narrow by done.
  assert (Forall (fun t => t <= now) acc) as Hle' by (eapply Forall_impl; [exact Hle|cbn; lia]).
  destruct (Z.leb_spec (maxInWindow r) (len (inWindow (window r) now acc))); split_and!; try done; try lia.
  split_and!; cbn [timestamps window]; [|by apply sorted_app_last|].
  - unfold inWindow. rewrite filter_app, (filter_cons_True _ now) by lia. done.
  - apply Forall_app. split; [done|]. constructor; [lia|constructor].
Qed.

Lemma runAllow_ref ts r last acc :
  limited r = true -> 0 < window r -> tracks_window r last acc -> StronglySorted Z.le (last :: ts) ->
  acc ++ fst (runAllow ts r) = refAllow (window r) (maxInWindow r) ts acc.
Proof.
  revert r last acc. induction ts as [|t ts IH]; intros r last acc Hl Hw Ht Hs; cbn [runAllow refAllow];
    [by rewrite app_nil_r|].
  apply StronglySorted_cons in Hs as [Hlast Hs]. apply Forall_cons in Hlast as [Hlt _].
  pose proof (Allow_step r last t acc Hl Hw Ht Hlt) as Hstep.
  destruct (Allow t r) as [ok r']. destruct Hstep as (Hok & Ht' & Hl' & Hw' & Hm').
  specialize (IH r' t _ Hl' ltac:(lia) Ht' Hs). rewrite Hw', Hm' in IH.
  destruct (runAllow ts r') as [acc' r'']. cbn [fst] in *. rewrite <- Hok, <- IH.
  destruct ok; cbn [app]; [by rewrite <- app_assoc | done].
Qed.

(** A list of accepted attempts never has more than [max] in a window. *)
Definition within (w max : Z) (acc : list Z) : Prop :=
  forall now, len (base.filter (fun t => now - w < t <= now) acc) <= Z.max 0 max.

Lemma refAllow_within w max ts acc last :
  0 < w -> StronglySorted Z.le (last :: ts) -> Forall (fun t => t <= last) acc -> within w max acc ->
  within w max (refAllow w max ts acc).
Proof.
  intros Hw. revert acc last. induction ts as [|t ts IH]; intros acc last Hs Hle Hin; cbn [refAllow]; [done|].
  apply StronglySorted_cons in Hs as [Hlast Hs]. apply Forall_cons in Hlast as [Hlt _].
  assert (Forall (fun x => x <= t) acc) as Hle' by (eapply Forall_impl; [exact Hle|cbn; lia]).
  apply (IH _ t Hs); destruct (Z.ltb_spec (len (inWindow w t acc)) max) as [Hmax|]; try done.
  - apply Forall_app. split; [done|]. constructor; [lia|constructor].
  - intros now. rewrite filter_app, len_app. rewrite (filter_cons _ t), filter_nil. case_decide as Hd.
    + rewrite len_single.
      assert (len (base.filter (fun x => now - w < x <= now) acc) <= len (inWindow w t acc)); [|lia].
      unfold len, inWindow. apply inj_le. apply sublist_length.
      rewrite <- (list_filter_filter_l (fun x => now - w < x <= now) (fun x => t - w < x)) by lia.
      apply sublist_filter.
    + specialize (Hin now). change (len (@nil Z)) with 0. lia.
Qed.

(** ** Properties *)

(** The connection limiter is exactly a sliding window.  For attempts in the
    order of time, the limiter that prunes its timestamps accepts the same
    attempts as the reference that keeps all of them, and in no window, wherever
    it ends, does it accept more than the limit. *)
Theorem connection_limit_is_sliding_window w n ts :
  0 < w -> StronglySorted Z.le ts ->
  let r := SetRate true n (newConnRateLimiter w) in
  fst (runAllow ts r) = refAllow w (maxInWindow r) ts [] /\
  forall now, len (base.filter (fun t => now - w < t <= now) (fst (runAllow ts r))) <= Z.max 1 n.
Proof.
  intros Hw Hs r.
  destruct ts as [|t0 ts]; [split; [done|]; intros; cbn; change (len (@nil Z)) with 0; lia|].
  assert (StronglySorted Z.le (t0 :: t0 :: ts)) as Hs'.
  { constructor; [done|]. apply StronglySorted_cons in Hs as [Ht _]. by constructor. }
  assert (tracks_window r t0 []) as Ht by (split_and!; [done|constructor|constructor]).
  pose proof (runAllow_ref (t0 :: ts) r t0 [] eq_refl Hw Ht Hs') as Href.
  split; [done|]. intros now. cbn [app] in Href. rewrite Href. change (window r) with w.
  etrans; [apply (refAllow_within w (maxInWindow r) (t0 :: ts) [] t0 Hw Hs'); [constructor|]|].
  - intros ?. rewrite filter_nil. change (len (@nil Z)) with 0. lia.
  - unfold maxInWindow. cbn [perWindow r SetRate]. destruct (Z.ltb_spec n 1); lia.
Qed.

Lemma connection_limit_is_sliding_window_witness :
  fst (runAllow [0; 1; 2; 10; 11] (SetRate true 2 (newConnRateLimiter 10))) = [0; 1; 10; 11].
Proof.
  pose proof (connection_limit_is_sliding_window 10 2 [0; 1; 2; 10; 11] ltac:(lia)) as H.
  apply H. repeat constructor; lia.
Defined.
End ConnRate.

(** ** publishRateTracker *)

Module PublishRate.

(** rate_limit.go, publishRateTracker *)
Record publishRateTracker := {
  window : Z;
  maxRate : Z;
  count : Z;
  windowStart : Z;
}.

(** rate_limit.go, newPublishRateTracker and SetMaxRate *)
Definition newPublishRateTracker (w now : Z) : publishRateTracker :=
  {| window := w; maxRate := 0; count := 0; windowStart := now |}.

Definition SetMaxRate (rate : Z) (t : publishRateTracker) : publishRateTracker :=
  {| window := window t; maxRate := rate; count := count t; windowStart := windowStart t |}.

(** rate_limit.go, publishRateTracker.Allow *)
Definition Allow (now : Z) (t : publishRateTracker) : bool * publishRateTracker :=
  if maxRate t <=? 0 then (true, t)
  else
    let '(c, start) := if window t <=? now - windowStart t then (0, now) else (count t, windowStart t) in
    if maxRate t <=? c
    then (false, {| window := window t; maxRate := maxRate t; count := c; windowStart := start |})
    else (true, {| window := window t; maxRate := maxRate t; count := c + 1; windowStart := start |}).

Fixpoint runAllow (ts : list Z) (r : publishRateTracker) : list Z * publishRateTracker :=
  match ts with
  | [] => ([], r)
  | t :: ts' =>
      let '(ok, r') := Allow t r in
      let '(acc, r'') := runAllow ts' r' in
      ((if ok then [t] else []) ++ acc, r'')
  end.

(** *** Proofs *)

Definition between (a b : Z) (acc : list Z) : Z := len (base.filter (fun x => a < x <= b) acc).

Lemma between_le a b a' b' acc :
  (forall x, x ∈ acc -> a < x <= b -> a' < x <= b') -> between a b acc <= between a' b' acc.
Proof.
  unfold between, len. intros H. apply inj_le. induction acc as [|x acc IH]; [done|].
  rewrite !filter_cons. specialize (IH (fun y Hy => H y (list_elem_of_further _ _ _ Hy))).
  case_decide as Hd; [|case_decide; cbn; lia]. rewrite decide_True; [cbn; lia|]. apply H; [left|done].
Qed.

Lemma between_app a b l l' : between a b (l ++ l') = between a b l + between a b l'.
Proof. unfold between. by rewrite filter_app, len_app. Qed.

Lemma between_single a b t : between a b [t] = if decide (a < t <= b) then 1 else 0.
Proof. unfold between. rewrite filter_cons, filter_nil. by case_decide. Qed.

(** Accepted publishes: those before the current window and the [count] in it. *)
Record tracked (r : publishRateTracker) (acc : list Z) : Prop := {
  tr_rate : 0 < maxRate r;
  tr_window : 0 < window r;
  tr_bound x : x ∈ acc -> x < windowStart r + window r;
  tr_current hi : windowStart r + window r <= hi -> between (windowStart r - 1) hi acc = count r;
  tr_count : 0 <= count r <= maxRate r;
  tr_previous : between (windowStart r - window r) (windowStart r - 1) acc <= maxRate r;
  tr_any t : between (t - window r) t acc <= 2 * maxRate r;
}.

Lemma between_split a m b acc : a <= m <= b -> between a b acc = between a m acc + between m b acc.
Proof.
  intros Hm. induction acc as [|x acc IH]; [done|].
  change (x :: acc) with ([x] ++ acc). rewrite !between_app, !between_single, IH. repeat case_decide; lia.
Qed.

Lemma between_0 a b acc : (forall x, x ∈ acc -> ~ (a < x <= b)) -> between a b acc = 0.
Proof.
  intros H. unfold between. rewrite filter_none; [done|]. by apply Forall_forall.
Qed.

Lemma between_nonneg a b acc : 0 <= between a b acc.
Proof. apply len_nonneg. Qed.

(** The bound on an arbitrary interval follows from the bounds on the current and
    the previous window. *)
Lemma any_interval w start c m acc t :
  0 < w -> 0 <= c <= m ->
  (forall hi, start + w <= hi -> between (start - 1) hi acc = c) ->
  between (start - w) (start - 1) acc <= m ->
  start <= t -> between (t - w) t acc <= 2 * m.
Proof.
  intros Hw Hc Hcur Hprev Ht.
  assert (between (t - w) t acc <= between (start - w) (Z.max t (start + w)) acc) by (apply between_le; lia).
  rewrite (between_split (start - w) (start - 1)) in H by lia. rewrite Hcur in H by lia. lia.
Qed.

Lemma tracked_roll r acc now :
  tracked r acc -> windowStart r + window r <= now ->
  tracked {| window := window r; maxRate := maxRate r; count := 0; windowStart := now |} acc.
Proof.
  intros [H1 H2 H3 H4 H5 H6 H7] Hnow. split; cbn [window maxRate count windowStart]; try done; try lia.
  - intros x Hx. apply H3 in Hx. lia.
  - intros hi _. apply between_0. intros x Hx. apply H3 in Hx. lia.
  - transitivity (between (windowStart r - 1) (Z.max now (windowStart r + window r)) acc);
      [apply between_le; lia|]. rewrite H4; lia.
Qed.

Lemma tracked_accept r acc now :
  tracked r acc -> windowStart r <= now < windowStart r + window r -> count r < maxRate r ->
  tracked {| window := window r; maxRate := maxRate r; count := count r + 1; windowStart := windowStart r |}
    (acc ++ [now]).
Proof.
  intros [H1 H2 H3 H4 H5 H6 H7] Hnow Hc.
  assert (forall hi, windowStart r + window r <= hi ->
            between (windowStart r - 1) hi (acc ++ [now]) = count r + 1) as Hcur.
  { intros hi Hhi. rewrite between_app, between_single, H4, decide_True by lia. done. }
  assert (between (windowStart r - window r) (windowStart r - 1) (acc ++ [now]) <= maxRate r) as Hprev.
  { rewrite between_app, between_single, decide_False by lia. lia. }
  split; cbn [window maxRate count windowStart]; try done; try lia.
  - intros x [Hx|Hx%list_elem_of_singleton]%elem_of_app; [by apply H3|lia].
  - intros t. destruct (decide (windowStart r <= t)) as [Ht|Ht].
    + eapply any_interval; [| |exact Hcur|exact Hprev|exact Ht]; lia.
    + rewrite between_app, between_single, decide_False by lia. specialize (H7 t). lia.
Qed.

Lemma tracked_step r acc now :
  tracked r acc -> windowStart r <= now ->
  let '(ok, r') := Allow now r in
  tracked r' (if ok then acc ++ [now] else acc) /\ windowStart r' <= now /\
  window r' = window r /\ maxRate r' = maxRate r.
Proof.
  intros Ht Hnow. pose proof (tr_rate r acc Ht) as Hrate. pose proof (tr_window r acc Ht) as Hw. unfold Allow.
  rewrite (proj2 (Z.leb_gt (maxRate r) 0)) by done.
  destruct (Z.leb_spec (window r) (now - windowStart r)) as [Hroll|Hin].
  - rewrite (proj2 (Z.leb_gt (maxRate r) 0)) by done. split_and!; try done.
    apply (tracked_accept {| window := window r; maxRate := maxRate r; count := 0; windowStart := now |});
      cbn; [|lia|lia]. apply tracked_roll; [done|lia].
  - destruct (Z.leb_spec (maxRate r) (count r)); split_and!; try done; [by destruct r|].
    apply tracked_accept; [done|lia|lia].
Qed.

Lemma tracked_run ts r acc :
  tracked r acc -> StronglySorted Z.le (windowStart r :: ts) ->
  forall t, between (t - window r) t (acc ++ fst (runAllow ts r)) <= 2 * maxRate r.
Proof.
  revert r acc. induction ts as [|now ts IH]; intros r acc Ht Hs t; cbn [runAllow].
  { rewrite app_nil_r. apply (tr_any r acc Ht). }
  apply StronglySorted_cons in Hs as [Hall Hs]. apply Forall_cons in Hall as [Hnow _].
  pose proof (tracked_step r acc now Ht Hnow) as Hstep. destruct (Allow now r) as [ok r'].
  destruct Hstep as (Ht' & Hst & Hw & Hm).
  assert (StronglySorted Z.le (windowStart r' :: ts)) as Hs'.
  { apply StronglySorted_cons in Hs as [Hall Hs]. constructor; [done|].
    eapply Forall_impl; [exact Hall|]. cbn. lia. }
  specialize (IH r' _ Ht' Hs' t). rewrite Hw, Hm in IH. destruct (runAllow ts r') as [acc' r'']. cbn [fst] in *.
  destruct ok; cbn [app]; [by rewrite <- app_assoc in IH | done].
Qed.

(** ** Properties *)

(** The publish limiter accepts at most twice its rate in any interval of the
    length of its window, wherever the interval lies. *)
Theorem publish_limit_any_interval w n start ts :
  0 < w -> 0 < n -> StronglySorted Z.le (start :: ts) ->
  forall t, between (t - w) t (fst (runAllow ts (SetMaxRate n (newPublishRateTracker w start)))) <= 2 * n.
Proof.
  intros Hw Hn Hs. set (r := SetMaxRate n (newPublishRateTracker w start)).
  apply (tracked_run ts r []); [|done].
  split; cbn [window maxRate count windowStart r SetMaxRate newPublishRateTracker]; try done; try lia.
  - by intros x ?%elem_of_nil.
  - unfold between. rewrite filter_nil. change (len (@nil Z)) with 0. lia.
  - intros t. unfold between. rewrite filter_nil. change (len (@nil Z)) with 0. lia.
Qed.

Lemma publish_limit_any_interval_witness :
  between (10 - 10) 10 (fst (runAllow [9; 9; 9; 10; 10; 10] (SetMaxRate 2 (newPublishRateTracker 10 0)))) <= 2 * 2.
Proof. apply (publish_limit_any_interval 10 2 0 [9; 9; 9; 10; 10; 10]); [lia|lia|repeat constructor; lia]. Defined.

(** The publish limiter is not a sliding window: with a rate of two per ten
    time units, four publishes within two time units are all accepted when they
    straddle the end of a window. *)
Theorem publish_limit_is_not_sliding :
  fst (runAllow [9; 9; 10; 10] (SetMaxRate 2 (newPublishRateTracker 10 0))) = [9; 9; 10; 10].
Proof. vm_compute. reflexivity. Qed.
End PublishRate.
