(* ===== verification/Flapping.v ===== *)
(** * Connection flapping detection: broker/flapping.go

    The detector's table of recent connection times per key, with Go's slices
    modelled by their elements and their capacity: an index out of range is a
    run-time panic, the result [None].  [now] is the clock reading of the call.
    The zero [time.Time] of a penalty that never started is [None]. *)

From S2P Require Import Prelude.
Open Scope Z_scope.

(** ** Model *)

(** flapping.go, FlappingConfig (durations in nanoseconds) *)
Record FlappingConfig := {
  Enabled : bool;
  MaxConnects : Z;
  SlidingWindow : Z;
  PenaltyDuration : Z;
  MaxTrackedClients : Z;
  CleanupInterval : Z;
}.

(** flapping.go, applyDefaults *)
Definition applyDefaults (c : FlappingConfig) : FlappingConfig :=
  let window := if SlidingWindow c <=? 0 then 10 * second else SlidingWindow c in
  {| Enabled := Enabled c;
     MaxConnects := if MaxConnects c <? 1 then 1 else MaxConnects c;
     SlidingWindow := window;
     PenaltyDuration := if PenaltyDuration c <=? 0 then 60 * second else PenaltyDuration c;
     MaxTrackedClients := if MaxTrackedClients c =? 0 then 10000 else MaxTrackedClients c;
     CleanupInterval := if CleanupInterval c <=? 0 then window else CleanupInterval c |}.

(** flapping.go, FlappingDecision *)
Inductive FlappingDecision := FlapAllow | FlapRejected | FlapExceeded.

#[export] Instance FlappingDecision_eq_dec : EqDecision FlappingDecision.
Proof. solve_decision. Defined.

(** flapping.go, flappingEntry: [capStamps] is cap(stamps). *)
Record flappingEntry := {
  stamps : list Z;
  capStamps : Z;
  head : nat;
  penalizedUntil : option Z;
  lastSeen : Z;
  alias : list bytes;
}.

(** flapping.go, FlappingDetector *)
Record FlappingDetector := {
  cfg : FlappingConfig;
  keys : gmap bytes flappingEntry;
}.

Definition NewFlappingDetector (c : FlappingConfig) : FlappingDetector :=
  {| cfg := applyDefaults c; keys := ∅ |}.

Definition with_keys (d : FlappingDetector) (m : gmap bytes flappingEntry) : FlappingDetector :=
  {| cfg := cfg d; keys := m |}.

Definition penalized (now : Z) (e : flappingEntry) : bool :=
  match penalizedUntil e with Some p => now <? p | None => false end.

Definition touch (now : Z) (e : flappingEntry) : flappingEntry :=
  {| stamps := stamps e; capStamps := capStamps e; head := head e; penalizedUntil := penalizedUntil e;
     lastSeen := now; alias := alias e |}.

Definition seen_le (a b : bytes * Z) : Prop := snd a <= snd b.
#[export] Instance seen_le_dec a b : Decision (seen_le a b) := decide (snd a <= snd b).

(** flapping.go, evictOldestLocked.  Go sorts with an unstable sort: entries seen
    at the same time are in an unspecified order. *)
Definition evictOldestLocked (d : FlappingDetector) : FlappingDetector :=
  let n := size (keys d) in
  let target := Nat.min (Nat.max 1 (n / 4)) n in
  let candidates := (fun '(k, e) => (k, lastSeen e)) <$> map_to_list (keys d) in
  let sorted := merge_sort seen_le candidates in
  with_keys d (foldl (fun m k => delete k m) (keys d) (fst <$> take target sorted)).

(** The loop that drops the timestamps before the cutoff: the new head. *)
Fixpoint dropExpired (fuel : nat) (cutoff : Z) (st : list Z) (h : nat) : nat :=
  match fuel with
  | O => h
  | S fuel' =>
      match st !! h with
      | Some t => if t <? cutoff then dropExpired fuel' cutoff st (S h) else h
      | None => h
      end
  end.

(** The entry a key starts with. *)
Definition freshEntry (cap : Z) : flappingEntry :=
  {| stamps := []; capStamps := cap; head := 0; penalizedUntil := None; lastSeen := 0; alias := [] |}.

(** flapping.go, record, on the entry of the key *)
Definition recordEntry (c : FlappingConfig) (now : Z) (e : flappingEntry) : option (bool * flappingEntry) :=
  let cutoff := now - SlidingWindow c in
  let h := dropExpired (length (stamps e)) cutoff (stamps e) (head e) in
  let '(st, h) :=
    if Nat.ltb 0 h && Nat.leb (length (stamps e)) (h * 2) then (drop h (stamps e), O) else (stamps e, h) in
  st' ← (if len st <? capStamps e then Some (st ++ [now])
         else match st !! h with Some _ => Some (<[h := now]> st) | None => None end);
  Some (MaxConnects c <? len st' - Z.of_nat h,
        {| stamps := st'; capStamps := capStamps e; head := h; penalizedUntil := penalizedUntil e;
           lastSeen := now; alias := alias e |}).

(** flapping.go, record *)
Definition record (key : bytes) (now : Z) (d : FlappingDetector) : option (bool * FlappingDetector) :=
  if bool_decide (key = []) then Some (false, d)
  else
    let '(e, d') :=
      match keys d !! key with
      | Some e => (e, d)
      | None =>
          let d' := if (0 <? MaxTrackedClients (cfg d)) && (MaxTrackedClients (cfg d) <=? Z.of_nat (size (keys d)))
                    then evictOldestLocked d else d in
          (freshEntry (MaxConnects (cfg d) + 1), d')
      end in
    '(over, e') ← recordEntry (cfg d) now e;
    Some (over, with_keys d' (<[key := e']> (keys d'))).

(** flapping.go, penalize: an entry made here has no capacity. *)
Definition penalize (key : bytes) (now : Z) (d : FlappingDetector) : FlappingDetector :=
  if bool_decide (key = []) then d
  else
    let e := default (freshEntry 0) (keys d !! key) in
    with_keys d (<[key := {| stamps := []; capStamps := capStamps e; head := 0;
                             penalizedUntil := Some (now + PenaltyDuration (cfg d)); lastSeen := now;
                             alias := alias e |}]> (keys d)).

Definition add_alias (s : bytes) (e : flappingEntry) : flappingEntry :=
  if bool_decide (s ∈ alias e) then e
  else {| stamps := stamps e; capStamps := capStamps e; head := head e; penalizedUntil := penalizedUntil e;
          lastSeen := lastSeen e; alias := alias e ++ [s] |}.

(** flapping.go, link *)
Definition link (a b : bytes) (d : FlappingDetector) : FlappingDetector :=
  if bool_decide (a = []) || bool_decide (b = []) || bool_decide (a = b) then d
  else
    match keys d !! a, keys d !! b with
    | Some ea, Some eb => with_keys d (<[b := add_alias a eb]> (<[a := add_alias b ea]> (keys d)))
    | _, _ => d
    end.

Definition penaltyOf (key : bytes) (now : Z) (d : FlappingDetector) : option flappingEntry :=
  if bool_decide (key = []) then None
  else match keys d !! key with Some e => if penalized now e then Some e else None | None => None end.

(** flapping.go, Check *)
Definition Check (ip clientID : bytes) (now : Z) (d : FlappingDetector)
    : option (FlappingDecision * FlappingDetector) :=
  if negb (Enabled (cfg d)) then Some (FlapAllow, d)
  else
    match penaltyOf ip now d with
    | Some e => Some (FlapRejected, with_keys d (<[ip := touch now e]> (keys d)))
    | None =>
        match penaltyOf clientID now d with
        | Some e => Some (FlapRejected, with_keys d (<[clientID := touch now e]> (keys d)))
        | None =>
            '(ipExceeded, d) ← record ip now d;
            '(idExceeded, d) ← (if bool_decide (clientID = []) then Some (false, d) else record clientID now d);
            let d := link ip clientID d in
            if ipExceeded || idExceeded then
              Some (FlapExceeded, penalize clientID now (penalize ip now d))
            else Some (FlapAllow, d)
        end
    end.

(** flapping.go, PenaltyRemaining *)
Definition PenaltyRemaining (key : bytes) (now : Z) (d : FlappingDetector) : option Z :=
  if negb (Enabled (cfg d)) || bool_decide (key = []) then None
  else
    match keys d !! key ≫= penalizedUntil with
    | Some p => if p - now <=? 0 then None else Some (p - now)
    | None => None
    end.

(** flapping.go, Reset *)
Definition Reset (key : bytes) (d : FlappingDetector) : FlappingDetector :=
  let m := match keys d !! key with
           | Some e => foldl (fun m k => delete k m) (keys d) (alias e)
           | None => keys d
           end in
  with_keys d (delete key m).

(** flapping.go, Tracked *)
Definition Tracked (d : FlappingDetector) : Z := Z.of_nat (size (keys d)).

(** flapping.go, Cleanup *)
Definition keepEntry (c : FlappingConfig) (now : Z) (e : flappingEntry) : bool :=
  penalized now e ||
  existsb (fun t => negb (t <? now - SlidingWindow c)) (drop (head e) (stamps e)).

Definition Cleanup (now : Z) (d : FlappingDetector) : FlappingDetector :=
  with_keys d (base.filter (fun '(_, e) => keepEntry (cfg d) now e = true) (keys d)).

(** ** A burst of connections *)

(** Attempts from the address [ip] with the given client ids and times: the index
    of the first one that is not allowed. *)
Fixpoint firstRefused (ip : bytes) (l : list (bytes * Z)) (d : FlappingDetector) : option nat :=
  match l with
  | [] => None
  | (cid, t) :: l' =>
      '(dec, d) ← Check ip cid t d;
      if bool_decide (dec = FlapAllow) then S <$> firstRefused ip l' d else Some O
  end.

(** The decisions on a sequence of attempts, up to the first panic. *)
Fixpoint decisions (l : list (bytes * bytes * Z)) (d : FlappingDetector) : list (option FlappingDecision) :=
  match l with
  | [] => []
  | (ip, cid, t) :: l' =>
      match Check ip cid t d with
      | Some (dec, d') => Some dec :: decisions l' d'
      | None => [None]
      end
  end.

Section Burst.
Context (c : FlappingConfig) (first : Z).
Hypothesis Hmax : 1 <= MaxConnects c.

(** An entry that has seen nothing before [first] and is below the limit. *)
Record live (e : flappingEntry) : Prop := {
  live_head : head e = 0%nat;
  live_cap : capStamps e = MaxConnects c + 1;
  live_penalty : penalizedUntil e = None;
  live_stamps : Forall (fun t => first <= t) (stamps e);
  live_len : len (stamps e) <= MaxConnects c;
}.

Definition all_live (d : FlappingDetector) : Prop :=
  cfg d = c /\ map_Forall (fun _ e => live e) (keys d).

Definition stampsOf (d : FlappingDetector) (k : bytes) : list Z :=
  match keys d !! k with Some e => stamps e | None => [] end.

Definition roomy (d : FlappingDetector) (n : Z) : Prop :=
  MaxTrackedClients c <= 0 \/ Z.of_nat (size (keys d)) + n < MaxTrackedClients c.

Lemma live_fresh : live (freshEntry (MaxConnects c + 1)).
Proof. split; cbn; try done. change (len (@nil Z)) with 0. lia. Qed.

Lemma dropExpired_live fuel cutoff st :
  Forall (fun t => first <= t) st -> cutoff <= first -> dropExpired fuel cutoff st 0 = 0%nat.
Proof.
  intros Hst Hc. destruct fuel, st as [|t st]; cbn; try done.
  apply Forall_cons in Hst as [Ht _]. destruct (Z.ltb_spec t cutoff); [lia|done].
Qed.

Lemma recordEntry_live now e :
  live e -> first <= now -> now - SlidingWindow c <= first ->
  recordEntry c now e =
    Some (MaxConnects c <? len (stamps e) + 1,
          {| stamps := stamps e ++ [now]; capStamps := capStamps e; head := 0; penalizedUntil := None;
             lastSeen := now; alias := alias e |}).
Proof.
  intros [H1 H2 H3 H4 H5] Hnow Hw. unfold recordEntry. rewrite H1, dropExpired_live by done. change (Nat.ltb 0 0) with false. cbn [andb].
  rewrite H2, H3. destruct (Z.ltb_spec (len (stamps e)) (MaxConnects c + 1)); [|lia]. cbn [mbind option_bind].
  rewrite len_app, len_single. change (Z.of_nat 0) with 0. by rewrite Z.sub_0_r.
Qed.

Lemma record_live key now d :
  key <> [] -> cfg d = c -> (forall e, keys d !! key = Some e -> live e) ->
  roomy d 0 -> first <= now -> now - SlidingWindow c <= first ->
  exists d', record key now d = Some (MaxConnects c <? len (stampsOf d key) + 1, d') /\
    (all_live d -> len (stampsOf d key) + 1 <= MaxConnects c -> all_live d') /\
    (forall k, k <> key -> keys d' !! k = keys d !! k) /\
    stampsOf d' key = stampsOf d key ++ [now] /\ (forall k, k <> key -> stampsOf d' k = stampsOf d k) /\
    Z.of_nat (size (keys d')) <= Z.of_nat (size (keys d)) + 1 /\ cfg d' = c.
Proof.
  intros Hkey Hcfg Hlk Hroom Hnow Hw. unfold record, stampsOf. rewrite bool_decide_eq_false_2 by done.
  assert ((0 <? MaxTrackedClients (cfg d)) && (MaxTrackedClients (cfg d) <=? Z.of_nat (size (keys d))) = false) as ->.
  { rewrite Hcfg. destruct Hroom; apply andb_false_iff; [left|right]; [apply Z.ltb_ge | apply Z.leb_gt]; lia. }
  set (e := match keys d !! key with Some e => e | None => freshEntry (MaxConnects c + 1) end).
  assert (live e) as He.
  { subst e. destruct (keys d !! key) eqn:E; [by apply Hlk|apply live_fresh]. }
  assert (match keys d !! key with Some e => (e, d) | None => (freshEntry (MaxConnects (cfg d) + 1), d) end = (e, d)) as ->.
  { subst e. rewrite Hcfg. by destruct (keys d !! key). }
  assert (match keys d !! key with Some e => stamps e | None => [] end = stamps e) as ->.
  { subst e. by destruct (keys d !! key). }
  rewrite Hcfg, recordEntry_live by done. cbn [mbind option_bind]. eexists. split; [reflexivity|]. cbn [keys cfg with_keys].
  split_and!; [| intros k Hk; by rewrite lookup_insert_ne | by rewrite lookup_insert_eq
               | intros k Hk; by rewrite lookup_insert_ne | | done].
  - intros [_ Hl] Hlen. split; [done|]. apply map_Forall_insert_2; [|done]. destruct He as [H1 H2 H3 H4 H5].
    split; cbn [head capStamps penalizedUntil stamps]; try done.
    + apply Forall_app. split; [done|]. by constructor.
    + rewrite len_app, len_single. lia.
  - rewrite size_insert_count. destruct (keys d !! key); lia.
Qed.

Lemma link_live a b d :
  all_live d -> all_live (link a b d) /\ (forall k, stampsOf (link a b d) k = stampsOf d k) /\
  size (keys (link a b d)) = size (keys d).
Proof.
  intros [Hcfg Hl]. unfold link. destruct (_ || _ || _); [done|].
  destruct (keys d !! a) as [ea|] eqn:Ea; [|done]. destruct (keys d !! b) as [eb|] eqn:Eb; [|done].
  assert (forall s e, live e -> live (add_alias s e)) as Hadd.
  { intros s e []. unfold add_alias. case_bool_decide; by split. }
  assert (forall s e, stamps (add_alias s e) = stamps e) as Hst.
  { intros s e. unfold add_alias. by case_bool_decide. }
  split_and!.
  - split; [done|]. cbn [keys with_keys].
    apply map_Forall_insert_2; [by apply Hadd, (Hl b)|]. apply map_Forall_insert_2; [by apply Hadd, (Hl a)|done].
  - intros k. unfold stampsOf. cbn [keys with_keys].
    destruct (decide (k = b)) as [->|]; [by rewrite lookup_insert_eq, Eb|]. rewrite lookup_insert_ne by done.
    destruct (decide (k = a)) as [->|]; [by rewrite lookup_insert_eq, Ea|]. by rewrite lookup_insert_ne.
  - cbn [keys with_keys]. rewrite map_size_insert_Some; [rewrite map_size_insert_Some; by eauto|].
    destruct (decide (b = a)) as [->|]; [by rewrite lookup_insert_eq|]. by rewrite lookup_insert_ne, Eb.
Qed.

Lemma penaltyOf_live key now d : all_live d -> penaltyOf key now d = None.
Proof.
  intros [_ Hl]. unfold penaltyOf. case_bool_decide; [done|]. destruct (keys d !! key) as [e|] eqn:E; [|done].
  unfold penalized. by rewrite (live_penalty e (Hl key e E)).
Qed.

Lemma Check_live ip cid now d :
  Enabled c = true -> ip <> [] -> cid <> ip -> all_live d -> roomy d 2 -> first <= now ->
  now - SlidingWindow c <= first ->
  exists dec d', Check ip cid now d = Some (dec, d') /\
    (dec = FlapAllow -> len (stampsOf d ip) + 1 <= MaxConnects c /\ all_live d' /\
       stampsOf d' ip = stampsOf d ip ++ [now] /\
       Z.of_nat (size (keys d')) <= Z.of_nat (size (keys d)) + 2).
Proof.
  intros Hen Hip Hcid Hl Hroom Hnow Hw. pose proof Hl as [Hcfg _]. unfold Check. rewrite Hcfg, Hen. cbn [negb].
  rewrite !penaltyOf_live by done.
  destruct (record_live ip now d Hip Hcfg) as (d1 & -> & Hl1 & Hk1 & Hs1 & Ho1 & Hz1 & Hc1);
    [by apply Hl | destruct Hroom; [left|right]; lia | done | done |]. cbn [mbind option_bind].
  assert (roomy d1 0) as Hroom1 by (destruct Hroom; [left|right]; lia).
  destruct (Z.ltb_spec (MaxConnects c) (len (stampsOf d ip) + 1)) as [Hover|Hok].
  - (* the address is over its limit: the decision is not FlapAllow *)
    assert (exists r, (if bool_decide (cid = []) then Some (false, d1) else record cid now d1) = Some r) as [[o2 d2] ->].
    { case_bool_decide as Hcn; [eauto|].
      destruct (record_live cid now d1 Hcn Hc1) as (d2 & -> & _); eauto. rewrite Hk1 by done. apply Hl. }
    cbn [mbind option_bind orb]. do 2 eexists. split; [reflexivity|]. done.
  - specialize (Hl1 Hl Hok).
    assert (exists o2 d2, (if bool_decide (cid = []) then Some (false, d1) else record cid now d1) = Some (o2, d2) /\
      (o2 = false -> all_live d2) /\ stampsOf d2 ip = stampsOf d1 ip /\
      Z.of_nat (size (keys d2)) <= Z.of_nat (size (keys d1)) + 1) as (o2 & d2 & -> & Hl2 & Hs2 & Hz2).
    { case_bool_decide as Hcn; [do 2 eexists; split; [done|]; split_and!; try done; lia|].
      destruct (record_live cid now d1 Hcn Hc1) as (d2 & -> & Hl2 & _ & _ & Ho2 & Hz2 & _);
        [by apply Hl1 | done | done | done |].
      do 2 eexists. split; [done|]. split_and!; [|by apply Ho2|done].
      intros Hlt%Z.ltb_ge. auto. }
    cbn [mbind option_bind orb]. destruct o2; [do 2 eexists; by split|].
    destruct (link_live ip cid d2 (Hl2 eq_refl)) as (Hl3 & Hs3 & Hz3).
    do 2 eexists. split; [reflexivity|]. intros _. rewrite Hs3, Hs2, Hs1, Hz3. split_and!; try done; lia.
Qed.

Lemma burst_refused ip l d :
  Enabled c = true -> ip <> [] -> all_live d -> roomy d (2 * len l) ->
  Forall (fun '(cid, t) => cid <> ip /\ first <= t /\ t - SlidingWindow c <= first) l ->
  MaxConnects c < len (stampsOf d ip) + len l ->
  exists k, firstRefused ip l d = Some k /\ Z.of_nat k + len (stampsOf d ip) <= MaxConnects c.
Proof.
  intros Hen Hip. revert d. induction l as [|[cid t] l IH]; intros d Hl Hroom Hat Hlen; cbn [firstRefused].
  { change (len (@nil (bytes * Z))) with 0 in Hlen. destruct Hl as [_ Hl]. exfalso.
    unfold stampsOf in Hlen. destruct (keys d !! ip) as [e|] eqn:E.
    - pose proof (live_len e (Hl ip e E)). lia.
    - change (len (@nil Z)) with 0 in Hlen. lia. }
  rewrite len_cons in *. pose proof (len_nonneg l) as Hpos. apply Forall_cons in Hat as [(Hc & Hf & Hw) Hat].
  destruct (Check_live ip cid t d Hen Hip Hc Hl) as (dec & d' & -> & Hdec);
    [destruct Hroom; [left|right]; lia | done | done |].
  cbn [mbind option_bind]. case_bool_decide as Hallow.
  - destruct (Hdec Hallow) as (Hle & Hl' & Hs & Hz). destruct (IH d') as (k & -> & Hk); try done.
    + destruct Hroom; [left|right]; lia.
    + rewrite Hs, len_app, len_single. lia.
    + exists (S k). split; [done|]. rewrite Hs, len_app, len_single in Hk. lia.
  - exists 0%nat. split; [done|]. unfold stampsOf. destruct Hl as [_ Hl]. destruct (keys d !! ip) as [e|] eqn:E.
    + pose proof (live_len e (Hl ip e E)). lia.
    + change (len (@nil Z)) with 0. lia.
Qed.
End Burst.

(** ** Properties *)

(** A burst trips the limit.  Of MaxConnects + 1 attempts from one address on
    a fresh detector within one window, whatever client ids they use (other than
    the address itself) and as long as the table has room, the detector does not
    panic and refuses one; and it does so after at most MaxConnects allowed
    attempts. *)
Theorem burst_is_refused config ip l first :
  let c := applyDefaults config in
  Enabled c = true -> ip <> [] -> len l = MaxConnects c + 1 ->
  MaxTrackedClients c < 0 \/ 2 * len l < MaxTrackedClients c ->
  Forall (fun '(cid, t) => cid <> ip /\ first <= t /\ t - SlidingWindow c <= first) l ->
  exists k, firstRefused ip l (NewFlappingDetector config) = Some k /\ Z.of_nat k <= MaxConnects c.
Proof.
  intros c Hen Hip Hlen Hroom Hat.
  assert (1 <= MaxConnects c) as Hmax.
  { subst c. unfold applyDefaults; cbn [MaxConnects]. destruct (Z.ltb_spec (MaxConnects config) 1); lia. }
  destruct (burst_refused c first Hmax ip l (NewFlappingDetector config) Hen Hip) as (k & Hk & Hle).
  - split; [done|]. apply map_Forall_empty.
  - unfold roomy. cbn [keys NewFlappingDetector]. rewrite map_size_empty. lia.
  - done.
  - unfold stampsOf. cbn [keys NewFlappingDetector]. rewrite lookup_empty. change (len (@nil Z)) with 0. lia.
  - exists k. split; [done|]. pose proof (len_nonneg (stampsOf (NewFlappingDetector config) ip)). lia.
Qed.

Definition sample_config : FlappingConfig :=
  {| Enabled := true; MaxConnects := 3; SlidingWindow := 10; PenaltyDuration := 60; MaxTrackedClients := 0;
     CleanupInterval := 0 |}.

Lemma burst_is_refused_witness :
  exists k, firstRefused (str "ip") [(str "a", 1); (str "b", 2); (str "c", 3); (str "d", 4)]
              (NewFlappingDetector sample_config) = Some k /\ Z.of_nat k <= 3.
Proof.
  apply (burst_is_refused sample_config (str "ip") _ 1);
    [reflexivity | discriminate | reflexivity | right; vm_compute; reflexivity |].
  repeat constructor; vm_compute; discriminate.
Defined.

(** The limit can be evaded.  With three connections allowed per ten time
    units, one early connection followed by two at the end of its window leaves
    a dead prefix the detector does not compact; from then on every attempt
    overwrites one timestamp and is allowed, here six within one time unit. *)
Theorem flapping_limit_evaded :
  let ip := str "ip" in
  firstRefused ip ([([], 1); ([], 10); ([], 10)] ++ repeat ([], 12) 6) (NewFlappingDetector sample_config) = None /\
  firstRefused ip (repeat ([], 12) 6) (NewFlappingDetector sample_config) = Some 3%nat.
Proof. vm_compute. auto. Qed.

(** The detector can panic.  With one tracked client and one allowed
    connection, the second attempt penalizes an address that was just evicted
    and leaves an entry without capacity; the first attempt after the penalty
    indexes an empty slice. *)
Theorem flapping_detector_panics :
  let d0 := NewFlappingDetector {| Enabled := true; MaxConnects := 1; SlidingWindow := 10; PenaltyDuration := 60;
                                   MaxTrackedClients := 1; CleanupInterval := 0 |} in
  decisions [(str "ip", [], 1); (str "ip", str "c", 2); (str "ip", [], 100)] d0 =
    [Some FlapAllow; Some FlapExceeded; None].
Proof. vm_compute. reflexivity. Qed.

(** Addresses and client ids share one table: a client that connects twice
    under a client id spelled like the address of another host, from an address
    of its own, gets that host rejected. *)
Theorem client_id_penalizes_address :
  let d0 := NewFlappingDetector {| Enabled := true; MaxConnects := 1; SlidingWindow := 10; PenaltyDuration := 60;
                                   MaxTrackedClients := 0; CleanupInterval := 0 |} in
  decisions [(str "10.0.0.1", str "10.0.0.9", 1); (str "10.0.0.2", str "10.0.0.9", 2);
             (str "10.0.0.9", str "victim", 3)] d0 =
    [Some FlapAllow; Some FlapExceeded; Some FlapRejected].
Proof. vm_compute. reflexivity. Qed.
