(* ===== verification/Strconv.v ===== *)
(** * Numbers and text: package strconv of Go

    The conversions the repository uses: Itoa and FormatUint for keys and
    identifiers, ParseInt and ParseUint for configuration values, and the string
    helpers of package strings that go with them. *)

From S2P Require Import Prelude.
Open Scope Z_scope.

(** ** Formatting *)

(** The decimal digits of [n], most significant first; [fuel] bounds their number. *)
Fixpoint digits (fuel : nat) (n : Z) (acc : bytes) : bytes :=
  match fuel with
  | O => acc
  | S fuel' =>
      let acc := (48 + n `mod` 10) :: acc in
      if n / 10 =? 0 then acc else digits fuel' (n / 10) acc
  end.

(** strconv.FormatUint(n, 10): a number has at most as many digits as bits. *)
Definition FormatUint (n : Z) : bytes := digits (S (Z.to_nat (Z.log2 n))) n [].

(** strconv.Itoa *)
Definition Itoa (n : Z) : bytes := if n <? 0 then 45 :: FormatUint (- n) else FormatUint n.

(** ** Parsing *)

Definition isDigit (b : Z) : bool := (48 <=? b) && (b <=? 57).

(** The value of a run of digits, [None] when a byte is not a digit. *)
Fixpoint digitsValue (acc : Z) (s : bytes) : option Z :=
  match s with
  | [] => Some acc
  | b :: s' => if isDigit b then digitsValue (acc * 10 + (b - 48)) s' else None
  end.

(** strconv.ParseUint(s, 10, bits) *)
Definition ParseUint (s : bytes) (bits : Z) : res Z :=
  match s, digitsValue 0 s with
  | _ :: _, Some n => if n <? 2 ^ bits then Ok n else Err (ErrText "value out of range")
  | _, _ => Err (ErrText "invalid syntax")
  end.

(** strconv.ParseInt(s, 10, bits) *)
Definition ParseInt (s : bytes) (bits : Z) : res Z :=
  let '(neg, rest) := match s with
                      | 45 :: t => (true, t)
                      | 43 :: t => (false, t)
                      | _ => (false, s)
                      end in
  match rest, digitsValue 0 rest with
  | _ :: _, Some n =>
      if neg then if n <=? 2 ^ (bits - 1) then Ok (- n) else Err (ErrText "value out of range")
      else if n <? 2 ^ (bits - 1) then Ok n else Err (ErrText "value out of range")
  | _, _ => Err (ErrText "invalid syntax")
  end.

(** ** strings.HasPrefix, HasSuffix, TrimPrefix and ToLower *)

Fixpoint HasPrefix (s prefix : bytes) {struct prefix} : bool :=
  match prefix, s with
  | [], _ => true
  | p :: prefix', b :: s' => (p =? b) && HasPrefix s' prefix'
  | _ :: _, [] => false
  end.

Definition HasSuffix (s suffix : bytes) : bool := HasPrefix (reverse s) (reverse suffix).

Definition TrimPrefix (s prefix : bytes) : bytes := if HasPrefix s prefix then drop (length prefix) s else s.

(** On ASCII text. *)
Definition ToLower (s : bytes) : bytes := (fun b => if (65 <=? b) && (b <=? 90) then b + 32 else b) <$> s.

(** strconv.Atoi, the value it returns beside the error: 0 for text that is not a
    number, the nearest int64 for one that is out of range *)
Definition AtoiValue (s : bytes) : Z :=
  let '(neg, rest) := match s with
                      | 45 :: t => (true, t)
                      | 43 :: t => (false, t)
                      | _ => (false, s)
                      end in
  match rest, digitsValue 0 rest with
  | _ :: _, Some n => if neg then Z.max (- n) (- 2 ^ 63) else Z.min n (2 ^ 63 - 1)
  | _, _ => 0
  end.

(** strings.IndexByte and LastIndexByte, [None] for -1 *)
Fixpoint IndexByte (s : bytes) (b : Z) : option nat :=
  match s with
  | [] => None
  | x :: s' => if x =? b then Some O else S <$> IndexByte s' b
  end.

Fixpoint LastIndexByte (s : bytes) (b : Z) : option nat :=
  match s with
  | [] => None
  | x :: s' => match LastIndexByte s' b with Some i => Some (S i) | None => if x =? b then Some O else None end
  end.

(** net.SplitHostPort *)
Definition SplitHostPort (hostport : bytes) : res (bytes * bytes) :=
  match LastIndexByte hostport 58 with
  | None => Err (ErrText "missing port in address")
  | Some i =>
      split ← match hostport with
        | 91 :: _ =>
            match IndexByte hostport 93 with
            | None => Err (ErrText "missing bracket in address")
            | Some close =>
                if (S close =? length hostport)%nat then Err (ErrText "missing port in address")
                else if (S close =? i)%nat then Ok (take (close - 1) (drop 1 hostport), 1%nat, S close)
                else if bool_decide (hostport !! S close = Some 58) then Err (ErrText "too many colons in address")
                else Err (ErrText "missing port in address")
            end
        | _ =>
            match IndexByte (take i hostport) 58 with
            | Some _ => Err (ErrText "too many colons in address")
            | None => Ok (take i hostport, 0%nat, 0%nat)
            end
        end;
      let '(host, j, k) := split in
      match IndexByte (drop j hostport) 91, IndexByte (drop k hostport) 93 with
      | None, None => Ok (host, drop (S i) hostport)
      | _, _ => Err (ErrText "unexpected bracket in address")
      end
  end.

(** net.JoinHostPort *)
Definition JoinHostPort (host port : bytes) : bytes :=
  match IndexByte host 58 with
  | Some _ => 91 :: host ++ [93; 58] ++ port
  | None => host ++ [58] ++ port
  end.

(** ** Lemmas *)

Lemma HasPrefix_spec s p : HasPrefix s p = true <-> exists t, s = p ++ t.
Proof.
  revert s. induction p as [|x p IH]; intros s; cbn [HasPrefix].
  - split; [by exists s | done].
  - destruct s as [|b s]; [split; [done | by intros [t [=]]]|].
    rewrite andb_true_iff, Z.eqb_eq, IH. split.
    + intros [-> [t ->]]. by exists t.
    + intros [t [= -> ->]]. split; [done | by exists t].
Qed.

Lemma HasPrefix_app p t : HasPrefix (p ++ t) p = true.
Proof. apply HasPrefix_spec. by exists t. Qed.

Lemma TrimPrefix_app p t : TrimPrefix (p ++ t) p = t.
Proof. unfold TrimPrefix. by rewrite HasPrefix_app, drop_app_length. Qed.

Lemma digitsValue_app acc s t : digitsValue acc (s ++ t) = digitsValue acc s ≫= fun n => digitsValue n t.
Proof. revert acc. induction s as [|b s IH]; intros acc; cbn; [done|]. by destruct (isDigit b). Qed.

Lemma isDigit_mod n : isDigit (48 + n `mod` 10) = true.
Proof. unfold isDigit. pose proof (Z.mod_pos_bound n 10 ltac:(lia)). apply andb_true_iff. lia. Qed.

(** The digits of [n] are digits, and their value is [n]. *)
Lemma digits_spec fuel n acc :
  0 <= n < 10 ^ Z.of_nat fuel ->
  exists ds, digits fuel n acc = ds ++ acc /\ Forall (fun b => isDigit b = true) ds /\
    (fuel <> O -> ds <> []) /\ forall a, digitsValue a ds = Some (a * 10 ^ len ds + n).
Proof.
  revert n acc. induction fuel as [|fuel IH]; intros n acc Hn; cbn [digits].
  - exists []. split_and!; [done | constructor | done |]. intros a. cbn [digitsValue]. rewrite len_nil. cbn in Hn. f_equal. lia.
  - rewrite Nat2Z.inj_succ, Z.pow_succ_r in Hn by lia.
    pose proof (Z.div_mod n 10 ltac:(lia)). pose proof (Z.mod_pos_bound n 10 ltac:(lia)).
    assert (0 <= n / 10) by (apply Z.div_pos; lia).
    destruct (Z.eqb_spec (n / 10) 0) as [Hz|Hz].
    + exists [48 + n `mod` 10]. split_and!; [done | repeat constructor; apply isDigit_mod | done |].
      intros a. cbn [digitsValue]. rewrite isDigit_mod, len_single. f_equal. lia.
    + destruct (IH (n / 10) ((48 + n `mod` 10) :: acc)) as (ds & -> & Hd & _ & Hv).
      { split; [lia|]. apply Z.div_lt_upper_bound; lia. }
      exists (ds ++ [48 + n `mod` 10]). split_and!.
      * by rewrite <- app_assoc.
      * apply Forall_app. split; [done | repeat constructor; apply isDigit_mod].
      * intros _. by destruct ds.
      * intros a. rewrite digitsValue_app, Hv. cbn [mbind option_bind digitsValue].
        rewrite isDigit_mod, len_app, len_single, Z.pow_add_r by (pose proof (len_nonneg ds); lia). f_equal. lia.
Qed.

Lemma FormatUint_spec n :
  0 <= n ->
  Forall (fun b => isDigit b = true) (FormatUint n) /\ FormatUint n <> [] /\ digitsValue 0 (FormatUint n) = Some n.
Proof.
  intros Hn. destruct (digits_spec (S (Z.to_nat (Z.log2 n))) n []) as (ds & E & Hd & Hne & Hv).
  { split; [done|]. pose proof (Z.log2_nonneg n). rewrite Nat2Z.inj_succ, Z2Nat.id by done.
    apply Z.lt_le_trans with (2 ^ Z.succ (Z.log2 n)); [|apply Z.pow_le_mono_l; lia].
    destruct (decide (n = 0)) as [->|]; [done|]. by apply Z.log2_spec; lia. }
  unfold FormatUint. rewrite E, app_nil_r. split_and!; [done | by apply Hne | rewrite Hv; f_equal; lia].
Qed.

Lemma FormatUint_inj n m : 0 <= n -> 0 <= m -> FormatUint n = FormatUint m -> n = m.
Proof.
  intros Hn Hm E. destruct (FormatUint_spec n Hn) as (_ & _ & Hvn), (FormatUint_spec m Hm) as (_ & _ & Hvm).
  rewrite E in Hvn. congruence.
Qed.

(** Two texts that start with a number and a separator agree on the number. *)
Lemma number_prefix a b x s t :
  isDigit x = false -> Forall (fun b => isDigit b = true) a -> Forall (fun b => isDigit b = true) b ->
  a ++ x :: s = b ++ x :: t -> a = b /\ s = t.
Proof.
  intros Hx Ha. revert b. induction Ha as [|d a Hd Ha IH]; intros [|d' b] Hb E; cbn in *.
  - by simplify_eq.
  - apply Forall_cons in Hb as [Hd' _]. simplify_eq. congruence.
  - simplify_eq. congruence.
  - apply Forall_cons in Hb as [_ Hb]. simplify_eq. by destruct (IH b Hb) as [-> ->].
Qed.

Lemma ParseUint_FormatUint n bits : 0 <= n < 2 ^ bits -> ParseUint (FormatUint n) bits = Ok n.
Proof.
  intros Hn. destruct (FormatUint_spec n) as (_ & Hne & Hv); [lia|].
  unfold ParseUint. destruct (FormatUint n) as [|b s]; [done|]. rewrite Hv.
  by destruct (Z.ltb_spec n (2 ^ bits)); [|lia].
Qed.

(** Itoa prints what ParseInt reads, over the whole range of the type. *)
Lemma ParseInt_Itoa n bits : - 2 ^ (bits - 1) <= n < 2 ^ (bits - 1) -> ParseInt (Itoa n) bits = Ok n.
Proof.
  intros Hn. unfold Itoa. destruct (Z.ltb_spec n 0).
  - destruct (FormatUint_spec (- n)) as (_ & Hne & Hv); [lia|]. unfold ParseInt.
    destruct (FormatUint (- n)) as [|b s]; [done|]. cbv beta iota. rewrite Hv. destruct (Z.leb_spec (- n) (2 ^ (bits - 1))); [f_equal; lia | lia].
  - destruct (FormatUint_spec n) as (Hd & Hne & Hv); [lia|]. unfold ParseInt.
    destruct (FormatUint n) as [|b s]; [done|]. apply Forall_cons in Hd as [Hb _].
    assert (exists x, (match b :: s with 45 :: t => (true, t) | 43 :: t => (false, t) | _ => (false, b :: s) end) = x /\ x = (false, b :: s)) as (? & -> & ->).
    { eexists. split; [done|]. unfold isDigit in Hb. apply andb_true_iff in Hb as [H1%Z.leb_le H2%Z.leb_le]. repeat case_match; done || lia. }
    rewrite Hv. by destruct (Z.ltb_spec n (2 ^ (bits - 1))); [|lia].
Qed.

Lemma digitsValue_nonneg acc s n : 0 <= acc -> digitsValue acc s = Some n -> 0 <= n.
Proof.
  revert acc. induction s as [|b s IH]; intros acc Ha; cbn [digitsValue]; [congruence|].
  destruct (isDigit b) eqn:Hb; [|done]. apply IH. unfold isDigit in Hb. apply andb_true_iff in Hb as [H1%Z.leb_le _]. lia.
Qed.

(** What ParseInt reads fits the type. *)
Lemma ParseInt_range s bits n : 0 <= bits - 1 -> ParseInt s bits = Ok n -> - 2 ^ (bits - 1) <= n < 2 ^ (bits - 1).
Proof.
  intros Hbits. unfold ParseInt. pose proof (Z.pow_pos_nonneg 2 (bits - 1) ltac:(lia) Hbits).
  match goal with |- context [let '(_, _) := ?x in _] => destruct x as [neg rest] end.
  destruct rest as [|b rest]; [done|]. destruct (digitsValue 0 (b :: rest)) as [m|] eqn:E; [|done].
  apply digitsValue_nonneg in E; [|lia]. destruct neg.
  - destruct (Z.leb_spec m (2 ^ (bits - 1))); [intros [= <-]; lia | done].
  - destruct (Z.ltb_spec m (2 ^ (bits - 1))); [intros [= <-]; lia | done].
Qed.

(** The number of a length-prefixed text: equal texts have equal lengths and
    equal contents. *)
Lemma Itoa_len_prefix {A} (a b : list A) x s t :
  isDigit x = false -> Itoa (len a) ++ x :: s = Itoa (len b) ++ x :: t -> length a = length b /\ s = t.
Proof.
  intros Hx. unfold Itoa. pose proof (len_nonneg a). pose proof (len_nonneg b).
  destruct (Z.ltb_spec (len a) 0), (Z.ltb_spec (len b) 0); try lia.
  destruct (FormatUint_spec (len a)) as (Ha & _ & _), (FormatUint_spec (len b)) as (Hb & _ & _); [done..|].
  intros [E ->]%number_prefix; [|done..]. split; [|done].
  apply FormatUint_inj in E; [unfold len in E; lia | done | done].
Qed.
