(* ===== verification/Duration.v ===== *)
(** * Durations: config/duration.go and time.ParseDuration

    A duration is a number of nanoseconds that fits an int64.  The arithmetic of
    time.ParseDuration on the fraction of a number is float64 arithmetic; it is a
    parameter, [fraction f unit scale], and nothing is assumed of it. *)

From S2P Require Import Prelude Strconv.
Open Scope Z_scope.

(** Conversion to int64 *)
Definition i64 (x : Z) : Z := (x + 2 ^ 63) mod 2 ^ 64 - 2 ^ 63.

Section Durations.
Context (fraction : Z -> Z -> Z -> Z).

(** ** time.ParseDuration *)

(** leadingInt: the number at the front of [s], an error when it exceeds 1<<63 *)
Fixpoint leadingInt (x : Z) (s : bytes) : res (Z * bytes) :=
  match s with
  | b :: s' =>
      if isDigit b then
        if 2 ^ 63 / 10 <? x then Err (ErrText "bad integer")
        else let x := x * 10 + (b - 48) in
             if 2 ^ 63 <? x then Err (ErrText "bad integer") else leadingInt x s'
      else Ok (x, s)
  | [] => Ok (x, s)
  end.

(** leadingFraction: the digits that fit, and the scale they have *)
Fixpoint leadingFraction (x scale : Z) (overflow : bool) (s : bytes) : Z * Z * bytes :=
  match s with
  | b :: s' =>
      if isDigit b then
        if overflow then leadingFraction x scale true s'
        else if (2 ^ 63 - 1) / 10 <? x then leadingFraction x scale true s'
        else let y := x * 10 + (b - 48) in
             if 2 ^ 63 <? y then leadingFraction x scale true s' else leadingFraction y (scale * 10) false s'
      else (x, scale, s)
  | [] => (x, scale, s)
  end.

(** unitMap *)
Definition unitOf (u : bytes) : option Z :=
  if bool_decide (u = str "ns") then Some 1
  else if bool_decide (u = str "us") then Some 1000
  else if bool_decide (u = [194; 181; 115]) then Some 1000
  else if bool_decide (u = [206; 188; 115]) then Some 1000
  else if bool_decide (u = str "ms") then Some 1000000
  else if bool_decide (u = str "s") then Some second
  else if bool_decide (u = str "m") then Some (60 * second)
  else if bool_decide (u = str "h") then Some (3600 * second)
  else None.

Definition unitChar (b : Z) : bool := negb ((b =? 46) || isDigit b).

Fixpoint span (f : Z -> bool) (s : bytes) : bytes * bytes :=
  match s with
  | b :: s' => if f b then let '(u, r) := span f s' in (b :: u, r) else ([], s)
  | [] => ([], [])
  end.

Definition invalidDuration : err := ErrText "time: invalid duration".

(** One number with its unit *)
Definition durationTerm (s : bytes) : res (Z * bytes) :=
  match s with
  | [] => Err invalidDuration
  | b :: _ =>
      if negb ((b =? 46) || isDigit b) then Err invalidDuration else
      match leadingInt 0 s with
      | Err _ => Err invalidDuration
      | Ok (v, s1) =>
          let pre := negb (len s =? len s1) in
          let '(f, scale, s2, post) :=
            match s1 with
            | 46 :: s' => let '(f, scale, s2) := leadingFraction 0 1 false s' in (f, scale, s2, negb (len s' =? len s2))
            | _ => (0, 1, s1, false)
            end in
          if negb pre && negb post then Err invalidDuration else
          let '(u, rest) := span unitChar s2 in
          if len u =? 0 then Err (ErrText "time: missing unit in duration") else
          match unitOf u with
          | None => Err (ErrText "time: unknown unit in duration")
          | Some unit =>
              if 2 ^ 63 / unit <? v then Err invalidDuration else
              let v := v * unit in
              if 0 <? f then
                let v := u64 (v + fraction f unit scale) in
                if 2 ^ 63 <? v then Err invalidDuration else Ok (v, rest)
              else Ok (v, rest)
          end
      end
  end.

(** The loop over the terms; each consumes at least one byte. *)
Fixpoint durationTerms (fuel : nat) (d : Z) (s : bytes) : res Z :=
  match fuel, s with
  | _, [] => Ok d
  | O, _ => Err invalidDuration
  | S fuel', _ =>
      match durationTerm s with
      | Err e => Err e
      | Ok (v, rest) =>
          let d := u64 (d + v) in
          if 2 ^ 63 <? d then Err invalidDuration else durationTerms fuel' d rest
      end
  end.

Definition timeParseDuration (s : bytes) : res Z :=
  let '(neg, s) := match s with
                   | 45 :: t => (true, t)
                   | 43 :: t => (false, t)
                   | _ => (false, s)
                   end in
  if bool_decide (s = str "0") then Ok 0
  else if len s =? 0 then Err invalidDuration
  else
    match durationTerms (length s) 0 s with
    | Err e => Err e
    | Ok d => if neg then Ok (i64 (- d)) else if 2 ^ 63 - 1 <? d then Err invalidDuration else Ok d
    end.

(** ** time.Duration.String *)

(** fmtFrac: the fraction of [v] with [prec] digits, without trailing zeros, and
    the whole part *)
Fixpoint fmtFrac (prec : nat) (v : Z) (print : bool) (out : bytes) : bytes * Z :=
  match prec with
  | O => (if print then 46 :: out else out, v)
  | S prec' =>
      let digit := v mod 10 in
      let print := print || negb (digit =? 0) in
      fmtFrac prec' (v / 10) print (if print then (48 + digit) :: out else out)
  end.

(** The whole seconds, minutes and hours of a duration of a second or more *)
Definition fmtClock (u : Z) (frac : bytes) : bytes :=
  let s := FormatUint (u mod 60) ++ frac in
  let u := u / 60 in
  if 0 <? u then
    let s := FormatUint (u mod 60) ++ str "m" ++ s in
    let u := u / 60 in
    if 0 <? u then FormatUint u ++ str "h" ++ s else s
  else s.

Definition DurationString (d : Z) : bytes :=
  let u := Z.abs d in
  let small prec unit := let '(f, v) := fmtFrac prec u false unit in FormatUint v ++ f in
  let text :=
    if u <? second then
      if u =? 0 then str "0s"
      else if u <? 1000 then small 0%nat (str "ns")
      else if u <? 1000000 then small 3%nat [194; 181; 115]
      else small 6%nat (str "ms")
    else let '(f, v) := fmtFrac 9 u false (str "s") in fmtClock v f in
  if d <? 0 then 45 :: text else text.

(** ** duration.go *)

(** trimSpace *)
Definition isSpace (b : Z) : bool := (b =? 32) || (b =? 9) || (b =? 10) || (b =? 13).

Fixpoint trimLeft (s : bytes) : bytes :=
  match s with b :: s' => if isSpace b then trimLeft s' else s | [] => [] end.

Definition trimSpace (s : bytes) : bytes := reverse (trimLeft (reverse (trimLeft s))).

(** isBareNumber *)
Definition isBareNumber (s : bytes) : bool :=
  match s with
  | [] => false
  | b :: rest =>
      let digits := if (b =? 45) || (b =? 43) then rest else s in
      match digits with [] => false | _ => forallb isDigit digits end
  end.

(** ParseDuration: a bare integer means seconds; the product is an int64 product. *)
Definition ParseDuration (s : bytes) : res Z :=
  let s := trimSpace s in
  if len s =? 0 then Ok 0
  else if isBareNumber s then
    match ParseInt s 64 with
    | Err _ => Err (ErrText "invalid duration")
    | Ok n => Ok (i64 (n * second))
    end
  else
    match timeParseDuration s with
    | Err _ => Err (ErrText "invalid duration")
    | Ok d => Ok d
    end.

(** UnmarshalYAML, on the tag and the text of the node *)
Definition UnmarshalYAML (isNull : bool) (value : bytes) : res Z := if isNull then Ok 0 else ParseDuration value.

(** MarshalYAML and MarshalJSON write the text of the duration. *)
Definition MarshalYAML (d : Z) : bytes := DurationString d.

(** UnmarshalJSON, on the value: a string, a number that fits an int64 (seconds),
    null, or something else *)
Inductive jsonValue := JsonNull | JsonString (s : bytes) | JsonInt (n : Z) | JsonOther.

Definition UnmarshalJSON (v : jsonValue) : res Z :=
  match v with
  | JsonNull => Ok 0
  | JsonString s => ParseDuration s
  | JsonInt n => Ok (i64 (n * second))
  | JsonOther => Err (ErrText "invalid duration")
  end.

(** ** Lemmas *)

(** Each term consumes at least a byte, so the fuel of [durationTerms] is enough. *)
Lemma leadingInt_length x s v r : leadingInt x s = Ok (v, r) -> (length r <= length s)%nat.
Proof.
  revert x. induction s as [|b s IH]; intros x; cbn [leadingInt]; [by intros [= _ <-]|].
  destruct (isDigit b); [|by intros [= _ <-]]. destruct (_ <? x); [done|]. destruct (_ <? _); [done|].
  intros H%IH. cbn. lia.
Qed.

Lemma leadingFraction_length x sc o s f sc' r : leadingFraction x sc o s = (f, sc', r) -> (length r <= length s)%nat.
Proof.
  revert x sc o. induction s as [|b s IH]; intros x sc o; cbn [leadingFraction]; [by intros [= _ _ <-]|].
  destruct (isDigit b); [|by intros [= _ _ <-]].
  destruct o; [|destruct (_ <? x); [|destruct (_ <? _)]]; intros H%IH; cbn; lia.
Qed.

Lemma span_length f s u r : span f s = (u, r) -> (length u + length r = length s)%nat.
Proof.
  revert u r. induction s as [|b s IH]; intros u r; cbn [span]; [by intros [= <- <-]|].
  destruct (f b); [|by intros [= <- <-]]. destruct (span f s) as [u' r'] eqn:E. intros [= <- <-]. cbn. by rewrite (IH u' r').
Qed.

Lemma durationTerm_consumes s v rest : durationTerm s = Ok (v, rest) -> (length rest < length s)%nat.
Proof.
  unfold durationTerm. destruct s as [|b s0]; [done|]. set (s := b :: s0). destruct (negb _); [done|].
  destruct (leadingInt 0 s) as [[v1 s1]|] eqn:E1; [|done]. apply leadingInt_length in E1.
  set (q := match s1 with 46 :: _ => _ | _ => _ end).
  assert (exists f sc s2 post, q = (f, sc, s2, post) /\ (length s2 <= length s1)%nat) as (f & sc & s2 & post & -> & Hs2).
  { unfold q. destruct s1 as [|x s1']; [by do 4 eexists|].
    destruct (decide (x = 46)) as [->|Hx].
    - destruct (leadingFraction 0 1 false s1') as [[f sc] s2] eqn:E. apply leadingFraction_length in E.
      do 4 eexists. split; [done|]. cbn. lia.
    - do 4 eexists. split; [|done]. repeat (case_match; try done). }
  destruct (_ && _); [done|]. destruct (span unitChar s2) as [u r] eqn:Es. apply span_length in Es.
  destruct (len u =? 0) eqn:Eu; [done|]. apply Z.eqb_neq in Eu. unfold len in Eu.
  destruct (unitOf u); [|done]. destruct (_ <? v1); [done|].
  destruct (0 <? f); [destruct (_ <? _); [done|]|]; intros [= _ <-]; lia.
Qed.

Lemma durationTerms_fuel fuel fuel' d s :
  (length s <= fuel)%nat -> (length s <= fuel')%nat -> durationTerms fuel d s = durationTerms fuel' d s.
Proof.
  revert fuel' d s. induction fuel as [|fuel IH]; intros fuel' d s H1 H2.
  - destruct s; [|cbn in H1; lia]. by destruct fuel'.
  - destruct s as [|b s]; [by destruct fuel'|]. destruct fuel' as [|fuel']; [cbn in H2; lia|]. cbn [durationTerms].
    destruct (durationTerm (b :: s)) as [[v rest]|] eqn:E; [|done]. apply durationTerm_consumes in E. cbn in *.
    destruct (_ <? _); [done|]. apply IH; lia.
Qed.

(** ** Whole numbers of seconds *)

Definition starts_nondigit (s : bytes) : Prop := match s with b :: _ => isDigit b = false | [] => True end.

Lemma digitsValue_ge acc ds v : 0 <= acc -> digitsValue acc ds = Some v -> acc <= v /\ (ds <> [] -> acc <= v / 10).
Proof.
  revert acc. induction ds as [|b ds IH]; intros acc Ha; cbn [digitsValue]; [by intros [= <-]|].
  destruct (isDigit b) eqn:Eb; [|done]. unfold isDigit in Eb; apply andb_true_iff in Eb as [? ?]. intros Hv. destruct (IH (acc * 10 + (b - 48))) as [Hle _]; [lia|done|].
  split; [lia|]. intros _. apply Z.div_le_lower_bound; lia.
Qed.

Lemma leadingInt_digits acc ds x v :
  0 <= acc -> digitsValue acc ds = Some v -> v <= 2 ^ 63 -> starts_nondigit x -> leadingInt acc (ds ++ x) = Ok (v, x).
Proof.
  intros Ha Hv Hle Hx. revert acc Ha Hv. induction ds as [|b ds IH]; intros acc Ha Hv; cbn [app leadingInt].
  - cbn in Hv. injection Hv as ->. destruct x as [|y x]; [done|]. cbn in Hx. cbn [leadingInt]. by rewrite Hx.
  - cbn [digitsValue] in Hv. pose proof (digitsValue_ge acc (b :: ds) v Ha) as Hge. cbn [digitsValue] in Hge.
    destruct (isDigit b) eqn:Eb; [|done]. destruct (Hge Hv) as [_ Hd]. specialize (Hd ltac:(done)).
    destruct (digitsValue_ge (acc * 10 + (b - 48)) ds v) as [Hle2 _]; [unfold isDigit in Eb; apply andb_true_iff in Eb as [? ?]; lia | done |].
    destruct (Z.ltb_spec (2 ^ 63 / 10) acc) as [Hlt|_].
    { pose proof (Z.div_le_mono v (2 ^ 63) 10 ltac:(lia) Hle). lia. }
    destruct (Z.ltb_spec (2 ^ 63) (acc * 10 + (b - 48))); [lia|]. apply IH; [unfold isDigit in Eb; apply andb_true_iff in Eb as [? ?]; lia | done].
Qed.

Lemma span_all f u rest :
  Forall (fun b => f b = true) u -> match rest with b :: _ => f b = false | [] => True end -> span f (u ++ rest) = (u, rest).
Proof.
  intros Hu Hr. induction Hu as [|b u Hb _ IH]; cbn [app span]; [|by rewrite Hb, IH].
  destruct rest as [|b rest]; [done|]. cbn [span]. by rewrite Hr.
Qed.

(** A number with its unit, followed by another number or nothing. *)
Lemma durationTerm_whole v u unit rest :
  0 <= v -> u <> [] -> Forall (fun b => unitChar b = true) u -> unitOf u = Some unit -> v <= 2 ^ 63 ->
  match rest with b :: _ => isDigit b = true | [] => True end ->
  durationTerm (FormatUint v ++ u ++ rest) = if 2 ^ 63 / unit <? v then Err invalidDuration else Ok (v * unit, rest).
Proof.
  intros Hv Hne Hu Hunit Hv63 Hrest. destruct (FormatUint_spec v Hv) as (Hd & Hn & Hval).
  assert (starts_nondigit (u ++ rest) /\ match u ++ rest with 46 :: _ => False | _ => True end) as [Hnd Hnp].
  { destruct u as [|b u]; [done|]. apply Forall_cons in Hu as [Hb _]. unfold unitChar in Hb.
    apply negb_true_iff, orb_false_iff in Hb as [Hb1 Hb2]. apply Z.eqb_neq in Hb1. split; [done|].
    cbn [app]. repeat (case_match; try done). }
  pose proof (leadingInt_digits 0 (FormatUint v) (u ++ rest) v ltac:(lia) Hval Hv63 Hnd) as Hlead.
  unfold durationTerm. destruct (FormatUint v) as [|b ds] eqn:Ef; [done|]. cbn [app] in *.
  apply Forall_cons in Hd as [Hb _]. rewrite Hb, orb_true_r. cbn [negb]. rewrite Hlead.
  assert (match u ++ rest with
          | 46 :: s' => let '(f, scale, s2) := leadingFraction 0 1 false s' in (f, scale, s2, negb (len s' =? len s2))
          | _ => (0, 1, u ++ rest, false) end = (0, 1, u ++ rest, false)) as ->
    by (destruct (u ++ rest) as [|x l]; [done|]; repeat (case_match; try done)).
  assert (negb (len (b :: ds ++ u ++ rest) =? len (u ++ rest)) = true) as ->.
  { rewrite len_cons, len_app. pose proof (len_nonneg ds). apply negb_true_iff, Z.eqb_neq. lia. }
  cbn [negb andb]. rewrite span_all; [|done|].
  2:{ destruct rest as [|x rest]; [done|]. unfold unitChar. by rewrite Hrest, orb_true_r. }
  destruct (len u =? 0) eqn:El; [by apply Z.eqb_eq, len_0_inv in El|]. by rewrite Hunit.
Qed.

Lemma durationTerms_step d s v rest :
  durationTerm s = Ok (v, rest) ->
  durationTerms (length s) d s =
    if 2 ^ 63 <? u64 (d + v) then Err invalidDuration else durationTerms (length rest) (u64 (d + v)) rest.
Proof.
  intros H. pose proof (durationTerm_consumes s v rest H). destruct s as [|b s]; [done|]. cbn [length durationTerms]. rewrite H.
  destruct (_ <? _); [done|]. apply durationTerms_fuel; cbn in *; lia.
Qed.

Lemma fmtFrac_whole k n out : 0 <= n -> fmtFrac k (n * 10 ^ Z.of_nat k) false out = (out, n).
Proof.
  intros Hn. revert out. induction k as [|k IH]; intros out; cbn [fmtFrac]; [by rewrite Z.mul_1_r|].
  rewrite Nat2Z.inj_succ, Z.pow_succ_r, Z.mul_comm by lia. rewrite <- Z.mul_assoc, (Z.mul_comm 10).
  rewrite Z_mod_mult, Z_div_mult by lia. cbn. rewrite (Z.mul_comm (10 ^ Z.of_nat k)). apply IH.
Qed.

Lemma trimLeft_id b s : isSpace b = false -> trimLeft (b :: s) = b :: s.
Proof. intros H. cbn. by rewrite H. Qed.

(** A sign, a digit, and a last byte that is a letter: neither space to trim nor a bare number. *)
Lemma ParseDuration_text (sign text : bytes) (b : Z) (s : bytes) :
  (sign = [] \/ sign = [45]) -> text = (b :: s) ++ [115] -> isDigit b = true ->
  ParseDuration (sign ++ text) =
    match timeParseDuration (sign ++ text) with Err _ => Err (ErrText "invalid duration") | Ok d => Ok d end.
Proof.
  intros Hs -> Hb. unfold ParseDuration.
  assert (trimSpace (sign ++ (b :: s) ++ [115]) = sign ++ (b :: s) ++ [115]) as ->.
  { unfold trimSpace. assert (isSpace b = false) as Hsp
      by (unfold isDigit in Hb; unfold isSpace; apply andb_true_iff in Hb as [? ?]; rewrite !orb_false_iff, !Z.eqb_neq; lia).
    assert (trimLeft (sign ++ (b :: s) ++ [115]) = sign ++ (b :: s) ++ [115]) as ->
      by (destruct Hs as [-> | ->]; cbn [app]; by apply trimLeft_id).
    rewrite app_assoc, reverse_snoc, trimLeft_id by done. by rewrite reverse_cons, reverse_involutive. }
  assert (forallb isDigit ((b :: s) ++ [115]) = false) as Hf by (rewrite forallb_app; cbn; apply andb_false_r).
  assert (isBareNumber (sign ++ (b :: s) ++ [115]) = false) as ->.
  { unfold isBareNumber. destruct Hs as [-> | ->]; [|exact Hf]. cbn [app] in *.
    destruct ((b =? 45) || (b =? 43)) eqn:E; [|exact Hf].
    unfold isDigit in Hb. apply andb_true_iff in Hb as [? ?]. apply orb_true_iff in E as [?%Z.eqb_eq | ?%Z.eqb_eq]; lia. }
  destruct (len _ =? 0) eqn:E; [|done]. apply Z.eqb_eq in E. rewrite !len_app, len_cons in E.
  pose proof (len_nonneg sign). pose proof (len_nonneg s). pose proof (len_nonneg [115]). lia.
Qed.

(** The text after an optional sign, as a sum of terms *)
Lemma timeParseDuration_signed neg b s (v : Z) :
  isDigit b = true -> s <> [] -> durationTerms (length (b :: s)) 0 (b :: s) = Ok v -> 0 <= v < 2 ^ 63 ->
  timeParseDuration ((if neg : bool then [45] else []) ++ b :: s) = Ok (if neg then - v else v).
Proof.
  intros Hb Hne Hv Hle.
  assert (timeParseDuration ((if neg then [45] else []) ++ b :: s) =
    match durationTerms (length (b :: s)) 0 (b :: s) with
    | Err e => Err e
    | Ok d => if neg then Ok (i64 (- d)) else if 2 ^ 63 - 1 <? d then Err invalidDuration else Ok d end) as ->.
  { unfold timeParseDuration. assert (bool_decide (b :: s = str "0") = false) as Hz by (apply bool_decide_eq_false; by destruct s).
    assert (len (b :: s) =? 0 = false) as Hl by (rewrite len_cons; pose proof (len_nonneg s); apply Z.eqb_neq; lia).
    destruct neg; cbn [app]; [by rewrite Hz, Hl|].
    unfold isDigit in Hb. apply andb_true_iff in Hb as [? ?].
    assert (match b :: s with 45 :: t => (true, t) | 43 :: t => (false, t) | _ => (false, b :: s) end = (false, b :: s)) as ->
      by (repeat (case_match; try done; try lia)).
    by rewrite Hz, Hl. }
  rewrite Hv. destruct neg; [|destruct (Z.ltb_spec (2 ^ 63 - 1) v); [lia | done]].
  unfold i64. rewrite Z.mod_small by lia. f_equal. lia.
Qed.

Lemma FormatUint_head n : 0 <= n -> exists b s, FormatUint n = b :: s /\ isDigit b = true.
Proof.
  intros Hn. destruct (FormatUint_spec n Hn) as (Hd & Hne & _). destruct (FormatUint n) as [|b s]; [done|].
  apply Forall_cons in Hd as [Hb _]. by exists b, s.
Qed.

Definition maxSeconds : Z := 9223372036.

(** One term with unit [u] that fits, after a sum that leaves room for it *)
Lemma durationTerms_whole d v u unit rest :
  0 <= d -> 0 <= v -> u <> [] -> Forall (fun b => unitChar b = true) u -> unitOf u = Some unit -> 1 <= unit -> d + v * unit <= 2 ^ 63 ->
  match rest with b :: _ => isDigit b = true | [] => True end ->
  durationTerms (length (FormatUint v ++ u ++ rest)) d (FormatUint v ++ u ++ rest) = durationTerms (length rest) (d + v * unit) rest.
Proof.
  intros Hd Hv Hne Hu Hunit Hpos Hle Hrest.
  assert (v <= 2 ^ 63 / unit) by (apply Z.div_le_lower_bound; nia).
  rewrite (durationTerms_step d _ (v * unit) rest).
  - assert (u64 (d + v * unit) = d + v * unit) as -> by (unfold u64; apply Z.mod_small; nia).
    destruct (Z.ltb_spec (2 ^ 63) (d + v * unit)); [lia | done].
  - rewrite (durationTerm_whole v u unit rest); try done; [|nia].
    destruct (Z.ltb_spec (2 ^ 63 / unit) v); [lia | done].
Qed.

Lemma seconds_text n :
  0 <= n <= maxSeconds ->
  exists b s, FormatUint n ++ str "s" = (b :: s) ++ [115] /\ isDigit b = true /\
    durationTerms (length ((b :: s) ++ [115])) 0 ((b :: s) ++ [115]) = Ok (n * second).
Proof.
  unfold maxSeconds. intros Hn. destruct (FormatUint_head n) as (b & s & E & Hb); [lia|]. exists b, s.
  rewrite <- E. split_and!; [done | done |]. change [115] with (str "s" ++ []).
  rewrite (durationTerms_whole 0 n (str "s") second []); try done; [lia | by repeat constructor | unfold second; lia].
Qed.

Lemma clock_text n :
  0 <= n <= maxSeconds ->
  exists b s, fmtClock n (str "s") = (b :: s) ++ [115] /\ isDigit b = true /\
    durationTerms (length ((b :: s) ++ [115])) 0 ((b :: s) ++ [115]) = Ok (n * second).
Proof.
  unfold maxSeconds. intros Hn. unfold fmtClock. destruct (Z.ltb_spec 0 (n / 60)) as [H60|H60].
  2:{ assert (n < 60) by (pose proof (Z.div_mod n 60); pose proof (Z.mod_pos_bound n 60); lia).
      rewrite Z.mod_small by lia. apply seconds_text. unfold maxSeconds. lia. }
  pose proof (Z.div_mod n 60 ltac:(lia)) as Hdm. pose proof (Z.mod_pos_bound n 60 ltac:(lia)) as Hs.
  set (m := n / 60) in *. set (sec := n mod 60) in *.
  pose proof (Z.div_mod m 60 ltac:(lia)) as Hdh. pose proof (Z.mod_pos_bound m 60 ltac:(lia)) as Hm.
  set (h := m / 60) in *. set (mi := m mod 60) in *.
  destruct (FormatUint_head sec) as (bs & ss & Es & Hbs); [lia|].
  destruct (FormatUint_head mi) as (bm & sm & Em & Hbm); [lia|].
  assert (forall d, 0 <= d -> d + (mi * 60 + sec) * second <= 2 ^ 63 ->
    durationTerms (length (FormatUint mi ++ str "m" ++ FormatUint sec ++ str "s" ++ [])) d
      (FormatUint mi ++ str "m" ++ FormatUint sec ++ str "s" ++ []) = Ok (d + (mi * 60 + sec) * second)) as Hms.
  { intros d Hd Hle. unfold second in *.
    rewrite (durationTerms_whole d mi (str "m") (60 * second) (FormatUint sec ++ str "s" ++ []));
      [|lia | lia | done | by repeat constructor | done | done | unfold second; lia | by rewrite Es].
    rewrite (durationTerms_whole _ sec (str "s") second []); [|unfold second; lia | lia | done | by repeat constructor | done | done | unfold second; lia | done].
    cbn [durationTerms length]. f_equal. unfold second. lia. }
  destruct (Z.ltb_spec 0 h) as [Hh|Hh].
  - destruct (FormatUint_head h) as (bh & sh & Eh & Hbh); [lia|].
    exists bh, (sh ++ str "h" ++ FormatUint mi ++ str "m" ++ FormatUint sec).
    assert ((bh :: sh ++ str "h" ++ FormatUint mi ++ str "m" ++ FormatUint sec) ++ [115] =
            FormatUint h ++ str "h" ++ FormatUint mi ++ str "m" ++ FormatUint sec ++ str "s" ++ []) as ->
      by (rewrite Eh; cbn [app]; by rewrite <- !app_assoc).
    rewrite app_nil_r. split_and!; [done | done |]. rewrite <- (app_nil_r (str "s")).
    rewrite (durationTerms_whole 0 h (str "h") (3600 * second) (FormatUint mi ++ str "m" ++ FormatUint sec ++ str "s" ++ []));
      [|lia | lia | done | by repeat constructor | done | done | unfold second; lia | by rewrite Em].
    rewrite Hms by (unfold second; lia). f_equal. unfold second. lia.
  - exists bm, (sm ++ str "m" ++ FormatUint sec).
    assert ((bm :: sm ++ str "m" ++ FormatUint sec) ++ [115] = FormatUint mi ++ str "m" ++ FormatUint sec ++ str "s" ++ []) as ->
      by (rewrite Em; cbn [app]; by rewrite <- !app_assoc).
    rewrite app_nil_r. split_and!; [done | done |]. rewrite <- (app_nil_r (str "s")), Hms by (unfold second; lia).
    f_equal. unfold second. lia.
Qed.

(** Either text, with the sign of [n], parses to [n] seconds. *)
Lemma ParseDuration_signed n text :
  - maxSeconds <= n <= maxSeconds ->
  (exists b s, text = (b :: s) ++ [115] /\ isDigit b = true /\
     durationTerms (length ((b :: s) ++ [115])) 0 ((b :: s) ++ [115]) = Ok (Z.abs n * second)) ->
  ParseDuration ((if n <? 0 then [45] else []) ++ text) = Ok (n * second).
Proof.
  unfold maxSeconds. intros Hn (b & s & -> & Hb & Hd).
  rewrite (ParseDuration_text _ _ b s); [|destruct (n <? 0); auto | done | done]. cbn [app] in *.
  rewrite (timeParseDuration_signed (n <? 0) b (s ++ [115]) (Z.abs n * second)); [|done | by destruct s | done | unfold second; lia].
  destruct (Z.ltb_spec n 0); f_equal; lia.
Qed.

Lemma DurationString_seconds n :
  DurationString (n * second) = (if n <? 0 then [45] else []) ++ (if n =? 0 then str "0s" else fmtClock (Z.abs n) (str "s")).
Proof.
  unfold DurationString. assert (Z.abs (n * second) = Z.abs n * second) as -> by (unfold second; lia).
  assert (n * second <? 0 = (n <? 0)) as -> by (unfold second; destruct (Z.ltb_spec (n * 1000000000) 0), (Z.ltb_spec n 0); lia).
  destruct (Z.eqb_spec n 0) as [-> | Hn]; [done|].
  destruct (Z.ltb_spec (Z.abs n * second) second); [unfold second in *; lia|].
  assert (fmtFrac 9 (Z.abs n * second) false (str "s") = (str "s", Z.abs n)) as -> by (apply (fmtFrac_whole 9 (Z.abs n)); lia).
  by destruct (n <? 0).
Qed.

Lemma digit_not_space b : isDigit b = true -> isSpace b = false /\ b <> 45 /\ b <> 43.
Proof. unfold isDigit, isSpace. intros [? ?]%andb_true_iff. rewrite !orb_false_iff, !Z.eqb_neq. lia. Qed.

Lemma Itoa_signed n : Itoa n = (if n <? 0 then [45] else []) ++ FormatUint (Z.abs n).
Proof. unfold Itoa. destruct (Z.ltb_spec n 0); [by rewrite Z.abs_neq by lia | by rewrite Z.abs_eq by lia]. Qed.

Lemma trimSpace_Itoa n : trimSpace (Itoa n) = Itoa n.
Proof.
  rewrite Itoa_signed. destruct (FormatUint_spec (Z.abs n)) as (Hd & Hne & _); [lia|].
  destruct (exists_last Hne) as (ds & b & E). rewrite E in *. clear E Hne.
  apply Forall_app in Hd as [Hd [Hb _]%Forall_cons]. apply digit_not_space in Hb as [Hb _].
  set (sign := if n <? 0 then [45] else []). unfold trimSpace.
  assert (trimLeft (sign ++ ds ++ [b]) = sign ++ ds ++ [b]) as ->.
  { destruct (n <? 0); unfold sign; cbn [app]; [by apply trimLeft_id|].
    destruct ds as [|x ds]; [by apply trimLeft_id|]. apply Forall_cons in Hd as [Hx _].
    apply digit_not_space in Hx as [Hx _]. by apply (trimLeft_id x (ds ++ [b])). }
  rewrite app_assoc, reverse_snoc, trimLeft_id by done. by rewrite reverse_cons, reverse_involutive.
Qed.

Lemma ParseDuration_bare n : - 2 ^ 63 <= n < 2 ^ 63 -> ParseDuration (Itoa n) = Ok (i64 (n * second)).
Proof.
  intros Hn. unfold ParseDuration. rewrite trimSpace_Itoa, Itoa_signed.
  destruct (FormatUint_spec (Z.abs n)) as (Hd & Hne & Hv); [lia|]. destruct (FormatUint (Z.abs n)) as [|b s]; [done|].
  assert (forallb isDigit (b :: s) = true) as Hf by (apply forallb_forall; by apply List.Forall_forall).
  apply Forall_cons in Hd as [Hb _]. apply digit_not_space in Hb as (_ & Hm & Hp).
  assert (isBareNumber ((if n <? 0 then [45] else []) ++ b :: s) = true) as ->.
  { unfold isBareNumber. destruct (n <? 0); [exact Hf|]. cbn [app].
    destruct ((b =? 45) || (b =? 43)) eqn:E; [|exact Hf]. apply orb_true_iff in E as [?%Z.eqb_eq | ?%Z.eqb_eq]; lia. }
  assert (ParseInt ((if n <? 0 then [45] else []) ++ b :: s) 64 = Ok n) as ->.
  { unfold ParseInt. destruct (Z.ltb_spec n 0); cbn [app].
    - rewrite Hv. change (2 ^ (64 - 1)) with (2 ^ 63). destruct (Z.leb_spec (Z.abs n) (2 ^ 63)); [f_equal; lia | lia].
    - assert (match b :: s with 45 :: t => (true, t) | 43 :: t => (false, t) | _ => (false, b :: s) end = (false, b :: s)) as ->
        by (repeat (case_match; try done; try lia)).
      rewrite Hv. change (2 ^ (64 - 1)) with (2 ^ 63). destruct (Z.ltb_spec (Z.abs n) (2 ^ 63)); [f_equal; lia | lia]. }
  destruct (len _ =? 0) eqn:E; [|done]. apply Z.eqb_eq, len_0_inv in E. by destruct (n <? 0).
Qed.

(** Beyond the seconds an int64 of nanoseconds holds, the suffixed form is refused. *)
Lemma ParseDuration_beyond n :
  maxSeconds < Z.abs n <= 2 ^ 63 -> ParseDuration (Itoa n ++ str "s") = Err (ErrText "invalid duration").
Proof.
  unfold maxSeconds. intros Hn. rewrite Itoa_signed, <- app_assoc. destruct (FormatUint_head (Z.abs n)) as (b & s & E & Hb); [lia|].
  assert (durationTerms (length (FormatUint (Z.abs n) ++ str "s")) 0 (FormatUint (Z.abs n) ++ str "s") = Err invalidDuration) as Hd.
  { pose proof (durationTerm_whole (Z.abs n) (str "s") second []) as Ht. rewrite app_nil_r in Ht.
    rewrite (proj2 (Z.ltb_lt (2 ^ 63 / second) (Z.abs n))) in Ht by (unfold second; change (2 ^ 63 / 1000000000) with 9223372036; lia).
    specialize (Ht ltac:(lia) ltac:(discriminate) ltac:(repeat constructor) ltac:(done) ltac:(lia) I).
    rewrite E in *. cbn [app length durationTerms] in *. by rewrite Ht. }
  rewrite (ParseDuration_text _ _ b s); [|destruct (n <? 0); auto | by rewrite E | done].
  rewrite E in *. cbn [app] in *. apply digit_not_space in Hb as (_ & Hm & Hp). unfold timeParseDuration.
  assert (bool_decide (b :: s ++ str "s" = str "0") = false) as Hz by (apply bool_decide_eq_false; by destruct s).
  assert (len (b :: s ++ str "s") =? 0 = false) as Hl by (rewrite len_cons; pose proof (len_nonneg (s ++ str "s")); apply Z.eqb_neq; lia).
  destruct (n <? 0); cbn [app]; [by rewrite Hz, Hl, Hd|].
  assert (match b :: s ++ str "s" with 45 :: t => (true, t) | 43 :: t => (false, t) | _ => (false, b :: s ++ str "s") end
          = (false, b :: s ++ str "s")) as -> by (repeat (case_match; try done; try lia)).
  by rewrite Hz, Hl, Hd.
Qed.

(** The two ways to write a number of seconds, and the text a duration is
    written back as.  For every int64 [n] the bare number is accepted, from the
    environment, from YAML and from JSON alike.  While [n] seconds fit an int64 of
    nanoseconds, the bare number, the number with the suffix s, and the text
    MarshalYAML writes for the duration all parse to [n] seconds.  Beyond that
    range the suffixed form is refused, and the bare number is accepted with the
    product wrapped around. *)
Theorem duration_seconds n :
  - 2 ^ 63 <= n < 2 ^ 63 ->
  ParseDuration (Itoa n) = Ok (i64 (n * second)) /\
  UnmarshalYAML false (Itoa n) = ParseDuration (Itoa n) /\ UnmarshalJSON (JsonInt n) = ParseDuration (Itoa n) /\
  (- maxSeconds <= n <= maxSeconds ->
     i64 (n * second) = n * second /\
     ParseDuration (Itoa n ++ str "s") = Ok (n * second) /\
     UnmarshalYAML false (MarshalYAML (n * second)) = Ok (n * second)) /\
  (maxSeconds < Z.abs n -> i64 (n * second) <> n * second /\ ParseDuration (Itoa n ++ str "s") = Err (ErrText "invalid duration")).
Proof.
  intros Hn. pose proof (ParseDuration_bare n Hn) as Hb. split_and!; [done | done | by rewrite Hb | |].
  - intros Hm. split_and!.
    + unfold i64, maxSeconds, second in *. rewrite Z.mod_small; lia.
    + rewrite Itoa_signed, <- app_assoc. apply ParseDuration_signed; [done|]. apply seconds_text. lia.
    + cbn [UnmarshalYAML]. unfold MarshalYAML. rewrite DurationString_seconds. destruct (Z.eqb_spec n 0) as [-> | _]; [done|].
      apply ParseDuration_signed; [done|]. apply clock_text. lia.
  - intros Hm. split; [|apply ParseDuration_beyond; lia].
    unfold i64, maxSeconds, second in *. pose proof (Z.mod_pos_bound (n * 1000000000 + 2 ^ 63) (2 ^ 64) ltac:(lia)). lia.
Qed.
End Durations.

(** 30 days as seconds; one second past the range. *)
Lemma duration_seconds_witness :
  ParseDuration (fun _ _ _ => 0) (Itoa 2592000) = Ok (2592000 * second) /\
  MarshalYAML (2592000 * second) = str "720h0m0s" /\
  ParseDuration (fun _ _ _ => 0) (MarshalYAML (2592000 * second)) = Ok (2592000 * second) /\
  ParseDuration (fun _ _ _ => 0) (str "9223372037") = Ok (-9223372036709551616).
Proof.
  destruct (duration_seconds (fun _ _ _ => 0) 2592000) as (Hb & _ & _ & Hin & _); [lia|].
  destruct Hin as (Hw & _ & Hr); [unfold maxSeconds; lia|]. rewrite Hb, Hw.
  split_and!; [done | vm_compute; reflexivity | exact Hr |].
  destruct (duration_seconds (fun _ _ _ => 0) 9223372037) as (Ho & _); [lia|].
  exact Ho.
Defined.
