(* ===== verification/Config.v ===== *)
(** * Configuration: config/config.go and config/loader.go

    The Config struct, its defaults and validation, the TLS configuration built
    from it, and the loader: defaults, then the environment by reflection over the
    struct's fields, then a YAML file.  The operating system (environment, files),
    package crypto/tls and the YAML library are parameters. *)

From S2P Require Import Prelude Strconv Duration.
Open Scope Z_scope.

Definition DefaultListenAddr : string := ":18983".
Definition DefaultTLSListenAddr : string := ":18993".
Definition DefaultMetricsAddr : string := ":18999".

(** config.go, Config; a Duration is a number of nanoseconds *)
Record Config := mkConfig {
  ListenAddr : bytes;
  ListenAddrs : list bytes;
  WSListenAddrs : list bytes;
  WSSListenAddrs : list bytes;
  WSListenAddr : bytes;
  WSSListenAddr : bytes;
  TLSEnabled : bool;
  TLSCertFile : bytes;
  TLSKeyFile : bytes;
  TLSMinVersion : Z;
  TLSMaxVersion : Z;
  TLSMutual : bool;
  TLSCACertFile : bytes;
  ConnectTimeout : Z;
  DrainTimeout : Z;
  KeepAlive : Z;
  MaxPacketSize : Z;
  MaxConnections : Z;
  WriteQueueSize : Z;
  TCPKeepAlivePeriod : Z;
  FlappingEnabled : bool;
  FlappingMaxConnects : Z;
  FlappingWindow : Z;
  FlappingPenaltyDuration : Z;
  FlappingMaxTrackedClients : Z;
  FlappingCleanupInterval : Z;
  QoSRetryInterval : Z;
  QoSMaxRetries : Z;
  QoSMaxInflight : Z;
  SessionExpiryInterval : Z;
  SysInterval : Z;
  StorageBackend : bytes;
  RedisAddr : bytes;
  RedisPassword : bytes;
  RedisDB : Z;
  BadgerPath : bytes;
  LogLevel : bytes;
  LogFormat : bytes;
  AuthFile : bytes;
  MetricsEnabled : bool;
  ManagementEnabled : bool;
  ManagementToken : bytes;
  MetricsAddr : bytes;
  PprofEnabled : bool;
}.

#[export] Instance Config_eta : Eta Config := fun c =>
  mkConfig
    (ListenAddr c) (ListenAddrs c) (WSListenAddrs c) (WSSListenAddrs c) (WSListenAddr c) (WSSListenAddr c)
    (TLSEnabled c) (TLSCertFile c) (TLSKeyFile c) (TLSMinVersion c) (TLSMaxVersion c) (TLSMutual c)
    (TLSCACertFile c) (ConnectTimeout c) (DrainTimeout c) (KeepAlive c) (MaxPacketSize c) (MaxConnections c)
    (WriteQueueSize c) (TCPKeepAlivePeriod c) (FlappingEnabled c) (FlappingMaxConnects c) (FlappingWindow c)
    (FlappingPenaltyDuration c) (FlappingMaxTrackedClients c) (FlappingCleanupInterval c) (QoSRetryInterval c)
    (QoSMaxRetries c) (QoSMaxInflight c) (SessionExpiryInterval c) (SysInterval c) (StorageBackend c)
    (RedisAddr c) (RedisPassword c) (RedisDB c) (BadgerPath c) (LogLevel c) (LogFormat c) (AuthFile c)
    (MetricsEnabled c) (ManagementEnabled c) (ManagementToken c) (MetricsAddr c) (PprofEnabled c).

(** The zero value *)
Definition zeroConfig : Config :=
  mkConfig [] [] [] [] [] [] false [] [] 0 0 false [] 0 0 0 0 0 0 0 false 0 0 0 0 0 0 0 0 0 0 [] [] [] 0 [] [] [] [] false false [] [] false.

(** DefaultConfig *)
Definition DefaultConfig : Config :=
  zeroConfig
    <| ListenAddr := str DefaultListenAddr |>
    <| ConnectTimeout := 10 * second |>
    <| DrainTimeout := 5 * second |>
    <| KeepAlive := 60 |>
    <| MaxPacketSize := 256 * 1024 |>
    <| MaxConnections := 10000 |>
    <| WriteQueueSize := 256 |>
    <| TCPKeepAlivePeriod := 60 * second |>
    <| FlappingMaxConnects := 10 |>
    <| FlappingWindow := 10 * second |>
    <| FlappingPenaltyDuration := 60 * second |>
    <| FlappingMaxTrackedClients := 10000 |>
    <| QoSRetryInterval := 10 * second |>
    <| QoSMaxRetries := 3 |>
    <| QoSMaxInflight := 100 |>
    <| SessionExpiryInterval := 24 * 3600 * second |>
    <| SysInterval := 30 * second |>
    <| StorageBackend := str "memory" |>
    <| LogLevel := str "info" |>
    <| LogFormat := str "text" |>
    <| MetricsEnabled := true |>
    <| MetricsAddr := str DefaultMetricsAddr |>.

(** ** Listen addresses *)

(** dedupAddrs: empty and repeated entries are dropped, the order is kept. *)
Fixpoint dedupLoop (seen : gset bytes) (addrs : list bytes) : list bytes :=
  match addrs with
  | [] => []
  | a :: rest =>
      if bool_decide (a = []) then dedupLoop seen rest
      else if bool_decide (a ∈ seen) then dedupLoop seen rest
      else a :: dedupLoop ({[a]} ∪ seen) rest
  end.

Definition dedupAddrs (addrs : list bytes) : list bytes := dedupLoop ∅ addrs.

Definition EffectiveListenAddrs (c : Config) : list bytes :=
  match ListenAddrs c with
  | [] => if bool_decide (ListenAddr c = []) then [] else [ListenAddr c]
  | addrs => dedupAddrs addrs
  end.

Definition EffectiveWSListenAddrs (c : Config) : list bytes :=
  match WSListenAddrs c with
  | [] => if bool_decide (WSListenAddr c = []) then [] else [WSListenAddr c]
  | addrs => dedupAddrs addrs
  end.

Definition EffectiveWSSListenAddrs (c : Config) : list bytes :=
  match WSSListenAddrs c with
  | [] => if bool_decide (WSSListenAddr c = []) then [] else [WSSListenAddr c]
  | addrs => dedupAddrs addrs
  end.

(** ** Validate *)

Definition isEmpty {A} (s : list A) : bool := match s with [] => true | _ => false end.
Definition isText (s : bytes) (t : string) : bool := bool_decide (s = str t).

(** The errors of Validate in the order it adds them; the caller sees all of them. *)
Definition Validate (c : Config) : list string :=
  let add (b : bool) (msg : string) : list string := if b then [msg] else [] in
  let at_prefix (p : string) := HasPrefix (MetricsAddr c) (str p) in
  add (isEmpty (EffectiveListenAddrs c)) "listen_addr or listen_addrs must not be empty" ++
  add (ManagementEnabled c && isEmpty (ManagementToken c) && negb (at_prefix "127.0.0.1") && negb (at_prefix "localhost"))
    "management_enabled without management_token exposes client data; bind metrics_addr to loopback or set a token" ++
  add (PprofEnabled c && negb (at_prefix "127.0.0.1") && negb (at_prefix "localhost") && negb (at_prefix "[::1]"))
    "pprof_enabled requires metrics_addr on a loopback address; a heap profile exposes message payloads and usernames" ++
  add (negb (isEmpty (EffectiveWSSListenAddrs c)) && negb (TLSEnabled c))
    "wss_listen_addr(s) requires TLS to be enabled (tls_enabled)" ++
  add (MaxPacketSize c <=? 0) "max_packet_size must be > 0" ++
  add (MaxConnections c <? 0) "max_connections must be >= 0" ++
  add (WriteQueueSize c <? 0) "write_queue_size must be >= 0" ++
  add (TCPKeepAlivePeriod c <? 0) "tcp_keepalive_period must be >= 0" ++
  add (SysInterval c <? 0) "sys_interval must be >= 0" ++
  add (QoSMaxRetries c <? 0) "qos_max_retries must be >= 0" ++
  add (QoSMaxInflight c <=? 0) "qos_max_inflight must be > 0" ++
  add (QoSRetryInterval c <=? 0) "qos_retry_interval must be > 0" ++
  (if TLSEnabled c then
     add (isEmpty (TLSCertFile c)) "tls_cert_file is required when TLS is enabled" ++
     add (isEmpty (TLSKeyFile c)) "tls_key_file is required when TLS is enabled" ++
     add (TLSMutual c && isEmpty (TLSCACertFile c)) "tls_ca_cert_file is required when tls_mutual is enabled"
   else []) ++
  add (isText (StorageBackend c) "badger" && isEmpty (BadgerPath c)) "badger_path is required when storage_backend is badger" ++
  add ((0 <? TLSMinVersion c) && (0 <? TLSMaxVersion c) && (TLSMaxVersion c <? TLSMinVersion c))
    "tls_min_version must be <= tls_max_version" ++
  add (negb (isText (StorageBackend c) "memory" || isText (StorageBackend c) "redis" ||
             isText (StorageBackend c) "badger" || isEmpty (StorageBackend c))) "unknown storage_backend" ++
  add (isText (StorageBackend c) "redis" && isEmpty (RedisAddr c)) "redis_addr is required when storage_backend is redis" ++
  add (negb (isText (LogLevel c) "debug" || isText (LogLevel c) "info" || isText (LogLevel c) "warn" ||
             isText (LogLevel c) "error" || isEmpty (LogLevel c))) "unknown log_level".

(** ** TLSConfig *)

Definition VersionTLS12 : Z := 771.

Definition secureCipherSuites : list Z := [49195; 49199; 49196; 49200; 52393; 52392].

Inductive ClientAuthType := NoClientCert | RequireAndVerifyClientCert.

(** crypto/tls.Config, with the fields the code sets *)
Record tlsConfig (Cert Pool : Type) := mkTlsConfig {
  Certificates : list Cert;
  MinVersion : Z;
  MaxVersion : Z;
  CipherSuites : list Z;
  ClientCAs : option Pool;
  ClientAuth : ClientAuthType;
}.
Arguments Certificates {Cert Pool}.
Arguments MinVersion {Cert Pool}.
Arguments MaxVersion {Cert Pool}.
Arguments CipherSuites {Cert Pool}.
Arguments ClientCAs {Cert Pool}.
Arguments ClientAuth {Cert Pool}.
Arguments mkTlsConfig {Cert Pool}.

#[export] Instance tlsConfig_eta Cert Pool : Eta (tlsConfig Cert Pool) := fun c =>
  mkTlsConfig (Certificates c) (MinVersion c) (MaxVersion c) (CipherSuites c) (ClientCAs c) (ClientAuth c).

Section TLS.
Context {Cert Pool : Type}.
Context (LoadX509KeyPair : bytes -> bytes -> res Cert).
Context (ReadFile : bytes -> res bytes).
Context (certPool : bytes -> option Pool).

(** [Ok None] is the (nil, nil) of a configuration without TLS; [certPool] is the
    pool AppendCertsFromPEM fills, when it finds a certificate. *)
Definition TLSConfig (c : Config) : res (option (tlsConfig Cert Pool)) :=
  if negb (TLSEnabled c) then Ok None else
  cert ← LoadX509KeyPair (TLSCertFile c) (TLSKeyFile c);
  let t := mkTlsConfig [cert] VersionTLS12 0 secureCipherSuites None NoClientCert in
  let t := if 0 <? TLSMinVersion c then t <| MinVersion := TLSMinVersion c |> else t in
  let t := if 0 <? TLSMaxVersion c then t <| MaxVersion := TLSMaxVersion c |> else t in
  if TLSMutual c && negb (isEmpty (TLSCACertFile c)) then
    caCert ← ReadFile (TLSCACertFile c);
    match certPool caCert with
    | None => Err (ErrText "failed to parse CA certificate")
    | Some pool => Ok (Some (t <| ClientCAs := Some pool |> <| ClientAuth := RequireAndVerifyClientCert |>))
    end
  else Ok (Some t).
End TLS.

(** ** The loader *)

(** reflect.Kind, with Duration told apart from the other integers by its type *)
Inductive kind := KString | KBool | KInt | KDuration | KUint16 | KSlice.

Definition kindType (k : kind) : Type :=
  match k with KString => bytes | KBool => bool | KInt | KDuration | KUint16 => Z | KSlice => list bytes end.

(** reflect.StructField and the reflect.Value of that field *)
Record structField := mkField {
  envKey : string;
  yamlKey : string;
  f_kind : kind;
  f_get : Config -> kindType f_kind;
  f_set : kindType f_kind -> Config -> Config;
}.

(** The fields in declaration order, as reflection lists them *)
Definition configFields : list structField := [
  mkField "MQTT_LISTEN_ADDR" "listen_addr" KString ListenAddr (fun v c => c <| ListenAddr := v |>);
  mkField "MQTT_LISTEN_ADDRS" "listen_addrs" KSlice ListenAddrs (fun v c => c <| ListenAddrs := v |>);
  mkField "MQTT_WS_LISTEN_ADDRS" "ws_listen_addrs" KSlice WSListenAddrs (fun v c => c <| WSListenAddrs := v |>);
  mkField "MQTT_WSS_LISTEN_ADDRS" "wss_listen_addrs" KSlice WSSListenAddrs (fun v c => c <| WSSListenAddrs := v |>);
  mkField "MQTT_WS_LISTEN_ADDR" "ws_listen_addr" KString WSListenAddr (fun v c => c <| WSListenAddr := v |>);
  mkField "MQTT_WSS_LISTEN_ADDR" "wss_listen_addr" KString WSSListenAddr (fun v c => c <| WSSListenAddr := v |>);
  mkField "MQTT_TLS_ENABLED" "tls_enabled" KBool TLSEnabled (fun v c => c <| TLSEnabled := v |>);
  mkField "MQTT_TLS_CERT_FILE" "tls_cert_file" KString TLSCertFile (fun v c => c <| TLSCertFile := v |>);
  mkField "MQTT_TLS_KEY_FILE" "tls_key_file" KString TLSKeyFile (fun v c => c <| TLSKeyFile := v |>);
  mkField "MQTT_TLS_MIN_VERSION" "tls_min_version" KUint16 TLSMinVersion (fun v c => c <| TLSMinVersion := v |>);
  mkField "MQTT_TLS_MAX_VERSION" "tls_max_version" KUint16 TLSMaxVersion (fun v c => c <| TLSMaxVersion := v |>);
  mkField "MQTT_TLS_MUTUAL" "tls_mutual" KBool TLSMutual (fun v c => c <| TLSMutual := v |>);
  mkField "MQTT_TLS_CA_CERT_FILE" "tls_ca_cert_file" KString TLSCACertFile (fun v c => c <| TLSCACertFile := v |>);
  mkField "MQTT_CONNECT_TIMEOUT" "connect_timeout" KDuration ConnectTimeout (fun v c => c <| ConnectTimeout := v |>);
  mkField "MQTT_DRAIN_TIMEOUT" "drain_timeout" KDuration DrainTimeout (fun v c => c <| DrainTimeout := v |>);
  mkField "MQTT_KEEP_ALIVE" "keep_alive" KUint16 KeepAlive (fun v c => c <| KeepAlive := v |>);
  mkField "MQTT_MAX_PACKET_SIZE" "max_packet_size" KInt MaxPacketSize (fun v c => c <| MaxPacketSize := v |>);
  mkField "MQTT_MAX_CONNECTIONS" "max_connections" KInt MaxConnections (fun v c => c <| MaxConnections := v |>);
  mkField "MQTT_WRITE_QUEUE_SIZE" "write_queue_size" KInt WriteQueueSize (fun v c => c <| WriteQueueSize := v |>);
  mkField "MQTT_TCP_KEEPALIVE_PERIOD" "tcp_keepalive_period" KDuration TCPKeepAlivePeriod (fun v c => c <| TCPKeepAlivePeriod := v |>);
  mkField "MQTT_FLAPPING_ENABLED" "flapping_enabled" KBool FlappingEnabled (fun v c => c <| FlappingEnabled := v |>);
  mkField "MQTT_FLAPPING_MAX_CONNECTS" "flapping_max_connects" KInt FlappingMaxConnects (fun v c => c <| FlappingMaxConnects := v |>);
  mkField "MQTT_FLAPPING_WINDOW" "flapping_window" KDuration FlappingWindow (fun v c => c <| FlappingWindow := v |>);
  mkField "MQTT_FLAPPING_PENALTY_DURATION" "flapping_penalty_duration" KDuration FlappingPenaltyDuration (fun v c => c <| FlappingPenaltyDuration := v |>);
  mkField "MQTT_FLAPPING_MAX_TRACKED_CLIENTS" "flapping_max_tracked_clients" KInt FlappingMaxTrackedClients (fun v c => c <| FlappingMaxTrackedClients := v |>);
  mkField "MQTT_FLAPPING_CLEANUP_INTERVAL" "flapping_cleanup_interval" KDuration FlappingCleanupInterval (fun v c => c <| FlappingCleanupInterval := v |>);
  mkField "MQTT_QOS_RETRY_INTERVAL" "qos_retry_interval" KDuration QoSRetryInterval (fun v c => c <| QoSRetryInterval := v |>);
  mkField "MQTT_QOS_MAX_RETRIES" "qos_max_retries" KInt QoSMaxRetries (fun v c => c <| QoSMaxRetries := v |>);
  mkField "MQTT_QOS_MAX_INFLIGHT" "qos_max_inflight" KInt QoSMaxInflight (fun v c => c <| QoSMaxInflight := v |>);
  mkField "MQTT_SESSION_EXPIRY" "session_expiry_interval" KDuration SessionExpiryInterval (fun v c => c <| SessionExpiryInterval := v |>);
  mkField "MQTT_SYS_INTERVAL" "sys_interval" KDuration SysInterval (fun v c => c <| SysInterval := v |>);
  mkField "MQTT_STORAGE_BACKEND" "storage_backend" KString StorageBackend (fun v c => c <| StorageBackend := v |>);
  mkField "MQTT_REDIS_ADDR" "redis_addr" KString RedisAddr (fun v c => c <| RedisAddr := v |>);
  mkField "MQTT_REDIS_PASSWORD" "redis_password" KString RedisPassword (fun v c => c <| RedisPassword := v |>);
  mkField "MQTT_REDIS_DB" "redis_db" KInt RedisDB (fun v c => c <| RedisDB := v |>);
  mkField "MQTT_BADGER_PATH" "badger_path" KString BadgerPath (fun v c => c <| BadgerPath := v |>);
  mkField "MQTT_LOG_LEVEL" "log_level" KString LogLevel (fun v c => c <| LogLevel := v |>);
  mkField "MQTT_LOG_FORMAT" "log_format" KString LogFormat (fun v c => c <| LogFormat := v |>);
  mkField "MQTT_AUTH_FILE" "auth_file" KString AuthFile (fun v c => c <| AuthFile := v |>);
  mkField "MQTT_METRICS_ENABLED" "metrics_enabled" KBool MetricsEnabled (fun v c => c <| MetricsEnabled := v |>);
  mkField "MQTT_MANAGEMENT_ENABLED" "management_enabled" KBool ManagementEnabled (fun v c => c <| ManagementEnabled := v |>);
  mkField "MQTT_MANAGEMENT_TOKEN" "management_token" KString ManagementToken (fun v c => c <| ManagementToken := v |>);
  mkField "MQTT_METRICS_ADDR" "metrics_addr" KString MetricsAddr (fun v c => c <| MetricsAddr := v |>);
  mkField "MQTT_PPROF_ENABLED" "pprof_enabled" KBool PprofEnabled (fun v c => c <| PprofEnabled := v |>)].

Section Loader.
Context (fraction : Z -> Z -> Z -> Z).

(** setField, the value it parses *)
Definition parseField (k : kind) (val : bytes) : res (kindType k) :=
  match k with
  | KString => Ok val
  | KBool =>
      let v := ToLower val in
      if isText v "true" || isText v "1" || isText v "yes" then Ok true
      else if isText v "false" || isText v "0" || isText v "no" then Ok false
      else Err (ErrText "invalid bool value")
  | KInt => match ParseInt val 64 with Ok n => Ok n | Err _ => Err (ErrText "invalid int value") end
  | KDuration => ParseDuration fraction val
  | KUint16 => match ParseUint val 16 with Ok n => Ok n | Err _ => Err (ErrText "invalid uint value") end
  | KSlice => Err (ErrText "unsupported field type: slice")
  end.

Definition setField (f : structField) (val : bytes) (c : Config) : res Config :=
  v ← parseField (f_kind f) val; Ok (f_set f v c).

(** loadEnv: the fields in order, up to the first value that does not parse; the
    configuration keeps what was set before the error. *)
Fixpoint loadEnvLoop (LookupEnv : string -> option bytes) (fs : list structField) (c : Config) : res unit * Config :=
  match fs with
  | [] => (Ok tt, c)
  | f :: rest =>
      if bool_decide (envKey f = "") then loadEnvLoop LookupEnv rest c else
      match LookupEnv (envKey f) with
      | None => loadEnvLoop LookupEnv rest c
      | Some val =>
          match setField f val c with
          | Err e => (Err e, c)
          | Ok c' => loadEnvLoop LookupEnv rest c'
          end
      end
  end.

Definition loadEnv (LookupEnv : string -> option bytes) (c : Config) : res unit * Config :=
  loadEnvLoop LookupEnv configFields c.

(** ApplyEnv *)
Definition ApplyEnv := loadEnv.

Context (ReadFile : bytes -> res bytes).
Context (yamlUnmarshal : bytes -> Config -> res Config).

(** loadFile: only the extension .toml is refused *)
Definition loadFile (filePath : bytes) (c : Config) : res Config :=
  data ← ReadFile filePath;
  if HasSuffix filePath (str ".yaml") || HasSuffix filePath (str ".yml") then yamlUnmarshal data c
  else if HasSuffix filePath (str ".toml") then Err (ErrText "TOML format is not supported; use .yaml or .yml")
  else yamlUnmarshal data c.

(** Load *)
Definition Load (LookupEnv : string -> option bytes) (filePath : bytes) : res Config :=
  match loadEnv LookupEnv DefaultConfig with
  | (Err e, _) => Err e
  | (Ok _, c) => if negb (isEmpty filePath) then loadFile filePath c else Ok c
  end.
End Loader.
