(* ===== verification/ConfigFields.v ===== *)
(** * The fields of a configuration and the environment

    Reading a field after setting another one, for every pair of fields of the
    Config struct, and what loadEnv does to each field. *)

From S2P Require Import Prelude Strconv Duration Config.
Open Scope Z_scope.

(** ** Fields are independent *)

Lemma fields_keys : NoDup (envKey <$> configFields).
Proof. apply (bool_decide_unpack (NoDup (envKey <$> configFields))). vm_compute. exact I. Qed.

Lemma fields_named : Forall (fun f => envKey f <> "") configFields.
Proof. repeat (apply Forall_cons_2; [discriminate|]). apply Forall_nil_2. Qed.

Lemma fields_get_set : Forall (fun f => forall v c, f_get f (f_set f v c) = v) configFields.
Proof. repeat (constructor; [intros v c; reflexivity|]). constructor. Qed.

(** Setting [g] leaves every field with another key alone. *)
Definition framed (g f : structField) : Prop := envKey f <> envKey g -> forall v c, f_get f (f_set g v c) = f_get f c.

Ltac frame_field := let H := fresh in first [intros H v c; reflexivity | intros H; exact (False_ind _ (H eq_refl))].

Lemma fields_frame : Forall (fun g => Forall (framed g) configFields) configFields.
Proof.
  unfold configFields at 2. repeat (apply Forall_cons_2; [unfold configFields; repeat (apply Forall_cons_2; [frame_field|]); apply Forall_nil_2|]).
  apply Forall_nil_2.
Qed.

Lemma field_same_key f g : f ∈ configFields -> g ∈ configFields -> envKey f = envKey g -> f = g.
Proof.
  intros [i Hi]%list_elem_of_lookup [j Hj]%list_elem_of_lookup E.
  assert (i = j) as ->; [|congruence].
  apply (NoDup_lookup (envKey <$> configFields) i j (envKey f) fields_keys); rewrite list_lookup_fmap; [by rewrite Hi | by rewrite Hj, E].
Qed.

#[local] Opaque configFields.

Section Sources.
Context (fraction : Z -> Z -> Z -> Z).
Context (env : string -> option bytes).

(** A variable that is set and does not parse *)
Definition bad_variable (f : structField) : Prop :=
  exists s e, env (envKey f) = Some s /\ parseField fraction (f_kind f) s = Err e.

(** The value the environment gives a field *)
Definition envValue (f : structField) : option (kindType (f_kind f)) :=
  s ← env (envKey f); match parseField fraction (f_kind f) s with Ok v => Some v | Err _ => None end.

Lemma loadEnvLoop_spec fs c :
  (forall f, f ∈ fs -> f ∈ configFields) -> NoDup (envKey <$> fs) -> Forall (fun f => envKey f <> "") fs ->
  match loadEnvLoop fraction env fs c with
  | (Ok _, c') =>
      (forall f, f ∈ fs -> ~ bad_variable f) /\
      (forall f, f ∈ configFields -> f ∈ fs -> f_get f c' = default (f_get f c) (envValue f)) /\
      (forall f, f ∈ configFields -> f ∉ fs -> f_get f c' = f_get f c)
  | (Err _, _) => exists f, f ∈ fs /\ bad_variable f
  end.
Proof.
  intros Hin Hnd Hne. revert c. induction fs as [|g fs IH]; intros c; cbn [loadEnvLoop].
  { split_and!; [by intros f ?%elem_of_nil | by intros f _ ?%elem_of_nil | done]. }
  apply NoDup_cons in Hnd as [Hg Hnd]. apply Forall_cons in Hne as [Hkey Hne].
  assert (g ∈ configFields) as Hgc by (apply Hin, elem_of_cons; by left).
  assert (g ∉ fs) as Hgfs by (intros H; apply Hg; apply list_elem_of_fmap; eauto).
  specialize (IH (fun f Hf => Hin f (proj2 (elem_of_cons _ _ _) (or_intror Hf))) Hnd Hne). rewrite bool_decide_false by done.
  destruct (env (envKey g)) as [s|] eqn:Eenv.
  - unfold setField. destruct (parseField fraction (f_kind g) s) as [v|e] eqn:Ep; cbn [mbind res_bind];
      [|exists g; split; [apply elem_of_cons; by left | by exists s, e]].
    specialize (IH (f_set g v c)). destruct (loadEnvLoop _ _ fs _) as [[[]|e] c']; [|destruct IH as (f & Hf & Hbad); exists f; split; [apply elem_of_cons; by right | done]].
    destruct IH as (Hok & Hset & Hkeep).
    pose proof (proj1 (Forall_forall _ _) fields_get_set g Hgc v c) as Hgs.
    assert (forall f, f ∈ configFields -> f <> g -> f_get f (f_set g v c) = f_get f c) as Hfr.
    { intros f Hf Hfg. refine (proj1 (Forall_forall _ _) (proj1 (Forall_forall _ _) fields_frame g Hgc) f Hf _ v c).
      intros E. apply Hfg. by apply field_same_key. }
    split_and!.
    + intros f [-> | Hf]%elem_of_cons; [|by apply Hok]. intros (s' & e & Hs' & He). congruence.
    + intros f Hf [-> | Hfs]%elem_of_cons.
      * rewrite (Hkeep g Hgc Hgfs), Hgs. unfold envValue. rewrite Eenv. cbn. by rewrite Ep.
      * rewrite (Hset f Hf Hfs), Hfr; [done | done | by intros ->].
    + intros f Hf [Hfg Hfs]%not_elem_of_cons. by rewrite (Hkeep f Hf Hfs), Hfr.
  - specialize (IH c). destruct (loadEnvLoop _ _ fs _) as [[[]|e] c']; [|destruct IH as (f & Hf & Hbad); exists f; split; [apply elem_of_cons; by right | done]]. destruct IH as (Hok & Hset & Hkeep).
    split_and!.
    + intros f [-> | Hf]%elem_of_cons; [|by apply Hok]. intros (s' & e & Hs' & He). congruence.
    + intros f Hf [-> | Hfs]%elem_of_cons; [|by apply Hset]. rewrite (Hkeep g Hgc Hgfs). unfold envValue. by rewrite Eenv.
    + intros f Hf [Hfg Hfs]%not_elem_of_cons. by apply Hkeep.
Qed.

(** The environment decides exactly the fields it names; the first value that does
    not parse fails the load. *)
Lemma loadEnv_spec c :
  match loadEnv fraction env c with
  | (Ok _, c') =>
      (forall f, f ∈ configFields -> ~ bad_variable f) /\
      (forall f, f ∈ configFields -> f_get f c' = default (f_get f c) (envValue f))
  | (Err _, _) => exists f, f ∈ configFields /\ bad_variable f
  end.
Proof.
  pose proof (loadEnvLoop_spec configFields c) as H. unfold loadEnv.
  specialize (H ltac:(done) fields_keys fields_named).
  destruct (loadEnvLoop _ _ _ _) as [[u|e] c']; [|done]. destruct H as (Hok & Hset & _). eauto.
Qed.
End Sources.
