(* ===== verification/ConfigProps.v ===== *)
(** * What a loaded and a validated configuration guarantee

    The sources of a configuration value and their precedence, the addresses a
    validated configuration binds, and the TLS settings it yields. *)

From S2P Require Import Prelude Strconv Duration Config ConfigFields.
Open Scope Z_scope.

(** ** Load *)

(** What the loader relies on of the YAML library: decoding into a struct sets the
    fields the document has and leaves the others alone. *)
Class YamlLaws (yamlUnmarshal : bytes -> Config -> res Config) (docValue : bytes -> forall f, option (kindType (f_kind f))) :=
  yaml_sets : forall data c c', yamlUnmarshal data c = Ok c' ->
    forall f, f ∈ configFields -> f_get f c' = default (f_get f c) (docValue data f).

Section Load.
Context (fraction : Z -> Z -> Z -> Z) (env : string -> option bytes) (ReadFile : bytes -> res bytes).
Context (yamlUnmarshal : bytes -> Config -> res Config) (docValue : bytes -> forall f, option (kindType (f_kind f))).
Context `{!YamlLaws yamlUnmarshal docValue}.

(** The value the file gives a field *)
Definition fileValue (path : bytes) (f : structField) : option (kindType (f_kind f)) :=
  if isEmpty path then None else match ReadFile path with Ok data => docValue data f | Err _ => None end.

(** What fails a load *)
Definition load_problem (path : bytes) : Prop :=
  (exists f, f ∈ configFields /\ bad_variable fraction env f) \/
  (path <> [] /\ ((exists e, ReadFile path = Err e) \/ HasSuffix path (str ".toml") = true \/
     exists data e, ReadFile path = Ok data /\ yamlUnmarshal data (snd (loadEnv fraction env DefaultConfig)) = Err e)).

Lemma Load_spec path :
  match Load fraction ReadFile yamlUnmarshal env path with
  | Ok c =>
      (forall f, f ∈ configFields -> ~ bad_variable fraction env f) /\
      forall f, f ∈ configFields ->
        f_get f c = default (default (f_get f DefaultConfig) (envValue fraction env f)) (fileValue path f)
  | Err _ => load_problem path
  end.
Proof.
  unfold Load, load_problem. pose proof (loadEnv_spec fraction env DefaultConfig) as He.
  destruct (loadEnv fraction env DefaultConfig) as [[u|e] c] eqn:El; [|by left]. destruct He as [Hok Hval].
  unfold fileValue. destruct path as [|x path]; cbn [isEmpty negb]; [by split|].
  unfold loadFile. destruct (ReadFile (x :: path)) as [data|e] eqn:Er; cbn [mbind res_bind]; [|right; split; [done | left; eauto]].
  set (y := HasSuffix _ (str ".yaml") || HasSuffix _ (str ".yml")).
  assert ((if y then yamlUnmarshal data c else if HasSuffix (x :: path) (str ".toml") then Err (ErrText "TOML format is not supported; use .yaml or .yml")
           else yamlUnmarshal data c) = yamlUnmarshal data c \/
          (HasSuffix (x :: path) (str ".toml") = true /\
           (if y then yamlUnmarshal data c else if HasSuffix (x :: path) (str ".toml") then Err (ErrText "TOML format is not supported; use .yaml or .yml")
            else yamlUnmarshal data c) = Err (ErrText "TOML format is not supported; use .yaml or .yml"))) as [-> | [Ht ->]]
    by (destruct y, (HasSuffix (x :: path) (str ".toml")); auto).
  - destruct (yamlUnmarshal data c) as [c'|e] eqn:Ey; [|right; split; [done|]; right; right; exists data, e; split; [done | by cbn]].
    split; [done|]. intros f Hf. rewrite (yaml_sets data c c' Ey f Hf), (Hval f Hf). done.
  - right. split; [done | by right; left].
Qed.
End Load.

(** ** Listen addresses *)

Lemma dedupLoop_spec seen addrs :
  NoDup (dedupLoop seen addrs) /\ (forall a, a ∈ dedupLoop seen addrs <-> a ∈ addrs /\ a <> [] /\ a ∉ seen) /\
  sublist (dedupLoop seen addrs) addrs.
Proof.
  revert seen. induction addrs as [|x addrs IH]; intros seen; cbn [dedupLoop].
  { split_and!; [constructor | intros a; rewrite elem_of_nil; tauto | constructor]. }
  destruct (bool_decide (x = [])) eqn:Ex; [apply bool_decide_eq_true in Ex as ->|apply bool_decide_eq_false in Ex;
    destruct (bool_decide (x ∈ seen)) eqn:Es; [apply bool_decide_eq_true in Es | apply bool_decide_eq_false in Es]].
  - destruct (IH seen) as (Hn & Hin & Hs). split_and!; [done | intros a; rewrite Hin, elem_of_cons; naive_solver | by constructor].
  - destruct (IH seen) as (Hn & Hin & Hs). split_and!; [done | intros a; rewrite Hin, elem_of_cons; naive_solver | by constructor].
  - destruct (IH ({[x]} ∪ seen)) as (Hn & Hin & Hs). split_and!.
    + constructor; [|done]. rewrite Hin. set_solver.
    + intros a. rewrite !elem_of_cons, Hin. destruct (decide (a = x)) as [-> | Hne]; [naive_solver | set_solver].
    + by constructor.
Qed.

(** The addresses bound for one transport: the list when it has entries, the
    scalar setting otherwise *)
Definition configured (scalar : bytes) (addrs : list bytes) : list bytes := match addrs with [] => [scalar] | _ => addrs end.

Lemma effective_spec scalar addrs eff :
  eff = match addrs with [] => if bool_decide (scalar = []) then [] else [scalar] | _ => dedupAddrs addrs end ->
  NoDup eff /\ (forall a, a ∈ eff <-> a ∈ configured scalar addrs /\ a <> []) /\ sublist eff (configured scalar addrs).
Proof.
  intros ->. destruct addrs as [|x addrs]; cbn [configured].
  - destruct (bool_decide (scalar = [])) eqn:E; [apply bool_decide_eq_true in E as ->|apply bool_decide_eq_false in E].
    + split_and!; [constructor | intros a; rewrite elem_of_nil, list_elem_of_singleton; naive_solver | apply sublist_nil_l].
    + split_and!; [apply NoDup_singleton | intros a; rewrite list_elem_of_singleton; naive_solver | done].
  - destruct (dedupLoop_spec ∅ (x :: addrs)) as (Hn & Hin & Hs). split_and!; [done | | done].
    intros a. unfold dedupAddrs. rewrite Hin. set_solver.
Qed.

(** ** Validate *)

Lemma no_problem (b : bool) (msg : string) : (if b then [msg] else []) = [] -> b = false.
Proof. by destruct b. Qed.

Lemma isEmpty_false {A} (s : list A) : isEmpty s = false <-> s <> [].
Proof. by destruct s. Qed.

Ltac split_problems H :=
  repeat match type of H with
  | _ ++ _ = [] => let H' := fresh "Hok" in apply app_eq_nil in H as [H' H]
  end.

Record valid_config (c : Config) : Prop := {
  vc_listen : EffectiveListenAddrs c <> [];
  vc_management : ManagementEnabled c = true -> ManagementToken c <> [] \/
    HasPrefix (MetricsAddr c) (str "127.0.0.1") = true \/ HasPrefix (MetricsAddr c) (str "localhost") = true;
  vc_pprof : PprofEnabled c = true -> HasPrefix (MetricsAddr c) (str "127.0.0.1") = true \/
    HasPrefix (MetricsAddr c) (str "localhost") = true \/ HasPrefix (MetricsAddr c) (str "[::1]") = true;
  vc_wss : EffectiveWSSListenAddrs c <> [] -> TLSEnabled c = true;
  vc_packet : 0 < MaxPacketSize c;
  vc_connections : 0 <= MaxConnections c;
  vc_queue : 0 <= WriteQueueSize c;
  vc_keepalive : 0 <= TCPKeepAlivePeriod c;
  vc_sys : 0 <= SysInterval c;
  vc_retries : 0 <= QoSMaxRetries c;
  vc_inflight : 0 < QoSMaxInflight c;
  vc_interval : 0 < QoSRetryInterval c;
  vc_tls : TLSEnabled c = true ->
    TLSCertFile c <> [] /\ TLSKeyFile c <> [] /\ (TLSMutual c = true -> TLSCACertFile c <> []);
  vc_versions : 0 < TLSMinVersion c -> 0 < TLSMaxVersion c -> TLSMinVersion c <= TLSMaxVersion c;
  vc_backend : StorageBackend c ∈ [[]; str "memory"; str "redis"; str "badger"];
}.

Lemma Validate_valid c : Validate c = [] -> valid_config c.
Proof.
  unfold Validate. intros H. split_problems H.
  repeat match goal with E : (if ?b then [_] else []) = [] |- _ => apply no_problem in E end.
  split.
  all: try (match goal with E : ?x <=? 0 = false |- 0 < ?x => apply Z.leb_gt in E; exact E
            | E : ?x <? 0 = false |- 0 <= ?x => apply Z.ltb_ge in E; exact E end).
  - by apply isEmpty_false.
  - intros Hm. rewrite Hm in Hok0. cbn [andb] in Hok0. rewrite !andb_false_iff, !negb_false_iff, isEmpty_false in Hok0. tauto.
  - intros Hm. rewrite Hm in Hok1. cbn [andb] in Hok1. rewrite !andb_false_iff, !negb_false_iff in Hok1. tauto.
  - intros Hw%isEmpty_false. rewrite Hw in Hok2. by destruct (TLSEnabled c).
  - intros Ht. rewrite Ht in Hok11. split_problems Hok11. apply no_problem in Hok16, Hok17, Hok11.
    rewrite isEmpty_false in Hok16, Hok17. split_and!; [done..|]. intros Hm. rewrite Hm in Hok11. by apply isEmpty_false in Hok11.
  - intros H1%Z.ltb_lt H2%Z.ltb_lt. rewrite H1, H2 in Hok13. by apply Z.ltb_ge in Hok13.
  - apply negb_false_iff in Hok14. unfold isText in Hok14. rewrite !orb_true_iff, !bool_decide_eq_true in Hok14.
    rewrite !elem_of_cons, elem_of_nil. destruct Hok14 as [[[? | ?] | ?] | E]; [tauto..|]. destruct (StorageBackend c); [tauto | done].
Qed.

Section Validated.
Context {Cert Pool : Type}.
Context (LoadX509KeyPair : bytes -> bytes -> res Cert) (ReadFile : bytes -> res bytes) (certPool : bytes -> option Pool).

End Validated.

(** The default configuration with TLS, two listen addresses and a repeated one *)
Definition sample_tls_config : Config :=
  DefaultConfig <| TLSEnabled := true |> <| TLSCertFile := str "cert" |> <| TLSKeyFile := str "key" |>
    <| ListenAddrs := [str ":1883"; []; str ":1884"; str ":1883"] |> <| TLSMutual := true |> <| TLSCACertFile := str "ca" |>.

