(* ===== verification/Server.v ===== *)
(** * The network server: broker/server.go and broker/options_server.go

    The server's fields, the sockets it opened, and the goroutines that serve
    them: one accept loop per TCP listener, one goroutine per registered
    connection, and the HTTP handlers that upgrade WebSocket requests.  [step] runs
    one goroutine, or the caller of Start and Stop, from one access to shared state
    to the next, in any order the environment picks.  What a connection's handler
    does with it is in Handshake.v; here it only ends. *)

From S2P Require Import Prelude Strconv Duration Config.
Open Scope Z_scope.

(** ** options_server.go *)

Record serverOpts := mkServerOpts {
  so_tlsConfig : bool;
  so_writeBufferSize : Z;
  so_readBufferSize : Z;
  so_maxPacketSize : Z;
  so_maxPacketSizeSet : bool;
  so_keepAlive : Z;
  so_connectTimeout : Z;
  so_listener : option Z;
}.

#[export] Instance serverOpts_eta : Eta serverOpts := fun o =>
  mkServerOpts (so_tlsConfig o) (so_writeBufferSize o) (so_readBufferSize o) (so_maxPacketSize o) (so_maxPacketSizeSet o)
    (so_keepAlive o) (so_connectTimeout o) (so_listener o).

Definition defaultServerOptions : serverOpts := mkServerOpts false 4096 4096 268435455 false 0 (5 * second) None.

Definition ServerOption := serverOpts -> serverOpts.
Definition WithTLSConfig (set : bool) : ServerOption := fun o => o <| so_tlsConfig := set |>.
Definition WithWriteBufferSize (n : Z) : ServerOption := fun o => o <| so_writeBufferSize := n |>.
Definition WithReadBufferSize (n : Z) : ServerOption := fun o => o <| so_readBufferSize := n |>.
Definition WithMaxPacketSize (n : Z) : ServerOption := fun o => o <| so_maxPacketSize := n |> <| so_maxPacketSizeSet := true |>.
Definition WithKeepAlive (d : Z) : ServerOption := fun o => o <| so_keepAlive := d |>.
Definition WithConnectTimeout (d : Z) : ServerOption := fun o => o <| so_connectTimeout := d |>.
Definition WithListener (ln : option Z) : ServerOption := fun o => o <| so_listener := ln |>.

(** ** State *)

Record wsEndpoint := { ws_ln : Z; ws_tls : bool }.

(** Where a goroutine stands: an accept loop between its accesses to the shared
    counters, a WebSocket handler after its upgrade, a connection goroutine while
    its handler runs and after it left the count, and one that has returned *)
Inductive Point :=
  | Accepting (ln : Z)
  | AtCheck (ln conn : Z)
  | AtAdd (ln conn : Z)
  | AtInsert (ln conn : Z)
  | AtRegister (ln conn : Z)
  | WsAdd (conn : Z)
  | WsInsert (conn : Z)
  | WsRegister (conn : Z)
  | Serving (ws : bool) (conn : Z)
  | Leaving (ws : bool) (conn : Z)
  | Done.

(** How far a call of Stop has come *)
Inductive StopPoint := NotStopping | StopCancelled | StopConnsClosed | StopWaiting.

(** MQTTServer; then the addresses of the listeners, those that are open, the open
    connections, the next socket, the goroutines, the call of Stop; then counters
    of events that the code does not keep: connections refused because the server
    was closing, accept loops started, and WebSocket connections in the count. *)
Record MQTTServer := mkServer {
  s_cfg : Config;
  s_listener : option Z;
  s_listeners : list Z;
  connCount : Z;
  earlyClose : Z;
  s_tls : bool;
  tlsErr : option err;
  s_started : bool;
  ctxDone : bool;
  wg : Z;
  closing : bool;
  conns : gset Z;
  wsEndpoints : list wsEndpoint;
  s_connectTimeout : Z;
  s_maxPacketSize : Z;
  lnAddrs : gmap Z bytes;
  openLns : gset Z;
  openConns : gset Z;
  nextSocket : Z;
  threads : list Point;
  stopPoint : StopPoint;
  refused : Z;
  loops : Z;
  wsCounted : Z;
}.

#[export] Instance MQTTServer_eta : Eta MQTTServer := fun s =>
  mkServer (s_cfg s) (s_listener s) (s_listeners s) (connCount s) (earlyClose s) (s_tls s) (tlsErr s) (s_started s)
    (ctxDone s) (wg s) (closing s) (conns s) (wsEndpoints s) (s_connectTimeout s) (s_maxPacketSize s) (lnAddrs s) (openLns s) (openConns s)
    (nextSocket s) (threads s) (stopPoint s) (refused s) (loops s) (wsCounted s).

(** NewMQTTServer; [tls] is what cfg.TLSConfig returned: whether there is a
    configuration, or its error *)
Definition NewMQTTServer (cfg : Config) (tls : res bool) (opts : list ServerOption) : MQTTServer :=
  let o := foldl (fun o f => f o) defaultServerOptions opts in
  let '(hasTLS, e) :=
    if so_tlsConfig o then (true, None)
    else if TLSEnabled cfg then match tls with Ok b => (b, None) | Err e => (false, Some e) end
    else (false, None) in
  let ct := if 0 <? ConnectTimeout cfg then ConnectTimeout cfg else so_connectTimeout o in
  let mps := if negb (so_maxPacketSizeSet o) && (0 <? MaxPacketSize cfg) then MaxPacketSize cfg else so_maxPacketSize o in
  {| s_cfg := cfg; s_listener := so_listener o; s_listeners := []; connCount := 0; earlyClose := 0; s_tls := hasTLS;
     tlsErr := e; s_started := false; ctxDone := false; wg := 0; closing := false; conns := ∅; wsEndpoints := [];
     s_connectTimeout := ct; s_maxPacketSize := mps;
     lnAddrs := ∅; openLns := match so_listener o with Some ln => {[ln]} | None => ∅ end; openConns := ∅;
     nextSocket := match so_listener o with Some ln => ln + 1 | None => 0 end; threads := []; stopPoint := NotStopping;
     refused := 0; loops := 0; wsCounted := 0 |}.

(** ** Start *)

(** net.Listen *)
Definition listen (a : bytes) (s : MQTTServer) : MQTTServer :=
  s <| openLns := {[nextSocket s]} ∪ openLns s |> <| lnAddrs := <[nextSocket s := a]> (lnAddrs s) |>
    <| nextSocket := nextSocket s + 1 |>.

Definition closeListeners (lns : list Z) (s : MQTTServer) : MQTTServer := s <| openLns := openLns s ∖ list_to_set lns |>.

(** net.Listen on each address in order; on a failure what was bound is closed *)
Fixpoint bindAll (bind : bytes -> bool) (addrs : list bytes) (bound : list Z) (s : MQTTServer) : res (list Z) * MQTTServer :=
  match addrs with
  | [] => (Ok bound, s)
  | a :: rest =>
      if bind a then
        bindAll bind rest (bound ++ [nextSocket s]) (listen a s)
      else (Err (ErrText "server: failed to listen"), closeListeners bound s)
  end.

(** addConnGoroutine *)
Definition addConnGoroutine (s : MQTTServer) : bool * MQTTServer :=
  if closing s then (false, s) else (true, s <| wg := wg s + 1 |>).

(** The loop that starts one accept loop per listener *)
Fixpoint startLoops (lns : list Z) (s : MQTTServer) : MQTTServer :=
  match lns with
  | [] => s
  | ln :: rest =>
      match addConnGoroutine s with
      | (false, s) => s
      | (true, s) => startLoops rest (s <| threads := threads s ++ [Accepting ln] |> <| loops := loops s + 1 |>)
      end
  end.

(** startWS for each address *)
Fixpoint startWS (bind : bytes -> bool) (tls : bool) (addrs : list bytes) (s : MQTTServer) : res unit * MQTTServer :=
  match addrs with
  | [] => (Ok tt, s)
  | a :: rest =>
      if tls && negb (s_tls s) then (Err (ErrText "server: wss_listen_addr(s) requires TLS to be configured (tls_enabled)"), s)
      else if bind a then
        startWS bind tls rest
          (listen a s <| wsEndpoints := wsEndpoints s ++ [{| ws_ln := nextSocket s; ws_tls := tls |}] |>)
      else (Err (ErrText "server: failed to listen on ws"), s)
  end.

(** Start; [bind] says which addresses net.Listen can bind.  The rollback of a
    WebSocket failure closes the TCP listeners bound here. *)
Definition Start (bind : bytes -> bool) (s : MQTTServer) : res unit * MQTTServer :=
  let s := s <| closing := false |> in
  if s_started s then (Err (ErrText "server already started"), s) else
  let s := s <| s_started := true |> in
  match tlsErr s with
  | Some e => (Err e, s)
  | None =>
      let s := s <| ctxDone := false |> in
      let addrs := EffectiveListenAddrs (s_cfg s) in
      let listening :=
        match s_listener s with
        | Some ln => (Ok [], s <| s_listeners := [ln] |>)
        | None =>
            if isEmpty addrs then (Err (ErrText "server: no listen address configured"), s) else
            match bindAll bind addrs [] s with
            | (Err e, s) => (Err e, s)
            | (Ok bound, s) => (Ok bound, s <| s_listener := head bound |> <| s_listeners := bound |>)
            end
        end in
      match listening with
      | (Err e, s) => (Err e, s)
      | (Ok bound, s) =>
          let s := startLoops (s_listeners s) s in
          let '(r, s) := match startWS bind false (EffectiveWSListenAddrs (s_cfg s)) s with
                         | (Ok _, s) => startWS bind true (EffectiveWSSListenAddrs (s_cfg s)) s
                         | r => r
                         end in
          match r with
          | Ok _ => (Ok tt, s)
          | Err e => (Err e, closeListeners bound s)
          end
      end
  end.

(** ** Addresses *)

Definition Addrs (s : MQTTServer) : list bytes := omap (fun ln => lnAddrs s !! ln) (s_listeners s).
Definition Addr (s : MQTTServer) : option bytes := ln ← s_listener s; lnAddrs s !! ln.
Definition endpointAddr (tls : bool) (s : MQTTServer) : option bytes :=
  ep ← List.find (fun ep => Bool.eqb (ws_tls ep) tls) (wsEndpoints s); lnAddrs s !! ws_ln ep.
Definition WSAddr := endpointAddr false.
Definition WSSAddr := endpointAddr true.
Definition ConnCount (s : MQTTServer) : Z := connCount s.

(** ** Goroutines *)

(** What the environment decides: a call of Start, the progress of a call of Stop,
    and a goroutine's next step *)
Inductive Action :=
  | DoStart (bind : bytes -> bool)
  | DoStop
  | AcceptConn (t : nat)
  | AcceptError (t : nat)
  | WsUpgrade (ep : nat)
  | Run (t : nat)
  | HandlerEnds (t : nat) (err : option err).

Definition setThread (t : nat) (p : Point) (s : MQTTServer) : MQTTServer := s <| threads := <[t := p]> (threads s) |>.
Definition closeConn (c : Z) (s : MQTTServer) : MQTTServer := s <| openConns := openConns s ∖ {[c]} |>.

(** Stop, in its four pieces: cancel and close the listeners; close the
    registered connections; stop admitting; wait for the goroutines *)
Definition stopStep (s : MQTTServer) : option MQTTServer :=
  match stopPoint s with
  | NotStopping =>
      Some (closeListeners (s_listeners s ++ option_list (s_listener s) ++ (ws_ln <$> wsEndpoints s))
              (s <| ctxDone := true |> <| stopPoint := StopCancelled |>))
  | StopCancelled => Some (s <| openConns := openConns s ∖ conns s |> <| conns := ∅ |> <| stopPoint := StopConnsClosed |>)
  | StopConnsClosed => Some (s <| closing := true |> <| stopPoint := StopWaiting |>)
  | StopWaiting =>
      if wg s =? 0 then
        Some (s <| s_listener := None |> <| s_listeners := [] |> <| s_started := false |> <| stopPoint := NotStopping |>)
      else None
  end.

(** acceptLoop: a new connection; or an error, which ends the loop once the server
    is stopping or the listener is closed *)
Definition acceptConn (t : nat) (s : MQTTServer) : option MQTTServer :=
  match threads s !! t with
  | Some (Accepting ln) =>
      if bool_decide (ln ∈ openLns s) then
        let c := nextSocket s in
        Some (setThread t (AtCheck ln c) (s <| openConns := {[c]} ∪ openConns s |> <| nextSocket := c + 1 |>))
      else None
  | _ => None
  end.

Definition acceptError (t : nat) (s : MQTTServer) : option MQTTServer :=
  match threads s !! t with
  | Some (Accepting ln) =>
      if ctxDone s || negb (bool_decide (ln ∈ openLns s)) then Some (setThread t Done (s <| wg := wg s - 1 |>))
      else Some s
  | _ => None
  end.

(** wsHandler: the upgrade of a request to an open endpoint, in a goroutine of the
    HTTP server *)
Definition wsUpgrade (ep : nat) (s : MQTTServer) : option MQTTServer :=
  e ← wsEndpoints s !! ep;
  if bool_decide (ws_ln e ∈ openLns s) then
    let c := nextSocket s in
    Some (s <| openConns := {[c]} ∪ openConns s |> <| nextSocket := c + 1 |> <| threads := threads s ++ [WsAdd c] |>)
  else None.

(** The next piece of acceptLoop, of wsHandler, or of the deferred calls of a
    connection goroutine *)
Definition runThread (t : nat) (s : MQTTServer) : option MQTTServer :=
  match threads s !! t with
  | Some (AtCheck ln c) =>
      if (0 <? MaxConnections (s_cfg s)) && (MaxConnections (s_cfg s) <=? connCount s)
      then Some (setThread t (Accepting ln) (closeConn c s))
      else Some (setThread t (AtAdd ln c) s)
  | Some (AtAdd ln c) => Some (setThread t (AtInsert ln c) (s <| connCount := connCount s + 1 |>))
  | Some (AtInsert ln c) => Some (setThread t (AtRegister ln c) (s <| conns := {[c]} ∪ conns s |>))
  | Some (AtRegister ln c) =>
      match addConnGoroutine s with
      | (false, s) => Some (setThread t Done (closeConn c (s <| wg := wg s - 1 |> <| refused := refused s + 1 |>)))
      | (true, s) => Some (s <| threads := <[t := Accepting ln]> (threads s) ++ [Serving false c] |>)
      end
  | Some (WsAdd c) =>
      Some (setThread t (WsInsert c) (s <| connCount := connCount s + 1 |> <| wsCounted := wsCounted s + 1 |>))
  | Some (WsInsert c) => Some (setThread t (WsRegister c) (s <| conns := {[c]} ∪ conns s |>))
  | Some (WsRegister c) =>
      match addConnGoroutine s with
      | (false, s) => Some (setThread t Done (closeConn c (s <| refused := refused s + 1 |>)))
      | (true, s) => Some (setThread t (Serving true c) s)
      end
  | Some (Leaving ws c) =>
      Some (setThread t Done (closeConn c (s <| conns := conns s ∖ {[c]} |> <| wg := wg s - 1 |>)))
  | _ => None
  end.

(** The handler of a connection returns; an end of stream before the CONNECT is
    counted for TCP connections only. *)
Definition handlerEnds (t : nat) (e : option err) (s : MQTTServer) : option MQTTServer :=
  match threads s !! t with
  | Some (Serving ws c) =>
      let s := if negb ws && match e with Some ErrEOF => true | _ => false end
               then s <| earlyClose := earlyClose s + 1 |> else s in
      let s := if ws then closeConn c s <| wsCounted := wsCounted s - 1 |> else s in
      Some (setThread t (Leaving ws c) (s <| connCount := connCount s - 1 |>))
  | _ => None
  end.

Definition step (a : Action) (s : MQTTServer) : option MQTTServer :=
  match a with
  | DoStart bind => match stopPoint s with NotStopping => Some (snd (Start bind s)) | _ => None end
  | DoStop => stopStep s
  | AcceptConn t => acceptConn t s
  | AcceptError t => acceptError t s
  | WsUpgrade ep => wsUpgrade ep s
  | Run t => runThread t s
  | HandlerEnds t e => handlerEnds t e s
  end.

Fixpoint run (acts : list Action) (s : MQTTServer) : option MQTTServer :=
  match acts with
  | [] => Some s
  | a :: rest => s' ← step a s; run rest s'
  end.
