(* ===== verification/ServerProps.v ===== *)
(** * What the network server guarantees

    The accounting of goroutines and connections over every interleaving, the
    connection limit, what Stop and a failed Start leave behind. *)

From S2P Require Import Prelude Strconv Duration Config ConfigProps Server.
Open Scope Z_scope.

(** ** Counting goroutines *)

Fixpoint weight (f : Point -> Z) (l : list Point) : Z := match l with [] => 0 | p :: l' => f p + weight f l' end.

Lemma weight_app f l l' : weight f (l ++ l') = weight f l + weight f l'.
Proof. induction l as [|p l IH]; cbn; [done|]. rewrite IH. lia. Qed.

Lemma weight_insert f l i p q : l !! i = Some p -> weight f (<[i := q]> l) = weight f l - f p + f q.
Proof.
  revert i. induction l as [|x l IH]; intros [|i] H; [done | done | cbn in *; simplify_eq; lia |].
  change (l !! i = Some p) in H. change (f x + weight f (<[i := q]> l) = f x + weight f l - f p + f q). rewrite (IH i H). lia.
Qed.

Lemma weight_le f g l : (forall p, f p <= g p) -> weight f l <= weight g l.
Proof. intros H. induction l as [|p l IH]; cbn; [done|]. specialize (H p). lia. Qed.

Lemma weight_nonneg f l : (forall p, 0 <= f p) -> 0 <= weight f l.
Proof. intros H. induction l as [|p l IH]; cbn; [done|]. specialize (H p). lia. Qed.

Lemma weight_elem f l i p : (forall p, 0 <= f p) -> l !! i = Some p -> f p <= weight f l.
Proof.
  intros H. revert i. induction l as [|x l IH]; intros [|i] Hi; cbn in *; [done | done | simplify_eq |].
  - pose proof (weight_nonneg f l H). lia.
  - specialize (IH i Hi). specialize (H x). lia.
Qed.

Lemma weight_accepting f lns k : (forall ln, f (Accepting ln) = k) -> weight f (Accepting <$> lns) = k * len lns.
Proof.
  intros H. induction lns as [|ln lns IH]; [cbn; unfold len; cbn; lia|].
  rewrite fmap_cons. cbn [weight]. rewrite H, len_cons, IH. lia.
Qed.

(** Goroutines of the wait group; connections in the count; WebSocket connections
    in the count; accept loops past the limit check; accept loops *)
Definition inGroup (p : Point) : Z :=
  match p with
  | Accepting _ | AtCheck _ _ | AtAdd _ _ | AtInsert _ _ | AtRegister _ _ | Serving _ _ | Leaving _ _ => 1
  | _ => 0
  end.
Definition counted (p : Point) : Z :=
  match p with AtInsert _ _ | AtRegister _ _ | WsInsert _ | WsRegister _ | Serving _ _ => 1 | _ => 0 end.
Definition wsInCount (p : Point) : Z := match p with WsInsert _ | WsRegister _ | Serving true _ => 1 | _ => 0 end.
Definition passedCheck (p : Point) : Z := match p with AtAdd _ _ => 1 | _ => 0 end.
Definition acceptLoop (p : Point) : Z :=
  match p with Accepting _ | AtCheck _ _ | AtAdd _ _ | AtInsert _ _ | AtRegister _ _ => 1 | _ => 0 end.

(** The connection a goroutine holds *)
Definition holds (p : Point) : option Z :=
  match p with
  | AtCheck _ c | AtAdd _ c | AtInsert _ c | AtRegister _ c | WsAdd c | WsInsert c | WsRegister c | Serving _ c | Leaving _ c => Some c
  | Accepting _ | Done => None
  end.

Record accounted (s : MQTTServer) : Prop := {
  ac_wg : wg s = weight inGroup (threads s);
  ac_count : connCount s = weight counted (threads s) + refused s;
  ac_refused : 0 <= refused s;
  ac_ws : weight wsInCount (threads s) <= wsCounted s;
  ac_loops : weight acceptLoop (threads s) <= loops s;
  ac_limit : 0 < MaxConnections (s_cfg s) ->
    connCount s + weight passedCheck (threads s) <= MaxConnections (s_cfg s) - 1 + loops s + wsCounted s;
  ac_open : forall c, c ∈ openConns s -> exists t p, threads s !! t = Some p /\ holds p = Some c;
}.

(** ** Start *)

(** Start touches no connection: it changes sockets of listeners and appends
    accept loops. *)
Record quiet (s s' : MQTTServer) : Prop := {
  q_threads : threads s' = threads s;
  q_wg : wg s' = wg s;
  q_loops : loops s' = loops s;
  q_count : connCount s' = connCount s;
  q_refused : refused s' = refused s;
  q_ws : wsCounted s' = wsCounted s;
  q_open : openConns s' = openConns s;
  q_conns : conns s' = conns s;
  q_cfg : s_cfg s' = s_cfg s;
  q_closing : closing s' = closing s;
  q_started : s_started s' = s_started s;
  q_tls : s_tls s' = s_tls s;
  q_stop : stopPoint s' = stopPoint s;
}.

#[export] Instance quiet_preorder : PreOrder quiet.
Proof.
  split; [by intros s; split|]. intros s1 s2 s3 [] []. split; congruence.
Qed.

Lemma quiet_listen a s : quiet s (listen a s).
Proof. split; reflexivity. Qed.

Lemma quiet_closeListeners lns s : quiet s (closeListeners lns s).
Proof. split; reflexivity. Qed.

Lemma quiet_bindAll bind addrs bound s : quiet s (snd (bindAll bind addrs bound s)).
Proof.
  revert bound s. induction addrs as [|a addrs IH]; intros bound s; cbn [bindAll]; [reflexivity|].
  destruct (bind a); [|apply quiet_closeListeners]. etransitivity; [apply (quiet_listen a) | apply IH].
Qed.

Lemma quiet_startWS bind tls addrs s : quiet s (snd (startWS bind tls addrs s)).
Proof.
  revert s. induction addrs as [|a addrs IH]; intros s; cbn [startWS]; [reflexivity|].
  destruct (tls && _); [reflexivity|]. destruct (bind a); [|reflexivity].
  etransitivity; [|apply IH]. split; reflexivity.
Qed.

(** The accept loops of [lns] were started, no connection changed. *)
Record grown (lns : list Z) (s s' : MQTTServer) : Prop := {
  g_threads : threads s' = threads s ++ (Accepting <$> lns);
  g_wg : wg s' = wg s + len lns;
  g_loops : loops s' = loops s + len lns;
  g_count : connCount s' = connCount s;
  g_refused : refused s' = refused s;
  g_ws : wsCounted s' = wsCounted s;
  g_open : openConns s' = openConns s;
  g_cfg : s_cfg s' = s_cfg s;
}.

Lemma grown_refl s : grown [] s s.
Proof. split; rewrite ?app_nil_r; unfold len; cbn; try reflexivity; lia. Qed.

Lemma grown_quiet lns s s1 s2 : grown lns s s1 -> quiet s1 s2 -> grown lns s s2.
Proof. intros [] []. split; congruence. Qed.

Lemma quiet_grown lns s s1 s2 : quiet s s1 -> grown lns s1 s2 -> grown lns s s2.
Proof. intros [] []. split; congruence. Qed.

Lemma grown_startLoops lns s :
  exists started, grown started s (startLoops lns s) /\ (closing s = false -> started = lns).
Proof.
  revert s. induction lns as [|ln lns IH]; intros s; cbn [startLoops].
  - exists []. split; [apply grown_refl | done].
  - unfold addConnGoroutine. destruct (closing s) eqn:Ec; [exists []; split; [apply grown_refl | done]|].
    match goal with |- context [startLoops lns ?x] => destruct (IH x) as (st & [] & Hst) end.
    exists (ln :: st). split; [|intros _; f_equal; by apply Hst]. split; try assumption.
    + rewrite g_threads0. change ((threads s ++ [Accepting ln]) ++ (Accepting <$> st) = threads s ++ (Accepting <$> ln :: st)). by rewrite <- app_assoc.
    + rewrite g_wg0, len_cons. change (wg s + 1 + len st = wg s + (1 + len st)). lia.
    + rewrite g_loops0, len_cons. change (loops s + 1 + len st = loops s + (1 + len st)). lia.
Qed.

Lemma grown_Start bind s : exists lns, grown lns s (snd (Start bind s)).
Proof.
  unfold Start. set (s1 := s <| closing := false |>). assert (forall lns s', grown lns s1 s' -> grown lns s s') as H1 by (by intros lns s' []; split).
  change (s_started s1) with (s_started s). destruct (s_started s); [exists []; apply H1, grown_refl|].
  set (s2 := s1 <| s_started := true |>). assert (forall lns s', grown lns s2 s' -> grown lns s s') as H2 by (intros lns s' G; apply H1; by destruct G; split).
  destruct (tlsErr s2); [exists []; apply H2, grown_refl|].
  set (s3 := s2 <| ctxDone := false |>). assert (forall lns s', grown lns s3 s' -> grown lns s s') as H3 by (intros lns s' G; apply H2; by destruct G; split).
  set (listening := match s_listener s3 with Some _ => _ | None => _ end).
  assert (quiet s3 (snd listening)) as Hl.
  { unfold listening. destruct (s_listener s3); [split; reflexivity|]. destruct (isEmpty _); [reflexivity|].
    pose proof (quiet_bindAll bind (EffectiveListenAddrs (s_cfg s3)) [] s3) as Hb.
    destruct (bindAll _ _ _ _) as [[bound|e] s4]; [|exact Hb]. etransitivity; [exact Hb|]. split; reflexivity. }
  destruct listening as [[bound|e] s4]; [|exists []; apply H3; eapply quiet_grown; [exact Hl | apply grown_refl]].
  destruct (grown_startLoops (s_listeners s4) s4) as (st & Hg & _). exists st. apply H3. eapply quiet_grown; [exact Hl|].
  set (s5 := startLoops (s_listeners s4) s4) in *.
  set (ws := match startWS bind false _ s5 with (Ok _, _) => _ | _ => _ end). assert (quiet s5 (snd ws)) as Hw.
  { unfold ws. pose proof (quiet_startWS bind false (EffectiveWSListenAddrs (s_cfg s5)) s5) as Hb.
    destruct (startWS bind false _ s5) as [[u|e] s6]; [|exact Hb]. etransitivity; [exact Hb | apply quiet_startWS]. }
  destruct ws as [[u|e] s6]; [|eapply grown_quiet; [|apply quiet_closeListeners]]; by eapply grown_quiet.
Qed.

(** ** Every interleaving keeps the accounts *)

Lemma accounted_grown lns s s' : grown lns s s' -> accounted s -> accounted s'.
Proof.
  intros [Ht Hw Hl Hc Hr Hs Ho Hf] []. split; rewrite ?Ht, ?Hw, ?Hl, ?Hc, ?Hr, ?Hs, ?Ho, ?Hf, ?weight_app.
  - rewrite (weight_accepting _ _ 1) by done. lia.
  - rewrite (weight_accepting _ _ 0) by done. lia.
  - done.
  - rewrite (weight_accepting _ _ 0) by done. lia.
  - rewrite (weight_accepting _ _ 1) by done. lia.
  - rewrite (weight_accepting _ _ 0) by done. pose proof (len_nonneg lns). lia.
  - intros c (t & p & H1 & H2)%ac_open0. exists t, p. split; [|done]. by apply lookup_app_l_Some.
Qed.

(** A goroutine moves from [p] to [q]; [extra] are the goroutines it starts. *)
Lemma open_insert l t (p q : Point) extra c :
  l !! t = Some p -> holds q = holds p \/ holds p <> Some c \/ (exists q', q' ∈ extra /\ holds q' = Some c) ->
  (exists i x, l !! i = Some x /\ holds x = Some c) ->
  exists i x, (<[t := q]> l ++ extra) !! i = Some x /\ holds x = Some c.
Proof.
  intros Ht Hq (i & x & Hi & Hx). destruct (decide (i = t)) as [-> | Hne].
  - simplify_eq. destruct Hq as [Hq | [Hq | (q' & Hin & Hq')]]; [|done|].
    + exists t, q. split; [|congruence]. apply lookup_app_l_Some, list_lookup_insert_eq. by eapply lookup_lt_Some.
    + apply list_elem_of_lookup in Hin as [j Hj]. exists (length (<[t := q]> l) + j)%nat, q'. split; [|done].
      rewrite lookup_app_r by lia. by replace (_ + j - _)%nat with j by lia.
  - exists i, x. split; [|done]. apply lookup_app_l_Some. by rewrite list_lookup_insert_ne.
Qed.

(** What a step of goroutine [t] from [p] to [q] has to keep in balance *)
Record move (t : nat) (p q : Point) (extra : list Point) (s s' : MQTTServer) : Prop := {
  mv_from : threads s !! t = Some p;
  mv_threads : threads s' = <[t := q]> (threads s) ++ extra;
  mv_cfg : s_cfg s' = s_cfg s;
  mv_loops : loops s' = loops s;
  mv_wg : wg s' = wg s + inGroup q - inGroup p + weight inGroup extra;
  mv_count : connCount s' - refused s' = connCount s - refused s + counted q - counted p + weight counted extra;
  mv_refused : refused s <= refused s';
  mv_ws : wsInCount q - wsInCount p + weight wsInCount extra <= wsCounted s' - wsCounted s;
  mv_accept : acceptLoop q + weight acceptLoop extra <= acceptLoop p;
  mv_limit : 0 < MaxConnections (s_cfg s) ->
    connCount s' + passedCheck q + weight passedCheck extra - wsCounted s' <= connCount s + passedCheck p - wsCounted s \/
    (connCount s' < MaxConnections (s_cfg s) /\ wsCounted s' = wsCounted s);
  mv_open : forall c, c ∈ openConns s' -> holds q = Some c \/
    (c ∈ openConns s /\ (holds q = holds p \/ holds p <> Some c \/ exists q', q' ∈ extra /\ holds q' = Some c));
}.

Lemma accounted_move t p q extra s s' : move t p q extra s s' -> accounted s -> accounted s'.
Proof.
  intros [Hf Ht Hcfg Hl Hw Hc Hr Hws Ha Hlim Ho] A.
  assert (forall f, weight f (threads s') = weight f (threads s) - f p + f q + weight f extra) as W.
  { intros f. by rewrite Ht, weight_app, (weight_insert f _ t p q Hf). }
  destruct A. split; rewrite ?W, ?Hcfg, ?Hl.
  - lia.
  - lia.
  - lia.
  - lia.
  - lia.
  - intros Hm. destruct (Hlim Hm) as [? | [Hlt Heq]]; [specialize (ac_limit0 Hm); lia|].
    pose proof (weight_le passedCheck acceptLoop (threads s') ltac:(by intros [])) as Hle. rewrite !W in Hle.
    pose proof (weight_nonneg wsInCount (threads s) ltac:(by intros [| | | | | | | |[]| |])). lia.
  - intros c [Hq | [Hc0 Hq]]%Ho; rewrite Ht.
    + exists t, q. split; [|done]. apply lookup_app_l_Some, list_lookup_insert_eq. by eapply lookup_lt_Some.
    + eapply open_insert; eauto.
Qed.

(** [accounted_move] with the new counters given, so that the projections of the
    updated state are checked by conversion *)
Lemma accounted_by t p q extra w c r ws o s s' :
  threads s !! t = Some p -> threads s' = <[t := q]> (threads s) ++ extra ->
  s_cfg s' = s_cfg s -> loops s' = loops s -> wg s' = w -> connCount s' = c -> refused s' = r -> wsCounted s' = ws -> openConns s' = o ->
  w = wg s + inGroup q - inGroup p + weight inGroup extra ->
  c - r = connCount s - refused s + counted q - counted p + weight counted extra -> refused s <= r ->
  wsInCount q - wsInCount p + weight wsInCount extra <= ws - wsCounted s ->
  acceptLoop q + weight acceptLoop extra <= acceptLoop p ->
  (0 < MaxConnections (s_cfg s) ->
     c + passedCheck q + weight passedCheck extra - ws <= connCount s + passedCheck p - wsCounted s \/
     (c < MaxConnections (s_cfg s) /\ ws = wsCounted s)) ->
  (forall k, k ∈ o -> holds q = Some k \/
    (k ∈ openConns s /\ (holds q = holds p \/ holds p <> Some k \/ exists q', q' ∈ extra /\ holds q' = Some k))) ->
  accounted s -> accounted s'.
Proof. intros H1 H2 H3 H4 <- <- <- <- <- ? ? ? ? ? ? ? A. by apply (accounted_move t p q extra s). Qed.

Ltac moves t p q extra w c r ws o E :=
  apply (accounted_by t p q extra w c r ws o _ _ E);
  [first [reflexivity | symmetry; apply app_nil_r] | reflexivity.. | cbn; lia | cbn; lia | lia | cbn; lia | cbn; lia | cbn; intros _; left; lia | | assumption].

Lemma accounted_runThread t s s' : runThread t s = Some s' -> accounted s -> accounted s'.
Proof.
  unfold runThread. destruct (threads s !! t) as [p|] eqn:E; [|done].
  destruct p as [ln|ln k|ln k|ln k|ln k|k|k|k|b k|b k|]; try done.
  - destruct (_ && _) eqn:Eb; intros [= <-] A.
    + moves t (AtCheck ln k) (Accepting ln) (@nil Point) (wg s) (connCount s) (refused s) (wsCounted s) (openConns s ∖ {[k]}) E.
      intros x Hx. right. split; [set_solver|]. right. left. cbn. set_solver.
    + apply (accounted_by t (AtCheck ln k) (AtAdd ln k) [] (wg s) (connCount s) (refused s) (wsCounted s) (openConns s) _ _ E);
        [symmetry; apply app_nil_r | reflexivity.. | cbn; lia | cbn; lia | lia | cbn; lia | cbn; lia | | naive_solver | done].
      intros Hm%Z.ltb_lt. rewrite Hm in Eb. cbn [andb] in Eb. apply Z.leb_gt in Eb. by right.
  - intros [= <-] A. moves t (AtAdd ln k) (AtInsert ln k) (@nil Point) (wg s) (connCount s + 1) (refused s) (wsCounted s) (openConns s) E. naive_solver.
  - intros [= <-] A. moves t (AtInsert ln k) (AtRegister ln k) (@nil Point) (wg s) (connCount s) (refused s) (wsCounted s) (openConns s) E. naive_solver.
  - unfold addConnGoroutine. destruct (closing s); intros [= <-] A.
    + moves t (AtRegister ln k) Done (@nil Point) (wg s - 1) (connCount s) (refused s + 1) (wsCounted s) (openConns s ∖ {[k]}) E.
      intros x Hx. right. split; [set_solver|]. right. left. cbn. set_solver.
    + moves t (AtRegister ln k) (Accepting ln) [Serving false k] (wg s + 1) (connCount s) (refused s) (wsCounted s) (openConns s) E.
      intros x Hx. right. split; [done|]. destruct (decide (x = k)) as [-> | Hne]; [|right; left; cbn; congruence].
      right. right. exists (Serving false k). split; [by apply list_elem_of_singleton | done].
  - intros [= <-] A. moves t (WsAdd k) (WsInsert k) (@nil Point) (wg s) (connCount s + 1) (refused s) (wsCounted s + 1) (openConns s) E. naive_solver.
  - intros [= <-] A. moves t (WsInsert k) (WsRegister k) (@nil Point) (wg s) (connCount s) (refused s) (wsCounted s) (openConns s) E. naive_solver.
  - unfold addConnGoroutine. destruct (closing s); intros [= <-] A.
    + moves t (WsRegister k) Done (@nil Point) (wg s) (connCount s) (refused s + 1) (wsCounted s) (openConns s ∖ {[k]}) E.
      intros x Hx. right. split; [set_solver|]. right. left. cbn. set_solver.
    + moves t (WsRegister k) (Serving true k) (@nil Point) (wg s + 1) (connCount s) (refused s) (wsCounted s) (openConns s) E. naive_solver.
  - intros [= <-] A. moves t (Leaving b k) Done (@nil Point) (wg s - 1) (connCount s) (refused s) (wsCounted s) (openConns s ∖ {[k]}) E.
    intros x Hx. right. split; [set_solver|]. right. left. cbn. set_solver.
Qed.

Lemma accounted_acceptConn t s s' : acceptConn t s = Some s' -> accounted s -> accounted s'.
Proof.
  unfold acceptConn. destruct (threads s !! t) as [[ln| | | | | | | | | |]|] eqn:E; try done.
  destruct (bool_decide _); [|done]. intros [= <-] A.
  moves t (Accepting ln) (AtCheck ln (nextSocket s)) (@nil Point) (wg s) (connCount s) (refused s) (wsCounted s) ({[nextSocket s]} ∪ openConns s) E.
  intros k [->%elem_of_singleton | Hk]%elem_of_union; [by left|]. right. split; [done|]. right. by left.
Qed.

Lemma accounted_acceptError t s s' : acceptError t s = Some s' -> accounted s -> accounted s'.
Proof.
  unfold acceptError. destruct (threads s !! t) as [[ln| | | | | | | | | |]|] eqn:E; try done.
  destruct (_ || _); intros [= <-] A; [|done].
  moves t (Accepting ln) Done (@nil Point) (wg s - 1) (connCount s) (refused s) (wsCounted s) (openConns s) E. naive_solver.
Qed.

Lemma accounted_handlerEnds t e s s' : handlerEnds t e s = Some s' -> accounted s -> accounted s'.
Proof.
  unfold handlerEnds. destruct (threads s !! t) as [[| | | | | | | |b k| |]|] eqn:E; try done. intros [= <-] A.
  destruct b; cbn [negb andb].
  - moves t (Serving true k) (Leaving true k) (@nil Point) (wg s) (connCount s - 1) (refused s) (wsCounted s - 1) (openConns s ∖ {[k]}) E.
    set_solver.
  - destruct (match e with Some ErrEOF => true | _ => false end);
      (moves t (Serving false k) (Leaving false k) (@nil Point) (wg s) (connCount s - 1) (refused s) (wsCounted s) (openConns s) E; naive_solver).
Qed.

Lemma accounted_wsUpgrade ep s s' : wsUpgrade ep s = Some s' -> accounted s -> accounted s'.
Proof.
  unfold wsUpgrade. destruct (wsEndpoints s !! ep) as [e|]; cbn; [|done]. destruct (bool_decide _); [|done].
  intros [= <-] []. set (k := nextSocket s). split.
  - change (wg s = weight inGroup (threads s ++ [WsAdd k])). rewrite weight_app. cbn. lia.
  - change (connCount s = weight counted (threads s ++ [WsAdd k]) + refused s). rewrite weight_app. cbn. lia.
  - exact ac_refused0.
  - change (weight wsInCount (threads s ++ [WsAdd k]) <= wsCounted s). rewrite weight_app. cbn. lia.
  - change (weight acceptLoop (threads s ++ [WsAdd k]) <= loops s). rewrite weight_app. cbn. lia.
  - intros Hm%ac_limit0. change (connCount s + weight passedCheck (threads s ++ [WsAdd k]) <= MaxConnections (s_cfg s) - 1 + loops s + wsCounted s).
    rewrite weight_app. cbn. lia.
  - intros c Hc. change (c ∈ {[k]} ∪ openConns s) in Hc. apply elem_of_union in Hc as [->%elem_of_singleton | (t & p & Ht & Hp)%ac_open0].
    + exists (length (threads s)), (WsAdd k). split; [by apply list_lookup_middle | done].
    + exists t, p. split; [by apply lookup_app_l_Some | done].
Qed.

Lemma accounted_stopStep s s' : stopStep s = Some s' -> accounted s -> accounted s'.
Proof.
  unfold stopStep. destruct (stopPoint s).
  - intros [= <-] []. by split.
  - intros [= <-] []. split; try assumption. intros c Hc. change (c ∈ openConns s ∖ conns s) in Hc. apply ac_open0. set_solver.
  - intros [= <-] []. by split.
  - destruct (wg s =? 0); [|done]. intros [= <-] []. by split.
Qed.

Lemma accounted_step a s s' : step a s = Some s' -> accounted s -> accounted s'.
Proof.
  destruct a as [bind| |t|t|ep|t|t e]; cbn [step].
  - destruct (stopPoint s); [|done..]. intros [= <-]. destruct (grown_Start bind s) as [lns Hg]. by apply (accounted_grown lns).
  - apply accounted_stopStep.
  - apply accounted_acceptConn.
  - apply accounted_acceptError.
  - apply accounted_wsUpgrade.
  - apply accounted_runThread.
  - apply accounted_handlerEnds.
Qed.

Lemma accounted_run acts s s' : run acts s = Some s' -> accounted s -> accounted s'.
Proof.
  revert s. induction acts as [|a acts IH]; intros s; cbn [run]; [by intros [= <-]|].
  destruct (step a s) as [s1|] eqn:E; [|done]. cbn. intros H A. eapply IH; [exact H|]. by eapply accounted_step.
Qed.

Lemma accounted_new cfg tls opts : accounted (NewMQTTServer cfg tls opts).
Proof.
  unfold NewMQTTServer. destruct (if so_tlsConfig _ then _ else _) as [hasTLS e]. split; try reflexivity; cbn.
  - intros Hm. lia.
  - intros c. set_solver.
Qed.

(** ** The count of refused connections only grows *)

Lemma step_refused a s s' : step a s = Some s' -> refused s <= refused s' /\ s_cfg s' = s_cfg s.
Proof.
  assert (forall x, Some x = Some s' -> refused s <= refused x -> s_cfg x = s_cfg s -> refused s <= refused s' /\ s_cfg s' = s_cfg s) as K
    by (by intros x [= ->]).
  assert (forall t q x, refused x = refused s -> s_cfg x = s_cfg s -> Some (setThread t q x) = Some s' ->
    refused s <= refused s' /\ s_cfg s' = s_cfg s) as K2.
  { intros t q x Hr Hc H. apply (K _ H); [change (refused s <= refused x); lia | exact Hc]. }
  destruct a as [bind| |t|t|ep|t|t e]; cbn [step].
  - destruct (stopPoint s); [|done..]. intros H. destruct (grown_Start bind s) as [lns []]. apply (K _ H); [lia | done].
  - unfold stopStep. destruct (stopPoint s); [| | |destruct (wg s =? 0); [|done]]; intros H; apply (K _ H); reflexivity.
  - unfold acceptConn. destruct (threads s !! t) as [[]|]; try done. destruct (bool_decide _); [|done]. by apply K2.
  - unfold acceptError. destruct (threads s !! t) as [[]|]; try done. destruct (_ || _); [by apply K2 | intros H; by apply (K _ H)].
  - unfold wsUpgrade. destruct (wsEndpoints s !! ep); cbn; [|done]. destruct (bool_decide _); [|done]. intros H. by apply (K _ H).
  - unfold runThread, addConnGoroutine. destruct (threads s !! t) as [[]|]; try done; try (by apply K2).
    + destruct (_ && _); by apply K2.
    + destruct (closing s); [|intros H; by apply (K _ H)].
      intros H. apply (K _ H); [change (refused s <= refused s + 1); lia | reflexivity].
    + destruct (closing s); [|by apply K2].
      intros H. apply (K _ H); [change (refused s <= refused s + 1); lia | reflexivity].
  - unfold handlerEnds. destruct (threads s !! t) as [[| | | | | | | |[] k| |]|]; try done; [by apply K2|].
    destruct (_ && _); by apply K2.
Qed.

Lemma run_refused acts s s' : run acts s = Some s' -> refused s <= refused s' /\ s_cfg s' = s_cfg s.
Proof.
  revert s. induction acts as [|a acts IH]; intros s; cbn [run]; [by intros [= <-]|].
  destruct (step a s) as [s1|] eqn:E; [|done]. cbn. apply step_refused in E as [E1 E2]. intros [H1 H2]%IH. split; [lia | congruence].
Qed.

(** While Stop waits, no goroutine can register. *)
Definition waiting_closed (s : MQTTServer) : Prop := stopPoint s = StopWaiting -> closing s = true.

Lemma Start_stopPoint bind s : stopPoint (snd (Start bind s)) = stopPoint s.
Proof.
  unfold Start. destruct (s_started _); [done|]. destruct (tlsErr _); [done|].
  set (s3 := s <| closing := false |> <| s_started := true |> <| ctxDone := false |>).
  set (listening := match s_listener s3 with Some _ => _ | None => _ end).
  assert (stopPoint (snd listening) = stopPoint s) as Hl.
  { unfold listening. destruct (s_listener s3); [done|]. destruct (isEmpty _); [done|].
    pose proof (q_stop _ _ (quiet_bindAll bind (EffectiveListenAddrs (s_cfg s3)) [] s3)) as Hb. by destruct (bindAll _ _ _ _) as [[bound|e] s4]. }
  destruct listening as [[bound|e] s4]; [|done]. cbn [snd] in Hl. rewrite <- Hl.
  assert (forall lns x, stopPoint (startLoops lns x) = stopPoint x) as Hsl.
  { induction lns as [|ln lns IH]; intros x; cbn [startLoops]; [done|]. unfold addConnGoroutine. destruct (closing x); [done|]. by rewrite IH. }
  set (s5 := startLoops (s_listeners s4) s4). rewrite <- (Hsl (s_listeners s4) s4 : stopPoint s5 = _).
  pose proof (q_stop _ _ (quiet_startWS bind false (EffectiveWSListenAddrs (s_cfg s5)) s5)) as Hb.
  destruct (startWS bind false _ s5) as [[u|e] s6]; cbn [snd] in Hb; [|exact Hb].
  pose proof (q_stop _ _ (quiet_startWS bind true (EffectiveWSSListenAddrs (s_cfg s6)) s6)) as Hb'.
  destruct (startWS bind true _ s6) as [[u'|e'] s7]; cbn [snd] in Hb'; (rewrite <- Hb; exact Hb').
Qed.

Lemma step_waiting a s s' : step a s = Some s' -> waiting_closed s -> waiting_closed s'.
Proof.
  assert (forall x, stopPoint x = stopPoint s -> closing x = closing s -> Some x = Some s' -> waiting_closed s -> waiting_closed s') as K
    by (intros x H1 H2 [= <-] H3; unfold waiting_closed; by rewrite H1, H2).
  destruct a as [bind| |t|t|ep|t|t e]; cbn [step].
  - destruct (stopPoint s) eqn:E; [|done..]. intros [= <-] _. unfold waiting_closed. by rewrite Start_stopPoint, E.
  - unfold stopStep, waiting_closed. destruct (stopPoint s); [by intros [= <-] | by intros [= <-] | by intros [= <-] |].
    destruct (wg s =? 0); [by intros [= <-] | done].
  - unfold acceptConn. destruct (threads s !! t) as [[]|]; try done. destruct (bool_decide _); [by apply K | done].
  - unfold acceptError. destruct (threads s !! t) as [[]|]; try done. destruct (_ || _); by apply K.
  - unfold wsUpgrade. destruct (wsEndpoints s !! ep); cbn; [|done]. destruct (bool_decide _); [by apply K | done].
  - unfold runThread, addConnGoroutine. destruct (threads s !! t) as [[]|]; try done; try (by apply K).
    + destruct (_ && _); by apply K.
    + destruct (closing s) in |- *; by apply K.
    + destruct (closing s) in |- *; by apply K.
  - unfold handlerEnds. destruct (threads s !! t) as [[| | | | | | | |[] k| |]|]; try done; [by apply K|].
    destruct (_ && _); by apply K.
Qed.

Lemma run_waiting acts s s' : run acts s = Some s' -> waiting_closed s -> waiting_closed s'.
Proof.
  revert s. induction acts as [|a acts IH]; intros s; cbn [run]; [by intros [= <-]|].
  destruct (step a s) as [s1|] eqn:E; [|done]. cbn. intros H Hw. eapply IH; [exact H|]. by eapply step_waiting.
Qed.

Lemma waiting_new cfg tls opts : waiting_closed (NewMQTTServer cfg tls opts).
Proof. unfold NewMQTTServer. destruct (if so_tlsConfig _ then _ else _) as [hasTLS e]. done. Qed.

(** ** Claims *)

(** C9: the accounts of the network server, over every interleaving of the accept
    loops, the connection goroutines, the WebSocket handlers, Start and Stop.  The
    wait group holds exactly the goroutines that will leave it; the connection
    count is the number of connections in it plus those that were refused because
    the server was closing, which are never taken out again.  With a connection
    limit, the count stays within the limit for one accept loop without WebSocket
    connections, and exceeds it by at most the other accept loops and the
    WebSocket connections.  When Stop returns, no accept loop and no connection
    goroutine is left, registration is closed, and every connection still open
    belongs to a WebSocket upgrade in progress. *)
Theorem server_accounting cfg tls opts acts s :
  run acts (NewMQTTServer cfg tls opts) = Some s ->
  wg s = weight inGroup (threads s) /\ connCount s = weight counted (threads s) + refused s /\
  (0 < MaxConnections cfg -> connCount s <= MaxConnections cfg + (loops s - 1) + wsCounted s) /\
  forall s', stopPoint s = StopWaiting -> step DoStop s = Some s' ->
    closing s' = true /\ s_started s' = false /\
    (forall t p, threads s' !! t = Some p -> inGroup p = 0) /\
    forall c, c ∈ openConns s' -> exists t, threads s' !! t = Some (WsAdd c) \/ threads s' !! t = Some (WsInsert c) \/ threads s' !! t = Some (WsRegister c).
Proof.
  intros Hr. pose proof (accounted_run _ _ _ Hr (accounted_new _ _ _)) as A. pose proof (run_waiting _ _ _ Hr (waiting_new _ _ _)) as Hw.
  apply run_refused in Hr as [_ Hcfg].
  assert (s_cfg (NewMQTTServer cfg tls opts) = cfg) as Hc by (unfold NewMQTTServer; by destruct (if so_tlsConfig _ then _ else _)).
  rewrite Hc in Hcfg. destruct A as [A1 A2 A3 A4 A5 A6 A7]. rewrite Hcfg in A6. split_and!; [done | done | |].
  - intros Hm%A6. pose proof (weight_nonneg passedCheck (threads s) ltac:(by intros [])). lia.
  - intros s' Hst. cbn [step]. unfold stopStep. rewrite Hst. destruct (Z.eqb_spec (wg s) 0) as [Hz|]; [|done]. intros [= <-].
    assert (forall t p, threads s !! t = Some p -> inGroup p = 0) as Hnone.
    { intros t p Ht. pose proof (weight_elem inGroup (threads s) t p ltac:(by intros []) Ht). destruct p; cbn in *; lia. }
    split_and!; [exact (Hw Hst) | done | exact Hnone |].
    intros c (t & p & Ht & Hp)%A7. exists t. specialize (Hnone t p Ht). destruct p; cbn in *; simplify_eq; naive_solver.
Qed.

(** One listener, at most one connection *)
Definition sample_server_config : Config := DefaultConfig <| MaxConnections := 1 |>.
Definition sample_server : MQTTServer := NewMQTTServer sample_server_config (Ok false) [].

(** A connection is accepted and counted; Stop runs up to its wait before the
    accept loop registers it; Stop then returns. *)
Definition accept_during_stop : list Action :=
  [DoStart (fun _ => true); AcceptConn 0; Run 0; Run 0; Run 0; DoStop; DoStop; DoStop; Run 0; DoStop].

Lemma server_accounting_witness :
  match run (take 9 accept_during_stop) sample_server with
  | Some s => connCount s = 1 /\ forall s', step DoStop s = Some s' -> closing s' = true /\ openConns s' ≡ ∅
  | None => False
  end.
Proof.
  destruct (run (take 9 accept_during_stop) sample_server) as [s|] eqn:E; [|vm_compute in E; discriminate E].
  destruct (server_accounting _ _ _ _ s E) as (_ & Hc & _ & Hstop).
  assert (stopPoint s = StopWaiting /\ refused s = 1 /\ threads s = [Done]) as (Hs & Hr & Ht)
    by (vm_compute in E; injection E as <-; split_and!; reflexivity).
  split; [rewrite Hc, Hr, Ht; reflexivity|]. intros s' Hs'. destruct (Hstop s' Hs Hs') as (Hcl & _ & _ & Ho). split; [exact Hcl|].
  assert (threads s' = [Done]) as Ht'.
  { cbn [step] in Hs'. unfold stopStep in Hs'. rewrite Hs in Hs'. destruct (wg s =? 0); [|discriminate Hs']. injection Hs' as <-. exact Ht. }
  intros c. split; [|intros H; by apply elem_of_empty in H]. intros (t & Hh)%Ho. rewrite Ht' in Hh.
  destruct t as [|t]; cbn in Hh; destruct Hh as [H|[H|H]]; discriminate H.
Defined.

(** From then on every check of the limit refuses. *)
Lemma full_forever acts s t ln c :
  accounted s -> 0 < MaxConnections (s_cfg s) <= refused s ->
  match run acts s with
  | Some s' => threads s' !! t = Some (AtCheck ln c) -> step (Run t) s' = Some (setThread t (Accepting ln) (closeConn c s'))
  | None => True
  end.
Proof.
  intros A Hm. destruct (run acts s) as [s'|] eqn:E; [|done]. intros Ht. cbn [step]. unfold runThread. rewrite Ht.
  pose proof (accounted_run _ _ _ E A) as A'. apply run_refused in E as [Hr Hc]. rewrite Hc.
  pose proof (ac_count _ A'). pose proof (weight_nonneg counted (threads s') ltac:(by intros [])).
  rewrite (proj2 (Z.ltb_lt _ _)) by lia. rewrite (proj2 (Z.leb_le _ _)) by lia. done.
Qed.

(** Two races between the accept loop and Stop.  (1) A connection that was
    counted and is refused registration because Stop has closed it stays in the
    count: with a limit of one connection the server, stopped
    cleanly and started again with no connection at all, refuses every connection
    from then on, whatever happens.  (2) A connection inserted between the moment
    Stop closes the registered connections and the moment it stops admitting is
    neither closed nor refused: Stop waits for its goroutine while the connection
    is open. *)
Theorem shutdown_races :
  (exists s, run (accept_during_stop ++ [DoStart (fun _ => true)]) sample_server = Some s /\
     s_started s = true /\ weight counted (threads s) = 0 /\ openConns s = ∅ /\
     forall acts t ln c, match run acts s with
       | Some s' => threads s' !! t = Some (AtCheck ln c) -> step (Run t) s' = Some (setThread t (Accepting ln) (closeConn c s'))
       | None => True
       end) /\
  (exists s, run [DoStart (fun _ => true); AcceptConn 0; Run 0; Run 0; DoStop; DoStop; Run 0; Run 0; DoStop] sample_server = Some s /\
     stopPoint s = StopWaiting /\ step DoStop s = None /\ exists t c, threads s !! t = Some (Serving false c) /\ c ∈ openConns s).
Proof.
  split.
  - destruct (run (accept_during_stop ++ _) sample_server) as [s|] eqn:E; [|vm_compute in E; discriminate E]. exists s.
    pose proof (accounted_run _ _ _ E (accounted_new _ _ _)) as A.
    assert (s_started s = true /\ weight counted (threads s) = 0 /\ openConns s = ∅ /\ refused s = 1 /\ MaxConnections (s_cfg s) = 1)
      as (H1 & H2 & H3 & H4 & H5) by (vm_compute in E; injection E as <-; split_and!; reflexivity).
    split_and!; [done..|]. intros acts t ln c. apply full_forever; [exact A | lia].
  - destruct (run _ sample_server) as [s|] eqn:E; [|vm_compute in E; discriminate E]. exists s.
    vm_compute in E. injection E as <-. split_and!; [done | done | done |]. exists 1%nat, 1. split; [done|].
    apply (bool_decide_unpack _). vm_compute. exact I.
Qed.

