(* ===== verification/ServerStart.v ===== *)
(** * Starting the network server

    What a call of Start binds, and what it leaves when it fails. *)

From S2P Require Import Prelude Strconv Duration Config ConfigProps Server ServerProps.
Open Scope Z_scope.

(** Sockets are numbered in the order they are opened. *)
Definition fresh (s : MQTTServer) : Prop := forall ln, ln ∈ openLns s -> ln < nextSocket s.

Lemma bindAll_ok bind addrs bound s :
  Forall (fun a => bind a = true) addrs ->
  exists ids s', bindAll bind addrs bound s = (Ok (bound ++ ids), s') /\ omap (fun ln => lnAddrs s' !! ln) ids = addrs /\
    (forall ln, ln ∈ ids -> ln ∈ openLns s' /\ nextSocket s <= ln) /\
    (forall ln, ln < nextSocket s -> lnAddrs s' !! ln = lnAddrs s !! ln) /\ openLns s ⊆ openLns s' /\ nextSocket s <= nextSocket s'.
Proof.
  revert bound s. induction addrs as [|a addrs IH]; intros bound s H; cbn [bindAll].
  { exists [], s. rewrite app_nil_r. split_and!; [done | done | by intros ln ?%elem_of_nil | done | done | lia]. }
  apply Forall_cons in H as [-> H]. destruct (IH (bound ++ [nextSocket s]) (listen a s) H) as (ids & s' & E & Ho & Hin & Hk & Hs & Hn).
  set (n := nextSocket s) in *. change (n + 1 <= nextSocket s') in Hn. change ({[n]} ∪ openLns s ⊆ openLns s') in Hs.
  change (forall ln, ln < n + 1 -> lnAddrs s' !! ln = <[n := a]> (lnAddrs s) !! ln) in Hk.
  change (forall ln, ln ∈ ids -> ln ∈ openLns s' /\ n + 1 <= ln) in Hin.
  exists (n :: ids), s'. rewrite E, <- app_assoc. split_and!.
  - done.
  - cbn [omap list_omap]. rewrite (Hk n ltac:(lia)), lookup_insert_eq. f_equal. exact Ho.
  - intros ln [-> | Hl]%elem_of_cons; [split; [set_solver | lia]|]. destruct (Hin ln Hl). split; [done | lia].
  - intros ln Hl. rewrite Hk, lookup_insert_ne by lia. done.
  - set_solver.
  - lia.
Qed.

(** The listeners of this call are closed again. *)
Lemma bindAll_fails bind addrs bound (open : gset Z) s :
  ~ Forall (fun a => bind a = true) addrs -> fresh s ->
  openLns s = open ∪ list_to_set bound -> (forall ln, ln ∈ bound -> ln ∉ open) -> (forall ln, ln ∈ open -> ln < nextSocket s) ->
  exists e s', bindAll bind addrs bound s = (Err e, s') /\ openLns s' = open.
Proof.
  revert bound s. induction addrs as [|a addrs IH]; intros bound s H Hf Ho Hd Hlt; [by destruct H|]. cbn [bindAll].
  destruct (bind a) eqn:Ea.
  - apply IH.
    + intros H'. apply H. by constructor.
    + intros ln Hl. change (ln ∈ {[nextSocket s]} ∪ openLns s) in Hl. change (ln < nextSocket s + 1).
      apply elem_of_union in Hl as [->%elem_of_singleton | Hl]; [lia|]. specialize (Hf ln Hl). lia.
    + change ({[nextSocket s]} ∪ openLns s = open ∪ list_to_set (bound ++ [nextSocket s])). rewrite Ho. set_solver.
    + intros ln [Hl | ->%list_elem_of_singleton]%elem_of_app; [by apply Hd|]. intros Hl%Hlt. lia.
    + intros ln Hl%Hlt. change (ln < nextSocket s + 1). lia.
  - eexists _, _. split; [done|]. change (openLns s ∖ list_to_set bound = open). rewrite Ho. set_solver.
Qed.

(** The addresses of WebSocket endpoints do not disturb the TCP listeners. *)
Lemma startWS_keeps bind tls addrs s :
  let s' := snd (startWS bind tls addrs s) in
  (forall ln, ln < nextSocket s -> lnAddrs s' !! ln = lnAddrs s !! ln) /\ openLns s ⊆ openLns s' /\ nextSocket s <= nextSocket s' /\
  s_listeners s' = s_listeners s /\ s_cfg s' = s_cfg s /\ s_tls s' = s_tls s /\
  (Forall (fun a => bind a = true) addrs -> (tls = true -> addrs <> [] -> s_tls s = true) -> fst (startWS bind tls addrs s) = Ok tt).
Proof.
  revert s. induction addrs as [|a addrs IH]; intros s; cbn [startWS]; [split_and!; done || lia|].
  destruct (tls && negb (s_tls s)) eqn:Et.
  { split_and!; try done. intros _ H. apply andb_true_iff in Et as [-> Et]. by rewrite H in Et. }
  destruct (bind a) eqn:Ea; [|split_and!; try done; intros [? _]%Forall_cons; congruence].
  match goal with |- context [startWS bind tls addrs ?x] => destruct (IH x) as (H1 & H2 & H3 & H4 & H5 & H6 & H7) end.
  set (n := nextSocket s) in *. change (n + 1 <= nextSocket (snd (startWS bind tls addrs (listen a s <| wsEndpoints := wsEndpoints s ++ [{| ws_ln := n; ws_tls := tls |}] |>)))) in H3.
  split_and!; [| | lia | exact H4 | exact H5 | exact H6 |].
  - intros ln Hl. rewrite (H1 ln) by (change (ln < n + 1); lia). change (<[n := a]> (lnAddrs s) !! ln = lnAddrs s !! ln). by rewrite lookup_insert_ne by lia.
  - etransitivity; [|exact H2]. change (openLns s ⊆ {[n]} ∪ openLns s). set_solver.
  - intros [_ H]%Forall_cons Hs. apply H7; [done|]. intros -> _. by apply Hs.
Qed.

Lemma fresh_mono s s' : openLns s' ⊆ openLns s -> nextSocket s <= nextSocket s' -> fresh s -> fresh s'.
Proof. intros H1 H2 H3 ln Hl%H1%H3. lia. Qed.

Lemma fresh_listen a s : fresh s -> fresh (listen a s).
Proof.
  intros H ln Hl. change (ln ∈ {[nextSocket s]} ∪ openLns s) in Hl. change (ln < nextSocket s + 1).
  apply elem_of_union in Hl as [->%elem_of_singleton | Hl%H]; lia.
Qed.

Lemma fresh_bindAll bind addrs bound s : fresh s -> fresh (snd (bindAll bind addrs bound s)).
Proof.
  revert bound s. induction addrs as [|a addrs IH]; intros bound s H; cbn [bindAll]; [done|].
  destruct (bind a); [by apply IH, fresh_listen|]. apply (fresh_mono s); [|done|done]. change (openLns s ∖ list_to_set bound ⊆ openLns s). set_solver.
Qed.

Lemma fresh_startWS bind tls addrs s : fresh s -> fresh (snd (startWS bind tls addrs s)).
Proof.
  revert s. induction addrs as [|a addrs IH]; intros s H; cbn [startWS]; [done|]. destruct (tls && _); [done|].
  destruct (bind a); [|done]. apply IH. exact (fresh_listen a s H).
Qed.

Lemma startLoops_sockets lns s :
  openLns (startLoops lns s) = openLns s /\ nextSocket (startLoops lns s) = nextSocket s /\ lnAddrs (startLoops lns s) = lnAddrs s /\
  s_listeners (startLoops lns s) = s_listeners s /\ s_cfg (startLoops lns s) = s_cfg s /\ s_tls (startLoops lns s) = s_tls s.
Proof.
  revert s. induction lns as [|ln lns IH]; intros s; cbn [startLoops]; [done|]. unfold addConnGoroutine. destruct (closing s); [done|].
  match goal with |- context [startLoops lns ?x] => destruct (IH x) as (-> & -> & -> & -> & -> & ->) end. done.
Qed.

Lemma fresh_Start bind s : fresh s -> fresh (snd (Start bind s)).
Proof.
  intros H. unfold Start. destruct (s_started _); [exact H|]. destruct (tlsErr _); [exact H|].
  set (s3 := s <| closing := false |> <| s_started := true |> <| ctxDone := false |>). assert (fresh s3) as H3 by exact H.
  set (listening := match s_listener s3 with Some _ => _ | None => _ end).
  assert (fresh (snd listening)) as Hl.
  { unfold listening. destruct (s_listener s3); [exact H3|]. destruct (isEmpty _); [exact H3|].
    pose proof (fresh_bindAll bind (EffectiveListenAddrs (s_cfg s3)) [] s3 H3) as Hb. by destruct (bindAll _ _ _ _) as [[bound|e] s4]. }
  destruct listening as [[bound|e] s4]; [|exact Hl]. cbn [snd] in Hl.
  set (s5 := startLoops (s_listeners s4) s4).
  assert (fresh s5) as H5 by (destruct (startLoops_sockets (s_listeners s4) s4) as (E1 & E2 & _); apply (fresh_mono s4); [unfold s5; by rewrite E1 | unfold s5; lia | done]).
  pose proof (fresh_startWS bind false (EffectiveWSListenAddrs (s_cfg s5)) s5 H5) as H6.
  assert (forall x, fresh x -> fresh (closeListeners bound x)) as Hclose.
  { intros x Hx. apply (fresh_mono x); [|done|done]. change (openLns x ∖ list_to_set bound ⊆ openLns x). set_solver. }
  destruct (startWS bind false _ s5) as [[u|e] s6]; cbn [snd] in H6; [|by apply Hclose].
  pose proof (fresh_startWS bind true (EffectiveWSSListenAddrs (s_cfg s6)) s6 H6) as H7.
  destruct (startWS bind true _ s6) as [[u'|e'] s7]; [exact H7 | by apply Hclose].
Qed.

Lemma fresh_step a s s' : step a s = Some s' -> fresh s -> fresh s'.
Proof.
  assert (forall x, openLns x ⊆ openLns s -> nextSocket s <= nextSocket x -> Some x = Some s' -> fresh s -> fresh s') as K
    by (intros x H1 H2 [= <-]; by apply fresh_mono).
  destruct a as [bind| |t|t|ep|t|t e]; cbn [step].
  - destruct (stopPoint s); [|done..]. intros [= <-]. apply fresh_Start.
  - unfold stopStep. destruct (stopPoint s); [| | |destruct (wg s =? 0); [|done]]; apply K; try done.
    match goal with |- openLns (closeListeners ?l ?x) ⊆ _ => change (openLns s ∖ list_to_set l ⊆ openLns s) end. set_solver.
  - unfold acceptConn. destruct (threads s !! t) as [[]|]; try done. destruct (bool_decide _); [|done]. apply K; [done|].
    change (nextSocket s <= nextSocket s + 1). lia.
  - unfold acceptError. destruct (threads s !! t) as [[]|]; try done. destruct (_ || _); by apply K.
  - unfold wsUpgrade. destruct (wsEndpoints s !! ep); cbn; [|done]. destruct (bool_decide _); [|done]. apply K; [done|].
    change (nextSocket s <= nextSocket s + 1). lia.
  - unfold runThread, addConnGoroutine. destruct (threads s !! t) as [[]|]; try done; try (by apply K);
      [destruct (_ && _) | destruct (closing s) in |- * | destruct (closing s) in |- *]; by apply K.
  - unfold handlerEnds. destruct (threads s !! t) as [[| | | | | | | |[] k| |]|]; try done; [by apply K|]. destruct (_ && _); by apply K.
Qed.

Lemma fresh_run acts s s' : run acts s = Some s' -> fresh s -> fresh s'.
Proof.
  revert s. induction acts as [|a acts IH]; intros s; cbn [run]; [by intros [= <-]|].
  destruct (step a s) as [s1|] eqn:E; [|done]. cbn. intros H Hf. eapply IH; [exact H|]. by eapply fresh_step.
Qed.

Lemma fresh_new cfg tls opts : fresh (NewMQTTServer cfg tls opts).
Proof.
  unfold NewMQTTServer. destruct (if so_tlsConfig _ then _ else _) as [hasTLS e]. intros ln. cbn.
  destruct (so_listener _); set_solver by lia.
Qed.

Lemma server_cfg cfg tls opts acts s : run acts (NewMQTTServer cfg tls opts) = Some s -> s_cfg s = cfg /\ fresh s.
Proof.
  intros H. split; [|eapply fresh_run; [exact H | apply fresh_new]]. apply run_refused in H as [_ ->].
  unfold NewMQTTServer. by destruct (if so_tlsConfig _ then _ else _).
Qed.

(** Start once the TCP listeners are bound *)
Lemma Start_listening bind s bound s4 :
  s_started s = false -> tlsErr s = None -> s_listener s = None -> EffectiveListenAddrs (s_cfg s) <> [] ->
  bindAll bind (EffectiveListenAddrs (s_cfg s)) [] (s <| closing := false |> <| s_started := true |> <| ctxDone := false |>) = (Ok bound, s4) ->
  Start bind s =
    (let s5 := startLoops bound (s4 <| s_listener := head bound |> <| s_listeners := bound |>) in
     let '(r, s) := match startWS bind false (EffectiveWSListenAddrs (s_cfg s5)) s5 with
                    | (Ok _, s) => startWS bind true (EffectiveWSSListenAddrs (s_cfg s)) s
                    | r => r
                    end in
     match r with Ok _ => (Ok tt, s) | Err e => (Err e, closeListeners bound s) end).
Proof.
  intros H1 H2 H3 H4 H5. unfold Start. change (s_started (s <| closing := false |>)) with (s_started s). rewrite H1.
  change (tlsErr (s <| closing := false |> <| s_started := true |>)) with (tlsErr s). rewrite H2.
  set (s3 := s <| closing := false |> <| s_started := true |> <| ctxDone := false |>) in *.
  change (s_listener s3) with (s_listener s). rewrite H3. change (s_cfg s3) with (s_cfg s).
  rewrite (proj2 (isEmpty_false _) H4), H5. reflexivity.
Qed.

(** A TCP address that cannot be bound *)
Lemma Start_fails bind s :
  fresh s -> s_started s = false -> tlsErr s = None -> s_listener s = None -> EffectiveListenAddrs (s_cfg s) <> [] ->
  ~ Forall (fun a => bind a = true) (EffectiveListenAddrs (s_cfg s)) ->
  exists e s', Start bind s = (Err e, s') /\ openLns s' = openLns s /\
    forall bind', fst (Start bind' s') = Err (ErrText "server already started").
Proof.
  intros Hf Hs He Hl Hne Hb. set (s3 := s <| closing := false |> <| s_started := true |> <| ctxDone := false |>).
  destruct (bindAll_fails bind (EffectiveListenAddrs (s_cfg s)) [] (openLns s) s3 Hb Hf) as (e & s' & E & Ho).
  { change (openLns s = openLns s ∪ ∅). set_solver. }
  { by intros ln ?%elem_of_nil. }
  { exact Hf. }
  pose proof (q_started _ _ (quiet_bindAll bind (EffectiveListenAddrs (s_cfg s)) [] s3)) as Hst. rewrite E in Hst. cbn [snd] in Hst.
  exists e, s'. split_and!; [|done|].
  - unfold Start. change (s_started (s <| closing := false |>)) with (s_started s). rewrite Hs.
    change (tlsErr (s <| closing := false |> <| s_started := true |>)) with (tlsErr s). rewrite He. fold s3.
    change (s_listener s3) with (s_listener s). rewrite Hl. change (s_cfg s3) with (s_cfg s). rewrite (proj2 (isEmpty_false _) Hne), E. done.
  - intros bind'. unfold Start. change (s_started (s' <| closing := false |>)) with (s_started s'). rewrite Hst. done.
Qed.


