(* ===== verification/Plugin.v ===== *)
(** * Plugins: plugin/manager.go, plugin/lifecycle.go and plugin/eventbus.go

    A plugin and a subscriber are code of the broker's user: they are known by
    their identity, and what they do when they are called is decided by the
    environment, as a function of the calls made so far.  The manager shares the
    arrays behind its hook lists with the dispatches in progress, so the lists
    are slices of arrays in a heap, as in Go. *)

From S2P Require Import Prelude.
Open Scope Z_scope.

(** ** Types *)

(** manager.go, Hook; eventbus.go, Event *)
Inductive Hook := OnAccept | OnConnected | OnMessage | OnClose.
#[export] Instance Hook_eq_dec : EqDecision Hook.
Proof. solve_decision. Defined.
#[export] Instance Hook_countable : Countable Hook.
Proof.
  apply (inj_countable' (fun h => match h with OnAccept => 0 | OnConnected => 1 | OnMessage => 2 | OnClose => 3 end)
    (fun z => if z =? 0 then OnAccept else if z =? 1 then OnConnected else if z =? 2 then OnMessage else OnClose)).
  by intros [].
Defined.

Inductive BusEvent :=
  | EventBrokerStarted | EventBrokerStopped | EventClientConnected | EventClientDisconnected | EventMessagePublished
  | EventMessageDelivered | EventSubscribed | EventUnsubscribed | EventRetainedChanged
  | EventPluginInitialized | EventPluginStarted | EventPluginStopped | EventPluginUninstalled.
#[export] Instance BusEvent_eq_dec : EqDecision BusEvent.
Proof. solve_decision. Defined.

(** lifecycle.go, stage *)
Inductive stage := stageNone | stageInitialized | stageStarted | stageStopped | stageUninstalled.
#[export] Instance stage_eq_dec : EqDecision stage.
Proof. solve_decision. Defined.

(** The methods of Lifecycle *)
Inductive Stage := Initialize | Start | Stop | Uninstall.

(** What a call into user code does: it returns (an error or nil), panics, or
    does not return before the deadline of the call. *)
Inductive outcome := Returns (e : option err) | Panics | Hangs.
#[export] Instance outcome_eq_dec : EqDecision outcome.
Proof. solve_decision. Defined.

(** A call into user code. *)
Inductive UserCall :=
  | Execute (p : nat) (h : Hook)
  | RunStage (p : nat) (s : Stage)
  | Handle (s : nat) (ev : BusEvent).

(** ** The event bus *)

(** eventbus.go, Bus *)
Record Bus := mkBus {
  subs : list (BusEvent * nat);
  busTimeout : Z;
  dropped : Z;
  dispatched : Z;
  stopped : bool;
}.

#[export] Instance Bus_eta : Eta Bus := fun b => mkBus (subs b) (busTimeout b) (dropped b) (dispatched b) (stopped b).

(** eventbus.go, NewBus, SetTimeout, Subscribe, Unsubscribe, Subscribers, Stop,
    Started.  The registrations of one event keep their order. *)
Definition NewBus : Bus := mkBus [] (5 * second) 0 0 false.
Definition SetTimeout (d : Z) (b : Bus) : Bus := b <| busTimeout := d |>.
Definition Subscribe (ev : BusEvent) (s : nat) (b : Bus) : Bus := b <| subs := subs b ++ [(ev, s)] |>.
Definition Unsubscribe (ev : BusEvent) (s : nat) (b : Bus) : Bus := b <| subs := base.filter (.≠ (ev, s)) (subs b) |>.
Definition Subscribers (ev : BusEvent) (b : Bus) : list nat :=
  omap (fun e => if decide (fst e = ev) then Some (snd e) else None) (subs b).
Definition StopBus (b : Bus) : Bus := b <| stopped := true |>.
Definition Started (b : Bus) : bool := negb (stopped b).

(** ** The manager *)

(** A Go slice of plugins: an array of the heap and a length; the capacity is the
    length of the array. *)
Record slice := { arr : nat; slen : nat }.

Record Manager := mkManager {
  arrays : gmap nat (list nat);
  nextArr : nat;
  plugins : gmap Hook slice;
  all : list nat;
  hookTimeout : Z;
  bus : Bus;
  stages : gmap bytes stage;
  inFlight : nat;
  calls : list (UserCall * outcome);
}.

#[export] Instance Manager_eta : Eta Manager := fun m =>
  mkManager (arrays m) (nextArr m) (plugins m) (all m) (hookTimeout m) (bus m) (stages m) (inFlight m) (calls m).

(** manager.go, maxConcurrentHooks, NewManager and SetHookTimeout *)
Definition maxConcurrentHooks : nat := 256.
Definition NewManager : Manager := mkManager ∅ 0 ∅ [] (10 * second) NewBus ∅ 0 [].
Definition SetHookTimeout (d : Z) (m : Manager) : Manager := m <| hookTimeout := d |>.

Implicit Types m : Manager.

Definition array m (a : nat) : list nat := default [] (arrays m !! a).

(** The plugins of a hook, in order. *)
Definition hookPlugins m (h : Hook) : list nat :=
  match plugins m !! h with Some s => take (slen s) (array m (arr s)) | None => [] end.

(** A registration or a removal, which a plugin may also ask for while it runs. *)
Inductive MOp := Register (p : nat) | Unregister (p : nat).

(** Go's <= on strings *)
Fixpoint text_leb (a b : bytes) : bool :=
  match a, b with
  | [], _ => true
  | _ :: _, [] => false
  | x :: a', y :: b' => (x <? y) || ((x =? y) && text_leb a' b')
  end.

Section Plugins.
(** The name of a plugin, the hooks it declares, whether it implements Lifecycle;
    the capacity append adds beyond the element it needs; what a call into user
    code does, and the registrations a hook performs while it runs. *)
Context (Name : nat -> bytes) (Hooks : nat -> list Hook) (managed : nat -> bool) (spare : nat -> nat).
Context (does : list (UserCall * outcome) -> UserCall -> outcome) (asks : list (UserCall * outcome) -> nat -> Hook -> list MOp).

(** ** Registration *)

(** append(list, p) *)
Definition appendPlugin (s : slice) (p : nat) m : slice * Manager :=
  let a := array m (arr s) in
  if decide (slen s < length a)%nat
  then ({| arr := arr s; slen := S (slen s) |}, m <| arrays := <[arr s := <[slen s := p]> a]> (arrays m) |>)
  else ({| arr := nextArr m; slen := S (slen s) |},
        m <| arrays := <[nextArr m := take (slen s) a ++ [p] ++ replicate (spare (slen s)) 0%nat]> (arrays m) |>
          <| nextArr := S (nextArr m) |>).

(** A hook without a list yet: the nil slice. *)
Definition hookSlice m (h : Hook) : slice := default {| arr := nextArr m; slen := 0 |} (plugins m !! h).

(** manager.go, Register *)
Definition registerHook (p : nat) m (h : Hook) : Manager :=
  let '(s, m) := appendPlugin (hookSlice m h) p m in m <| plugins := <[h := s]> (plugins m) |>.

Definition register (p : nat) m : Manager := foldl (registerHook p) (m <| all := all m ++ [p] |>) (Hooks p).

(** manager.go, Unregister: each list is compacted in place in its array *)
Definition compact (p : nat) m (e : Hook * slice) : Manager :=
  let '(h, s) := e in
  let a := array m (arr s) in
  let kept := base.filter (.≠ p) (take (slen s) a) in
  let m := m <| arrays := <[arr s := kept ++ drop (length kept) a]> (arrays m) |> in
  m <| plugins := if decide (kept = []) then delete h (plugins m)
                  else <[h := {| arr := arr s; slen := length kept |}]> (plugins m) |>.

Definition unregister (p : nat) m : Manager :=
  foldl (compact p) (m <| all := base.filter (.≠ p) (all m) |>) (map_to_list (plugins m)).

Definition apply (op : MOp) m : Manager := match op with Register p => register p m | Unregister p => unregister p m end.

(** ** Hooks *)

Definition logCall (c : UserCall) (o : outcome) m : Manager := m <| calls := calls m ++ [(c, o)] |>.

(** manager.go, run: the error it returns, [None] when it never returns.  With a
    timeout the plugin runs on a goroutine that holds a slot until it ends; one
    that does not end in time keeps it. *)
Definition runHook (p : nat) (h : Hook) (timeout : Z) m : option (option err * Manager) :=
  let o := does (calls m) (Execute p h) in
  let ran m := foldl (fun m op => apply op m) (logCall (Execute p h) o m) (asks (calls m) p h) in
  if timeout <=? 0 then
    match o with
    | Returns e => Some (e, ran m)
    | Panics => Some (Some (ErrText "plugin panic"), ran m)
    | Hangs => None
    end
  else if decide (maxConcurrentHooks <= inFlight m)%nat then Some (Some (ErrText "hook dropped"), m)
  else
    match o with
    | Returns e => Some (e, ran m)
    | Panics => Some (Some (ErrText "plugin panic"), ran m)
    | Hangs => Some (Some (ErrText "hook timed out"), ran m <| inFlight := S (inFlight m) |>)
    end.

(** A goroutine that had timed out ends. *)
Definition hookEnds m : Manager := m <| inFlight := pred (inFlight m) |>.

(** manager.go, Dispatch: the loop reads each element from the shared array. *)
Fixpoint dispatchLoop (s : slice) (h : Hook) (timeout : Z) (todo : nat) (errs : list err) m : option (list err * Manager) :=
  match todo with
  | O => Some (errs, m)
  | S todo' =>
      match array m (arr s) !! (slen s - S todo')%nat with
      | None => None
      | Some p =>
          '(e, m) ← runHook p h timeout m;
          dispatchLoop s h timeout todo' (match e with Some e => errs ++ [e] | None => errs end) m
      end
  end.

Definition Dispatch (h : Hook) m : option (option err * Manager) :=
  let s := default {| arr := 0; slen := 0 |} (plugins m !! h) in
  '(errs, m) ← dispatchLoop s h (hookTimeout m) (slen s) [] m;
  Some (match errs with [] => None | _ => Some (ErrText "plugin dispatch") end, m).

(** manager.go, RegisteredPlugins *)
Definition RegisteredPlugins m : list bytes :=
  foldl (fun names p => if decide (Name p ∈ names) then names else names ++ [Name p]) []
    (concat (map (fun e => take (slen (snd e)) (array m (arr (snd e)))) (map_to_list (plugins m)))).

(** ** Events *)

(** eventbus.go, deliver: [None] when it never returns *)
Definition deliver (s : nat) (ev : BusEvent) (timeout : Z) (o : outcome) : option (option err) :=
  match o with
  | Returns e => Some e
  | Panics => Some (Some (ErrText "panicked"))
  | Hangs => if timeout <=? 0 then None else Some (Some (ErrText "timed out"))
  end.

Fixpoint publishLoop (ev : BusEvent) (timeout : Z) (list : list nat) (failed : Z) m : option (Z * Manager) :=
  match list with
  | [] => Some (failed, m)
  | s :: list' =>
      let o := does (calls m) (Handle s ev) in
      e ← deliver s ev timeout o;
      publishLoop ev timeout list' (match e with Some _ => failed + 1 | None => failed end) (logCall (Handle s ev) o m)
  end.

(** eventbus.go, Publish *)
Definition Publish (ev : BusEvent) m : option (option err * Manager) :=
  if stopped (bus m) then Some (None, m)
  else
    let list := Subscribers ev (bus m) in
    match list with
    | [] => Some (None, m)
    | _ =>
        '(failed, m) ← publishLoop ev (busTimeout (bus m)) list 0 m;
        Some (if 0 <? failed
              then (Some (ErrText "event bus"), m <| bus := bus m <| dropped := dropped (bus m) + failed |> |>)
              else (None, m <| bus := bus m <| dispatched := dispatched (bus m) + len list |> |>))
    end.

(** ** Lifecycle *)

(** lifecycle.go, runStage: the plugin runs under lifecycleTimeout *)
Definition runStage (p : nat) (s : Stage) m : option err * Manager :=
  let o := does (calls m) (RunStage p s) in
  (match o with
   | Returns e => e
   | Panics => Some (ErrText "panicked")
   | Hangs => Some (ErrText "timed out")
   end, logCall (RunStage p s) o m).

Definition stageOf m (name : bytes) : stage := default stageNone (stages m !! name).

(** lifecycle.go, setStage *)
Definition setStage (name : bytes) (s : stage) m : option Manager :=
  let m := if bool_decide (is_Some (stages m !! name)) || negb (bool_decide (s = stageNone))
           then m <| stages := <[name := s]> (stages m) |> else m in
  match s with
  | stageNone => Some m
  | stageInitialized => snd <$> Publish EventPluginInitialized m
  | stageStarted => snd <$> Publish EventPluginStarted m
  | stageStopped => snd <$> Publish EventPluginStopped m
  | stageUninstalled => snd <$> Publish EventPluginUninstalled m
  end.

(** lifecycle.go, startOne *)
Definition startStage (p : nat) (st : stage) m : option (option err * Manager) :=
  if decide (st = stageStarted) then Some (None, m)
  else
    match runStage p Start m with
    | (Some e, m) => m ← setStage (Name p) stageInitialized m; Some (Some e, m)
    | (None, m) => m ← setStage (Name p) stageStarted m; Some (None, m)
    end.

Definition startOne (p : nat) m : option (option err * Manager) :=
  let st := stageOf m (Name p) in
  if decide (st = stageNone) then
    match runStage p Initialize m with
    | (Some e, m) => m ← setStage (Name p) stageNone m; Some (Some e, m)
    | (None, m) => m ← setStage (Name p) stageInitialized m; startStage p stageInitialized m
    end
  else startStage p st m.

(** lifecycle.go, stopOne *)
Definition uninstallStage (p : nat) m : option (option err * Manager) :=
  match runStage p Uninstall m with
  | (Some e, m) => m ← setStage (Name p) stageStopped m; Some (Some e, m)
  | (None, m) => m ← setStage (Name p) stageUninstalled m; Some (None, m)
  end.

Definition stopOne (p : nat) m : option (option err * Manager) :=
  match stageOf m (Name p) with
  | stageNone | stageUninstalled => Some (None, m)
  | stageStarted =>
      match runStage p Stop m with
      | (Some e, m) =>
          m ← setStage (Name p) stageStopped m;
          match runStage p Uninstall m with
          | (Some _, m) => Some (Some e, m)
          | (None, m) => m ← setStage (Name p) stageUninstalled m; Some (Some e, m)
          end
      | (None, m) => m ← setStage (Name p) stageStopped m; uninstallStage p m
      end
  | _ => uninstallStage p m
  end.

(** lifecycle.go, managedPlugins and sortManaged *)
Definition byName (p q : nat) : Prop := text_leb (Name p) (Name q) = true.

Definition firstOfName (out : list nat) (p : nat) : list nat :=
  if managed p then if decide (Name p ∈ (Name <$> out)) then out else out ++ [p] else out.

#[local] Instance byName_dec p q : Decision (byName p q).
Proof. unfold byName. apply _. Defined.

Definition managedPlugins m : list nat := merge_sort byName (foldl firstOfName [] (all m)).

Fixpoint forEach (f : nat -> Manager -> option (option err * Manager)) (ps : list nat) (errs : list err) m
    : option (list err * Manager) :=
  match ps with
  | [] => Some (errs, m)
  | p :: ps' => '(e, m) ← f p m; forEach f ps' (match e with Some e => errs ++ [e] | None => errs end) m
  end.

(** lifecycle.go, StartPlugins, StopPlugins and StageOf *)
Definition StartPlugins m : option (list err * Manager) := forEach startOne (managedPlugins m) [] m.

Definition StopPlugins m : option (list err * Manager) :=
  '(errs, m) ← forEach stopOne (reverse (managedPlugins m)) [] m; Some (errs, m <| bus := StopBus (bus m) |>).

Definition StageOf (name : bytes) m : string :=
  match stageOf m name with
  | stageNone => "none"
  | stageInitialized => "initialized"
  | stageStarted => "started"
  | stageStopped => "stopped"
  | stageUninstalled => "uninstalled"
  end.
End Plugins.
