(* ===== verification/PluginProps.v ===== *)
(** * What the plugin manager guarantees

    The hook lists are the registrations, in order, in spite of the arrays they
    share with dispatches in progress; a dispatch runs each of them once, unless
    a plugin unregisters while it runs; the lifecycle stages of a plugin come in
    the order its recorded stage says; the event bus reaches every subscriber. *)

From S2P Require Import Prelude Plugin.
Open Scope Z_scope.

Implicit Types m : Manager.

(** ** Registration *)

(** Each hook has an array of its own, which holds its list. *)
Record slices_ok m : Prop := {
  so_slice h s : plugins m !! h = Some s -> (slen s <= length (array m (arr s)))%nat /\ (arr s < nextArr m)%nat;
  so_own h1 h2 s1 s2 : plugins m !! h1 = Some s1 -> plugins m !! h2 = Some s2 -> arr s1 = arr s2 -> h1 = h2;
  so_fresh a : (nextArr m <= a)%nat -> arrays m !! a = None;
}.

(** A step that gives hook [h] the list [l] in array [a], its own or a new one. *)
Lemma slices_update h a l cap m m' :
  slices_ok m -> (forall s, plugins m !! h = Some s -> a = arr s \/ (nextArr m <= a)%nat) ->
  (plugins m !! h = None -> (nextArr m <= a)%nat) ->
  arrays m' = <[a := l ++ cap]> (arrays m) -> nextArr m' = Nat.max (nextArr m) (S a) ->
  plugins m' = <[h := {| arr := a; slen := length l |}]> (plugins m) ->
  slices_ok m' /\ hookPlugins m' h = l /\ forall h', h' <> h -> hookPlugins m' h' = hookPlugins m h'.
Proof.
  intros [H1 H2 H3] Ha1 Ha2 E1 E2 E3.
  assert (forall b, array m' b = if decide (a = b) then l ++ cap else array m b) as Harr.
  { intros b. unfold array. rewrite E1. destruct (decide (a = b)) as [->|]; [by rewrite lookup_insert_eq | by rewrite lookup_insert_ne]. }
  assert (forall h' s, h' <> h -> plugins m !! h' = Some s -> a <> arr s) as Hother.
  { intros h' s Hne Hs ->. destruct (plugins m !! h) as [s0|] eqn:Eh.
    - destruct (Ha1 s0 eq_refl) as [E|?]; [by apply Hne, (H2 h' h s s0)|]. destruct (H1 h' s Hs). lia.
    - specialize (Ha2 eq_refl). destruct (H1 h' s Hs). lia. }
  split_and!.
  - split.
    + intros h' s. rewrite E3, E2. intros [[<- <-]|[Hne Hs]]%lookup_insert_Some.
      * cbn [arr slen]. rewrite Harr, decide_True, length_app by done. lia.
      * rewrite Harr, decide_False by by apply (Hother h'). destruct (H1 h' s Hs). lia.
    + intros h1 h2 s1 s2. rewrite E3.
      intros [[<- <-]|[Hn1 Hs1]]%lookup_insert_Some [[<- <-]|[Hn2 Hs2]]%lookup_insert_Some; cbn [arr]; intros E; [done| | |].
      * by destruct (Hother h2 s2 (not_eq_sym Hn2) Hs2).
      * by destruct (Hother h1 s1 (not_eq_sym Hn1) Hs1).
      * by apply (H2 h1 h2 s1 s2).
    + intros b Hb. rewrite E2 in Hb. rewrite E1, lookup_insert_ne by lia. apply H3. lia.
  - unfold hookPlugins. rewrite E3, lookup_insert_eq. cbn [arr slen]. rewrite Harr, decide_True by done. by rewrite take_app_length.
  - intros h' Hne. unfold hookPlugins. rewrite E3, lookup_insert_ne by done. destruct (plugins m !! h') as [s|] eqn:Es; [|done].
    by rewrite Harr, decide_False by by apply (Hother h').
Qed.

Lemma compact_spec p h s m :
  slices_ok m -> plugins m !! h = Some s ->
  slices_ok (compact p m (h, s)) /\ hookPlugins (compact p m (h, s)) h = base.filter (.≠ p) (hookPlugins m h) /\
  forall h', h' <> h -> hookPlugins (compact p m (h, s)) h' = hookPlugins m h' /\ plugins (compact p m (h, s)) !! h' = plugins m !! h'.
Proof.
  intros Hm Hs. assert (hookPlugins m h = take (slen s) (array m (arr s))) as Eh by (unfold hookPlugins; by rewrite Hs).
  unfold compact. rewrite <- Eh. set (kept := base.filter (.≠ p) (hookPlugins m h)).
  set (m1 := m <| arrays := _ |>). set (m2 := m1 <| plugins := <[h := {| arr := arr s; slen := length kept |}]> (plugins m1) |>).
  assert (slices_ok m2 /\ hookPlugins m2 h = kept /\ forall h', h' <> h -> hookPlugins m2 h' = hookPlugins m h') as (Hok & Hh & Ho).
  { apply (slices_update h (arr s) kept (drop (length kept) (array m (arr s))) m m2 Hm); try reflexivity.
    - intros s0. rewrite Hs. intros [= <-]. by left.
    - congruence.
    - change (nextArr m = Nat.max (nextArr m) (S (arr s))). destruct (so_slice m Hm h s Hs). lia. }
  destruct (decide (kept = [])) as [Ek|Ek].
  - set (m3 := m1 <| plugins := delete h (plugins m1) |>).
    assert (plugins m3 = delete h (plugins m)) as Ep by reflexivity.
    assert (forall h', h' <> h -> plugins m3 !! h' = plugins m2 !! h') as Esame.
    { intros h' Hne. rewrite Ep, lookup_delete_ne by done. symmetry. by apply lookup_insert_ne. }
    assert (forall h' s', plugins m3 !! h' = Some s' -> plugins m2 !! h' = Some s') as Hsub.
    { intros h' s' Hs'. rewrite <- Esame; [done|]. intros ->. by rewrite Ep, lookup_delete_eq in Hs'. }
    split_and!.
    + destruct Hok as [H1 H2 H3]. split; [| |exact H3].
      * intros h' s' Hs'%Hsub. exact (H1 h' s' Hs').
      * intros h1 h2 s1 s2 Hs1%Hsub Hs2%Hsub. by apply H2.
    + unfold hookPlugins at 1. by rewrite Ep, lookup_delete_eq.
    + intros h' Hne. rewrite <- Ho by done. unfold hookPlugins. rewrite Esame by done. split; [done|].
      by apply lookup_insert_ne.
  - split_and!; [exact Hok | exact Hh |]. intros h' Hne. split; [by apply Ho|]. by apply lookup_insert_ne.
Qed.

Lemma unregister_spec p m :
  slices_ok m -> slices_ok (unregister p m) /\
    forall h, hookPlugins (unregister p m) h = base.filter (.≠ p) (hookPlugins m h).
Proof.
  intros Hm. unfold unregister. set (m0 := m <| all := _ |>).
  assert (slices_ok m0) as Hm0 by (by destruct Hm).
  change (plugins m) with (plugins m0).
  assert (forall l m1, NoDup l.*1 -> slices_ok m1 -> (forall h s, (h, s) ∈ l -> plugins m1 !! h = Some s) ->
    slices_ok (foldl (compact p) m1 l) /\
    forall h, hookPlugins (foldl (compact p) m1 l) h =
      if decide (h ∈ l.*1) then base.filter (.≠ p) (hookPlugins m1 h) else hookPlugins m1 h) as Hfold.
  { induction l as [|[h s] l IH]; intros m1 Hd Hok Hl; [by split|]. cbn [foldl].
    rewrite fmap_cons in Hd. apply NoDup_cons in Hd as [Hh Hd]. cbn [fst] in Hh.
    destruct (compact_spec p h s m1 Hok) as (Hok' & Eh & Ho); [apply Hl; left|].
    destruct (IH (compact p m1 (h, s)) Hd Hok') as [Hok'' Hv].
    { intros h' s' Hin. assert (h' <> h) by (intros ->; apply Hh; by apply (list_elem_of_fmap_2 fst _ (h, s'))).
      rewrite (proj2 (Ho h' H)). apply Hl. by right. }
    split; [done|]. intros h'. rewrite Hv, fmap_cons. cbn [fst].
    destruct (decide (h' = h)) as [->|Hne].
    - rewrite decide_False by done. rewrite decide_True by left. done.
    - rewrite (proj1 (Ho h' Hne)). destruct (decide (h' ∈ l.*1)).
      + by rewrite decide_True by by right.
      + by rewrite decide_False by (rewrite elem_of_cons; tauto). }
  destruct (Hfold (map_to_list (plugins m0)) m0) as [Hok Hv];
    [apply NoDup_fst_map_to_list | done | by intros h s ?%elem_of_map_to_list |].
  split; [done|]. intros h. rewrite Hv. change (hookPlugins m0 h) with (hookPlugins m h).
  case_decide as Hin; [done|]. unfold hookPlugins. destruct (plugins m !! h) as [s|] eqn:E; [|done].
  destruct Hin. apply list_elem_of_fmap. exists (h, s). split; [done|]. by apply elem_of_map_to_list.
Qed.

Section Registration.
Context (Hooks : nat -> list Hook) (spare : nat -> nat).

Lemma registerHook_spec p h m :
  slices_ok m -> slices_ok (registerHook spare p m h) /\
    forall h', hookPlugins (registerHook spare p m h) h' = hookPlugins m h' ++ if decide (h' = h) then [p] else [].
Proof.
  intros Hm. pose proof Hm as [H1 _ H3]. unfold registerHook, appendPlugin. set (s := hookSlice m h).
  assert (take (slen s) (array m (arr s)) = hookPlugins m h /\ (slen s <= length (array m (arr s)))%nat) as [Ht Hle].
  { unfold s, hookSlice, hookPlugins. destruct (plugins m !! h) as [s0|] eqn:E; cbn; [split; [done | by eapply H1]|]. split; [done|lia]. }
  assert (length (hookPlugins m h) = slen s) as Hl by (rewrite <- Ht, length_take; lia).
  assert (forall a cap m', (forall s, plugins m !! h = Some s -> a = arr s \/ (nextArr m <= a)%nat) ->
    (plugins m !! h = None -> (nextArr m <= a)%nat) ->
    arrays m' = <[a := (hookPlugins m h ++ [p]) ++ cap]> (arrays m) -> nextArr m' = Nat.max (nextArr m) (S a) ->
    plugins m' = <[h := {| arr := a; slen := S (slen s) |}]> (plugins m) ->
    slices_ok m' /\ forall h', hookPlugins m' h' = hookPlugins m h' ++ if decide (h' = h) then [p] else []) as Hup.
  { intros a cap m' A1 A2 A3 A4 A5. destruct (slices_update h a (hookPlugins m h ++ [p]) cap m m') as (? & Hh & Ho); try done.
    - rewrite A5, length_app, Hl. cbn [length]. by rewrite Nat.add_1_r.
    - split; [done|]. intros h'. destruct (decide (h' = h)) as [->|]; [done|]. rewrite Ho by done. by rewrite app_nil_r. }
  destruct (decide (slen s < length (array m (arr s)))%nat) as [Hlt|Hge].
  - assert (plugins m !! h = Some s) as Es.
    { unfold s, hookSlice in *. destruct (plugins m !! h) as [s0|] eqn:E; [done|]. exfalso. cbn in Hlt. unfold array in Hlt.
      rewrite H3 in Hlt by done. cbn in Hlt. lia. }
    apply (Hup (arr s) (drop (S (slen s)) (array m (arr s)))).
    + intros s0. rewrite Es. intros [= <-]. by left.
    + congruence.
    + change (<[arr s := <[slen s := p]> (array m (arr s))]> (arrays m) = <[arr s := (hookPlugins m h ++ [p]) ++ drop (S (slen s)) (array m (arr s))]> (arrays m)).
      f_equal. rewrite <- Ht, <- app_assoc. by apply insert_take_drop.
    + change (nextArr m = Nat.max (nextArr m) (S (arr s))). destruct (H1 h s Es). lia.
    + reflexivity.
  - apply (Hup (nextArr m) (replicate (spare (slen s)) 0%nat)); [by right | done | | |].
    + rewrite <- Ht, <- app_assoc. reflexivity.
    + change (S (nextArr m) = Nat.max (nextArr m) (S (nextArr m))). lia.
    + reflexivity.
Qed.

Lemma register_spec p m :
  slices_ok m -> slices_ok (register Hooks spare p m) /\
    forall h, hookPlugins (register Hooks spare p m) h = hookPlugins m h ++ replicate (length (base.filter (.= h) (Hooks p))) p.
Proof.
  intros Hm. unfold register. set (m0 := m <| all := _ |>). assert (slices_ok m0) as Hm0 by (by destruct Hm).
  assert (forall l m1, slices_ok m1 -> slices_ok (foldl (registerHook spare p) m1 l) /\
    forall h, hookPlugins (foldl (registerHook spare p) m1 l) h =
      hookPlugins m1 h ++ replicate (length (base.filter (.= h) l)) p) as Hfold.
  { induction l as [|h l IH]; intros m1 Hok; cbn [foldl]; [split; [done|]; intros h; by rewrite app_nil_r|].
    destruct (registerHook_spec p h m1 Hok) as [Hok' Hv']. destruct (IH _ Hok') as [Hok'' Hv]. split; [done|].
    intros h'. rewrite Hv, Hv', filter_cons. destruct (decide (h' = h)) as [->|Hne].
    - rewrite decide_True by done. by rewrite <- app_assoc.
    - rewrite decide_False by (intros ->; done). by rewrite app_nil_r. }
  destruct (Hfold (Hooks p) m0 Hm0) as [Hok Hv]. split; [done|]. intros h. by rewrite Hv.
Qed.
End Registration.

Lemma slices_new : slices_ok NewManager.
Proof. split; try done. Qed.

(** ** Dispatch *)

Section Dispatches.
Context (Hooks : nat -> list Hook) (spare : nat -> nat).
Context (does : list (UserCall * outcome) -> UserCall -> outcome) (asks : list (UserCall * outcome) -> nat -> Hook -> list MOp).

(** One plugin that registers and unregisters nothing while it runs. *)
Lemma runHook_quiet p h timeout m :
  0 < timeout -> (inFlight m < maxConcurrentHooks)%nat -> asks (calls m) p h = [] ->
  exists o e m', runHook Hooks spare does asks p h timeout m = Some (e, m') /\ (e = None <-> o = Returns None) /\
    calls m' = calls m ++ [(Execute p h, o)] /\ arrays m' = arrays m /\ plugins m' = plugins m /\
    (inFlight m' <= S (inFlight m))%nat.
Proof.
  intros Ht Hs Ha. unfold runHook. rewrite Ha. destruct (Z.leb_spec timeout 0); [lia|]. rewrite decide_False by lia.
  destruct (does (calls m) (Execute p h)) as [e| |] eqn:Eo; cbn [foldl].
  - exists (Returns e), e. eexists. split_and!; [reflexivity | | reflexivity.. | auto]. split; congruence.
  - exists Panics. do 2 eexists. split_and!; [reflexivity | done | reflexivity.. | auto].
  - exists Hangs. do 2 eexists. split_and!; [reflexivity | done | reflexivity.. | auto].
Qed.

Lemma dispatchLoop_quiet s h timeout todo errs m :
  0 < timeout -> (slen s <= length (array m (arr s)))%nat -> (todo <= slen s)%nat ->
  (inFlight m + todo <= maxConcurrentHooks)%nat -> (forall l p h, asks l p h = []) ->
  exists os es m', dispatchLoop Hooks spare does asks s h timeout todo errs m = Some (errs ++ es, m') /\
    calls m' = calls m ++ zip ((fun p => Execute p h) <$> drop (slen s - todo) (take (slen s) (array m (arr s)))) os /\
    length os = todo /\ (es = [] <-> Forall (.= Returns None) os) /\ arrays m' = arrays m /\ plugins m' = plugins m.
Proof.
  intros Ht Hle Htodo Hcap Hq. revert m errs Hle Hcap. induction todo as [|todo IH]; intros m errs Hle Hcap.
  { exists [], [], m. cbn [dispatchLoop]. split_and!; [by rewrite app_nil_r | | done | done | done | done].
    by rewrite zip_with_nil_r, app_nil_r. }
  cbn [dispatchLoop]. assert (slen s - S todo < length (array m (arr s)))%nat as Hi by lia.
  destruct (lookup_lt_is_Some_2 _ _ Hi) as [p Hp]. rewrite Hp.
  destruct (runHook_quiet p h timeout m) as (o & e & m1 & Er & He & Ec & Ea & Ep & Hf); [done | lia | done |].
  rewrite Er. cbn [mbind option_bind]. assert (array m1 (arr s) = array m (arr s)) as Earr by (unfold array; by rewrite Ea).
  destruct (IH ltac:(lia) m1 (match e with Some e => errs ++ [e] | None => errs end)) as (os & es & m2 & E2 & Ec2 & Hl & Hes & Ea2 & Ep2);
    [by rewrite Earr | lia |].
  rewrite E2. exists (o :: os), (match e with Some e => [e] | None => [] end ++ es), m2. split_and!.
  - destruct e; [by rewrite <- app_assoc | done].
  - rewrite Ec2, Ec, <- app_assoc, Earr. f_equal.
    rewrite (drop_S (take (slen s) (array m (arr s))) p (slen s - S todo)) by (rewrite lookup_take_lt; [done|lia]).
    replace (S (slen s - S todo)) with (slen s - todo)%nat by lia. reflexivity.
  - cbn. by rewrite Hl.
  - rewrite Forall_cons, <- Hes, <- He. destruct e; [|intuition done]. split; [done | by intros [? _]].
  - congruence.
  - congruence.
Qed.

(** What the registrations and removals leave registered for a hook. *)
Definition registered (h : Hook) (l : list nat) (op : MOp) : list nat :=
  match op with
  | Register p => l ++ replicate (length (base.filter (.= h) (Hooks p))) p
  | Unregister p => base.filter (.≠ p) l
  end.

Lemma applied ops m :
  slices_ok m ->
  let m' := foldl (fun m op => apply Hooks spare op m) m ops in
  slices_ok m' /\ forall h, hookPlugins m' h = foldl (registered h) (hookPlugins m h) ops.
Proof.
  revert m. induction ops as [|op ops IH]; intros m Hm; [done|]. cbn [foldl].
  assert (slices_ok (apply Hooks spare op m) /\ forall h, hookPlugins (apply Hooks spare op m) h = registered h (hookPlugins m h) op)
    as [Hok Hv] by (destruct op; [apply (register_spec Hooks spare p m Hm) | apply (unregister_spec p m Hm)]).
  destruct (IH _ Hok) as [Hok' Hv']. split; [done|]. intros h. by rewrite Hv', Hv.
Qed.

(** They touch neither the calls in progress nor the timeout. *)
Lemma applied_frame ops m :
  let m' := foldl (fun m op => apply Hooks spare op m) m ops in
  hookTimeout m' = hookTimeout m /\ inFlight m' = inFlight m /\ calls m' = calls m.
Proof.
  revert m. induction ops as [|op ops IH]; intros m; [done|]. cbn [foldl]. destruct (IH (apply Hooks spare op m)) as (-> & -> & ->).
  destruct op; cbn [apply]; unfold register, unregister.
  - set (m0 := m <| all := _ |>). change (calls m) with (calls m0). change (inFlight m) with (inFlight m0).
    change (hookTimeout m) with (hookTimeout m0). generalize m0. induction (Hooks p) as [|h l IHl]; intros m1; [done|].
    cbn [foldl]. destruct (IHl (registerHook spare p m1 h)) as (-> & -> & ->). unfold registerHook, appendPlugin. by case_decide.
  - set (m0 := m <| all := _ |>). change (calls m) with (calls m0). change (inFlight m) with (inFlight m0).
    change (hookTimeout m) with (hookTimeout m0). generalize m0. induction (map_to_list (plugins m)) as [|[h s] l IHl]; intros m1; [done|].
    cbn [foldl]. by destruct (IHl (compact p m1 (h, s))) as (-> & -> & ->).
Qed.
End Dispatches.

(** ** Properties *)

(** A dispatch runs every registered plugin once, in order.  After any
    sequence of registrations and removals, Dispatch of a hook (with a timeout,
    and room for its executions) calls Execute of exactly the plugins that are
    registered for the hook, in registration order, one call per registration,
    whether or not earlier ones fail, panic or hang, and reports an error exactly
    when one of them does; provided that no plugin registers or unregisters
    anything while it runs. *)
Theorem dispatch_runs_registered Hooks spare does asks ops h :
  (forall l p h, asks l p h = []) ->
  let m := foldl (fun m op => apply Hooks spare op m) NewManager ops in
  let expected := foldl (registered Hooks h) [] ops in
  (length expected <= maxConcurrentHooks)%nat ->
  exists r m' os, Dispatch Hooks spare does asks h m = Some (r, m') /\ length os = length expected /\
    calls m' = zip ((fun p => Execute p h) <$> expected) os /\ (r = None <-> Forall (.= Returns None) os).
Proof.
  intros Hq m expected Hcap.
  destruct (applied Hooks spare ops NewManager slices_new) as [Hok Hv]. fold m in Hok, Hv.
  assert (hookPlugins m h = expected) as Eh by apply Hv.
  assert (hookTimeout m = 10 * second /\ inFlight m = 0%nat /\ calls m = []) as (E1 & E2 & E3) by apply applied_frame.
  unfold Dispatch. rewrite E1. set (s := default _ (plugins m !! h)).
  assert (slen s <= length (array m (arr s)) /\ take (slen s) (array m (arr s)) = expected)%nat as [Hle Et].
  { rewrite <- Eh. unfold s, hookPlugins. destruct (plugins m !! h) as [s0|] eqn:E; cbn; [split; [by eapply so_slice | done]|].
    split; [lia | done]. }
  assert (length expected = slen s) as Hlen by (rewrite <- Et, length_take; lia).
  destruct (dispatchLoop_quiet Hooks spare does asks s h (10 * second) (slen s) [] m) as (os & es & m' & Er & Ec & Hl & Hes & _);
    [done | done | done | lia | done |].
  rewrite Er. cbn [mbind option_bind]. rewrite Nat.sub_diag, Et, E3 in Ec. cbn [drop app] in *.
  eexists _, m', os. split_and!; [reflexivity | congruence | done |]. rewrite <- Hes. by destruct es.
Qed.

(** Plugins 1, 2 and 3 are registered for OnMessage; 1 unregisters itself when it
    runs, the others only return. *)
Definition self_removing (l : list (UserCall * outcome)) (p : nat) (h : Hook) : list MOp :=
  if decide (p = 1%nat) then [Unregister 1] else [].

(** A plugin that unregisters itself disturbs the dispatch it runs in.  With
    three plugins registered for a hook, the first of which unregisters itself
    when it runs, the dispatch skips the second and runs the third twice:
    Unregister compacts the array the loop is reading. *)
Theorem self_unregistering_skips_next :
  let m := foldl (fun m op => apply (fun _ => [OnMessage]) (fun n => n) op m) NewManager [Register 1; Register 2; Register 3] in
  ((fun r => fst <$> calls (snd r)) <$> Dispatch (fun _ => [OnMessage]) (fun n => n) (fun _ _ => Returns None) self_removing OnMessage m) =
    Some [Execute 1 OnMessage; Execute 3 OnMessage; Execute 3 OnMessage].
Proof. vm_compute. reflexivity. Qed.

Lemma dispatch_runs_registered_witness :
  let m := foldl (fun m op => apply (fun _ => [OnClose]) (fun n => n) op m) NewManager [Register 1; Register 2; Unregister 1; Register 3] in
  exists r m' os, Dispatch (fun _ => [OnClose]) (fun n => n) (fun _ _ => Panics) (fun _ _ _ => []) OnClose m = Some (r, m') /\
    calls m' = zip [Execute 2 OnClose; Execute 3 OnClose] os.
Proof.
  destruct (dispatch_runs_registered (fun _ => [OnClose]) (fun n => n) (fun _ _ => Panics) (fun _ _ _ => [])
    [Register 1; Register 2; Unregister 1; Register 3] OnClose) as (r & m' & os & Hd & _ & Hc & _);
    [reflexivity | vm_compute; lia |].
  exists r, m', os. split; [exact Hd | exact Hc].
Defined.

(** ** Lifecycle *)

(** The stage a plugin is at after the stage methods that ran, with whether each
    succeeded, and the stages from which a method may run. *)
Definition next (st : stage) (e : Stage * bool) : stage :=
  match e with
  | (Initialize, true) => stageInitialized
  | (Initialize, false) => stageNone
  | (Start, true) => stageStarted
  | (Start, false) => stageInitialized
  | (Stop, _) => stageStopped
  | (Uninstall, true) => stageUninstalled
  | (Uninstall, false) => stageStopped
  end.

Definition permitted (st : stage) (s : Stage) : bool :=
  match s, st with
  | Initialize, stageNone => true
  | Start, (stageInitialized | stageStopped | stageUninstalled) => true
  | Stop, stageStarted => true
  | Uninstall, (stageInitialized | stageStopped) => true
  | _, _ => false
  end.

Fixpoint ordered (st : stage) (l : list (Stage * bool)) : bool :=
  match l with
  | [] => true
  | e :: l' => permitted st (fst e) && ordered (next st e) l'
  end.

Lemma ordered_snoc st l e : ordered st (l ++ [e]) = ordered st l && permitted (foldl next st l) (fst e).
Proof.
  revert st. induction l as [|x l IH]; intros st; cbn [app ordered foldl]; [by rewrite andb_true_r|].
  rewrite IH. by rewrite andb_assoc.
Qed.

Section Lifecycles.
Context (Name : nat -> bytes) (Hooks : nat -> list Hook) (managed : nat -> bool) (spare : nat -> nat).
Context (does : list (UserCall * outcome) -> UserCall -> outcome) (asks : list (UserCall * outcome) -> nat -> Hook -> list MOp).

(** The stage methods of the plugins of one name, in the order they ran. *)
Definition stageCalls (name : bytes) (l : list (UserCall * outcome)) : list (Stage * bool) :=
  omap (fun e => match e with
                 | (RunStage p s, o) => if decide (Name p = name)
                                        then Some (s, match o with Returns None => true | _ => false end) else None
                 | _ => None
                 end) l.

Definition lifecycle_ok m : Prop :=
  forall name, stageOf m name = foldl next stageNone (stageCalls name (calls m)) /\
               ordered stageNone (stageCalls name (calls m)) = true.

Lemma lifecycle_same m m' :
  stages m' = stages m -> (forall name, stageCalls name (calls m') = stageCalls name (calls m)) -> lifecycle_ok m -> lifecycle_ok m'.
Proof. intros E1 E2 Hm name. unfold stageOf. rewrite E1, E2. apply Hm. Qed.

Lemma stageCalls_app name l1 l2 : stageCalls name (l1 ++ l2) = stageCalls name l1 ++ stageCalls name l2.
Proof. apply omap_app. Qed.

(** Publishing calls only subscribers. *)
Lemma publish_same ev m e m' :
  Publish does ev m = Some (e, m') -> stages m' = stages m /\ (forall name, stageCalls name (calls m') = stageCalls name (calls m)).
Proof.
  assert (forall list t failed m1 n m2, publishLoop does ev t list failed m1 = Some (n, m2) ->
    stages m2 = stages m1 /\ forall name, stageCalls name (calls m2) = stageCalls name (calls m1)) as Hloop.
  { induction list as [|s list IH]; intros t failed m1 n m2; cbn [publishLoop]; [by intros [= _ <-]|].
    destruct (deliver _ _ _ _) as [e1|]; [|done]. cbn [mbind option_bind]. intros H%IH. destruct H as [-> H]. split; [done|].
    intros name. rewrite H. unfold logCall. change (calls (m1 <| calls := ?x |>)) with x. rewrite stageCalls_app. by rewrite app_nil_r. }
  unfold Publish. destruct (stopped (bus m)); [by intros [= _ <-]|]. destruct (Subscribers ev (bus m)) as [|s0 l0]; [by intros [= _ <-]|].
  destruct (publishLoop _ _ _ _ _ _) as [[n m1]|] eqn:E; [|done]. cbn [mbind option_bind]. apply Hloop in E.
  destruct (0 <? n); by intros [= _ <-].
Qed.

(** After the method [s] ran on [p] and its stage is recorded. *)
Lemma setStage_ran p s st m m1 e m2 :
  lifecycle_ok m -> permitted (stageOf m (Name p)) s = true -> runStage does p s m = (e, m1) ->
  st = next (stageOf m (Name p)) (s, match e with None => true | Some _ => false end) ->
  setStage does (Name p) st m1 = Some m2 -> lifecycle_ok m2 /\ stageOf m2 (Name p) = st.
Proof.
  intros Hm Hp Hr Hst Hs. unfold runStage in Hr. set (o := does (calls m) (RunStage p s)) in *. injection Hr as He <-.
  assert ((match o with Returns None => true | _ => false end) = match e with None => true | Some _ => false end) as Hok
    by (rewrite <- He; by destruct o as [[]| |]).
  set (m1 := logCall _ _ _) in *. assert (stages m1 = stages m) as Es by reflexivity.
  assert (forall name, stageCalls name (calls m1) = stageCalls name (calls m) ++
    if decide (Name p = name) then [(s, match e with None => true | Some _ => false end)] else []) as Ec.
  { intros name. change (calls m1) with (calls m ++ [(RunStage p s, o)]). rewrite stageCalls_app. f_equal.
    cbn. rewrite Hok. by case_decide. }
  assert (stages m2 = (if bool_decide (is_Some (stages m !! Name p)) || negb (bool_decide (st = stageNone))
      then <[Name p := st]> (stages m) else stages m) /\ forall name, stageCalls name (calls m2) = stageCalls name (calls m1)) as [Es2 Ec2].
  { unfold setStage in Hs. rewrite Es in Hs. set (m3 := if _ || _ then _ else m1) in Hs.
    assert (stages m3 = (if bool_decide (is_Some (stages m !! Name p)) || negb (bool_decide (st = stageNone))
      then <[Name p := st]> (stages m) else stages m) /\ calls m3 = calls m1) as [E1 E2].
    { unfold m3. by destruct (_ || _). }
    rewrite <- E1, <- E2. destruct st; [by injection Hs as <- | ..];
      (destruct (Publish _ _ _) as [[e1 m4]|] eqn:Ep; [|done]); injection Hs as <-; by apply publish_same in Ep. }
  assert (forall name, stageOf m2 name = if decide (Name p = name) then st else stageOf m name) as Hst2.
  { intros name. unfold stageOf. rewrite Es2. destruct (_ || _) eqn:Eb.
    - destruct (decide (Name p = name)) as [<-|Hn]; [by rewrite lookup_insert_eq | by rewrite lookup_insert_ne].
    - apply orb_false_iff in Eb as [Eb1 Eb2]. destruct (decide (Name p = name)) as [<-|]; [|done].
      apply bool_decide_eq_false, eq_None_not_Some in Eb1. rewrite Eb1. apply negb_false_iff, bool_decide_eq_true in Eb2. done. }
  split; [|by rewrite Hst2, decide_True]. intros name. destruct (Hm name) as [H1 H2]. rewrite Hst2, Ec2, Ec. destruct (decide (Name p = name)) as [<-|].
  - rewrite foldl_app, ordered_snoc, H2, <- H1. split; [exact Hst | exact Hp].
  - by rewrite app_nil_r.
Qed.

Lemma startStage_ok p m e m' :
  lifecycle_ok m -> stageOf m (Name p) <> stageNone -> startStage Name does p (stageOf m (Name p)) m = Some (e, m') -> lifecycle_ok m'.
Proof.
  intros Hm Hn. unfold startStage. case_decide as Hst; [by intros [= _ <-]|].
  assert (permitted (stageOf m (Name p)) Start = true) as Hp by (by destruct (stageOf m (Name p))).
  destruct (runStage does p Start m) as [[x|] m1] eqn:Er.
  - destruct (setStage _ _ _ m1) as [m2|] eqn:Es; [|done]. intros [= _ <-].
    by apply (setStage_ran p Start stageInitialized m m1 (Some x) m2).
  - destruct (setStage _ _ _ m1) as [m2|] eqn:Es; [|done]. intros [= _ <-].
    by apply (setStage_ran p Start stageStarted m m1 None m2).
Qed.

Lemma startOne_ok p m e m' : lifecycle_ok m -> startOne Name does p m = Some (e, m') -> lifecycle_ok m'.
Proof.
  intros Hm. unfold startOne. case_decide as Hst; [|by apply startStage_ok].
  assert (permitted (stageOf m (Name p)) Initialize = true) as Hp by by rewrite Hst.
  destruct (runStage does p Initialize m) as [[x|] m1] eqn:Er.
  - destruct (setStage _ _ _ m1) as [m2|] eqn:Es; [|done]. intros [= _ <-].
    by apply (setStage_ran p Initialize stageNone m m1 (Some x) m2).
  - destruct (setStage _ _ _ m1) as [m2|] eqn:Es; [|done]. cbn [mbind option_bind].
    destruct (setStage_ran p Initialize stageInitialized m m1 None m2) as [Hm2 Hs2]; [done..|].
    rewrite <- Hs2. apply startStage_ok; [done|]. by rewrite Hs2.
Qed.

Lemma uninstall_ok p m e m' :
  lifecycle_ok m -> permitted (stageOf m (Name p)) Uninstall = true -> uninstallStage Name does p m = Some (e, m') -> lifecycle_ok m'.
Proof.
  intros Hm Hp. unfold uninstallStage. destruct (runStage does p Uninstall m) as [[x|] m1] eqn:Er;
    (destruct (setStage _ _ _ m1) as [m2|] eqn:Es; [|done]); intros [= _ <-].
  - by apply (setStage_ran p Uninstall stageStopped m m1 (Some x) m2).
  - by apply (setStage_ran p Uninstall stageUninstalled m m1 None m2).
Qed.

(** A failed Uninstall of a stopped plugin changes nothing that is recorded. *)
Lemma uninstall_failed p m x m1 :
  lifecycle_ok m -> stageOf m (Name p) = stageStopped -> runStage does p Uninstall m = (Some x, m1) -> lifecycle_ok m1.
Proof.
  intros Hm Hst [= Ho <-] name. destruct (Hm name) as [H1 H2]. set (m1 := logCall _ _ _).
  change (stageOf m1 name) with (stageOf m name). change (calls m1) with (calls m ++ [(RunStage p Uninstall, does (calls m) (RunStage p Uninstall))]).
  rewrite stageCalls_app. cbn [stageCalls omap list_omap]. destruct (decide (Name p = name)) as [<-|]; [|by rewrite app_nil_r].
  destruct (does (calls m) (RunStage p Uninstall)) as [[y|]| |]; try done;
    rewrite foldl_app, ordered_snoc, H2, <- H1, Hst; done.
Qed.

Lemma stopOne_ok p m e m' : lifecycle_ok m -> stopOne Name does p m = Some (e, m') -> lifecycle_ok m'.
Proof.
  intros Hm. unfold stopOne. destruct (stageOf m (Name p)) eqn:Hst; try (by intros [= _ <-]);
    try (apply uninstall_ok; [done | by rewrite Hst]).
  assert (permitted (stageOf m (Name p)) Stop = true) as Hp by by rewrite Hst.
  destruct (runStage does p Stop m) as [[x|] m1] eqn:Er; (destruct (setStage _ _ _ m1) as [m2|] eqn:Es; [|done]); cbn [mbind option_bind].
  - destruct (setStage_ran p Stop stageStopped m m1 (Some x) m2) as [Hm2 Hs2]; [done..|].
    destruct (runStage does p Uninstall m2) as [[y|] m3] eqn:Er2.
    + intros [= _ <-]. by apply (uninstall_failed p m2 y).
    + destruct (setStage _ _ stageUninstalled m3) as [m4|] eqn:Es4; [|done]. intros [= _ <-].
      apply (setStage_ran p Uninstall stageUninstalled m2 m3 None m4); try done. by rewrite Hs2.
  - destruct (setStage_ran p Stop stageStopped m m1 None m2) as [Hm2 Hs2]; [done..|].
    apply uninstall_ok; [done | by rewrite Hs2].
Qed.

Lemma forEach_ok f ps errs m r :
  (forall p m e m', lifecycle_ok m -> f p m = Some (e, m') -> lifecycle_ok m') ->
  lifecycle_ok m -> forEach f ps errs m = Some r -> lifecycle_ok (snd r).
Proof.
  intros Hf. revert m errs. induction ps as [|p ps IH]; intros m errs Hm; cbn [forEach]; [by intros [= <-]|].
  destruct (f p m) as [[e m1]|] eqn:E; [|done]. cbn [mbind option_bind]. apply IH. by eapply Hf.
Qed.

(** ** Histories *)

Inductive LOp := LApply (op : MOp) | LDispatch (h : Hook) | LPublish (ev : BusEvent) | LStart | LStop.

Definition lifecycle_run (op : LOp) m : option Manager :=
  match op with
  | LApply op => Some (apply Hooks spare op m)
  | LDispatch h => snd <$> Dispatch Hooks spare does asks h m
  | LPublish ev => snd <$> Publish does ev m
  | LStart => snd <$> StartPlugins Name managed does m
  | LStop => snd <$> StopPlugins Name managed does m
  end.

Lemma apply_keeps ops m : lifecycle_ok m -> lifecycle_ok (foldl (fun m op => apply Hooks spare op m) m ops).
Proof.
  revert m. induction ops as [|op ops IH]; intros m Hm; [done|]. cbn [foldl]. apply IH. destruct op; cbn [apply]; unfold register, unregister.
  - set (m0 := m <| all := _ |>). assert (lifecycle_ok m0) as H0 by done. revert H0. generalize m0.
    induction (Hooks p) as [|h l IHl]; intros m1 H1; [done|]. cbn [foldl]. apply IHl. unfold registerHook, appendPlugin. by case_decide.
  - set (m0 := m <| all := _ |>). assert (lifecycle_ok m0) as H0 by done. revert H0. generalize m0.
    induction (map_to_list (plugins m)) as [|[h s] l IHl]; intros m1 H1; [done|]. cbn [foldl]. by apply IHl.
Qed.

Lemma runHook_keeps p h t m e m' : lifecycle_ok m -> runHook Hooks spare does asks p h t m = Some (e, m') -> lifecycle_ok m'.
Proof.
  intros Hm. unfold runHook. set (o := does (calls m) (Execute p h)).
  assert (lifecycle_ok (foldl (fun m op => apply Hooks spare op m) (logCall (Execute p h) o m) (asks (calls m) p h))) as Hran.
  { apply apply_keeps. apply (lifecycle_same m); [done| |done]. intros name. unfold logCall.
    change (calls (m <| calls := ?x |>)) with x. rewrite stageCalls_app. by rewrite app_nil_r. }
  destruct (t <=? 0); [destruct o; intros [= _ <-]; done|]. case_decide; [by intros [= _ <-]|]. destruct o; by intros [= _ <-].
Qed.

Lemma dispatchLoop_keeps s h t todo errs m r :
  lifecycle_ok m -> dispatchLoop Hooks spare does asks s h t todo errs m = Some r -> lifecycle_ok (snd r).
Proof.
  revert m errs. induction todo as [|todo IH]; intros m errs Hm; cbn [dispatchLoop]; [by intros [= <-]|].
  destruct (array m (arr s) !! _) as [p|]; [|done]. destruct (runHook _ _ _ _ _ _ _ _) as [[e m1]|] eqn:E; [|done].
  cbn [mbind option_bind]. apply IH. by eapply runHook_keeps.
Qed.

Lemma lifecycle_step op m m' : lifecycle_ok m -> lifecycle_run op m = Some m' -> lifecycle_ok m'.
Proof.
  intros Hm. destruct op; cbn [lifecycle_run].
  - intros [= <-]. by apply (apply_keeps [op]).
  - unfold Dispatch. destruct (dispatchLoop _ _ _ _ _ _ _ _ _ _) as [[errs m1]|] eqn:E; [|done]. intros [= <-].
    by apply (dispatchLoop_keeps _ _ _ _ _ _ _ Hm E).
  - destruct (Publish _ _ _) as [[e m1]|] eqn:E; [|done]. intros [= <-]. apply publish_same in E as [E1 E2].
    by apply (lifecycle_same m).
  - destruct (StartPlugins _ _ _ _) as [r|] eqn:E; [|done]. intros [= <-]. by apply (forEach_ok _ _ _ _ _ startOne_ok Hm E).
  - unfold StopPlugins. destruct (forEach _ _ _ _) as [[errs m1]|] eqn:E; [|done]. intros [= <-].
    apply (lifecycle_same m1); [done..|]. exact (forEach_ok _ _ _ _ _ stopOne_ok Hm E).
Qed.
End Lifecycles.

Fixpoint lifecycle_runs (step : LOp -> Manager -> option Manager) (ops : list LOp) m : option Manager :=
  match ops with [] => Some m | op :: ops' => m' ← step op m; lifecycle_runs step ops' m' end.


(** A restarted plugin is not initialized again, although its lifecycle says
    "Initialize again after Stop" and Uninstall has released what Initialize
    acquired: start, stop, start runs Initialize, Start, Stop, Uninstall, Start. *)
Theorem restart_skips_initialize :
  (fun m => (fst <$> calls m, StageOf (str "audit") m)) <$>
    lifecycle_runs (lifecycle_run (fun _ => str "audit") (fun _ => []) (fun _ => true) (fun n => n)
      (fun _ _ => Returns None) (fun _ _ _ => [])) [LApply (Register 1); LStart; LStop; LStart] NewManager =
  Some ([RunStage 1 Initialize; RunStage 1 Start; RunStage 1 Stop; RunStage 1 Uninstall; RunStage 1 Start], "started"%string).
Proof. vm_compute. reflexivity. Qed.


(** ** Events *)

Lemma publishLoop_spec does ev timeout list failed m :
  0 < timeout ->
  exists os m', length os = length list /\
    publishLoop does ev timeout list failed m = Some (failed + Z.of_nat (length (base.filter (.≠ Returns None) os)), m') /\
    calls m' = calls m ++ zip ((fun s => Handle s ev) <$> list) os /\ bus m' = bus m.
Proof.
  intros Ht. revert failed m. induction list as [|s list IH]; intros failed m; cbn [publishLoop].
  { exists [], m. cbn. rewrite app_nil_r, Z.add_0_r. done. }
  set (o := does (calls m) (Handle s ev)).
  assert (exists e, deliver s ev timeout o = Some e /\ (e = None <-> o = Returns None)) as (e & -> & He).
  { unfold deliver. destruct (Z.leb_spec timeout 0); [lia|].
    destruct o as [e| |]; [exists e; split; [done | split; congruence] | eexists; split; [reflexivity | done]..]. }
  cbn [mbind option_bind].
  destruct (IH (match e with Some _ => failed + 1 | None => failed end) (logCall (Handle s ev) o m)) as (os & m' & Hl & -> & Hc & Hb).
  exists (o :: os), m'. split_and!; [cbn; by rewrite Hl | | |done].
  - rewrite filter_cons. destruct (decide (o = Returns None)) as [Eo|Eo].
    + rewrite decide_False by tauto. by rewrite (proj2 He Eo).
    + rewrite decide_True by done. cbn [length]. destruct e; [|tauto]. f_equal. f_equal. lia.
  - rewrite Hc. unfold logCall. change (calls (m <| calls := ?x |>)) with x. by rewrite <- app_assoc.
Qed.

(** Publish on a running bus with a timeout reaches every subscriber of the event
    once, in order, whatever the others do; it counts the failures, and counts
    the deliveries only when none failed. *)
Theorem publish_reaches_subscribers does ev m :
  stopped (bus m) = false -> 0 < busTimeout (bus m) ->
  exists r m' os, Publish does ev m = Some (r, m') /\ length os = length (Subscribers ev (bus m)) /\
    calls m' = calls m ++ zip ((fun s => Handle s ev) <$> Subscribers ev (bus m)) os /\
    (let failures := length (base.filter (.≠ Returns None) os) in
     dropped (bus m') = dropped (bus m) + Z.of_nat failures /\
     dispatched (bus m') = dispatched (bus m) + (if decide (failures = 0%nat) then len os else 0) /\
     (r = None <-> failures = 0%nat)).
Proof.
  intros Hs Ht. unfold Publish. rewrite Hs. destruct (Subscribers ev (bus m)) as [|s0 l0] eqn:El.
  { exists None, m, []. cbn. rewrite app_nil_r, !Z.add_0_r. done. }
  rewrite <- El. destruct (publishLoop_spec does ev (busTimeout (bus m)) (Subscribers ev (bus m)) 0 m Ht) as (os & m' & Hl & -> & Hc & Hb).
  cbn [mbind option_bind]. rewrite Z.add_0_l. set (n := length (base.filter (.≠ Returns None) os)).
  assert (len os = len (Subscribers ev (bus m))) as Hlen by (unfold len; by rewrite Hl).
  destruct (Z.ltb_spec 0 (Z.of_nat n)).
  - do 2 eexists. exists os. split_and!; [reflexivity | done | done | | |].
    + change (dropped (bus m') + Z.of_nat n = dropped (bus m) + Z.of_nat n). by rewrite Hb.
    + change (dispatched (bus m') = dispatched (bus m) + (if decide (n = 0%nat) then len os else 0)).
      by rewrite decide_False, Hb, Z.add_0_r by lia.
    + change (Some (ErrText "event bus") = None <-> n = 0%nat). split; [done|lia].
  - assert (n = 0%nat) as E by lia. do 2 eexists. exists os. split_and!; [reflexivity | done | done | | |].
    + change (dropped (bus m') = dropped (bus m) + Z.of_nat n). rewrite Hb. lia.
    + change (dispatched (bus m') + len (Subscribers ev (bus m)) =
        dispatched (bus m) + (if decide (n = 0%nat) then len os else 0)).
      by rewrite decide_True, Hb, Hlen by done.
    + done.
Qed.
