(* ===== verification/Client.v ===== *)
(** * The client: client/client.go and client/options.go

    A client is one object shared by the goroutines of its caller (Connect,
    Publish, Subscribe, Unsubscribe, Disconnect) and by the goroutines it starts
    for each connection generation (readLoop, keepAliveLoop).  The model is a
    state with the client's fields, the heap its goroutines share (response
    channels, contexts, connections) and the point each goroutine has reached;
    [step] runs one goroutine from one point where it can be interrupted to the
    next, with what the environment decides (what the connection delivers, which
    case of a select fires, what the clock says) as the argument. *)

From S2P Require Import Prelude Utf8 Wire Spec Topic Properties Packets Codec Strconv.
Open Scope Z_scope.

(** ** Options *)

(** options.go, Options; the TLS configuration is a reference *)
Record Options := mkOptions {
  Host : bytes;
  Port : Z;
  o_ClientID : bytes;
  o_Username : bytes;
  o_Password : bytes;
  o_KeepAlive : Z;
  o_CleanSession : bool;
  TLSConfig : option Z;
  MaxPacketSize : Z;
  ConnectTimeout : Z;
  WriteBufferSize : Z;
}.

#[export] Instance Options_eta : Eta Options := fun o =>
  mkOptions (Host o) (Port o) (o_ClientID o) (o_Username o) (o_Password o) (o_KeepAlive o) (o_CleanSession o)
    (TLSConfig o) (MaxPacketSize o) (ConnectTimeout o) (WriteBufferSize o).

(** options.go, defaultOptions *)
Definition defaultOptions : Options :=
  mkOptions (str "localhost") 18983 [] [] [] 60 true None (256 * 1024) (30 * second) 4096.

(** options.go, Option and the functional options *)
Definition Option := Options -> Options.

Definition WithAddr (addr : bytes) : Option := fun o =>
  match SplitHostPort addr with
  | Err _ => o <| Host := addr |>
  | Ok (host, portStr) =>
      let port := AtoiValue portStr in
      let o := o <| Host := host |> in
      if 0 <? port then o <| Port := port |> else o
  end.

Definition WithHostPort (host : bytes) (port : Z) : Option := fun o => o <| Host := host |> <| Port := port |>.
Definition WithClientID (id : bytes) : Option := fun o => o <| o_ClientID := id |>.
Definition WithCredentials (username password : bytes) : Option := fun o =>
  o <| o_Username := username |> <| o_Password := password |>.
Definition WithKeepAlive (seconds : Z) : Option := fun o => o <| o_KeepAlive := seconds |>.
Definition WithCleanSession (clean : bool) : Option := fun o => o <| o_CleanSession := clean |>.
Definition WithTLS (cfg : option Z) : Option := fun o => o <| TLSConfig := cfg |>.
Definition WithMaxPacketSize (size : Z) : Option := fun o => o <| MaxPacketSize := size |>.
Definition WithConnectTimeout (d : Z) : Option := fun o => o <| ConnectTimeout := d |>.

(** ** State *)

(** A channel of packets: what it holds, its capacity, whether it is closed. *)
Record chan := mkChan { buf : list Packet; chanCap : nat; chanClosed : bool }.

(** A connection carries packets until the network breaks it or the client
    closes it. *)
Inductive Link := LUp | LBroken | LClosed.
#[export] Instance Link_eq_dec : EqDecision Link.
Proof. solve_decision. Defined.

Definition linkError : err := ErrText "use of closed network connection".

#[export] Instance link_writer : Writer Link := fun _ l => (if bool_decide (l = LUp) then Ok tt else Err linkError, l).

(** Where the goroutine of a call is: [CDialing] and [CConnAck] in Connect,
    [CPubAck] and [CPubComp] in the selects of Publish, [CSubAck] and
    [CUnsubAck] in those of Subscribe and Unsubscribe, [CClosing] in that of
    Disconnect; [g] is the connection generation it works on. *)
Inductive Call :=
  | CDialing (g : nat)
  | CConnAck (g conn : nat)
  | CPubAck (g conn ch : nat) (pid : Z)
  | CPubComp (g ch : nat) (pid : Z)
  | CSubAck (g ch : nat) (pid : Z)
  | CUnsubAck (g ch : nat) (pid : Z)
  | CClosing (g : nat) (closeErr : option err)
  | CReturned (r : res bytes).

(** Where the readLoop of a generation is: at the select, in Decode, about to
    dispatch a packet, about to send it to the channel it found, or past a read
    error, about to drain the pending channels. *)
Inductive Reader :=
  | RCheck
  | RDecode
  | RGot (p : Packet)
  | RSend (p : Packet) (ch : nat)
  | RDrain.

(** What happened, in order: a packet written, a packet readLoop dispatches, a
    call of the message callback, and a session that starts anew. *)
Inductive ClientEvent :=
  | Wrote (conn : nat) (p : Packet)
  | Received (conn : nat) (p : Packet)
  | NewSession
  | OnMessage (topic : bytes) (qos : Z) (payload : bytes).

(** client.go, MQTTClient.  connCtx, connCancel and connDone of a generation are
    created together: [connGen] names the current one, [cancelled] holds those
    whose context is cancelled and [finished] those whose connDone is closed. *)
Record MQTTClient := mkClient {
  conn : option nat;
  codec : Codec;
  opts : Options;
  clientID : bytes;
  sessionPresent : bool;
  inflight : gmap Z PublishPacket;
  nextPID : Z;
  pending : gmap Z nat;
  connGen : option nat;
  connected : bool;
  connecting : bool;
  lastRead : Z;
  onMessage : bool;
  receivedQoS2 : gset Z;
  chans : gmap nat chan;
  links : gmap nat Link;
  cancelled : gset nat;
  finished : gset nat;
  readers : gmap nat (nat * Reader);
  keepers : gmap nat nat;
  calls : gmap nat Call;
  nextRef : nat;
  panicked : bool;
  events : list ClientEvent;
}.

#[export] Instance MQTTClient_eta : Eta MQTTClient := fun c =>
  mkClient (conn c) (codec c) (opts c) (clientID c) (sessionPresent c) (inflight c) (nextPID c) (pending c) (connGen c)
    (connected c) (connecting c) (lastRead c) (onMessage c) (receivedQoS2 c) (chans c) (links c) (cancelled c)
    (finished c) (readers c) (keepers c) (calls c) (nextRef c) (panicked c) (events c).

Implicit Types c : MQTTClient.

(** client.go, New *)
Definition New (options : list Option) : MQTTClient :=
  let o := foldl (fun o fn => fn o) defaultOptions options in
  mkClient None (NewCodec (MaxPacketSize o)) o [] false ∅ 1 ∅ None false false 0 false ∅ ∅ ∅ ∅ ∅ ∅ ∅ ∅ 0 false [].

(** client.go, SetOnMessage (with a function) and IsConnected *)
Definition SetOnMessage c : MQTTClient := c <| onMessage := true |>.
Definition IsConnected c : bool := connected c.

Definition emit (e : ClientEvent) c : MQTTClient := c <| events := events c ++ [e] |>.
Definition goto (k : nat) (call : Call) c : MQTTClient := c <| calls := <[k := call]> (calls c) |>.
Definition return_ (k : nat) (r : res bytes) c : MQTTClient := goto k (CReturned r) c.

Definition linkOf (cn : nat) c : Link := default LClosed (links c !! cn).

(** A write of one packet under wmu, and the close of a connection. *)
Definition send (cn : nat) (p : Packet) c : res unit * MQTTClient :=
  let '(r, (cd, l)) := Encode p (codec c, linkOf cn c) in
  let c := c <| codec := cd |> <| links := <[cn := l]> (links c) |> in
  (r, match r with Ok _ => emit (Wrote cn p) c | Err _ => c end).

Definition closeConn (cn : nat) c : MQTTClient := c <| links := <[cn := LClosed]> (links c) |>.

(** ** Packet identifiers *)

(** client.go, nextPacketID, where the compare-and-swap always succeeds: the
    identifier and the new value of nextPID, an atomic uint32. *)
Fixpoint nextPacketID_loop (attempts : nat) (taken : Z -> bool) (old : Z) : Z * Z :=
  match attempts with
  | O =>
      let pid := u16 (u32 (old + 1) - 1) in
      (if pid =? 0 then 1 else pid, u32 (old + 1))
  | S attempts' =>
      let next := u32 (old + 1) in
      let next := if 65535 <? next then 1 else next in
      let id := u16 old in
      if taken id then nextPacketID_loop attempts' taken next else (id, next)
  end.

Definition outstanding c (id : Z) : bool :=
  bool_decide (is_Some (inflight c !! id)) || bool_decide (is_Some (pending c !! id)).

Definition nextPacketID c : Z * MQTTClient :=
  let '(id, next) := nextPacketID_loop (Z.to_nat 65535) (outstanding c) (nextPID c) in
  (id, c <| nextPID := next |>).

(** ** Connect *)

(** The duplicate markers of a session that starts anew are dropped. *)
Definition newSession c : MQTTClient := emit NewSession (c <| receivedQoS2 := ∅ |>).

(** client.go, Connect: up to the dial *)
Definition connectEnter (k : nat) (now : Z) c : MQTTClient :=
  if connected c then return_ k (Err (ErrText "already connected")) c
  else if connecting c then return_ k (Err (ErrText "connect already in progress")) c
  else
    let g := nextRef c in
    let c := if o_CleanSession (opts c) then newSession c else c in
    goto k (CDialing g)
      (c <| connecting := true |> <| pending := ∅ |> <| inflight := ∅ |>
         <| lastRead := now |> <| connGen := Some g |> <| nextRef := S g |> <| nextPID := 1 |>).

(** Every return of Connect past its guards releases the in-progress marker. *)
Definition connectReturn (k : nat) (r : res bytes) c : MQTTClient := return_ k r (c <| connecting := false |>).

Definition connectPacket (now : Z) (o : Options) : ConnectPacket :=
  {| con_FixedHeader := header PacketTypeConnect 0 false false;
     ProtocolName := ProtocolNameMQTT; ProtocolVersion := Version311;
     Flags := {| UsernameFlag := negb (bool_decide (o_Username o = []));
                 PasswordFlag := negb (bool_decide (o_Password o = []));
                 WillRetain := false; WillQoS := 0; WillFlag := false; WillTopicFlag := false;
                 CleanSession := o_CleanSession o; Reserved := false |};
     KeepAlive := o_KeepAlive o;
     ClientID := if bool_decide (o_ClientID o = []) then str "shark-" ++ Itoa now else o_ClientID o;
     WillTopic := []; WillMessage := []; Username := o_Username o; Password := o_Password o;
     con_Properties := None; WillProperties := None |}.

(** The dial, and the CONNECT on the new connection *)
Definition connectDial (k g : nat) (dialed : bool) (now : Z) c : MQTTClient :=
  if negb dialed then connectReturn k (Err (ErrText "dial")) c
  else
    let cn := nextRef c in
    let pkt := connectPacket now (opts c) in
    let c := c <| nextRef := S cn |> <| links := <[cn := LUp]> (links c) |> <| clientID := ClientID pkt |> in
    match send cn (PConnect pkt) c with
    | (Err _, c) => connectReturn k (Err (ErrText "send CONNECT")) (closeConn cn c)
    | (Ok _, c) => goto k (CConnAck g cn) c
    end.

(** One packet from a connection that is up: Decode on the bytes it delivers. *)
Definition receive (cn : nat) (input : bytes) c : res Packet * MQTTClient :=
  if bool_decide (linkOf cn c = LUp) then
    let '(r, (cd, _)) := Decode (codec c, input) in (r, c <| codec := cd |>)
  else (Err linkError, c).

(** The CONNACK, and the goroutines of the new generation *)
Definition connectAck (k g cn : nat) (deadlineSet : bool) (input : bytes) (now : Z) c : MQTTClient :=
  let fail msg c := connectReturn k (Err (ErrText msg)) (closeConn cn c) in
  if negb deadlineSet then fail "set CONNACK deadline" c else
  match receive cn input c with
  | (Err _, c) => fail "read CONNACK" c
  | (Ok (PConnAck a), c) =>
      if negb (cack_ReasonCode a =? ConnAckAccepted) then fail "connection rejected" c
      else
        let c := if SessionPresent a then c else newSession c in
        connectReturn k (Ok [])
          (c <| conn := Some cn |> <| connected := true |> <| sessionPresent := SessionPresent a |> <| lastRead := now |>
             <| readers := <[g := (cn, RCheck)]> (readers c) |>
             <| keepers := if 0 <? o_KeepAlive (opts c) then <[g := cn]> (keepers c) else keepers c |>)
  | (Ok _, c) => fail "expected CONNACK" c
  end.

(** ** Publish, Subscribe and Unsubscribe *)

(** A response channel registered for [pid]. *)
Definition register (pid : Z) (size : nat) c : nat * MQTTClient :=
  let ch := nextRef c in
  (ch, c <| nextRef := S ch |> <| chans := <[ch := mkChan [] size false]> (chans c) |>
         <| pending := <[pid := ch]> (pending c) |>).

(** The deferred clean-up of Publish, and that of Subscribe and Unsubscribe *)
Definition publishReturn (k : nat) (pid : Z) (r : res bytes) c : MQTTClient :=
  return_ k r (c <| pending := delete pid (pending c) |> <| inflight := delete pid (inflight c) |>).

Definition requestReturn (k : nat) (pid : Z) (r : res bytes) c : MQTTClient :=
  return_ k r (c <| pending := delete pid (pending c) |>).

(** client.go, Publish: up to its first select *)
Definition publishEnter (k : nat) (topic : bytes) (q : Z) (retained : bool) (payload : bytes) c : MQTTClient :=
  match connected c, conn c, connGen c with
  | true, Some cn, Some g =>
      if 0 <? q then
        let '(pid, c) := nextPacketID c in
        let pkt := mkPublish q false retained pid topic payload None in
        let c := c <| inflight := <[pid := pkt]> (inflight c) |> in
        let '(ch, c) := register pid (if q =? 2 then 2 else 1) c in
        match send cn (PPublish pkt) c with
        | (Err _, c) => publishReturn k pid (Err (ErrText "send PUBLISH")) c
        | (Ok _, c) => goto k (CPubAck g cn ch pid) c
        end
      else
        match send cn (PPublish (mkPublish 0 false retained 0 topic payload None)) c with
        | (Err _, c) => return_ k (Err (ErrText "send PUBLISH")) c
        | (Ok _, c) => return_ k (Ok []) c
        end
  | _, _, _ => return_ k (Err (ErrText "not connected")) c
  end.

(** client.go, Subscribe and Unsubscribe: up to their selects *)
Definition TopicSubscription : Type := bytes * Z.

Definition subscribeEnter (k : nat) (topics : list TopicSubscription) c : MQTTClient :=
  match connected c, conn c, connGen c with
  | true, Some cn, Some g =>
      let '(pid, c) := nextPacketID c in
      let filters := map (fun t => {| tf_Topic := fst t; tf_QoS := snd t; NoLocal := false; RetainAsPublished := false;
                                      RetainHandling := 0; tf_SubscriptionIdentifier := None |}) topics in
      let pkt := PSubscribe {| sub_FixedHeader := header PacketTypeSubscribe 1 false false; sub_PacketID := pid;
                               sub_Topics := filters; sub_Properties := None |} in
      let '(ch, c) := register pid 1 c in
      match send cn pkt c with
      | (Err _, c) => requestReturn k pid (Err (ErrText "send SUBSCRIBE")) c
      | (Ok _, c) => goto k (CSubAck g ch pid) c
      end
  | _, _, _ => return_ k (Err (ErrText "not connected")) c
  end.

Definition unsubscribeEnter (k : nat) (topics : list bytes) c : MQTTClient :=
  match connected c, conn c, connGen c with
  | true, Some cn, Some g =>
      let '(pid, c) := nextPacketID c in
      let pkt := PUnsubscribe {| unsub_FixedHeader := header PacketTypeUnsubscribe 1 false false; unsub_PacketID := pid;
                                 unsub_Topics := topics; unsub_Properties := None |} in
      let '(ch, c) := register pid 1 c in
      match send cn pkt c with
      | (Err _, c) => requestReturn k pid (Err (ErrText "send UNSUBSCRIBE")) c
      | (Ok _, c) => goto k (CUnsubAck g ch pid) c
      end
  | _, _, _ => return_ k (Err (ErrText "not connected")) c
  end.

(** ** The selects *)

(** What makes a select return: the caller's context, the response channel, or
    the context (for Disconnect, the end) of the connection generation. *)
Inductive Wake :=
  | WakeCtx (e : err)
  | WakeResponse
  | WakeConn.

(** A receive: the next packet, [Ok None] from a channel that is closed and
    drained, nothing from one that would block. *)
Definition recv (ch : nat) c : option (option Packet * MQTTClient) :=
  match chans c !! ch with
  | None => None
  | Some q =>
      match buf q with
      | p :: rest => Some (Some p, c <| chans := <[ch := mkChan rest (chanCap q) (chanClosed q)]> (chans c) |>)
      | [] => if chanClosed q then Some (None, c) else None
      end
  end.

(** client.go, Publish: the first select, and what follows it up to the second *)
Definition publishAck (k g cn : nat) (pid : Z) (resp : option Packet) (ch : nat) c : MQTTClient :=
  match resp with
  | None => publishReturn k pid (Err (ErrText "connection closed before PUBACK")) c
  | Some (PPubAck r) =>
      publishReturn k pid
        (if negb (ack_ReasonCode r =? ReasonCodeSuccess) then Err (ErrText "PUBACK rejected") else Ok []) c
  | Some (PPubRec r) =>
      if ReasonCodeFailureBase <=? ack_ReasonCode r then publishReturn k pid (Err (ErrText "PUBREC rejected")) c
      else
        match send cn (pubRelPacket pid) c with
        | (Err _, c) => publishReturn k pid (Err (ErrText "send PUBREL")) c
        | (Ok _, c) => goto k (CPubComp g ch pid) c
        end
  | Some _ => publishReturn k pid (Err (ErrText "unexpected response")) c
  end.

(** client.go, Publish: the second select, which does not watch the connection *)
Definition publishComp (k : nat) (pid : Z) (resp : option Packet) c : MQTTClient :=
  publishReturn k pid
    match resp with
    | None => Err (ErrText "connection closed before PUBCOMP")
    | Some (PPubComp r) =>
        if negb (ack_ReasonCode r =? ReasonCodeSuccess) then Err (ErrText "PUBCOMP rejected") else Ok []
    | Some _ => Err (ErrText "expected PUBCOMP")
    end c.

(** client.go, Subscribe and Unsubscribe: their selects *)
Definition subscribeAck (k : nat) (pid : Z) (resp : option Packet) c : MQTTClient :=
  requestReturn k pid
    match resp with
    | Some (PSubAck r) => Ok (sack_ReasonCodes r)
    | _ => Err (ErrText "expected SUBACK")
    end c.

Definition unsubscribeAck (k : nat) (pid : Z) (resp : option Packet) c : MQTTClient :=
  requestReturn k pid
    match resp with
    | Some (PUnsubAck r) =>
        if existsb (fun rc => ReasonCodeFailureBase <=? rc) (sack_ReasonCodes r)
        then Err (ErrText "UNSUBACK rejected topic filter") else Ok []
    | _ => Err (ErrText "expected UNSUBACK")
    end c.

(** The goroutine of call [k] leaves the select it is in, when [w] is ready. *)
Definition wake (k : nat) (w : Wake) c : option MQTTClient :=
  match calls c !! k, w with
  | Some (CPubAck _ _ _ pid), WakeCtx e | Some (CPubComp _ _ pid), WakeCtx e => Some (publishReturn k pid (Err e) c)
  | Some (CSubAck _ _ pid), WakeCtx e | Some (CUnsubAck _ _ pid), WakeCtx e => Some (requestReturn k pid (Err e) c)
  | Some (CClosing _ _), WakeCtx e => Some (return_ k (Err e) c)
  | Some (CPubAck g cn ch pid), WakeResponse => r ← recv ch c; Some (publishAck k g cn pid (fst r) ch (snd r))
  | Some (CPubComp _ ch pid), WakeResponse => r ← recv ch c; Some (publishComp k pid (fst r) (snd r))
  | Some (CSubAck _ ch pid), WakeResponse => r ← recv ch c; Some (subscribeAck k pid (fst r) (snd r))
  | Some (CUnsubAck _ ch pid), WakeResponse => r ← recv ch c; Some (unsubscribeAck k pid (fst r) (snd r))
  | Some (CPubAck g _ _ pid), WakeConn =>
      if bool_decide (g ∈ cancelled c) then Some (publishReturn k pid (Err (ErrText "client disconnected")) c) else None
  | Some (CSubAck g _ pid), WakeConn | Some (CUnsubAck g _ pid), WakeConn =>
      if bool_decide (g ∈ cancelled c) then Some (requestReturn k pid (Err (ErrText "client disconnected")) c) else None
  | Some (CClosing g closeErr), WakeConn =>
      if bool_decide (g ∈ finished c)
      then Some (return_ k (match closeErr with Some e => Err e | None => Ok [] end) c) else None
  | _, _ => None
  end.

(** ** Disconnect *)

(** client.go, Disconnect: up to its select *)
Definition disconnectEnter (k : nat) c : MQTTClient :=
  match connected c, conn c, connGen c with
  | true, Some cn, Some g =>
      let '(_, c) := send cn (disconnectPacket 0) (c <| connected := false |>) in
      let closeErr := if bool_decide (linkOf cn c = LClosed) then Some linkError else None in
      goto k (CClosing g closeErr)
        (closeConn cn (c <| cancelled := {[g]} ∪ cancelled c |>) <| pending := ∅ |> <| inflight := ∅ |>)
  | _, _, _ => return_ k (Ok []) c
  end.

(** ** The goroutines of a connection *)

(** client.go, ackOnGen *)
Definition ackOnGen (cn : nat) (p : Packet) c : MQTTClient :=
  if bool_decide (conn c = Some cn) then snd (send cn p c) else c.

(** client.go, handlePublish *)
Definition handlePublish (cn : nat) (p : PublishPacket) c : MQTTClient :=
  let q := pub_QoS p in
  if (q =? 2) && bool_decide (pub_PacketID p ∈ receivedQoS2 c) then ackOnGen cn (pubRecPacket (pub_PacketID p) 0) c
  else
    let c := if q =? 2 then c <| receivedQoS2 := {[pub_PacketID p]} ∪ receivedQoS2 c |> else c in
    let c := if onMessage c then emit (OnMessage (pub_Topic p) q (Payload p)) c else c in
    let c := if q =? 1 then ackOnGen cn (pubAckPacket (pub_PacketID p) 0) c else c in
    if q =? 2 then ackOnGen cn (pubRecPacket (pub_PacketID p) 0) c else c.

(** client.go, handlePubRel *)
Definition handlePubRel (cn : nat) (id : Z) c : MQTTClient :=
  ackOnGen cn (pubCompPacket id) (c <| receivedQoS2 := receivedQoS2 c ∖ {[id]} |>).

(** client.go, deliverResponse: the lookup, then the send that does not block *)
Definition responseID (p : Packet) : option Z :=
  match p with
  | PPubAck a | PPubRec a | PPubComp a => Some (ack_PacketID a)
  | PSubAck a | PUnsubAck a => Some (sack_PacketID a)
  | _ => None
  end.

Definition trySend (ch : nat) (p : Packet) c : MQTTClient :=
  match chans c !! ch with
  | None => c
  | Some q =>
      if chanClosed q then c <| panicked := true |>
      else if (length (buf q) <? chanCap q)%nat
      then c <| chans := <[ch := mkChan (buf q ++ [p]) (chanCap q) (chanClosed q)]> (chans c) |>
      else c
  end.

(** Closing every pending channel, as the error path of readLoop does *)
Definition closeChan (q : chan) : chan := mkChan (buf q) (chanCap q) true.

Definition drain c : MQTTClient :=
  c <| chans := foldr (alter closeChan) (chans c) (snd <$> map_to_list (pending c)) |>
    <| pending := ∅ |> <| inflight := ∅ |>.

Definition readerAt (g cn : nat) (r : Reader) c : MQTTClient := c <| readers := <[g := (cn, r)]> (readers c) |>.
Definition readerExit (g : nat) c : MQTTClient :=
  c <| readers := delete g (readers c) |> <| finished := {[g]} ∪ finished c |>.

(** The type switch of readLoop *)
Definition dispatch (g cn : nat) (p : Packet) c : MQTTClient :=
  match p with
  | PPublish p => readerAt g cn RCheck (handlePublish cn p c)
  | PPubRel p => readerAt g cn RCheck (handlePubRel cn (ack_PacketID p) c)
  | _ => readerAt g cn (match responseID p ≫= (pending c !!.) with Some ch => RSend p ch | None => RCheck end) c
  end.

(** client.go, readLoop: one goroutine, from one of its points to the next *)
Definition readStep (g : nat) (input : bytes) (now : Z) c : option MQTTClient :=
  match readers c !! g with
  | None => None
  | Some (cn, RCheck) => Some (if bool_decide (g ∈ cancelled c) then readerExit g c else readerAt g cn RDecode c)
  | Some (cn, RDecode) =>
      match receive cn input c with
      | (Err _, c) =>
          Some (readerAt g cn RDrain
                  (c <| connected := connected c && negb (bool_decide (conn c = Some cn)) |>
                     <| cancelled := {[g]} ∪ cancelled c |>))
      | (Ok p, c) => Some (readerAt g cn (RGot p) (c <| lastRead := now |>))
      end
  | Some (cn, RGot p) => Some (dispatch g cn p (emit (Received cn p) c))
  | Some (cn, RSend p ch) => Some (readerAt g cn RCheck (trySend ch p c))
  | Some (cn, RDrain) => Some (readerExit g (drain c))
  end.

(** client.go, keepAliveLoop: one tick *)
Definition keepAliveInterval (keepAlive : Z) : Z :=
  let interval := keepAlive * second / 2 in if interval <=? 0 then second else interval.
Definition keepAliveDeadline (keepAlive : Z) : Z := keepAlive * second * 3 / 2.

Definition keepAliveTick (g : nat) (now : Z) c : option MQTTClient :=
  match keepers c !! g with
  | None => None
  | Some cn =>
      let stop c := c <| keepers := delete g (keepers c) |> in
      Some (if bool_decide (g ∈ cancelled c) then stop c
            else if negb (bool_decide (conn c = Some cn)) then stop c
            else if keepAliveDeadline (o_KeepAlive (opts c)) <? now - lastRead c then stop (closeConn cn c)
            else match send cn (PPingReq (header PacketTypePingReq 0 false false)) c with
                 | (Err _, c) => stop (closeConn cn c)
                 | (Ok _, c) => c
                 end)
  end.

(** ** Histories *)

(** One action of a goroutine or of the network. *)
Inductive Action :=
  | AConnect (k : nat) (now : Z)
  | ADialed (k : nat) (dialed : bool) (now : Z)
  | AConnAck (k : nat) (deadlineSet : bool) (input : bytes) (now : Z)
  | APublish (k : nat) (topic : bytes) (q : Z) (retained : bool) (payload : bytes)
  | ASubscribe (k : nat) (topics : list TopicSubscription)
  | AUnsubscribe (k : nat) (topics : list bytes)
  | ADisconnect (k : nat)
  | AWake (k : nat) (w : Wake)
  | ARead (g : nat) (input : bytes) (now : Z)
  | ATick (g : nat) (now : Z)
  | ANetDown (cn : nat).

(** A call starts under a name of its own. *)
Definition fresh_call (k : nat) c (c' : MQTTClient) : option MQTTClient :=
  match calls c !! k with None => Some c' | Some _ => None end.

(** [None]: the action is not enabled; nothing runs after a panic. *)
Definition step (a : Action) c : option MQTTClient :=
  if panicked c then None else
  match a with
  | AConnect k now => fresh_call k c (connectEnter k now c)
  | ADialed k dialed now =>
      match calls c !! k with Some (CDialing g) => Some (connectDial k g dialed now c) | _ => None end
  | AConnAck k deadlineSet input now =>
      match calls c !! k with Some (CConnAck g cn) => Some (connectAck k g cn deadlineSet input now c) | _ => None end
  | APublish k topic q retained payload => fresh_call k c (publishEnter k topic q retained payload c)
  | ASubscribe k topics => fresh_call k c (subscribeEnter k topics c)
  | AUnsubscribe k topics => fresh_call k c (unsubscribeEnter k topics c)
  | ADisconnect k => fresh_call k c (disconnectEnter k c)
  | AWake k w => wake k w c
  | ARead g input now => readStep g input now c
  | ATick g now => keepAliveTick g now c
  | ANetDown cn => Some (if bool_decide (linkOf cn c = LUp) then c <| links := <[cn := LBroken]> (links c) |> else c)
  end.

Fixpoint run (acts : list Action) c : option MQTTClient :=
  match acts with
  | [] => Some c
  | a :: acts' => c' ← step a c; run acts' c'
  end.
