(* ===== verification/ClientProps.v ===== *)
(** * The client's inbox

    Frames of the client's handlers, and the property of every interleaving of
    its goroutines ([run] of Client.v from a new client) that says how PUBLISH
    packets reach the message callback. *)

From S2P Require Import Prelude Utf8 Wire Spec Topic Properties Packets Codec Strconv Client.
Open Scope Z_scope.

Implicit Types c : MQTTClient.

(** ** Frames *)

Definition is_write (e : ClientEvent) : Prop := match e with Wrote _ _ => True | _ => False end.

(** [c'] is [c] after writes: the codec, the links and the log of writes moved. *)
Definition wrote c c' : Prop :=
  exists cd ls es, c' = c <| codec := cd |> <| links := ls |> <| events := events c ++ es |> /\ Forall is_write es.

Lemma set_nothing c : c <| codec := codec c |> <| links := links c |> <| events := events c ++ [] |> = c.
Proof. rewrite app_nil_r. by destruct c. Qed.

Lemma wrote_refl c : wrote c c.
Proof. exists (codec c), (links c), []. by rewrite set_nothing. Qed.

Lemma wrote_trans c1 c2 c3 : wrote c1 c2 -> wrote c2 c3 -> wrote c1 c3.
Proof.
  intros (cd & ls & es & -> & H) (cd' & ls' & es' & -> & H'). exists cd', ls', (es ++ es').
  split; [|by apply Forall_app]. rewrite app_assoc. reflexivity.
Qed.

(** Writing does not change a link. *)
Lemma writeAll_link bs l : snd (writeAll bs l) = (l : Link).
Proof.
  induction bs as [|b bs IH]; [done|]. cbn [writeAll]. unfold mbind, M_bind, write, link_writer.
  by destruct (bool_decide _).
Qed.

Lemma encode_link p cd (l : Link) : snd (snd (Encode p (cd, l))) = l.
Proof.
  unfold Encode. destruct (_ <=? _).
  - unfold encodeTo. destruct (validateFixedHeaderFlags _); [|done]. destruct (encodePacket _ _) as [bs|]; [|done].
    pose proof (writeAll_link bs l). by destruct (writeAll bs l).
  - destruct (encodeTo _ _) as [[] [cd' buf]]; [|done]. destruct (_ <? _); [done|].
    unfold write, link_writer. done.
Qed.

Lemma send_wrote cn p c r c' :
  send cn p c = (r, c') ->
  exists cd ls, c' = c <| codec := cd |> <| links := ls |>
                       <| events := events c ++ match r with Ok _ => [Wrote cn p] | Err _ => [] end |> /\
                forall cn', default LClosed (ls !! cn') = linkOf cn' c.
Proof.
  unfold send. pose proof (encode_link p (codec c) (linkOf cn c)) as Hl.
  destruct (Encode _ _) as [r' [cd l]]. cbn [snd] in Hl. subst l. intros [= -> <-].
  exists cd, (<[cn := linkOf cn c]> (links c)). split; [destruct r; [reflexivity | by rewrite app_nil_r]|].
  intros cn'. unfold linkOf. destruct (decide (cn = cn')) as [->|]; [by rewrite lookup_insert_eq | by rewrite lookup_insert_ne].
Qed.

Lemma send_frame cn p c : wrote c (snd (send cn p c)).
Proof.
  destruct (send cn p c) as [r c'] eqn:E. destruct (send_wrote _ _ _ _ _ E) as (cd & ls & -> & _).
  eexists cd, ls, _. split; [reflexivity|]. destruct r; repeat constructor.
Qed.

Lemma ackOnGen_frame cn p c : wrote c (ackOnGen cn p c).
Proof. unfold ackOnGen. case_bool_decide; [apply send_frame | apply wrote_refl]. Qed.

Lemma receive_frame cn input c r c' : receive cn input c = (r, c') -> exists cd, c' = c <| codec := cd |>.
Proof.
  unfold receive. case_bool_decide; [destruct (Decode _) as [r' [cd l]]; intros [= -> <-]; by exists cd|].
  intros [= <- <-]. exists (codec c). by destruct c.
Qed.

Lemma drop_writes c c' :
  wrote c c' ->
  conn c' = conn c /\ opts c' = opts c /\ inflight c' = inflight c /\ pending c' = pending c /\ connGen c' = connGen c /\
  connected c' = connected c /\ connecting c' = connecting c /\ onMessage c' = onMessage c /\
  receivedQoS2 c' = receivedQoS2 c /\ chans c' = chans c /\ cancelled c' = cancelled c /\ finished c' = finished c /\
  readers c' = readers c /\ keepers c' = keepers c /\ calls c' = calls c /\ nextRef c' = nextRef c /\
  panicked c' = panicked c /\ exists es, events c' = events c ++ es /\ Forall is_write es.
Proof. intros (cd & ls & es & -> & H). split_and!; try reflexivity. by exists es. Qed.

(** ** The message callback *)

(** After [l], the exchange of [id] is open: a QoS 2 PUBLISH with this identifier
    came in and neither its PUBREL nor a new session has followed. *)
Definition closes (id : Z) (e : ClientEvent) : Prop :=
  match e with
  | Received _ (PPubRel a) => ack_PacketID a = id
  | NewSession => True
  | _ => False
  end.

Definition opens (id : Z) (e : ClientEvent) : Prop :=
  match e with Received _ (PPublish p) => pub_QoS p = 2 /\ pub_PacketID p = id | _ => False end.

Definition open_exchange (l : list ClientEvent) (id : Z) : Prop :=
  exists a e b, l = a ++ e :: b /\ opens id e /\ Forall (fun e => ~ closes id e) b.

(** A history in which every inbound PUBLISH goes to the callback at once, except
    one that repeats an open QoS 2 exchange, and nothing else goes to it. *)
Inductive chronicle : list ClientEvent -> Prop :=
  | chron_nil : chronicle []
  | chron_other l e :
      chronicle l -> match e with Received _ (PPublish _) | OnMessage _ _ _ => False | _ => True end ->
      chronicle (l ++ [e])
  | chron_message l cn p :
      chronicle l -> (pub_QoS p = 2 -> ~ open_exchange l (pub_PacketID p)) ->
      chronicle (l ++ [Received cn (PPublish p); OnMessage (pub_Topic p) (pub_QoS p) (Payload p)])
  | chron_duplicate l cn p :
      chronicle l -> pub_QoS p = 2 -> open_exchange l (pub_PacketID p) ->
      chronicle (l ++ [Received cn (PPublish p)]).

Lemma open_nil id : ~ open_exchange [] id.
Proof. intros (a & e & b & E & _). by destruct a. Qed.

Lemma open_snoc l e id :
  open_exchange (l ++ [e]) id <-> opens id e \/ (open_exchange l id /\ ~ closes id e).
Proof.
  split.
  - intros (a & e' & b & E & Ho & Hb). destruct b as [|x b] using rev_ind.
    + apply app_inj_tail in E as [-> ->]. by left.
    + rewrite app_comm_cons, app_assoc in E. apply app_inj_tail in E as [-> ->].
      apply Forall_app in Hb as [Hb [Hx _]%Forall_cons]. right. split; [|exact Hx]. by exists a, e', b.
  - intros [Ho|[(a & e' & b & -> & Ho & Hb) Hc]].
    + by exists l, e, [].
    + exists a, e', (b ++ [e]). rewrite <- app_assoc. split_and!; [done..|]. apply Forall_app. by repeat constructor.
Qed.

(** The markers of the client are the open exchanges of its history. *)
Record inbox_ok c : Prop := {
  ib_callback : onMessage c = true;
  ib_chronicle : chronicle (events c);
  ib_markers : forall id, id ∈ receivedQoS2 c <-> open_exchange (events c) id;
}.

(** An event that is neither an inbound PUBLISH nor a message. *)
Lemma inbox_event c c' e :
  onMessage c' = onMessage c -> events c' = events c ++ [e] ->
  match e with Received _ (PPublish _) | OnMessage _ _ _ => False | _ => True end ->
  (forall id, id ∈ receivedQoS2 c' <-> id ∈ receivedQoS2 c /\ ~ closes id e) ->
  inbox_ok c -> inbox_ok c'.
Proof.
  intros Em Ee He Hr [H1 H2 H3]. split; [by rewrite Em | rewrite Ee; by apply chron_other |].
  intros id. rewrite Hr, Ee, open_snoc, H3. destruct e as [| ? []| |]; cbn in He |- *; tauto.
Qed.

Lemma inbox_same c c' :
  onMessage c' = onMessage c -> receivedQoS2 c' = receivedQoS2 c -> events c' = events c -> inbox_ok c -> inbox_ok c'.
Proof. intros E1 E2 E3 [H1 H2 H3]. split; rewrite ?E1, ?E2, ?E3; done. Qed.

Lemma inbox_writes c c' es :
  onMessage c' = onMessage c -> receivedQoS2 c' = receivedQoS2 c -> events c' = events c ++ es -> Forall is_write es ->
  inbox_ok c -> inbox_ok c'.
Proof.
  intros E1 E2 E3 Hes Hc. revert c' E1 E2 E3. induction es as [|e es IH] using rev_ind; intros c' E1 E2 E3.
  { apply (inbox_same c); [done..|by rewrite E3, app_nil_r|done]. }
  apply Forall_app in Hes as [Hes [He _]%Forall_cons].
  apply (inbox_event (c <| events := events c ++ es |>) c' e).
  - done.
  - by rewrite E3, app_assoc.
  - by destruct e.
  - intros id. rewrite E2. destruct e; cbn in He |- *; tauto.
  - by apply IH.
Qed.

Lemma inbox_wrote c c' : wrote c c' -> inbox_ok c -> inbox_ok c'.
Proof. intros (cd & ls & es & -> & H). by apply (inbox_writes c _ es). Qed.

Lemma nextPacketID_frame c id c' : nextPacketID c = (id, c') -> exists n, c' = c <| nextPID := n |>.
Proof. unfold nextPacketID. destruct (nextPacketID_loop _ _ _) as [id' n]. intros [= <- <-]. by exists n. Qed.

(** Names the states after the identifiers, sends and receives of a handler. *)
Ltac client_frames :=
  repeat match goal with
  | |- context [nextPacketID ?c] =>
      let id := fresh "pid" in let c1 := fresh "c" in let E := fresh "E" in let n := fresh "n" in
      destruct (nextPacketID c) as [id c1] eqn:E; apply nextPacketID_frame in E as [n ->]
  | |- context [send ?cn ?p ?c] =>
      let r := fresh "r" in let c1 := fresh "c" in let E := fresh "E" in
      let cd := fresh "cd" in let ls := fresh "ls" in let Hl := fresh "Hl" in
      destruct (send cn p c) as [r c1] eqn:E; apply send_wrote in E as (cd & ls & -> & Hl); destruct r
  | |- context [receive ?cn ?i ?c] =>
      let r := fresh "r" in let c1 := fresh "c" in let E := fresh "E" in let cd := fresh "cd" in
      destruct (receive cn i c) as [r c1] eqn:E; apply receive_frame in E as [cd ->]; destruct r
  end.

(** What a step that is not about the inbox does to it: nothing but writes. *)
Definition inbox_quiet c c' : Prop :=
  onMessage c' = onMessage c /\ receivedQoS2 c' = receivedQoS2 c /\
  exists es, events c' = events c ++ es /\ Forall is_write es.

Lemma inbox_keep c c' : inbox_quiet c c' -> inbox_ok c -> inbox_ok c'.
Proof. intros (H1 & H2 & es & H3 & H4). by apply (inbox_writes c c' es). Qed.

Ltac quiet_step :=
  split; [reflexivity|]; split; [reflexivity|];
  first [ exists []; split; [rewrite app_nil_r; reflexivity | constructor]
        | eexists; split; [reflexivity | repeat constructor] ].

Lemma publish_quiet k t q r p c : inbox_quiet c (publishEnter k t q r p c).
Proof.
  unfold publishEnter. destruct (connected c), (conn c), (connGen c); try quiet_step.
  destruct (0 <? q); unfold register; client_frames; quiet_step.
Qed.

Lemma subscribe_quiet k ts c : inbox_quiet c (subscribeEnter k ts c).
Proof.
  unfold subscribeEnter. destruct (connected c), (conn c), (connGen c); try quiet_step.
  unfold register; client_frames; quiet_step.
Qed.

Lemma unsubscribe_quiet k ts c : inbox_quiet c (unsubscribeEnter k ts c).
Proof.
  unfold unsubscribeEnter. destruct (connected c), (conn c), (connGen c); try quiet_step.
  unfold register; client_frames; quiet_step.
Qed.

Lemma disconnect_quiet k c : inbox_quiet c (disconnectEnter k c).
Proof.
  unfold disconnectEnter. destruct (connected c), (conn c), (connGen c); try quiet_step. client_frames; quiet_step.
Qed.

Lemma recv_frame ch c o c' : recv ch c = Some (o, c') -> exists m, c' = c <| chans := m |>.
Proof.
  unfold recv. destruct (chans c !! ch) as [q|]; [|done]. destruct (buf q) as [|p l].
  - destruct (chanClosed q); intros [= <- <-]. exists (chans c). by destruct c.
  - intros [= <- <-]. by eexists.
Qed.

Lemma wake_quiet k w c c' : wake k w c = Some c' -> inbox_quiet c c'.
Proof.
  unfold wake. destruct (calls c !! k) as [call|]; [|done].
  destruct call, w; try done; try (intros [= <-]; quiet_step);
    try (case_bool_decide; intros [= <-]; quiet_step);
    (destruct (recv _ c) as [[o c1]|] eqn:Er; [|done]); apply recv_frame in Er as [m ->]; intros [= <-];
    cbn [fst snd]; try quiet_step.
  unfold publishAck. destruct o as [[]|]; try quiet_step. destruct (_ <=? _); client_frames; quiet_step.
Qed.

Lemma tick_quiet g now c c' : keepAliveTick g now c = Some c' -> inbox_quiet c c'.
Proof.
  unfold keepAliveTick. destruct (keepers c !! g) as [cn|]; [|done]. intros [= <-].
  case_bool_decide; [quiet_step|]. case_bool_decide; cbn [negb]; [|quiet_step].
  destruct (_ <? _); [quiet_step|]. client_frames; quiet_step.
Qed.

Lemma dial_quiet k g d now c : inbox_quiet c (connectDial k g d now c).
Proof. unfold connectDial. destruct d; cbn [negb]; client_frames; quiet_step. Qed.

Lemma inbox_newSession c : inbox_ok c -> inbox_ok (newSession c).
Proof.
  apply (inbox_event c _ NewSession); [reflexivity | reflexivity | done |]. intros id. cbn [closes].
  change (receivedQoS2 (newSession c)) with (∅ : gset Z). set_solver.
Qed.

Lemma inbox_connectEnter k now c : inbox_ok c -> inbox_ok (connectEnter k now c).
Proof.
  intros Hc. unfold connectEnter. destruct (connected c); [by apply (inbox_same c)|].
  destruct (connecting c); [by apply (inbox_same c)|].
  destruct (o_CleanSession (opts c)); [apply (inbox_same (newSession c)); [reflexivity..|by apply inbox_newSession]
                                      | by apply (inbox_same c)].
Qed.

Lemma inbox_connectAck k g cn d input now c : inbox_ok c -> inbox_ok (connectAck k g cn d input now c).
Proof.
  intros Hc. unfold connectAck. destruct d; cbn [negb]; [|by apply (inbox_same c)]. client_frames; [|by apply (inbox_same c)].
  destruct a; try by apply (inbox_same c). destruct (_ =? _); cbn [negb]; [|by apply (inbox_same c)].
  set (c1 := c <| codec := cd |>). assert (inbox_ok c1) as Hc1 by by apply (inbox_same c).
  destruct (SessionPresent p); [by apply (inbox_same c1)|].
  apply (inbox_same (newSession c1)); [reflexivity..|by apply inbox_newSession].
Qed.

Lemma inbox_message cn p c c' :
  onMessage c' = onMessage c ->
  (pub_QoS p = 2 -> pub_PacketID p ∉ receivedQoS2 c) ->
  receivedQoS2 c' = (if pub_QoS p =? 2 then {[pub_PacketID p]} ∪ receivedQoS2 c else receivedQoS2 c) ->
  events c' = events c ++ [Received cn (PPublish p); OnMessage (pub_Topic p) (pub_QoS p) (Payload p)] ->
  inbox_ok c -> inbox_ok c'.
Proof.
  intros Em Hn Er Ee [H1 H2 H3]. split; [by rewrite Em | |].
  - rewrite Ee. apply chron_message; [done|]. intros Hq. rewrite <- H3. by apply Hn.
  - intros id. rewrite Er, Ee. change [?x; ?y] with ([x] ++ [y]). rewrite app_assoc, !open_snoc. cbn [opens closes].
    rewrite <- H3. destruct (Z.eqb_spec (pub_QoS p) 2); [|set_solver]. rewrite elem_of_union, elem_of_singleton. naive_solver.
Qed.

Lemma inbox_handlePublish cn p c :
  inbox_ok c -> inbox_ok (handlePublish cn p (emit (Received cn (PPublish p)) c)).
Proof.
  intros Hc. unfold handlePublish. set (c0 := emit _ c). change (receivedQoS2 c0) with (receivedQoS2 c).
  destruct (Z.eqb_spec (pub_QoS p) 2) as [Hq|Hq]; cbn [andb].
  - case_bool_decide as Hd.
    + eapply inbox_wrote; [apply ackOnGen_frame|]. destruct Hc as [H1 H2 H3]. split; [done| |].
      * apply chron_duplicate; [done..|by apply H3].
      * intros id. change (events c0) with (events c ++ [Received cn (PPublish p)]). rewrite open_snoc. cbn [opens closes].
        change (receivedQoS2 c0) with (receivedQoS2 c). rewrite H3. split; [tauto|].
        intros [[_ <-]|[? _]]; [by apply H3|done].
    + rewrite Hq. cbn [Z.eqb]. change (1 =? 2) with false. eapply inbox_wrote; [apply ackOnGen_frame|].
      set (c1 := c0 <| receivedQoS2 := _ |>). change (onMessage c1) with (onMessage c). rewrite (ib_callback c Hc).
      apply (inbox_message cn p c); [reflexivity | done | by rewrite Hq | | done].
      rewrite Hq. exact (eq_sym (app_assoc (events c) [Received cn (PPublish p)] [_])).
  - change (onMessage c0) with (onMessage c). rewrite (ib_callback c Hc). set (c1 := emit _ c0).
    assert (inbox_ok c1) as H1.
    { apply (inbox_message cn p c); [reflexivity | done | | | done].
      - by destruct (Z.eqb_spec (pub_QoS p) 2).
      - exact (eq_sym (app_assoc (events c) [Received cn (PPublish p)] [_])). }
    destruct (pub_QoS p =? 1); [|done]. eapply inbox_wrote; [apply ackOnGen_frame | done].
Qed.

Lemma inbox_readerAt g cn r c : inbox_ok c -> inbox_ok (readerAt g cn r c).
Proof. by apply inbox_same. Qed.

Lemma inbox_dispatch g cn p c : inbox_ok c -> inbox_ok (dispatch g cn p (emit (Received cn p) c)).
Proof.
  intros Hc.
  assert (forall e, match e with Received _ (PPublish _) | OnMessage _ _ _ => False | _ => True end ->
    (forall id, ~ closes id e) -> inbox_ok (emit e c)) as Hother.
  { intros e He Hn. apply (inbox_event c _ e); [reflexivity | reflexivity | done | | done]. intros id. specialize (Hn id).
    change (receivedQoS2 (emit e c)) with (receivedQoS2 c). tauto. }
  unfold dispatch. destruct p; apply inbox_readerAt; try (apply Hother; [done | by intros ? ?]).
  - by apply inbox_handlePublish.
  - eapply inbox_wrote; [apply ackOnGen_frame|].
    apply (inbox_event c _ (Received cn (PPubRel p))); [reflexivity | reflexivity | done | | done]. intros id. cbn [closes].
    match goal with |- id ∈ receivedQoS2 ?x <-> _ => change (receivedQoS2 x) with (receivedQoS2 c ∖ {[ack_PacketID p]}) end.
    set_solver.
Qed.

Lemma inbox_readStep g input now c c' : inbox_ok c -> readStep g input now c = Some c' -> inbox_ok c'.
Proof.
  intros Hc. unfold readStep. destruct (readers c !! g) as [[cn r]|]; [|done]. destruct r.
  - intros [= <-]. case_bool_decide; by apply (inbox_same c).
  - client_frames; intros [= <-]; by apply (inbox_same c).
  - intros [= <-]. by apply inbox_dispatch.
  - intros [= <-]. unfold trySend. destruct (chans c !! ch) as [q|]; [|by apply (inbox_same c)].
    destruct (chanClosed q); [by apply (inbox_same c)|]. destruct (_ <? _)%nat; by apply (inbox_same c).
  - intros [= <-]. by apply (inbox_same c).
Qed.

Lemma fresh_call_inv k c c' c'' : fresh_call k c c' = Some c'' -> calls c !! k = None /\ c'' = c'.
Proof. unfold fresh_call. destruct (calls c !! k); [done|]. by intros [= ->]. Qed.

Lemma inbox_step a c c' : inbox_ok c -> step a c = Some c' -> inbox_ok c'.
Proof.
  intros Hc. unfold step. destruct (panicked c); [done|]. destruct a.
  - intros [_ ->]%fresh_call_inv. by apply inbox_connectEnter.
  - destruct (calls c !! k) as [[]|]; try done. intros [= <-]. eapply inbox_keep, Hc. apply dial_quiet.
  - destruct (calls c !! k) as [[]|]; try done. intros [= <-]. by apply inbox_connectAck.
  - intros [_ ->]%fresh_call_inv. eapply inbox_keep, Hc. apply publish_quiet.
  - intros [_ ->]%fresh_call_inv. eapply inbox_keep, Hc. apply subscribe_quiet.
  - intros [_ ->]%fresh_call_inv. eapply inbox_keep, Hc. apply unsubscribe_quiet.
  - intros [_ ->]%fresh_call_inv. eapply inbox_keep, Hc. apply disconnect_quiet.
  - intros Hw. eapply inbox_keep, Hc. by eapply wake_quiet.
  - by apply inbox_readStep.
  - intros Ht. eapply inbox_keep, Hc. by eapply tick_quiet.
  - intros [= <-]. case_bool_decide; by apply (inbox_same c).
Qed.

Lemma run_app acts1 acts2 c : run (acts1 ++ acts2) c = run acts1 c ≫= run acts2.
Proof.
  revert c. induction acts1 as [|a acts1 IH]; intros c; [done|]. cbn [app run]. destruct (step a c) as [c1|]; [apply IH | done].
Qed.

Lemma run_inv (I : MQTTClient -> Prop) acts c c' :
  (forall a c c', I c -> step a c = Some c' -> I c') -> I c -> run acts c = Some c' -> I c'.
Proof.
  intros Hs. revert c. induction acts as [|a acts IH]; intros c Hc; cbn [run]; [by intros [= <-]|].
  destruct (step a c) as [c1|] eqn:E; [|done]. cbn. by apply IH, (Hs a c).
Qed.

(** ** Packet identifiers *)

Definition valid_pid (id : Z) : Prop := 1 <= id <= 65535.

(** The [j]-th identifier tried from [old]. *)
Definition nth_pid (old j : Z) : Z := (old - 1 + j) mod 65535 + 1.

Lemma nth_pid_valid old j : valid_pid (nth_pid old j).
Proof. unfold nth_pid, valid_pid. pose proof (Z.mod_pos_bound (old - 1 + j) 65535). lia. Qed.

Lemma nth_pid_0 old : valid_pid old -> nth_pid old 0 = old.
Proof. unfold nth_pid, valid_pid. intros ?. rewrite Z.mod_small; lia. Qed.

Lemma nth_pid_next old j : valid_pid old -> nth_pid (if 65535 <? u32 (old + 1) then 1 else u32 (old + 1)) j = nth_pid old (1 + j).
Proof.
  unfold nth_pid, valid_pid. intros ?. rewrite u32_small by lia. destruct (Z.ltb_spec 65535 (old + 1)).
  - replace (old - 1 + (1 + j)) with (1 - 1 + j + 1 * 65535) by lia. by rewrite Z_mod_plus_full.
  - do 2 f_equal. lia.
Qed.

Lemma next_valid old : valid_pid old -> valid_pid (if 65535 <? u32 (old + 1) then 1 else u32 (old + 1)).
Proof. unfold valid_pid. intros ?. rewrite u32_small by lia. destruct (Z.ltb_spec 65535 (old + 1)); lia. Qed.

Lemma loop_finds n taken old j :
  valid_pid old -> 0 <= j < Z.of_nat n -> taken (nth_pid old j) = false ->
  let '(id, next) := nextPacketID_loop n taken old in valid_pid id /\ taken id = false /\ valid_pid next.
Proof.
  revert old j. induction n as [|n IH]; intros old j Ho Hj Ht; [lia|]. cbn [nextPacketID_loop].
  rewrite u16_small by (unfold valid_pid in Ho; lia). destruct (taken old) eqn:Et.
  - destruct (decide (j = 0)) as [->|]; [rewrite nth_pid_0 in Ht; congruence|].
    apply (IH _ (j - 1)); [by apply next_valid | lia |]. rewrite nth_pid_next by done. by replace (1 + (j - 1)) with j by lia.
  - split_and!; [done.. | by apply next_valid].
Qed.

Lemma loop_exhausted n taken old :
  valid_pid old -> (forall id, valid_pid id -> taken id = true) ->
  nextPacketID_loop n taken old = nextPacketID_loop 0 taken (nth_pid old (Z.of_nat n)).
Proof.
  intros Ho Ht. revert old Ho. induction n as [|n IH]; intros old Ho; [by rewrite nth_pid_0|].
  cbn [nextPacketID_loop]. rewrite u16_small by (unfold valid_pid in Ho; lia). rewrite (Ht old Ho), IH by by apply next_valid.
  rewrite nth_pid_next by done. by replace (1 + Z.of_nat n) with (Z.of_nat (S n)) by lia.
Qed.

(** ** Properties *)

(** C5: The client delivers exactly once.  In every interleaving of the calls and
    goroutines of a client, over any number of connections, each inbound PUBLISH
    is passed to the callback at once, except a QoS 2 PUBLISH whose identifier
    belongs to an exchange that is still open (no PUBREL and no new session since
    its first PUBLISH); nothing else is passed to the callback, and the duplicate
    markers are the open exchanges. *)
Theorem client_delivers_exactly_once options acts c :
  run acts (SetOnMessage (New options)) = Some c ->
  chronicle (events c) /\ forall id, id ∈ receivedQoS2 c <-> open_exchange (events c) id.
Proof.
  intros Hr. destruct (run_inv inbox_ok acts (SetOnMessage (New options)) c) as [_ H1 H2]; [apply inbox_step | | done | done].
  split; [reflexivity | constructor |]. intros id. split; [by intros ?%elem_of_empty | by intros ?%open_nil].
Qed.

(** A QoS 2 PUBLISH, its repetition, its PUBREL and the next use of the
    identifier: two messages. *)
Definition repeated_publish : list Action :=
  let publish := [52; 6; 0; 1; 116; 0; 9; 7] in
  [AConnect 0 1; ADialed 0 true 1; AConnAck 0 true [32; 2; 0; 0] 1] ++
  concat (map (fun input => [ARead 0 input 2; ARead 0 input 2; ARead 0 input 2]) [publish; publish; [98; 2; 0; 9]; publish]).

Lemma client_delivers_exactly_once_witness :
  exists c, run repeated_publish (SetOnMessage (New [])) = Some c /\ chronicle (events c) /\
    length (omap (fun e => match e with OnMessage t _ _ => Some t | _ => None end) (events c)) = 2%nat.
Proof.
  assert ((fun c => length (omap (fun e => match e with OnMessage t _ _ => Some t | _ => None end) (events c))) <$>
    run repeated_publish (SetOnMessage (New [])) = Some 2%nat) as H by (vm_compute; reflexivity).
  destruct (run repeated_publish (SetOnMessage (New []))) as [c|] eqn:E; [|discriminate]. injection H as H.
  exists c. split; [reflexivity|]. split; [|exact H]. apply (client_delivers_exactly_once [] repeated_publish c E).
Defined.

(** The identifiers of the client.  As long as one identifier of 1..65535 is
    outstanding nowhere, nextPacketID returns such an identifier and leaves its
    counter in range.  When all are outstanding and the counter is at 65535, it
    returns 65535, which collides, and leaves the counter at 65536; the call
    after that returns 0, which no packet may carry. *)
Theorem client_packet_ids c :
  (forall free, valid_pid (nextPID c) -> valid_pid free -> outstanding c free = false ->
     let '(id, c') := nextPacketID c in valid_pid id /\ outstanding c id = false /\ valid_pid (nextPID c')) /\
  (nextPID c = 65535 -> (forall id, valid_pid id -> outstanding c id = true) ->
     nextPacketID c = (65535, c <| nextPID := 65536 |>)) /\
  (nextPID c = 65536 -> outstanding c 0 = false -> nextPacketID c = (0, c <| nextPID := 1 |>)).
Proof.
  unfold nextPacketID. split_and!.
  - intros free Hn Hf Ho.
    assert (nth_pid (nextPID c) ((free - nextPID c) mod 65535) = free) as E.
    { unfold nth_pid. rewrite Zplus_mod_idemp_r. replace (nextPID c - 1 + (free - nextPID c)) with (free - 1) by lia.
      unfold valid_pid in Hf. rewrite Z.mod_small; lia. }
    pose proof (loop_finds (Z.to_nat 65535) (outstanding c) (nextPID c) ((free - nextPID c) mod 65535) Hn) as H.
    destruct (nextPacketID_loop _ _ _) as [id next]. apply H; [|by rewrite E].
    rewrite Z2Nat.id by lia. apply Z.mod_pos_bound. lia.
  - intros -> Ht. rewrite loop_exhausted by (done || (unfold valid_pid; lia)). rewrite Z2Nat.id by lia.
    change (nth_pid 65535 65535) with 65535. reflexivity.
  - intros -> Ho. replace (Z.to_nat 65535) with (S (Z.to_nat 65534)) by lia. cbn [nextPacketID_loop].
    change (u16 65536) with 0. rewrite Ho. reflexivity.
Qed.

Lemma client_packet_ids_witness :
  nextPacketID (New [] <| nextPID := 65536 |>) = (0, New [] <| nextPID := 65536 |> <| nextPID := 1 |>).
Proof. apply (client_packet_ids (New [] <| nextPID := 65536 |>)); reflexivity. Defined.
