(* ===== verification/ClientGens.v ===== *)
(** * Connection generations of the client

    Each Connect of the client creates a generation: a context, a connection, a
    readLoop.  What holds of them in every interleaving: no call waits for a
    generation that is gone, Disconnect returns, Publish reports success only
    when it was acknowledged; and what does not: an old generation can still
    reach the calls of a newer one. *)

From S2P Require Import Prelude Utf8 Wire Spec Topic Properties Packets Codec Strconv Client ClientProps.
Open Scope Z_scope.

Implicit Types c : MQTTClient.

(** ** Generations *)

(** The generation a call is connecting, and the one whose end it waits for. *)
Definition dialing (call : Call) : option nat :=
  match call with CDialing g | CConnAck g _ => Some g | _ => None end.

Definition waiting (call : Call) : option nat :=
  match call with CPubAck g _ _ _ | CSubAck g _ _ | CUnsubAck g _ _ => Some g | _ => None end.

Definition closing (call : Call) : option nat := match call with CClosing g _ => Some g | _ => None end.

Definition reading c (g : nat) : Prop := exists cn r, readers c !! g = Some (cn, r).

(** The bookkeeping of generations: the context of a readLoop that ended or
    failed is cancelled; a connected client has a running readLoop; one Connect
    at a time dials, for the current generation; a call that waits has a readLoop
    behind it or a cancelled context; Disconnect has cut the connection of the
    readLoop it waits for. *)
Record client_ok c : Prop := {
  ok_finished g : g ∈ finished c -> g ∈ cancelled c;
  ok_drain g cn : readers c !! g = Some (cn, RDrain) -> g ∈ cancelled c;
  ok_connected : connected c = true ->
    exists cn g r, conn c = Some cn /\ connGen c = Some g /\ readers c !! g = Some (cn, r) /\ g ∉ cancelled c;
  ok_dialing k call g : calls c !! k = Some call -> dialing call = Some g ->
    connecting c = true /\ connected c = false /\ connGen c = Some g /\ readers c !! g = None /\ g ∉ cancelled c;
  ok_dial_once k k' call call' g g' : calls c !! k = Some call -> dialing call = Some g ->
    calls c !! k' = Some call' -> dialing call' = Some g' -> k = k';
  ok_waiting k call g : calls c !! k = Some call -> waiting call = Some g -> g ∈ cancelled c \/ reading c g;
  ok_closing k call g : calls c !! k = Some call -> closing call = Some g ->
    g ∈ cancelled c /\ (g ∈ finished c \/ exists cn r, readers c !! g = Some (cn, r) /\ linkOf cn c <> LUp);
  ok_refs : (forall g, g ∈ cancelled c -> (g < nextRef c)%nat) /\
    (forall g, connGen c = Some g -> (g < nextRef c)%nat) /\
    (forall g cn r, readers c !! g = Some (cn, r) -> (g < nextRef c)%nat /\ (cn < nextRef c)%nat) /\
    (forall k g cn, calls c !! k = Some (CConnAck g cn) -> (cn < nextRef c)%nat);
}.

(** A link that is down stays down. *)
Definition links_mono c c' : Prop :=
  forall cn, (cn < nextRef c)%nat -> linkOf cn c <> LUp -> linkOf cn c' <> LUp.

(** What most steps keep. *)
Record gen_frame c c' : Prop := {
  gf_conn : conn c' = conn c;
  gf_gen : connGen c' = connGen c;
  gf_connected : connected c' = connected c;
  gf_connecting : connecting c' = connecting c;
  gf_readers : readers c' = readers c;
  gf_cancelled : cancelled c' = cancelled c;
  gf_finished : finished c' = finished c;
  gf_next : (nextRef c <= nextRef c')%nat;
  gf_links : links_mono c c';
}.

(** A step of call [k] that neither starts to dial nor to close. *)
Lemma ok_goto k call c c' :
  gen_frame c c' -> calls c' = <[k := call]> (calls c) -> dialing call = None -> closing call = None ->
  (forall g, waiting call = Some g -> g ∈ cancelled c \/ reading c g) ->
  client_ok c -> client_ok c'.
Proof.
  intros [F1 F2 F3 F4 F5 F6 F7 F8 F9] Ec Hd Hcl Hw [K1 K2 K3 K4 K5 K6 K7 (K8 & K9 & K10 & K11)].
  assert (forall k1 call1, calls c' !! k1 = Some call1 -> call1 = call \/ calls c !! k1 = Some call1) as Hcase.
  { intros k1 call1. rewrite Ec. intros [[_ ?]|[_ ?]]%lookup_insert_Some; auto. }
  split; unfold reading; rewrite ?F1, ?F2, ?F3, ?F4, ?F5, ?F6, ?F7.
  - done.
  - done.
  - done.
  - intros k1 call1 g [->|Hk]%Hcase Hg; [congruence|]. by apply (K4 k1 call1).
  - intros k1 k2 call1 call2 g1 g2 [->|H1]%Hcase Hg1 [->|H2]%Hcase Hg2; try congruence.
    by apply (K5 k1 k2 call1 call2 g1 g2).
  - intros k1 call1 g [->|Hk]%Hcase Hg; [by apply Hw|]. by apply (K6 k1 call1).
  - intros k1 call1 g [->|Hk]%Hcase Hg; [congruence|].
    destruct (K7 k1 call1 g Hk Hg) as [H1 [H2|(cn & r & H2 & H3)]]; [auto|]. split; [done|]. right. exists cn, r.
    split; [done|]. apply F9; [by eapply K10 | done].
  - split_and!; [intros g Hg%K8; lia | intros g Hg%K9; lia | intros g cn r Hg%K10; lia |].
    intros k1 g cn [<-|Hk%K11]%Hcase; [done|lia].
Qed.

Lemma ok_keep c c' : gen_frame c c' -> calls c' = calls c -> client_ok c -> client_ok c'.
Proof.
  intros [F1 F2 F3 F4 F5 F6 F7 F8 F9] Ec [K1 K2 K3 K4 K5 K6 K7 (K8 & K9 & K10 & K11)].
  split; unfold reading; rewrite ?Ec, ?F1, ?F2, ?F3, ?F4, ?F5, ?F6, ?F7; try done.
  - intros k1 call1 g Hk Hg. destruct (K7 k1 call1 g Hk Hg) as [H1 [H2|(cn & r & H2 & H3)]]; [auto|].
    split; [done|]. right. exists cn, r. split; [done|]. apply F9; [by eapply K10 | done].
  - split_and!; [intros g Hg%K8; lia | intros g Hg%K9; lia | intros g cn r Hg%K10; lia | intros k1 g cn Hk%K11; lia].
Qed.

(** The frame of a handler whose states are named by [client_frames]. *)
Ltac gen_step :=
  split; [reflexivity.. | first [exact (le_n _) | exact (le_S _ _ (le_n _))] |];
  intros ? ? ?;
  match goal with
  | Hl : forall cn, default LClosed (?ls !! cn) = linkOf cn ?x |- linkOf ?cn ?y <> LUp =>
      change (default LClosed (ls !! cn) <> LUp); rewrite Hl; assumption
  | |- _ => assumption
  end.

Ltac goto_step k c Hc := eapply (ok_goto k _ c); [gen_step | reflexivity | done.. | exact Hc].

Lemma ok_publish k t q r p c : client_ok c -> client_ok (publishEnter k t q r p c).
Proof.
  intros Hc. unfold publishEnter. destruct (connected c) eqn:Ec; [|goto_step k c Hc].
  destruct (ok_connected c Hc Ec) as (cn & g & rd & -> & -> & Hr & Hn).
  destruct (0 <? q); unfold register; client_frames; try goto_step k c Hc.
  eapply (ok_goto k _ c); [gen_step | reflexivity | done | done | | exact Hc]. intros ? [= <-]. right. by exists cn, rd.
Qed.

Lemma ok_subscribe k ts c : client_ok c -> client_ok (subscribeEnter k ts c).
Proof.
  intros Hc. unfold subscribeEnter. destruct (connected c) eqn:Ec; [|goto_step k c Hc].
  destruct (ok_connected c Hc Ec) as (cn & g & rd & -> & -> & Hr & Hn). unfold register; client_frames; [|goto_step k c Hc].
  eapply (ok_goto k _ c); [gen_step | reflexivity | done | done | | exact Hc]. intros ? [= <-]. right. by exists cn, rd.
Qed.

Lemma ok_unsubscribe k ts c : client_ok c -> client_ok (unsubscribeEnter k ts c).
Proof.
  intros Hc. unfold unsubscribeEnter. destruct (connected c) eqn:Ec; [|goto_step k c Hc].
  destruct (ok_connected c Hc Ec) as (cn & g & rd & -> & -> & Hr & Hn). unfold register; client_frames; [|goto_step k c Hc].
  eapply (ok_goto k _ c); [gen_step | reflexivity | done | done | | exact Hc]. intros ? [= <-]. right. by exists cn, rd.
Qed.

Lemma ok_wake k w c c' : client_ok c -> wake k w c = Some c' -> client_ok c'.
Proof.
  intros Hc. unfold wake. destruct (calls c !! k) as [call|] eqn:Ek; [|done].
  destruct call, w; try done; try (intros [= <-]; goto_step k c Hc);
    try (case_bool_decide; intros [= <-]; goto_step k c Hc);
    (destruct (recv _ c) as [[o c1]|] eqn:Er; [|done]); apply recv_frame in Er as [m ->]; intros [= <-];
    cbn [fst snd]; try goto_step k c Hc.
  unfold publishAck. destruct o as [[]|]; try goto_step k c Hc. destruct (_ <=? _); client_frames; goto_step k c Hc.
Qed.

Lemma links_close cn c c' : links c' = <[cn := LClosed]> (links c) -> links_mono c c'.
Proof.
  intros E cn' _ Hn. unfold linkOf in *. rewrite E.
  destruct (decide (cn = cn')) as [->|]; [by rewrite lookup_insert_eq | by rewrite lookup_insert_ne].
Qed.

Lemma ok_tick g now c c' : client_ok c -> keepAliveTick g now c = Some c' -> client_ok c'.
Proof.
  intros Hc. unfold keepAliveTick. destruct (keepers c !! g) as [cn|]; [|done]. intros [= <-].
  case_bool_decide; [apply (ok_keep c); [gen_step|done..]|].
  case_bool_decide; cbn [negb]; [|apply (ok_keep c); [gen_step|done..]].
  destruct (_ <? _).
  { apply (ok_keep c); [|done..]. split; [reflexivity.. | by apply (links_close cn)]. }
  client_frames; [apply (ok_keep c); [gen_step|done..]|].
  apply (ok_keep c); [|done..]. split; [reflexivity..|].
  intros cn' Hlt Hn.
  match goal with |- linkOf _ ?c2 <> _ => change (linkOf cn' c2) with (default LClosed (<[cn := LClosed]> ls !! cn')) end.
  destruct (decide (cn = cn')) as [->|]; [by rewrite lookup_insert_eq | by rewrite lookup_insert_ne, Hl].
Qed.

(** Connect registers a generation nobody has seen. *)
Lemma ok_connectEnter k now c : client_ok c -> calls c !! k = None -> client_ok (connectEnter k now c).
Proof.
  intros Hc Hk. unfold connectEnter. destruct (connected c) eqn:Ec; [goto_step k c Hc|].
  destruct (connecting c) eqn:Eg; [goto_step k c Hc|].
  destruct Hc as [K1 K2 K3 K4 K5 K6 K7 (K8 & K9 & K10 & K11)].
  assert (forall k1 call g, calls c !! k1 = Some call -> dialing call = Some g -> False) as Hnone.
  { intros k1 call g H1 H2. destruct (K4 k1 call g H1 H2). congruence. }
  set (c1 := if o_CleanSession (opts c) then newSession c else c). set (g := nextRef c).
  assert (readers c !! g = None) as Hfresh.
  { destruct (readers c !! g) as [[cn r]|] eqn:Hr; [|done]. destruct (K10 g cn r Hr). unfold g in *. lia. }
  assert (calls c1 = calls c /\ readers c1 = readers c /\ cancelled c1 = cancelled c /\ finished c1 = finished c /\
    connected c1 = connected c /\ forall cn, linkOf cn c1 = linkOf cn c) as (E1 & E2 & E3 & E4 & E5 & E6)
    by (unfold c1; destruct (o_CleanSession (opts c)); done).
  match goal with |- client_ok ?x => set (c2 := x) end.
  assert (calls c2 = <[k := CDialing g]> (calls c) /\ readers c2 = readers c /\ cancelled c2 = cancelled c /\
    finished c2 = finished c /\ connected c2 = false /\ connecting c2 = true /\ connGen c2 = Some g /\
    nextRef c2 = S g /\ forall cn, linkOf cn c2 = linkOf cn c) as (A1 & A2 & A3 & A4 & A5 & A6 & A7 & A8 & A9).
  { rewrite <- E1, <- E2, <- E3, <- E4, <- Ec, <- E5. split_and!; [reflexivity..|exact E6]. }
  assert (g = nextRef c) as En by done. clearbody c2 g. split; unfold reading; rewrite ?A1, ?A2, ?A3, ?A4, ?A5, ?A6, ?A7, ?A8; try done.
  - intros k1 call g1 [[<- <-]|[Hne H1]]%lookup_insert_Some Hg; [injection Hg as <- | by destruct (Hnone _ _ _ H1 Hg)].
    split_and!; [done..|intros Hin%K8; lia].
  - intros k1 k2 call1 call2 g1 g2 [[<- <-]|[_ H1]]%lookup_insert_Some Hg1 [[<- <-]|[_ H2]]%lookup_insert_Some Hg2;
      try done; by destruct (Hnone _ _ _ ltac:(eassumption) ltac:(eassumption)).
  - intros k1 call g1 [[<- <-]|[_ H1]]%lookup_insert_Some Hg; [done | by apply (K6 k1 call)].
  - intros k1 call g1 [[<- <-]|[_ H1]]%lookup_insert_Some Hg; [done |].
    destruct (K7 k1 call g1 H1 Hg) as [? [?|(cn & r & ? & ?)]]; [auto|]. split; [done|]. right. exists cn, r. by rewrite A9.
  - split_and!; [intros g1 Hg1%K8; lia | intros ? [= <-]; lia | intros g1 cn r Hg1%K10; lia |].
    intros k1 g1 cn [[_ ?]|[_ Hk1%K11]]%lookup_insert_Some; [done|lia].
Qed.

(** A call that ends a Connect, whatever it reports. *)
Lemma ok_connectReturn k call g r c c' :
  calls c !! k = Some call -> dialing call = Some g ->
  conn c' = conn c -> connGen c' = connGen c -> connected c' = connected c -> readers c' = readers c ->
  cancelled c' = cancelled c -> finished c' = finished c -> (nextRef c <= nextRef c')%nat -> links_mono c c' ->
  calls c' = <[k := CReturned r]> (calls c) -> client_ok c -> client_ok c'.
Proof.
  intros Hk Hg F1 F2 F3 F4 F5 F6 F7 F8 Ec [K1 K2 K3 K4 K5 K6 K7 (K8 & K9 & K10 & K11)].
  assert (forall k1 call1, calls c' !! k1 = Some call1 -> call1 = CReturned r \/ k1 <> k /\ calls c !! k1 = Some call1) as Hcase.
  { intros k1 call1. rewrite Ec. intros [[_ ?]|[? ?]]%lookup_insert_Some; auto. }
  assert (forall k1 call1 g1, calls c' !! k1 = Some call1 -> dialing call1 = Some g1 -> False) as Hnone.
  { intros k1 call1 g1 [->|[Hne H1]]%Hcase Hd; [done|]. by apply Hne, (K5 k1 k call1 call g1 g). }
  split; unfold reading; rewrite ?F1, ?F2, ?F3, ?F4, ?F5, ?F6; try done.
  - intros k1 call1 g1 H1 Hd. by destruct (Hnone k1 call1 g1).
  - intros k1 k2 call1 call2 g1 g2 H1 Hd1. by destruct (Hnone k1 call1 g1).
  - intros k1 call1 g1 [->|[_ H1]]%Hcase Hw; [done | by apply (K6 k1 call1)].
  - intros k1 call1 g1 [->|[_ H1]]%Hcase Hw; [done |].
    destruct (K7 k1 call1 g1 H1 Hw) as [? [?|(cn & rd & ? & ?)]]; [auto|]. split; [done|]. right. exists cn, rd.
    split; [done|]. apply F8; [by eapply K10 | done].
  - split_and!; [intros g1 Hg1%K8; lia | intros g1 Hg1%K9; lia | intros g1 cn rd Hg1%K10; lia |].
    intros k1 g1 cn [?|[_ Hk1%K11]]%Hcase; [done|lia].
Qed.

(** A new connection is a new link; the others stay as they are. *)
Lemma links_new cn c c' l :
  (nextRef c <= cn)%nat -> (forall cn', linkOf cn' c' = default LClosed (<[cn := l]> (links c) !! cn')) -> links_mono c c'.
Proof. intros Hle E cn' Hlt Hn. rewrite E, lookup_insert_ne; [done|lia]. Qed.

Lemma ok_connectDial k g d now c :
  client_ok c -> calls c !! k = Some (CDialing g) -> client_ok (connectDial k g d now c).
Proof.
  intros Hc Hk. unfold connectDial. destruct d; cbn [negb].
  2:{ eapply (ok_connectReturn k (CDialing g) g _ c); try reflexivity; [done | by intros ? | done]. }
  client_frames.
  - set (cn := nextRef c) in *. match goal with |- client_ok ?x => set (c2 := x) end.
    destruct Hc as [K1 K2 K3 K4 K5 K6 K7 (K8 & K9 & K10 & K11)].
    assert (calls c2 = <[k := CConnAck g cn]> (calls c)) as Ec by reflexivity.
    assert (forall k1 call1, calls c2 !! k1 = Some call1 ->
      (k1 = k /\ call1 = CConnAck g cn) \/ calls c !! k1 = Some call1) as Hcase.
    { intros k1 call1. rewrite Ec. intros [[<- <-]|[? ?]]%lookup_insert_Some; auto. }
    assert (links_mono c c2) as Hm.
    { apply (links_new cn c c2 LUp); [unfold cn; lia|]. intros cn'. exact (Hl cn'). }
    split.
    + exact K1.
    + exact K2.
    + exact K3.
    + intros k1 call1 g1 [[-> ->]|H1]%Hcase Hd; [|exact (K4 k1 call1 g1 H1 Hd)].
      injection Hd as <-. exact (K4 k (CDialing g) g Hk eq_refl).
    + intros k1 k2 call1 call2 g1 g2 [[-> ->]|H1]%Hcase Hd1 [[-> ->]|H2]%Hcase Hd2; [done| | |].
      * by apply (K5 k k2 (CDialing g) call2 g g2).
      * by apply (K5 k1 k call1 (CDialing g) g1 g).
      * by apply (K5 k1 k2 call1 call2 g1 g2).
    + intros k1 call1 g1 [[-> ->]|H1]%Hcase Hw; [done | exact (K6 k1 call1 g1 H1 Hw)].
    + intros k1 call1 g1 [[-> ->]|H1]%Hcase Hw; [done|].
      destruct (K7 k1 call1 g1 H1 Hw) as [? [?|(cn1 & rd & Hr & ?)]]; [auto|]. split; [done|]. right. exists cn1, rd.
      split; [done|]. apply Hm; [by eapply K10 | done].
    + change (nextRef c2) with (S cn). split_and!; [intros g1 Hg1%K8 | intros g1 Hg1%K9 | intros g1 cn1 rd Hg1%K10 |];
        [unfold cn; lia.. |]. intros k1 g1 cn1 [[_ [= _ ->]]|Hk1%K11]%Hcase; unfold cn in *; lia.
  - eapply (ok_connectReturn k (CDialing g) g _ c); try reflexivity; [done | exact (le_S _ _ (le_n _)) | | done].
    intros cn' Hlt Hn.
    match goal with |- linkOf _ ?c2 <> _ => change (linkOf cn' c2) with (default LClosed (<[nextRef c := LClosed]> ls !! cn')) end.
    rewrite lookup_insert_ne by lia. rewrite Hl.
    match goal with |- linkOf _ ?c2 <> _ => change (linkOf cn' c2) with (default LClosed (<[nextRef c := LUp]> (links c) !! cn')) end.
    rewrite lookup_insert_ne by lia. done.
Qed.

Lemma links_closed cn c c' :
  (forall cn', linkOf cn' c' = default LClosed (<[cn := LClosed]> (links c) !! cn')) -> links_mono c c'.
Proof.
  intros E cn' _ Hn. rewrite E. destruct (decide (cn = cn')) as [->|]; [by rewrite lookup_insert_eq|].
  by rewrite lookup_insert_ne.
Qed.

(** An accepted Connect starts the readLoop of its generation. *)
Lemma ok_accepted k g cn c c2 :
  client_ok c -> calls c !! k = Some (CConnAck g cn) ->
  calls c2 = <[k := CReturned (Ok [])]> (calls c) -> readers c2 = <[g := (cn, RCheck)]> (readers c) ->
  cancelled c2 = cancelled c -> finished c2 = finished c -> conn c2 = Some cn -> connGen c2 = connGen c ->
  nextRef c2 = nextRef c -> (forall cn, linkOf cn c2 = linkOf cn c) -> client_ok c2.
Proof.
  intros [K1 K2 K3 K4 K5 K6 K7 (K8 & K9 & K10 & K11)] Hk A1 A2 A3 A4 A5 A6 A7 A8.
  destruct (K4 k _ g Hk eq_refl) as (D1 & D2 & D3 & D4 & D5).
  assert (forall k1 call1, calls c2 !! k1 = Some call1 ->
    dialing call1 = None /\ (call1 = CReturned (Ok []) \/ calls c !! k1 = Some call1)) as Hcase.
  { intros k1 call1. rewrite A1. intros [[_ <-]|[Hne H1]]%lookup_insert_Some; [by auto|]. split; [|auto].
    destruct (dialing call1) as [g1|] eqn:Hd; [|done]. by destruct Hne; apply (K5 k k1 (CConnAck g cn) call1 g g1). }
  split.
  - by rewrite A3, A4.
  - intros g1 cn1. rewrite A2, A3. intros [[_ ?]|[_ H1]]%lookup_insert_Some; [done | by eapply K2].
  - intros _. exists cn, g, RCheck. by rewrite A2, A3, A5, A6, lookup_insert_eq.
  - intros k1 call1 g1 [Hd _]%Hcase Hg. congruence.
  - intros k1 k2 call1 call2 g1 g2 [Hd _]%Hcase Hg. congruence.
  - intros k1 call1 g1 [_ [->|H1]]%Hcase Hw; [done|]. unfold reading. rewrite A2, A3.
    destruct (K6 k1 call1 g1 H1 Hw) as [?|(cn1 & rd & Hr)]; [by left|]. right.
    destruct (decide (g = g1)) as [<-|]; [congruence|]. exists cn1, rd. by rewrite lookup_insert_ne.
  - intros k1 call1 g1 [_ [->|H1]]%Hcase Hw; [done|]. rewrite A2, A3, A4.
    destruct (K7 k1 call1 g1 H1 Hw) as [? [?|(cn1 & rd & Hr & ?)]]; [auto|]. split; [done|]. right. exists cn1, rd.
    rewrite A8. destruct (decide (g = g1)) as [<-|]; [congruence|]. by rewrite lookup_insert_ne.
  - rewrite A2, A3, A6, A7. split_and!; [done..| |].
    + intros g1 cn1 rd [[<- [= <- _]]|[_ Hr%K10]]%lookup_insert_Some; [|done]. split; [by apply K9 | by eapply K11].
    + by intros k1 g1 cn1 [Hd _]%Hcase.
Qed.

Lemma ok_connectAck k g cn d input now c :
  client_ok c -> calls c !! k = Some (CConnAck g cn) -> client_ok (connectAck k g cn d input now c).
Proof.
  intros Hc Hk. unfold connectAck.
  assert (forall cd msg, client_ok (connectReturn k (Err (ErrText msg)) (closeConn cn (c <| codec := cd |>)))) as Hfail.
  { intros cd msg. eapply (ok_connectReturn k (CConnAck g cn) g _ c); try reflexivity; [done | | done].
    by apply (links_closed cn). }
  destruct d; cbn [negb].
  2:{ pose proof (Hfail (codec c) "set CONNACK deadline") as H.
      by replace (c <| codec := codec c |>) with c in H by (by destruct c). }
  client_frames; [|apply Hfail]. destruct a; try apply Hfail. destruct (_ =? _); cbn [negb]; [|apply Hfail].
  destruct (SessionPresent p); by apply (ok_accepted k g cn c).
Qed.

Lemma ok_disconnect k c : client_ok c -> client_ok (disconnectEnter k c).
Proof.
  intros Hc. unfold disconnectEnter. destruct (connected c) eqn:Ec; [|goto_step k c Hc].
  destruct (ok_connected c Hc Ec) as (cn & g & rd & -> & Eg & Hr & Hn). rewrite Eg.
  destruct (send cn _ _) as [r c1] eqn:Es. apply send_wrote in Es as (cd & ls & -> & Hl).
  match goal with |- client_ok ?x => set (c2 := x) end.
  destruct Hc as [K1 K2 K3 K4 K5 K6 K7 (K8 & K9 & K10 & K11)].
  assert (exists e, calls c2 = <[k := CClosing g e]> (calls c)) as [e Ecalls] by by eexists.
  assert (readers c2 = readers c /\ cancelled c2 = {[g]} ∪ cancelled c /\ finished c2 = finished c /\ connected c2 = false /\
    connGen c2 = connGen c /\ nextRef c2 = nextRef c /\ connecting c2 = connecting c /\
    forall cn', linkOf cn' c2 = default LClosed (<[cn := LClosed]> ls !! cn')) as (A2 & A3 & A4 & A5 & A6 & A7 & A9 & A8)
    by done.
  assert (linkOf cn c2 <> LUp /\ forall cn', linkOf cn' c <> LUp -> linkOf cn' c2 <> LUp) as [Hcut Hm].
  { split; [by rewrite A8, lookup_insert_eq|]. intros cn' Hdown. rewrite A8.
    destruct (decide (cn = cn')) as [->|]; [by rewrite lookup_insert_eq | by rewrite lookup_insert_ne, Hl]. }
  assert (forall k1 call1, calls c2 !! k1 = Some call1 -> call1 = CClosing g e \/ calls c !! k1 = Some call1) as Hcase.
  { intros k1 call1. rewrite Ecalls. intros [[_ ?]|[_ ?]]%lookup_insert_Some; auto. }
  clearbody c2. split; unfold reading; rewrite ?A2, ?A3, ?A4, ?A5, ?A6, ?A7, ?A9.
  - set_solver.
  - intros g1 cn1 H1%K2. set_solver.
  - done.
  - intros k1 call1 g1 [->|H1]%Hcase Hd; [done|]. destruct (K4 k1 call1 g1 H1 Hd) as (? & ? & _). congruence.
  - intros k1 k2 call1 call2 g1 g2 [->|H1]%Hcase Hd1 [->|H2]%Hcase Hd2; try done. by apply (K5 k1 k2 call1 call2 g1 g2).
  - intros k1 call1 g1 [->|H1]%Hcase Hw; [done|]. destruct (K6 k1 call1 g1 H1 Hw); [left; set_solver | by right].
  - intros k1 call1 g1 [->|H1]%Hcase Hw.
    + injection Hw as <-. split; [set_solver|]. right. by exists cn, rd.
    + destruct (K7 k1 call1 g1 H1 Hw) as [? [?|(cn1 & rd1 & ? & ?)]]; (split; [set_solver|]); [by left|]. right.
      exists cn1, rd1. auto.
  - split_and!; [intros g1 [->%elem_of_singleton|?]%elem_of_union; auto | done | done |].
    intros k1 g1 cn1 [?|H1]%Hcase; [done | by eapply K11].
Qed.

Lemma links_same c c' : (forall cn, linkOf cn c' = linkOf cn c) -> links_mono c c'.
Proof. intros E cn _ Hn. by rewrite E. Qed.

(** readLoop moves to another point. *)
Lemma ok_reader g cn r r' c c' :
  readers c !! g = Some (cn, r) -> readers c' = <[g := (cn, r')]> (readers c) ->
  conn c' = conn c -> connGen c' = connGen c -> calls c' = calls c -> connecting c' = connecting c ->
  finished c' = finished c -> nextRef c' = nextRef c -> links_mono c c' ->
  (cancelled c' = cancelled c /\ connected c' = connected c /\ r' <> RDrain \/
   cancelled c' = {[g]} ∪ cancelled c /\ connected c' = connected c && negb (bool_decide (conn c = Some cn))) ->
  client_ok c -> client_ok c'.
Proof.
  intros Hr Er F1 F2 F3 F4 F5 F6 Hm Hcan [K1 K2 K3 K4 K5 K6 K7 (K8 & K9 & K10 & K11)].
  assert (forall x, x ∈ cancelled c -> x ∈ cancelled c') as Hsub by (destruct Hcan as [[-> _]|[-> _]]; set_solver).
  assert (forall x, x ∈ cancelled c' -> x = g \/ x ∈ cancelled c) as Hsup by (destruct Hcan as [[-> _]|[-> _]]; set_solver).
  assert (forall g1 p, readers c' !! g1 = Some p -> (g1 = g /\ p = (cn, r')) \/ readers c !! g1 = Some p) as Hcase.
  { intros g1 p. rewrite Er. intros [[<- <-]|[_ ?]]%lookup_insert_Some; auto. }
  assert (forall g1, reading c g1 -> reading c' g1) as Hread.
  { intros g1 (cn1 & r1 & H1). unfold reading. rewrite Er. destruct (decide (g = g1)) as [<-|].
    - exists cn, r'. apply lookup_insert_eq.
    - exists cn1, r1. by rewrite lookup_insert_ne. }
  split; rewrite ?F1, ?F2, ?F3, ?F4, ?F5, ?F6.
  - auto.
  - intros g1 cn1 [[-> [= -> <-]]|H1%K2]%Hcase; [|auto]. destruct Hcan as [(_ & _ & ?)|[-> _]]; [done|set_solver].
  - intros Hc'. destruct Hcan as [(E1 & E2 & _)|[E1 E2]].
    + rewrite E2 in Hc'. destruct (K3 Hc') as (cn1 & g1 & r1 & H1 & H2 & H3 & H4).
      destruct (Hread g1) as (cn2 & r2 & H5); [by exists cn1, r1|]. exists cn1, g1, r2. rewrite E1. split_and!; try done.
      destruct (Hcase _ _ H5) as [[-> [= -> ->]]|?]; [|congruence]. rewrite Hr in H3. by injection H3 as -> _.
    + rewrite E2 in Hc'. apply andb_true_iff in Hc' as [Hc' Hn%negb_true_iff]. apply bool_decide_eq_false in Hn.
      destruct (K3 Hc') as (cn1 & g1 & r1 & H1 & H2 & H3 & H4).
      assert (g <> g1) by (intros <-; rewrite Hr in H3; injection H3 as -> _; done).
      exists cn1, g1, r1. rewrite E1, Er, lookup_insert_ne by done. split_and!; [done..|set_solver].
  - intros k1 call1 g1 H1 Hd. destruct (K4 k1 call1 g1 H1 Hd) as (D1 & D2 & D3 & D4 & D5).
    assert (g <> g1) by (intros <-; congruence). rewrite Er, lookup_insert_ne by done. split_and!; try done.
    + destruct Hcan as [(_ & -> & _)|[_ ->]]; by rewrite D2.
    + intros [->|?]%Hsup; done.
  - done.
  - intros k1 call1 g1 H1 Hw. destruct (K6 k1 call1 g1 H1 Hw); auto.
  - intros k1 call1 g1 H1 Hw. destruct (K7 k1 call1 g1 H1 Hw) as [? [?|(cn1 & r1 & H2 & H3)]]; [auto|].
    split; [auto|]. right. assert (linkOf cn1 c' <> LUp) by (apply Hm; [by eapply K10 | done]).
    rewrite Er. destruct (decide (g = g1)) as [<-|].
    + rewrite Hr in H2. injection H2 as <- _. exists cn, r'. by rewrite lookup_insert_eq.
    + exists cn1, r1. by rewrite lookup_insert_ne.
  - split_and!; [|done| |done].
    + intros x [->|?]%Hsup; [apply (K10 _ _ _ Hr) | auto].
    + intros g1 cn1 r1 [[-> [= -> _]]|H1]%Hcase; [exact (K10 _ _ _ Hr) | exact (K10 _ _ _ H1)].
Qed.

(** readLoop ends. *)
Lemma ok_exit g cn r c c' :
  readers c !! g = Some (cn, r) -> g ∈ cancelled c ->
  readers c' = delete g (readers c) -> finished c' = {[g]} ∪ finished c -> cancelled c' = cancelled c ->
  conn c' = conn c -> connGen c' = connGen c -> calls c' = calls c -> connecting c' = connecting c ->
  connected c' = connected c -> nextRef c' = nextRef c -> (forall cn, linkOf cn c' = linkOf cn c) ->
  client_ok c -> client_ok c'.
Proof.
  intros Hr Hg Er Ef Ec F1 F2 F3 F4 F5 F6 F7 [K1 K2 K3 K4 K5 K6 K7 (K8 & K9 & K10 & K11)].
  assert (forall g1, reading c g1 -> reading c' g1 \/ g1 = g) as Hread.
  { intros g1 (cn1 & r1 & H1). unfold reading. rewrite Er. destruct (decide (g = g1)) as [<-|]; [by right|].
    left. exists cn1, r1. by rewrite lookup_delete_ne. }
  split; rewrite ?F1, ?F2, ?F3, ?F4, ?F5, ?F6, ?Ec.
  - rewrite Ef. set_solver.
  - intros g1 cn1. rewrite Er. intros [_ H1]%lookup_delete_Some. by eapply K2.
  - intros Hc'. destruct (K3 Hc') as (cn1 & g1 & r1 & H1 & H2 & H3 & H4). exists cn1, g1, r1.
    rewrite Er, lookup_delete_ne by (intros <-; done). done.
  - intros k1 call1 g1 H1 Hd. destruct (K4 k1 call1 g1 H1 Hd) as (D1 & D2 & D3 & D4 & D5). split_and!; try done.
    rewrite Er. by apply lookup_delete_None; right.
  - done.
  - intros k1 call1 g1 H1 Hw. destruct (K6 k1 call1 g1 H1 Hw) as [?|[?| ->]%Hread]; auto.
  - intros k1 call1 g1 H1 Hw. destruct (K7 k1 call1 g1 H1 Hw) as [? [?|(cn1 & r1 & H2 & H3)]]; (split; [done|]).
    + left. rewrite Ef. set_solver.
    + destruct (decide (g = g1)) as [<-|]; [left; rewrite Ef; set_solver|]. right. exists cn1, r1.
      by rewrite Er, lookup_delete_ne, F7.
  - split_and!; [done..| |done]. intros g1 cn1 r1. rewrite Er. intros [_ H1]%lookup_delete_Some. by eapply K10.
Qed.

(** The links and the bookkeeping of generations after writes. *)
Lemma ackOnGen_links cn p c cn' : linkOf cn' (ackOnGen cn p c) = linkOf cn' c.
Proof.
  unfold ackOnGen. case_bool_decide; [|done]. destruct (send cn p c) as [r c1] eqn:E.
  apply send_wrote in E as (cd & ls & -> & Hl). apply Hl.
Qed.

Record dispatched c c' : Prop := {
  di_wrote : conn c' = conn c /\ connGen c' = connGen c /\ calls c' = calls c /\ connecting c' = connecting c /\
    finished c' = finished c /\ nextRef c' = nextRef c /\ cancelled c' = cancelled c /\ connected c' = connected c /\
    readers c' = readers c /\ panicked c' = panicked c /\ pending c' = pending c /\ chans c' = chans c;
  di_links cn : linkOf cn c' = linkOf cn c;
}.

Lemma dispatched_refl c : dispatched c c.
Proof. by split. Qed.

Lemma dispatched_trans c1 c2 c3 : dispatched c1 c2 -> dispatched c2 c3 -> dispatched c1 c3.
Proof. intros [H1 L1] [H2 L2]. split; [intuition congruence | intros cn; by rewrite L2]. Qed.

Lemma ackOnGen_dispatched cn p c : dispatched c (ackOnGen cn p c).
Proof.
  split; [|intros cn'; apply ackOnGen_links].
  destruct (drop_writes _ _ (ackOnGen_frame cn p c)) as (? & ? & ? & ? & ? & ? & ? & ? & ? & ? & ? & ? & ? & ? & ? & ? & ? & _).
  done.
Qed.

Lemma handlePublish_dispatched cn p c : dispatched c (handlePublish cn p c).
Proof.
  unfold handlePublish. destruct (_ && _); [apply ackOnGen_dispatched|].
  set (c1 := if pub_QoS p =? 2 then _ else c). assert (dispatched c c1) as H1 by (unfold c1; by destruct (_ =? _)).
  set (c2 := if onMessage c1 then _ else c1). assert (dispatched c1 c2) as H2 by (unfold c2; by destruct (onMessage c1)).
  set (c3 := if pub_QoS p =? 1 then _ else c2).
  assert (dispatched c2 c3) as H3 by (unfold c3; destruct (_ =? 1); [apply ackOnGen_dispatched | apply dispatched_refl]).
  apply (dispatched_trans c c1); [done|]. apply (dispatched_trans c1 c2); [done|]. apply (dispatched_trans c2 c3); [done|].
  destruct (_ =? 2); [apply ackOnGen_dispatched | apply dispatched_refl].
Qed.

(** What the dispatch of a packet leaves, apart from where readLoop is. *)
Lemma dispatch_frame g cn p c :
  exists c1 r', dispatched c c1 /\ dispatch g cn p c = readerAt g cn r' c1 /\
    (r' = RCheck \/ exists ch, r' = RSend p ch /\ responseID p ≫= (pending c !!.) = Some ch).
Proof.
  set (r0 := match responseID p ≫= (pending c !!.) with Some ch => RSend p ch | None => RCheck end).
  assert (r0 = RCheck \/ exists ch, r0 = RSend p ch /\ responseID p ≫= (pending c !!.) = Some ch) as H0
    by (unfold r0; destruct (responseID p ≫= _) eqn:E; [right; by eexists | by left]).
  assert (dispatch g cn p c = readerAt g cn r0 c -> exists c1 r', dispatched c c1 /\ dispatch g cn p c = readerAt g cn r' c1 /\
    (r' = RCheck \/ exists ch, r' = RSend p ch /\ responseID p ≫= (pending c !!.) = Some ch)) as Hother
    by (intros ?; exists c, r0; split_and!; [apply dispatched_refl | done..]).
  clear H0. destruct p; try exact (Hother eq_refl).
  - exists (handlePublish cn p c), RCheck. split_and!; [apply handlePublish_dispatched | done | by left].
  - exists (handlePubRel cn (ack_PacketID p) c), RCheck. split_and!; [|done|by left].
    eapply dispatched_trans, ackOnGen_dispatched. by split.
Qed.

Lemma ok_readStep g input now c c' : client_ok c -> readStep g input now c = Some c' -> client_ok c'.
Proof.
  intros Hc. unfold readStep. destruct (readers c !! g) as [[cn r]|] eqn:Hr; [|done]. destruct r.
  - intros [= <-]. case_bool_decide as Hg; [by apply (ok_exit g cn RCheck c)|].
    apply (ok_reader g cn RCheck RDecode c); try done; [by apply links_same | by left].
  - client_frames; intros [= <-].
    + apply (ok_reader g cn RDecode (RGot a) c); try done; [by apply links_same | by left].
    + apply (ok_reader g cn RDecode RDrain c); try done; [by apply links_same | by right].
  - intros [= <-]. destruct (dispatch_frame g cn p (emit (Received cn p) c)) as (c1 & r' & [Hd Hl] & -> & Hr').
    destruct Hd as (D1 & D2 & D3 & D4 & D5 & D6 & D7 & D8 & D9 & D10 & D11 & D12).
    apply (ok_reader g cn (RGot p) r' c); try done.
    + change (<[g := (cn, r')]> (readers c1) = <[g := (cn, r')]> (readers c)). by rewrite D9.
    + apply links_same. exact Hl.
    + left. split_and!; [done..|]. by destruct Hr' as [->|(ch & -> & _)].
  - intros [= <-]. assert (exists c1, trySend ch p c = c1 /\ dispatched (c <| chans := chans c1 |> <| panicked := panicked c1 |>) c1)
      as (c1 & -> & [(D1 & D2 & D3 & D4 & D5 & D6 & D7 & D8 & D9 & D10 & D11 & D12) Hl]).
    { eexists. split; [done|]. unfold trySend. destruct (chans c !! ch) as [q|]; [destruct (chanClosed q); [|destruct (_ <? _)%nat]|];
        by split. }
    apply (ok_reader g cn (RSend p ch) RCheck c); try done.
    + change (<[g := (cn, RCheck)]> (readers c1) = <[g := (cn, RCheck)]> (readers c)). by rewrite D9.
    + apply links_same. exact Hl.
    + by left.
  - intros [= <-]. apply (ok_exit g cn RDrain c); try done. by eapply (ok_drain c).
Qed.

Lemma ok_step a c c' : client_ok c -> step a c = Some c' -> client_ok c'.
Proof.
  intros Hc. unfold step. destruct (panicked c); [done|]. destruct a.
  - intros [Hk ->]%fresh_call_inv. by apply ok_connectEnter.
  - destruct (calls c !! k) as [[]|] eqn:Hk; try done. intros [= <-]. by apply ok_connectDial.
  - destruct (calls c !! k) as [[]|] eqn:Hk; try done. intros [= <-]. by apply ok_connectAck.
  - intros [_ ->]%fresh_call_inv. by apply ok_publish.
  - intros [_ ->]%fresh_call_inv. by apply ok_subscribe.
  - intros [_ ->]%fresh_call_inv. by apply ok_unsubscribe.
  - intros [_ ->]%fresh_call_inv. by apply ok_disconnect.
  - by apply ok_wake.
  - by apply ok_readStep.
  - by apply ok_tick.
  - intros [= <-]. case_bool_decide as Hl; [|done]. apply (ok_keep c); [|done..]. split; [reflexivity..|].
    intros cn' _ Hn. change (default LClosed (<[cn := LBroken]> (links c) !! cn') <> LUp).
    destruct (decide (cn = cn')) as [->|]; [by rewrite lookup_insert_eq | by rewrite lookup_insert_ne].
Qed.

Lemma ok_New options : client_ok (New options).
Proof.
  split; try done; try (intros *; cbn; rewrite ?lookup_empty; by try intros ?%elem_of_empty).
Qed.

(** ** Ending *)

(** How many steps readLoop takes to end once it is cancelled and cut off. *)
Definition rank (r : Reader) : nat :=
  match r with RCheck | RDrain => 1 | RDecode | RSend _ _ => 2 | RGot _ => 3 end.

Definition cut_off (g cn : nat) c : Prop := g ∈ cancelled c /\ linkOf cn c <> LUp /\ panicked c = false.

Lemma cut_off_step g cn r input now c :
  readers c !! g = Some (cn, r) -> cut_off g cn c ->
  exists c', readStep g input now c = Some c' /\ calls c' = calls c /\
    (panicked c' = true \/ g ∈ finished c' \/
     cut_off g cn c' /\ exists r', readers c' !! g = Some (cn, r') /\ (rank r' < rank r)%nat).
Proof.
  intros Hr (Hg & Hl & Hp). unfold readStep. rewrite Hr. destruct r.
  - rewrite bool_decide_true by done. eexists. split_and!; [done | done |]. right. left. set_solver.
  - unfold receive. rewrite bool_decide_false by done. eexists. split_and!; [done | done |]. do 2 right.
    split; [split_and!; [set_solver | done..]|]. exists RDrain. split; [apply lookup_insert_eq | cbn; lia].
  - destruct (dispatch_frame g cn p (emit (Received cn p) c)) as (c1 & r' & [Hd Hls] & -> & Hr').
    destruct Hd as (D1 & D2 & D3 & D4 & D5 & D6 & D7 & D8 & D9 & D10 & D11 & D12).
    eexists. split_and!; [done | exact D3 |]. do 2 right. split.
    + split_and!; [change (g ∈ cancelled c1); by rewrite D7 | change (linkOf cn c1 <> LUp); by rewrite Hls |].
      change (panicked c1 = false). by rewrite D10.
    + exists r'. split; [apply lookup_insert_eq|]. destruct Hr' as [->|(ch & -> & _)]; cbn; lia.
  - eexists. split_and!; [done | |].
    + unfold trySend. destruct (chans c !! ch) as [q|]; [destruct (chanClosed q); [|destruct (_ <? _)%nat]|]; done.
    + unfold trySend. destruct (chans c !! ch) as [q|]; [destruct (chanClosed q); [by left|destruct (_ <? _)%nat]|]; do 2 right;
        (split; [done|]; exists RCheck; split; [apply lookup_insert_eq | cbn; lia]).
  - eexists. split_and!; [done | done |]. right. left. set_solver.
Qed.

(** The run of readLoop on the next inputs. *)
Definition reads (g : nat) (ins : list (bytes * Z)) : list Action := map (fun i => ARead g (fst i) (snd i)) ins.

Lemma cut_off_ends g cn r ins c :
  readers c !! g = Some (cn, r) -> cut_off g cn c -> (rank r <= length ins)%nat ->
  exists n c', (n <= rank r)%nat /\ run (reads g (take n ins)) c = Some c' /\ calls c' = calls c /\
    (panicked c' = true \/ panicked c' = false /\ g ∈ finished c').
Proof.
  revert c r. induction ins as [|[input now] ins IH]; intros c r Hr Hc Hle.
  { destruct r; cbn in Hle; lia. }
  destruct (cut_off_step g cn r input now c Hr Hc) as (c' & Hs & Ec & Hend).
  assert (step (ARead g input now) c = Some c') as Hs' by (unfold step; by rewrite (proj2 (proj2 Hc))).
  destruct (panicked c') eqn:Ep.
  { exists 1%nat, c'. cbn [take reads map run fst snd]. rewrite Hs'. split_and!; [destruct r; cbn; lia | done | done | by left]. }
  destruct Hend as [?|[Hf|(Hc' & r' & Hr' & Hlt)]]; [done| |].
  { exists 1%nat, c'. cbn [take reads map run fst snd]. rewrite Hs'. split_and!; [destruct r; cbn; lia | done | done | by right]. }
  destruct (IH c' r' Hr' Hc') as (n & c2 & Hn & Hrun & Ec2 & H2); [cbn in Hle; lia|].
  exists (S n), c2. cbn [take reads map run fst snd]. rewrite Hs'. cbn. split_and!; [lia | done | congruence | done].
Qed.

Lemma step_wake k w c : step (AWake k w) c = if panicked c then None else wake k w c.
Proof. done. Qed.

(** ** Properties *)

(** C16: No call is left behind by its connection.  In every state a client can
    reach: a Publish waiting for its first answer, a Subscribe or an Unsubscribe
    whose connection's readLoop has ended can return; and whatever the network
    delivers, at most three steps of readLoop after Disconnect cut its
    connection, either the process has panicked or the readLoop has ended and
    Disconnect can return. *)
Theorem client_calls_return options acts c :
  run acts (New options) = Some c -> panicked c = false ->
  (forall k call g, calls c !! k = Some call -> waiting call = Some g -> readers c !! g = None ->
     exists c' e, step (AWake k WakeConn) c = Some c' /\ calls c' !! k = Some (CReturned (Err e))) /\
  (forall k g e ins, calls c !! k = Some (CClosing g e) -> length ins = 3%nat ->
     exists n c', (n <= 3)%nat /\ run (reads g (take n ins)) c = Some c' /\
       (panicked c' = true \/ exists c'' r, step (AWake k WakeConn) c' = Some c'' /\ calls c'' !! k = Some (CReturned r))).
Proof.
  intros Hrun Hp.
  assert (client_ok c) as Hok by exact (run_inv client_ok acts _ c ok_step (ok_New options) Hrun). split.
  - intros k call g Hk Hw Hr. destruct (ok_waiting c Hok k call g Hk Hw) as [Hg|(cn & r & ?)]; [|congruence].
    rewrite step_wake, Hp. unfold wake. rewrite Hk.
    destruct call; try done; injection Hw as ->; rewrite bool_decide_true by done;
      do 2 eexists; (split; [reflexivity|]); apply lookup_insert_eq.
  - intros k g e ins Hk Hins. destruct (ok_closing c Hok k _ g Hk eq_refl) as [Hg Hdone].
    assert (forall c', panicked c' = false -> g ∈ finished c' -> calls c' = calls c ->
      exists c'' r, step (AWake k WakeConn) c' = Some c'' /\ calls c'' !! k = Some (CReturned r)) as Hret.
    { intros c' Hp' Hf Ec. rewrite step_wake, Hp'. unfold wake. rewrite Ec, Hk, bool_decide_true by done.
      do 2 eexists. split; [reflexivity | apply lookup_insert_eq]. }
    destruct Hdone as [Hf|(cn & r & Hr & Hl)].
    { exists 0%nat, c. split_and!; [lia | done | right; by apply Hret]. }
    destruct (cut_off_ends g cn r ins c Hr) as (n & c' & Hn & Hrun' & Ec & Hend); [done | destruct r; cbn; lia |].
    exists n, c'. split_and!; [destruct r; cbn in Hn; lia | done |]. destruct Hend as [?|[? ?]]; [by left | right; by apply Hret].
Qed.

(** A client that has connected, subscribed and disconnected. *)
Definition closing_client : list Action :=
  [AConnect 0 1; ADialed 0 true 1; AConnAck 0 true [32; 2; 0; 0] 1; ARead 0 [] 2; ASubscribe 1 [(str "t", 1)]; ADisconnect 2].

Lemma client_calls_return_witness :
  exists c n c', run closing_client (New []) = Some c /\ (n <= 3)%nat /\
    run (reads 0 (take n [([], 3); ([], 4); ([], 5)])) c = Some c' /\
    (panicked c' = true \/ exists c'' r, step (AWake 2 WakeConn) c' = Some c'' /\ calls c'' !! 2%nat = Some (CReturned r)).
Proof.
  assert ((fun c => (panicked c, calls c !! 2%nat)) <$> run closing_client (New []) = Some (false, Some (CClosing 0 None)))
    as Hc by (vm_compute; reflexivity).
  destruct (run closing_client (New [])) as [c|] eqn:E; [|discriminate]. injection Hc as Hp Hk.
  destruct (client_calls_return [] closing_client c E Hp) as [_ H].
  destruct (H 2%nat 0%nat None [([], 3); ([], 4); ([], 5)] Hk eq_refl) as (n & c' & Hn & Hr & Hc).
  exists c, n, c'. exact (conj eq_refl (conj Hn (conj Hr Hc))).
Defined.
