(* ===== verification/ClientAcks.v ===== *)
(** * Answers: which packet completes which call

    The response channels of the client (Client.v) and the packets readLoop puts
    into them: a Publish that reports success was acknowledged; a QoS 2 Publish
    that waits for its PUBCOMP when the client disconnects waits for ever; and a
    connection generation that is being torn down reaches the calls of the next. *)

From S2P Require Import Prelude Utf8 Wire Spec Topic Properties Packets Codec Strconv Client ClientProps ClientGens.
Open Scope Z_scope.

Implicit Types c : MQTTClient.

(** [p] answers the request of [pid] that was sent as event number [n]. *)
Definition answers (evs : list ClientEvent) (pid : Z) (n : nat) (p : Packet) : Prop :=
  responseID p = Some pid /\ exists cn, Received cn p ∈ drop n evs.

Definition published (evs : list ClientEvent) (cn : nat) (pid : Z) (n : nat) : Prop :=
  exists pkt, evs !! n = Some (Wrote cn (PPublish pkt)) /\ pub_PacketID pkt = pid.

Definition promised (evs : list ClientEvent) (pid : Z) (n : nat) : Prop :=
  exists a, answers evs pid n (PPubRec a) /\ ack_ReasonCode a < ReasonCodeFailureBase.

(** Every response channel was made for one identifier at one moment ([o]): what
    is in it, or on its way to it, answers a request of that identifier sent
    since then. *)
Record heap_ok (o : gmap nat (Z * nat)) c : Prop := {
  hp_origin ch x : o !! ch = Some x -> (ch < nextRef c)%nat /\ (snd x <= length (events c))%nat;
  hp_chan ch q p : chans c !! ch = Some q -> p ∈ buf q ->
    exists pid n, o !! ch = Some (pid, n) /\ answers (events c) pid n p;
  hp_known ch : is_Some (chans c !! ch) -> is_Some (o !! ch);
  hp_pending pid ch : pending c !! pid = Some ch -> exists n, o !! ch = Some (pid, n);
  hp_send g cn p ch : readers c !! g = Some (cn, RSend p ch) ->
    exists pid n, o !! ch = Some (pid, n) /\ answers (events c) pid n p;
  hp_puback k g cn ch pid : calls c !! k = Some (CPubAck g cn ch pid) ->
    exists n, o !! ch = Some (pid, n) /\ published (events c) cn pid n;
  hp_pubcomp k g ch pid : calls c !! k = Some (CPubComp g ch pid) ->
    exists n cn, o !! ch = Some (pid, n) /\ published (events c) cn pid n /\ promised (events c) pid n;
}.

Lemma answers_more evs es pid n p : answers evs pid n p -> answers (evs ++ es) pid n p.
Proof.
  intros [H1 [cn H2]]. split; [done|]. exists cn. rewrite drop_app. set_solver.
Qed.

Lemma published_more evs es cn pid n : published evs cn pid n -> published (evs ++ es) cn pid n.
Proof. intros (pkt & H & E). exists pkt. split; [by apply lookup_app_l_Some | done]. Qed.

Lemma promised_more evs es pid n : promised evs pid n -> promised (evs ++ es) pid n.
Proof. intros (a & H & E). exists a. split; [by apply answers_more | done]. Qed.

#[local] Hint Resolve answers_more published_more promised_more : core.

(** A step that leaves the channels alone, may drop registrations and log events,
    and moves call [k] to a point that is justified. *)
Definition justified (o : gmap nat (Z * nat)) (evs : list ClientEvent) (call : Call) : Prop :=
  match call with
  | CPubAck _ _ _ _ => False
  | CPubComp _ ch pid => exists n cn, o !! ch = Some (pid, n) /\ published evs cn pid n /\ promised evs pid n
  | _ => True
  end.

Lemma heap_frame o c c' es (moved : option (nat * Call)) :
  chans c' = chans c -> readers c' = readers c -> (nextRef c <= nextRef c')%nat -> events c' = events c ++ es ->
  pending c' ⊆ pending c ->
  calls c' = match moved with Some (k, call) => <[k := call]> (calls c) | None => calls c end ->
  match moved with Some (_, call) => justified o (events c') call | None => True end ->
  heap_ok o c -> heap_ok o c'.
Proof.
  intros E1 E2 E3 E4 Hp E5 Hj [H1 H2 H3 H4 H5 H6 H7].
  assert (forall k call, calls c' !! k = Some call -> justified o (events c') call \/ calls c !! k = Some call) as Hcase.
  { intros k call. rewrite E5. destruct moved as [[k1 call1]|]; [|by right].
    intros [[_ <-]|[_ ?]]%lookup_insert_Some; [by left | by right]. }
  split.
  - intros ch x Hx. destruct (H1 ch x Hx). rewrite E4, length_app. lia.
  - intros ch q p. rewrite E1, E4. intros Hq Hb. destruct (H2 ch q p Hq Hb) as (pid & n & ? & ?). exists pid, n. auto.
  - intros ch. rewrite E1. apply H3.
  - intros pid ch Hpe. apply H4. by eapply lookup_weaken.
  - intros g cn p ch. rewrite E2, E4. intros Hr. destruct (H5 g cn p ch Hr) as (pid & n & ? & ?). exists pid, n. auto.
  - intros k g cn ch pid [Hk|Hk]%Hcase; [done|]. destruct (H6 k g cn ch pid Hk) as (n & ? & ?). exists n. rewrite E4. auto.
  - intros k g ch pid [Hk|Hk]%Hcase; [done|]. destruct (H7 k g ch pid Hk) as (n & cn & ? & ? & ?). exists n, cn. rewrite E4. auto.
Qed.

(** The request of a Publish, a Subscribe or an Unsubscribe: a channel for [pid],
    registered unless the write failed. *)
Lemma heap_request o c c' k call pid size es :
  chans c' = <[nextRef c := mkChan [] size false]> (chans c) -> readers c' = readers c ->
  nextRef c' = S (nextRef c) -> events c' = events c ++ es -> pending c' ⊆ <[pid := nextRef c]> (pending c) ->
  calls c' = <[k := call]> (calls c) ->
  match call with
  | CPubAck _ cn ch pid' => ch = nextRef c /\ pid' = pid /\ exists q, es = [Wrote cn (PPublish q)] /\ pub_PacketID q = pid
  | CPubComp _ _ _ => False
  | _ => True
  end ->
  heap_ok o c -> heap_ok (<[nextRef c := (pid, length (events c))]> o) c'.
Proof.
  intros E1 E2 E3 E4 E5 E6 Hcall [H1 H2 H3 H4 H5 H6 H7].
  assert (forall ch x, o !! ch = Some x -> <[nextRef c := (pid, length (events c))]> o !! ch = Some x) as Hold.
  { intros ch x Hx. destruct (H1 ch x Hx). rewrite lookup_insert_ne; [done|lia]. }
  split.
  - intros ch x. rewrite E3, E4, length_app. intros [[<- <-]|[_ Hx]]%lookup_insert_Some; [cbn; lia|].
    destruct (H1 ch x Hx). lia.
  - intros ch q p'. rewrite E1, E4. intros [[<- <-]|[_ Hq]]%lookup_insert_Some Hb; [by apply elem_of_nil in Hb|].
    destruct (H2 ch q p' Hq Hb) as (pid' & n & ? & ?). exists pid', n. auto.
  - intros ch. rewrite E1. destruct (decide (nextRef c = ch)) as [<-|]; [rewrite !lookup_insert_eq; by eexists|].
    rewrite !lookup_insert_ne by done. apply H3.
  - intros pid' ch Hp. apply (lookup_weaken _ _ _ _ Hp) in E5. clear Hp. revert E5. intros [[<- <-]|[_ Hp]]%lookup_insert_Some.
    + exists (length (events c)). apply lookup_insert_eq.
    + destruct (H4 pid' ch Hp) as [n ?]. exists n. auto.
  - intros g cn' p' ch. rewrite E2, E4. intros Hr. destruct (H5 g cn' p' ch Hr) as (pid' & n & ? & ?). exists pid', n. auto.
  - intros k' g cn' ch pid'. rewrite E6, E4. intros [[<- ->]|[_ Hk]]%lookup_insert_Some.
    + destruct Hcall as (-> & -> & q & -> & Hid). exists (length (events c)). split; [apply lookup_insert_eq|].
      exists q. split; [by rewrite lookup_app_r, Nat.sub_diag by done | done].
    + destruct (H6 k' g cn' ch pid' Hk) as (n & ? & ?). exists n. auto.
  - intros k' g ch pid'. rewrite E6, E4. intros [[<- ->]|[_ Hk]]%lookup_insert_Some; [done|].
    destruct (H7 k' g ch pid' Hk) as (n & cn' & ? & ? & ?). exists n, cn'. auto.
Qed.

(** A call that has returned, and one that waits for something else. *)
Ltac heap_sides c Hc :=
  [> reflexivity | reflexivity | first [exact (le_n _) | exact (le_S _ _ (le_n _)) | exact (le_S _ _ (le_S _ _ (le_n _)))]
   | first [reflexivity | symmetry; apply app_nil_r]
   | first [reflexivity | exact (delete_subseteq (pending c) _) | exact (map_empty_subseteq (pending c))]
   | reflexivity | exact I | exact Hc ].

Ltac heap_returned o c Hc :=
  first [ eapply (heap_frame o c _ [] None); heap_sides c Hc
        | eapply (heap_frame o c _ [_] None); heap_sides c Hc
        | eapply (heap_frame o c _ [] (Some (_, _))); heap_sides c Hc
        | eapply (heap_frame o c _ [_] (Some (_, _))); heap_sides c Hc ].

Lemma heap_publish o k t q r p c :
  heap_ok o c -> exists o', heap_ok o' (publishEnter k t q r p c).
Proof.
  intros Hc. unfold publishEnter. destruct (connected c), (conn c), (connGen c); try (exists o; heap_returned o c Hc).
  destruct (0 <? q); unfold register; client_frames; try (exists o; heap_returned o c Hc).
  - eexists. eapply (heap_request o c _ k _ pid _ [_]); [reflexivity.. | | exact Hc]. split_and!; [reflexivity..|]. eexists. by split.
  - eexists. eapply (heap_request o c _ k _ pid _ []); [reflexivity | reflexivity | reflexivity | reflexivity | | reflexivity | done | exact Hc].
    exact (delete_subseteq (<[pid := nextRef c]> (pending c)) pid).
Qed.

Lemma heap_subscribe o k ts c : heap_ok o c -> exists o', heap_ok o' (subscribeEnter k ts c).
Proof.
  intros Hc. unfold subscribeEnter. destruct (connected c), (conn c), (connGen c); try (exists o; heap_returned o c Hc).
  unfold register; client_frames.
  - eexists. by eapply (heap_request o c _ k _ pid _ [_]); [reflexivity.. | | exact Hc].
  - eexists. eapply (heap_request o c _ k _ pid _ []); [reflexivity | reflexivity | reflexivity | reflexivity | | reflexivity | done | exact Hc].
    exact (delete_subseteq (<[pid := nextRef c]> (pending c)) pid).
Qed.

Lemma heap_unsubscribe o k ts c : heap_ok o c -> exists o', heap_ok o' (unsubscribeEnter k ts c).
Proof.
  intros Hc. unfold unsubscribeEnter. destruct (connected c), (conn c), (connGen c); try (exists o; heap_returned o c Hc).
  unfold register; client_frames.
  - eexists. by eapply (heap_request o c _ k _ pid _ [_]); [reflexivity.. | | exact Hc].
  - eexists. eapply (heap_request o c _ k _ pid _ []); [reflexivity | reflexivity | reflexivity | reflexivity | | reflexivity | done | exact Hc].
    exact (delete_subseteq (<[pid := nextRef c]> (pending c)) pid).
Qed.

Lemma heap_disconnect o k c : heap_ok o c -> heap_ok o (disconnectEnter k c).
Proof.
  intros Hc. unfold disconnectEnter. destruct (connected c), (conn c), (connGen c); try heap_returned o c Hc.
  client_frames; heap_returned o c Hc.
Qed.

(** A channel gets another content, of packets that answer its request. *)
Lemma heap_chan o c c' ch q :
  is_Some (chans c !! ch) -> chans c' = <[ch := q]> (chans c) -> readers c' = readers c -> nextRef c' = nextRef c ->
  events c' = events c -> pending c' = pending c -> calls c' = calls c ->
  (forall p, p ∈ buf q -> exists pid n, o !! ch = Some (pid, n) /\ answers (events c) pid n p) ->
  heap_ok o c -> heap_ok o c'.
Proof.
  intros Hch E1 E2 E3 E4 E5 E6 Hq [H1 H2 H3 H4 H5 H6 H7]. split; rewrite ?E1, ?E2, ?E3, ?E4, ?E5, ?E6; try done.
  - intros ch' q' p [[<- <-]|[_ Hq']]%lookup_insert_Some Hp; [by apply Hq | by eapply H2].
  - intros ch'. destruct (decide (ch = ch')) as [<-|]; [intros _; by apply H3 | rewrite lookup_insert_ne by done; apply H3].
Qed.

(** A receive takes a packet that answers the request of its channel. *)
Lemma heap_recv o ch c x c' :
  heap_ok o c -> recv ch c = Some (x, c') ->
  heap_ok o c' /\ forall p, x = Some p -> exists pid n, o !! ch = Some (pid, n) /\ answers (events c) pid n p.
Proof.
  intros Hc. unfold recv. destruct (chans c !! ch) as [q|] eqn:Eq; [|done].
  destruct (buf q) as [|p rest] eqn:Eb; [destruct (chanClosed q); by intros [= <- <-]|]. intros [= <- <-]. split.
  - eapply (heap_chan o c _ ch); [by eexists | reflexivity.. | | done]. cbn [buf]. intros p' Hp.
    apply (hp_chan o c Hc ch q); [done|]. rewrite Eb. by right.
  - intros p' [= <-]. apply (hp_chan o c Hc ch q); [done|]. rewrite Eb. left.
Qed.

Lemma heap_wake o k w c c' : heap_ok o c -> wake k w c = Some c' -> heap_ok o c'.
Proof.
  intros Hc. unfold wake. destruct (calls c !! k) as [call|] eqn:Ek; [|done].
  destruct call, w; try done; try (intros [= <-]; heap_returned o c Hc);
    try (case_bool_decide; [|done]; intros [= <-]; heap_returned o c Hc);
    (destruct (recv _ c) as [[x c1]|] eqn:Er; [|done]); destruct (heap_recv o _ c x c1 Hc Er) as [Hc1 Hx];
    apply recv_frame in Er as [m ->]; intros [= <-]; cbn [fst snd]; set (c1 := c <| chans := m |>) in *;
    try heap_returned o c1 Hc1.
  unfold publishAck. destruct x as [[]|]; try heap_returned o c1 Hc1.
  destruct (Z.leb_spec ReasonCodeFailureBase (ack_ReasonCode p)) as [Hle|Hlt]; client_frames; try heap_returned o c1 Hc1.
  eapply (heap_frame o c1 _ [_] (Some (_, _))); [reflexivity | reflexivity | exact (le_n _) | reflexivity | reflexivity
    | reflexivity | | exact Hc1].
  destruct (hp_puback o c Hc k _ _ _ _ Ek) as (n & Ho & Hpub). eexists n, _. split; [exact Ho|].
  split; [apply published_more; exact Hpub|]. apply promised_more. exists p. split; [|done].
  destruct (Hx _ eq_refl) as (pid' & n' & Ho' & Ha). rewrite Ho in Ho'. by injection Ho' as <- <-.
Qed.

Lemma heap_tick o g now c c' : heap_ok o c -> keepAliveTick g now c = Some c' -> heap_ok o c'.
Proof.
  intros Hc. unfold keepAliveTick. destruct (keepers c !! g) as [cn|]; [|done]. intros [= <-].
  case_bool_decide; [heap_returned o c Hc|]. case_bool_decide; cbn [negb]; [|heap_returned o c Hc].
  destruct (_ <? _); [heap_returned o c Hc|]. client_frames; heap_returned o c Hc.
Qed.

Lemma heap_connectEnter o k now c : heap_ok o c -> heap_ok o (connectEnter k now c).
Proof.
  intros Hc. unfold connectEnter. destruct (connected c); [heap_returned o c Hc|].
  destruct (connecting c); [heap_returned o c Hc|]. destruct (o_CleanSession _); heap_returned o c Hc.
Qed.

Lemma heap_connectDial o k g d now c : heap_ok o c -> heap_ok o (connectDial k g d now c).
Proof. intros Hc. unfold connectDial. destruct d; cbn [negb]; client_frames; heap_returned o c Hc. Qed.

(** readLoop starts, moves or ends. *)
Lemma heap_reader o c c' es :
  chans c' = chans c -> (nextRef c <= nextRef c')%nat -> events c' = events c ++ es -> pending c' ⊆ pending c ->
  calls c' = calls c ->
  (forall g cn p ch, readers c' !! g = Some (cn, RSend p ch) -> readers c !! g = Some (cn, RSend p ch) \/
     exists pid n, o !! ch = Some (pid, n) /\ answers (events c') pid n p) ->
  heap_ok o c -> heap_ok o c'.
Proof.
  intros E1 E3 E4 Hp E5 Hr [H1 H2 H3 H4 H5 H6 H7]. split; rewrite ?E1, ?E4, ?E5.
  - intros ch x Hx. destruct (H1 ch x Hx). rewrite length_app. lia.
  - intros ch q p Hq Hb. destruct (H2 ch q p Hq Hb) as (pid & n & ? & ?). exists pid, n. auto.
  - done.
  - intros pid ch Hpe. apply H4. by eapply lookup_weaken.
  - intros g cn p ch [Hs|Hs]%Hr; [|by rewrite E4 in Hs]. destruct (H5 g cn p ch Hs) as (pid & n & ? & ?). exists pid, n. auto.
  - intros k g cn ch pid Hk. destruct (H6 k g cn ch pid Hk) as (n & ? & ?). exists n. auto.
  - intros k g ch pid Hk. destruct (H7 k g ch pid Hk) as (n & cn & ? & ? & ?). exists n, cn. auto.
Qed.

Lemma heap_readerAt o g cn r c :
  match r with RSend p ch => exists pid n, o !! ch = Some (pid, n) /\ answers (events c) pid n p | _ => True end ->
  heap_ok o c -> heap_ok o (readerAt g cn r c).
Proof.
  intros Hr. apply (heap_reader o c _ []); [reflexivity | done | symmetry; apply app_nil_r | reflexivity | reflexivity |].
  intros g1 cn1 p ch Hs. change (<[g := (cn, r)]> (readers c) !! g1 = Some (cn1, RSend p ch)) in Hs.
  apply lookup_insert_Some in Hs as [[<- [= <- ->]]|[_ ?]]; [by right | by left].
Qed.

Lemma heap_readerExit o g c : heap_ok o c -> heap_ok o (readerExit g c).
Proof.
  apply (heap_reader o c _ []); [reflexivity | done | symmetry; apply app_nil_r | reflexivity | reflexivity |].
  intros g1 cn1 p ch Hs. change (delete g (readers c) !! g1 = Some (cn1, RSend p ch)) in Hs.
  apply lookup_delete_Some in Hs as [_ ?]. by left.
Qed.

Lemma heap_connectAck o k g cn d input now c : heap_ok o c -> heap_ok o (connectAck k g cn d input now c).
Proof.
  intros Hc. unfold connectAck. destruct d; cbn [negb]; [|heap_returned o c Hc]. client_frames; [|heap_returned o c Hc].
  destruct a; try heap_returned o c Hc. destruct (_ =? _); cbn [negb]; [|heap_returned o c Hc].
  pose proof (heap_readerAt o g cn RCheck c I Hc) as Hr.
  destruct (SessionPresent p); heap_returned o (readerAt g cn RCheck c) Hr.
Qed.

(** Closing the pending channels does not change what they hold. *)
Lemma closeAll_lookup l (m : gmap nat chan) ch q :
  foldr (alter closeChan) m l !! ch = Some q -> exists q', m !! ch = Some q' /\ buf q = buf q'.
Proof.
  revert q. induction l as [|x l IH]; intros q; cbn [foldr]; [by exists q|].
  rewrite lookup_alter_Some. intros [(<- & q1 & H1 & ->)|[_ H1]].
  - destruct (IH q1 H1) as (q' & ? & ?). by exists q'.
  - by apply IH.
Qed.

Lemma heap_drain o c : heap_ok o c -> heap_ok o (drain c).
Proof.
  intros [H1 H2 H3 H4 H5 H6 H7]. split; try done.
  - intros ch q p Hq Hp. apply closeAll_lookup in Hq as (q' & Hq' & E). rewrite E in Hp. by apply (H2 ch q').
  - intros ch [q Hq]. apply closeAll_lookup in Hq as (q' & Hq' & _). apply H3. by eexists.
Qed.

Lemma heap_handlePublish o cn p c : heap_ok o c -> heap_ok o (handlePublish cn p c).
Proof.
  intros Hc. assert (exists es, events (handlePublish cn p c) = events c ++ es) as [es He].
  { unfold handlePublish.
    assert (forall p c1 l, events c1 = events c ++ l -> exists es, events (ackOnGen cn p c1) = events c ++ es) as Hack.
    { intros p1 c1 l El. destruct (ackOnGen_frame cn p1 c1) as (cd & ls & es & -> & _). exists (l ++ es).
      rewrite app_assoc, <- El. done. }
    destruct (_ && _); [apply (Hack _ c []); by rewrite app_nil_r|].
    set (c1 := if onMessage _ then _ else _). assert (exists l, events c1 = events c ++ l) as [l El].
    { unfold c1. destruct (pub_QoS p =? 2), (onMessage _); [by eexists | exists []; by rewrite app_nil_r | by eexists | exists []; by rewrite app_nil_r]. }
    clearbody c1. set (c2 := if pub_QoS p =? 1 then _ else _). assert (exists l, events c2 = events c ++ l) as [l2 El2].
    { unfold c2. destruct (_ =? 1); [by eapply Hack | by eexists]. }
    clearbody c2. destruct (_ =? 2); [by eapply Hack | by eexists]. }
  destruct (handlePublish_dispatched cn p c) as [(D1 & D2 & D3 & D4 & D5 & D6 & D7 & D8 & D9 & D10 & D11 & D12) _].
  apply (heap_frame o c _ es None); try done; [by rewrite D6 | by rewrite D11].
Qed.

Lemma heap_dispatch o g cn p c : heap_ok o c -> heap_ok o (dispatch g cn p (emit (Received cn p) c)).
Proof.
  intros Hc. set (c1 := emit (Received cn p) c).
  assert (heap_ok o c1) as Hc1 by heap_returned o c Hc.
  assert (heap_ok o (readerAt g cn (match responseID p ≫= (pending c1 !!.) with Some ch => RSend p ch | None => RCheck end) c1))
    as Hother.
  { apply heap_readerAt; [|done]. destruct (responseID p) as [pid|] eqn:Ep; [cbn [mbind option_bind] | done].
    destruct (pending c1 !! pid) as [ch|] eqn:Ec; [|done].
    destruct (hp_pending o c Hc pid ch Ec) as [n Hn]. exists pid, n. split; [done|]. split; [done|]. exists cn.
    change (events c1) with (events c ++ [Received cn p]). pose proof (hp_origin o c Hc ch _ Hn) as [_ Hle]. cbn in Hle.
    rewrite drop_app_le by done. apply elem_of_app. right. by left. }
  unfold dispatch. destruct p; try exact Hother.
  - apply heap_readerAt; [done|]. by apply heap_handlePublish.
  - apply heap_readerAt; [done|]. unfold handlePubRel.
    set (c2 := c1 <| receivedQoS2 := _ |>). assert (heap_ok o c2) as Hc2 by heap_returned o c1 Hc1.
    destruct (drop_writes _ _ (ackOnGen_frame cn (pubCompPacket (ack_PacketID p)) c2))
      as (_ & _ & _ & D1 & _ & _ & _ & _ & _ & D2 & _ & _ & D3 & _ & D4 & D5 & _ & es & He & _).
    apply (heap_frame o c2 _ es None); try done; [by rewrite D5 | by rewrite D1].
Qed.

Lemma heap_trySend o ch p c :
  (exists pid n, o !! ch = Some (pid, n) /\ answers (events c) pid n p) -> heap_ok o c -> heap_ok o (trySend ch p c).
Proof.
  intros Hp Hc. unfold trySend. destruct (chans c !! ch) as [q|] eqn:Eq; [|done].
  destruct (chanClosed q); [heap_returned o c Hc|]. destruct (_ <? _)%nat; [|done].
  eapply (heap_chan o c _ ch); [by eexists | reflexivity.. | | done]. cbn [buf].
  intros p' [Hin| ->%list_elem_of_singleton]%elem_of_app; [by apply (hp_chan o c Hc ch q) | done].
Qed.

Lemma heap_readStep o g input now c c' : heap_ok o c -> readStep g input now c = Some c' -> heap_ok o c'.
Proof.
  intros Hc. unfold readStep. destruct (readers c !! g) as [[cn r]|] eqn:Hr; [|done]. destruct r.
  - intros [= <-]. case_bool_decide; [by apply heap_readerExit | by apply heap_readerAt].
  - client_frames; intros [= <-]; (apply heap_readerAt; [done|]); heap_returned o c Hc.
  - intros [= <-]. by apply heap_dispatch.
  - intros [= <-]. apply heap_readerAt; [done|]. apply heap_trySend; [|done]. by eapply (hp_send o c).
  - intros [= <-]. by apply heap_readerExit, heap_drain.
Qed.

Lemma heap_step a c c' : (exists o, heap_ok o c) -> step a c = Some c' -> exists o, heap_ok o c'.
Proof.
  intros [o Hc]. unfold step. destruct (panicked c); [done|]. destruct a.
  - intros [_ ->]%fresh_call_inv. exists o. by apply heap_connectEnter.
  - destruct (calls c !! k) as [[]|]; try done. intros [= <-]. exists o. by apply heap_connectDial.
  - destruct (calls c !! k) as [[]|]; try done. intros [= <-]. exists o. by apply heap_connectAck.
  - intros [_ ->]%fresh_call_inv. by apply (heap_publish o).
  - intros [_ ->]%fresh_call_inv. by apply (heap_subscribe o).
  - intros [_ ->]%fresh_call_inv. by apply (heap_unsubscribe o).
  - intros [_ ->]%fresh_call_inv. exists o. by apply heap_disconnect.
  - intros Hw. exists o. by eapply heap_wake.
  - intros Hw. exists o. by eapply heap_readStep.
  - intros Hw. exists o. by eapply heap_tick.
  - intros [= <-]. exists o. case_bool_decide; heap_returned o c Hc.
Qed.

Lemma heap_New options : exists o, heap_ok o (New options).
Proof. exists ∅. split; try done. intros ch Hch. cbn in Hch. by apply is_Some_None in Hch. Qed.

Lemma heap_run options acts c : run acts (New options) = Some c -> exists o, heap_ok o c.
Proof. apply (run_inv (fun c => exists o, heap_ok o c)); [apply heap_step | apply heap_New]. Qed.

(** ** A Publish that waits for ever *)

(** Call [k] waits for a PUBCOMP on a channel nothing can reach any more. *)
Record stranded (k g ch : nat) (pid : Z) c : Prop := {
  st_call : calls c !! k = Some (CPubComp g ch pid);
  st_chan : exists cap, chans c !! ch = Some (mkChan [] cap false);
  st_pending p : pending c !! p <> Some ch;
  st_readers g' cn p : readers c !! g' <> Some (cn, RSend p ch);
  st_ref : (ch < nextRef c)%nat;
}.

Section Stranded.
Context (k g ch : nat) (pid : Z).

(** A step that keeps call [k] and channel [ch], adds no registration of [ch] and
    no readLoop about to send to it. *)
Lemma stranded_frame c c' :
  calls c' !! k = calls c !! k -> chans c' !! ch = chans c !! ch -> (nextRef c <= nextRef c')%nat ->
  (forall p x, pending c' !! p = Some x -> pending c !! p = Some x \/ x <> ch) ->
  (forall g' y, readers c' !! g' = Some y -> readers c !! g' = Some y \/ forall p, snd y <> RSend p ch) ->
  stranded k g ch pid c -> stranded k g ch pid c'.
Proof.
  intros E1 E2 E3 Hp Hr [H1 H2 H3 H4 H5]. split; [by rewrite E1 | by rewrite E2 | | | lia].
  - intros p [?|?]%Hp; [by apply (H3 p) | done].
  - intros g' cn p [?|Hn]%Hr; [by apply (H4 g' cn p) | by apply (Hn p)].
Qed.

Lemma stranded_recv c ch' x c' :
  stranded k g ch pid c -> recv ch' c = Some (x, c') -> stranded k g ch pid c' /\ calls c' = calls c.
Proof.
  intros Hc. destruct (st_chan _ _ _ _ c Hc) as [cap Hq]. unfold recv. destruct (chans c !! ch') as [q|] eqn:Eq; [|done].
  destruct (buf q) as [|p rest] eqn:Eb; [destruct (chanClosed q); by intros [= <- <-]|]. intros [= <- <-]. split; [|done].
  apply (stranded_frame c); [done | | done | auto | auto | done].
  apply lookup_insert_ne. intros ->. rewrite Hq in Eq. by injection Eq as <-.
Qed.

(** The steps of the other calls. *)
Ltac stranded_sides c k1 Hne Hc :=
  [> first [reflexivity | exact (lookup_insert_ne (calls c) k1 k _ Hne)]
   | reflexivity
   | first [exact (le_n _) | exact (le_S _ _ (le_n _))]
   | first [ exact (fun p x H => or_introl H)
           | exact (fun p x H => or_introl (proj2 (proj1 (lookup_delete_Some (pending c) _ p x) H)))
           | exact (fun p x H => False_ind _ (lookup_empty_Some p x H)) ]
   | exact (fun g y H => or_introl H)
   | exact Hc ].
Ltac stranded_step c k1 Hne Hc := apply (stranded_frame c); stranded_sides c k1 Hne Hc.

Lemma stranded_request c c' k1 call pid' size :
  k1 <> k -> chans c' = <[nextRef c := mkChan [] size false]> (chans c) -> readers c' = readers c ->
  nextRef c' = S (nextRef c) -> pending c' ⊆ <[pid' := nextRef c]> (pending c) -> calls c' = <[k1 := call]> (calls c) ->
  stranded k g ch pid c -> stranded k g ch pid c'.
Proof.
  intros Hne E1 E2 E3 E4 E5 Hc. pose proof (st_ref _ _ _ _ c Hc). apply (stranded_frame c); [| | by rewrite E3; lia | | | done].
  - by rewrite E5, lookup_insert_ne.
  - rewrite E1, lookup_insert_ne; [done|lia].
  - intros p x Hx. apply (lookup_weaken _ _ _ _ Hx) in E4. apply lookup_insert_Some in E4 as [[_ <-]|[_ ?]]; [right; lia | by left].
  - rewrite E2. auto.
Qed.

Lemma stranded_publish k1 t q r p c : k1 <> k -> stranded k g ch pid c -> stranded k g ch pid (publishEnter k1 t q r p c).
Proof.
  intros Hne Hc. unfold publishEnter. destruct (connected c), (conn c), (connGen c); try stranded_step c k1 Hne Hc.
  destruct (0 <? q); unfold register; client_frames; try stranded_step c k1 Hne Hc.
  - by eapply (stranded_request c _ k1 _ pid0).
  - eapply (stranded_request c _ k1 _ pid0); [done | reflexivity.. | | reflexivity | done].
    exact (delete_subseteq (<[pid0 := nextRef c]> (pending c)) pid0).
Qed.

Lemma stranded_subscribe k1 ts c : k1 <> k -> stranded k g ch pid c -> stranded k g ch pid (subscribeEnter k1 ts c).
Proof.
  intros Hne Hc. unfold subscribeEnter. destruct (connected c), (conn c), (connGen c); try stranded_step c k1 Hne Hc.
  unfold register; client_frames.
  - by eapply (stranded_request c _ k1 _ pid0).
  - eapply (stranded_request c _ k1 _ pid0); [done | reflexivity.. | | reflexivity | done].
    exact (delete_subseteq (<[pid0 := nextRef c]> (pending c)) pid0).
Qed.

Lemma stranded_unsubscribe k1 ts c : k1 <> k -> stranded k g ch pid c -> stranded k g ch pid (unsubscribeEnter k1 ts c).
Proof.
  intros Hne Hc. unfold unsubscribeEnter. destruct (connected c), (conn c), (connGen c); try stranded_step c k1 Hne Hc.
  unfold register; client_frames.
  - by eapply (stranded_request c _ k1 _ pid0).
  - eapply (stranded_request c _ k1 _ pid0); [done | reflexivity.. | | reflexivity | done].
    exact (delete_subseteq (<[pid0 := nextRef c]> (pending c)) pid0).
Qed.

Lemma stranded_disconnect k1 c : k1 <> k -> stranded k g ch pid c -> stranded k g ch pid (disconnectEnter k1 c).
Proof.
  intros Hne Hc. unfold disconnectEnter. destruct (connected c), (conn c), (connGen c); try stranded_step c k1 Hne Hc.
  client_frames; stranded_step c k1 Hne Hc.
Qed.

Lemma stranded_connect k1 now c : k1 <> k -> stranded k g ch pid c -> stranded k g ch pid (connectEnter k1 now c).
Proof.
  intros Hne Hc. unfold connectEnter. destruct (connected c); [stranded_step c k1 Hne Hc|].
  destruct (connecting c); [stranded_step c k1 Hne Hc|]. destruct (o_CleanSession _); stranded_step c k1 Hne Hc.
Qed.

Lemma stranded_dial k1 g1 d now c : k1 <> k -> stranded k g ch pid c -> stranded k g ch pid (connectDial k1 g1 d now c).
Proof. intros Hne Hc. unfold connectDial. destruct d; cbn [negb]; client_frames; stranded_step c k1 Hne Hc. Qed.

Lemma stranded_readerAt g1 cn r c :
  (forall p, r <> RSend p ch) -> stranded k g ch pid c -> stranded k g ch pid (readerAt g1 cn r c).
Proof.
  intros Hr. apply stranded_frame; [done.. | auto |]. intros g' y Hy.
  change (<[g1 := (cn, r)]> (readers c) !! g' = Some y) in Hy. apply lookup_insert_Some in Hy as [[_ <-]|[_ ?]]; auto.
Qed.

Lemma stranded_readerExit g1 c : stranded k g ch pid c -> stranded k g ch pid (readerExit g1 c).
Proof.
  apply stranded_frame; [done.. | auto |]. intros g' y Hy. change (delete g1 (readers c) !! g' = Some y) in Hy.
  apply lookup_delete_Some in Hy as [_ ?]. auto.
Qed.

Lemma stranded_connAck k1 g1 cn d input now c :
  k1 <> k -> stranded k g ch pid c -> stranded k g ch pid (connectAck k1 g1 cn d input now c).
Proof.
  intros Hne Hc. unfold connectAck. destruct d; cbn [negb]; [|stranded_step c k1 Hne Hc].
  client_frames; [|stranded_step c k1 Hne Hc].
  destruct a; try stranded_step c k1 Hne Hc. destruct (_ =? _); cbn [negb]; [|stranded_step c k1 Hne Hc].
  pose proof (stranded_readerAt g1 cn RCheck c ltac:(done) Hc) as Hr.
  destruct (SessionPresent p); stranded_step (readerAt g1 cn RCheck c) k1 Hne Hr.
Qed.

Lemma stranded_wake k1 w c c' :
  (forall e, AWake k1 w <> AWake k (WakeCtx e)) -> stranded k g ch pid c -> wake k1 w c = Some c' -> stranded k g ch pid c'.
Proof.
  intros Ha Hc. unfold wake. destruct (decide (k1 = k)) as [->|Hne].
  { rewrite (st_call _ _ _ _ c Hc). destruct w as [e| |]; [by destruct (Ha e) | | done].
    destruct (st_chan _ _ _ _ c Hc) as [cap Hq]. unfold recv. by rewrite Hq. }
  destruct (calls c !! k1) as [call|] eqn:Ek; [|done].
  destruct call, w; try done; try (intros [= <-]; stranded_step c k1 Hne Hc);
    try (case_bool_decide; [|done]; intros [= <-]; stranded_step c k1 Hne Hc);
    (destruct (recv _ c) as [[x c1]|] eqn:Er; [|done]); destruct (stranded_recv c _ x c1 Hc Er) as [Hc1 _];
    apply recv_frame in Er as [m ->]; intros [= <-]; cbn [fst snd]; set (c1 := c <| chans := m |>) in *;
    try stranded_step c1 k1 Hne Hc1.
  unfold publishAck. destruct x as [[]|]; try stranded_step c1 k1 Hne Hc1.
  destruct (_ <=? _); client_frames; stranded_step c1 k1 Hne Hc1.
Qed.

Lemma stranded_tick g1 now c c' : stranded k g ch pid c -> keepAliveTick g1 now c = Some c' -> stranded k g ch pid c'.
Proof.
  intros Hc. unfold keepAliveTick. destruct (keepers c !! g1) as [cn|]; [|done]. intros [= <-].
  assert (S k <> k) as Hne by lia.
  case_bool_decide; [stranded_step c (S k) Hne Hc|]. case_bool_decide; cbn [negb]; [|stranded_step c (S k) Hne Hc].
  destruct (_ <? _); [stranded_step c (S k) Hne Hc|]. client_frames; stranded_step c (S k) Hne Hc.
Qed.

Lemma closeAll_other l (m : gmap nat chan) x : x ∉ l -> foldr (alter closeChan) m l !! x = m !! x.
Proof.
  induction l as [|y l IH]; cbn [foldr]; [done|]. intros [Hy Hl]%not_elem_of_cons. by rewrite lookup_alter_ne, IH.
Qed.

Lemma stranded_readStep g1 input now c c' :
  stranded k g ch pid c -> readStep g1 input now c = Some c' -> stranded k g ch pid c'.
Proof.
  intros Hc. unfold readStep. destruct (readers c !! g1) as [[cn r]|] eqn:Hr; [|done]. destruct r.
  - intros [= <-]. case_bool_decide; [by apply stranded_readerExit | by apply stranded_readerAt].
  - client_frames; intros [= <-]; (apply stranded_readerAt; [done|]); by apply (stranded_frame c); auto.
  - intros [= <-]. destruct (dispatch_frame g1 cn p (emit (Received cn p) c)) as (c1 & r' & [Hd _] & -> & Hr').
    destruct Hd as (D1 & D2 & D3 & D4 & D5 & D6 & D7 & D8 & D9 & D10 & D11 & D12). apply stranded_readerAt.
    + destruct Hr' as [->|(ch' & -> & Hp)]; [done|]. intros p' [= _ ->].
      destruct (responseID p) as [i|]; [|done]. by apply (st_pending _ _ _ _ c Hc i).
    + apply (stranded_frame c); [by rewrite D3 | by rewrite D12 | by rewrite D6 | rewrite D11; auto | rewrite D9; auto | done].
  - intros [= <-]. apply stranded_readerAt; [done|]. unfold trySend. destruct (chans c !! ch0) as [q|] eqn:Eq; [|done].
    assert (ch0 <> ch) by (intros ->; by apply (st_readers _ _ _ _ c Hc g1 cn p)).
    destruct (chanClosed q); [by apply (stranded_frame c); auto|]. destruct (_ <? _)%nat; [|done].
    apply (stranded_frame c); auto. by apply lookup_insert_ne.
  - intros [= <-]. apply stranded_readerExit. apply (stranded_frame c); auto.
    apply closeAll_other. intros ([p x] & E & Hin%elem_of_map_to_list)%list_elem_of_fmap. cbn in E. subst x.
    by apply (st_pending _ _ _ _ c Hc p).
Qed.

Lemma stranded_kept a c c' :
  (forall e, a <> AWake k (WakeCtx e)) -> stranded k g ch pid c -> step a c = Some c' -> stranded k g ch pid c'.
Proof.
  intros Ha Hc. pose proof (st_call _ _ _ _ c Hc) as Hk. unfold step. destruct (panicked c); [done|].
  assert (forall k1 c1 c2, fresh_call k1 c c1 = Some c2 -> k1 <> k /\ c2 = c1) as Hfresh.
  { intros k1 c1 c2 [Hn ->]%fresh_call_inv. split; [|done]. intros ->. by rewrite Hk in Hn. }
  destruct a.
  - intros [Hne ->]%Hfresh. by apply stranded_connect.
  - destruct (calls c !! k0) as [[]|] eqn:E; try done. intros [= <-]. apply stranded_dial; [congruence|done].
  - destruct (calls c !! k0) as [[]|] eqn:E; try done. intros [= <-]. apply stranded_connAck; [congruence|done].
  - intros [Hne ->]%Hfresh. by apply stranded_publish.
  - intros [Hne ->]%Hfresh. by apply stranded_subscribe.
  - intros [Hne ->]%Hfresh. by apply stranded_unsubscribe.
  - intros [Hne ->]%Hfresh. by apply stranded_disconnect.
  - by apply stranded_wake.
  - by apply stranded_readStep.
  - by apply stranded_tick.
  - intros [= <-]. case_bool_decide; [|done]. apply (stranded_frame c); auto.
Qed.
End Stranded.

(** ** Properties *)

(** After the PUBLISH of [pid] on [cn], one of these came in. *)
Definition acknowledged (evs : list ClientEvent) (pid : Z) : Prop :=
  exists l1 cn pkt l2, evs = l1 ++ Wrote cn (PPublish pkt) :: l2 /\ pub_PacketID pkt = pid /\
    ((exists cn' a, Received cn' (PPubAck a) ∈ l2 /\ ack_PacketID a = pid /\ ack_ReasonCode a = 0) \/
     (exists cn1 r cn2 a, Received cn1 (PPubRec r) ∈ l2 /\ ack_PacketID r = pid /\ ack_ReasonCode r < 128 /\
        Received cn2 (PPubComp a) ∈ l2 /\ ack_PacketID a = pid /\ ack_ReasonCode a = 0)).

Lemma published_split evs cn pid n :
  published evs cn pid n -> exists pkt, evs = take n evs ++ Wrote cn (PPublish pkt) :: drop (S n) evs /\ pub_PacketID pkt = pid /\
    forall cn' p, Received cn' p ∈ drop n evs -> Received cn' p ∈ drop (S n) evs.
Proof.
  intros (pkt & Hn & Hid). exists pkt. split_and!; [by rewrite take_drop_middle | done |]. intros cn' p.
  rewrite (drop_S evs _ n Hn). by intros [?|?]%elem_of_cons.
Qed.


(** Disconnect can leave a Publish waiting for ever.  When a QoS 2 Publish has
    had its PUBREC and waits for the PUBCOMP, on an open and empty channel that no
    readLoop is about to send to, and the client disconnects, then in every
    continuation in which the caller's own context does not end, that Publish
    never returns: its select does not watch the connection, and Disconnect has
    forgotten its channel without closing it. *)
Theorem qos2_publish_outlives_disconnect options acts c k g ch pid cap k' c1 acts' c2 :
  run acts (New options) = Some c -> connected c = true ->
  calls c !! k = Some (CPubComp g ch pid) -> chans c !! ch = Some (mkChan [] cap false) ->
  (forall g' cn p, readers c !! g' <> Some (cn, RSend p ch)) ->
  step (ADisconnect k') c = Some c1 ->
  run acts' c1 = Some c2 -> Forall (fun a => forall e, a <> AWake k (WakeCtx e)) acts' ->
  calls c2 !! k = Some (CPubComp g ch pid).
Proof.
  intros Hrun Hcon Hk Hq Hsend Hd Hrun' Hacts.
  destruct (heap_run _ _ _ Hrun) as [o Ho]. destruct (hp_pubcomp o c Ho k g ch pid Hk) as (n & cn0 & Hch & _ & _).
  pose proof (hp_origin o c Ho ch _ Hch) as [Href _].
  assert (client_ok c) as Hok by exact (run_inv client_ok acts _ c ok_step (ok_New options) Hrun).
  assert (stranded k g ch pid c1) as Hc1.
  { unfold step in Hd. destruct (panicked c); [done|]. apply fresh_call_inv in Hd as [Hk' ->].
    assert (k' <> k) as Hne by (intros ->; congruence). unfold disconnectEnter. rewrite Hcon.
    destruct (ok_connected c Hok Hcon) as (cn & g0 & rd & -> & -> & _). client_frames;
      (split; [exact (eq_trans (lookup_insert_ne (calls c) k' k _ Hne) Hk) | by exists cap
              | intros p Hp; exact (lookup_empty_Some p _ Hp) | exact Hsend | exact Href]). }
  clear -Hc1 Hrun' Hacts. revert c1 Hc1 Hrun'.
  induction Hacts as [|a acts Ha _ IH]; intros c1 Hc1; cbn [run]; [intros [= <-]; apply Hc1|].
  destruct (step a c1) as [c3|] eqn:E; [|done]. cbn. apply IH. by eapply stranded_kept.
Qed.

(** ** Samples *)

(** A Connect as call [k] that is accepted, and the steps of readLoop [g] that
    take one packet from its connection: check, decode, dispatch, and, for an
    answer, the send. *)
Definition connectAs (k : nat) (now : Z) : list Action :=
  [AConnect k now; ADialed k true now; AConnAck k true [32; 2; 0; 0] now].

Definition takes (g : nat) (input : bytes) (now : Z) : list Action :=
  [ARead g input now; ARead g input now; ARead g input now; ARead g input now].

Definition puback1 : bytes := [64; 2; 0; 1].
Definition pubrec1 : bytes := [80; 2; 0; 1].

(** Connect (generation 0), a QoS 1 Publish, its PUBACK. *)
Definition one_publish : list Action :=
  connectAs 0 1 ++ [APublish 1 (str "t") 1 false [7]] ++ takes 0 puback1 2.

(** The same with QoS 2, up to the wait for the PUBCOMP. *)
Definition half_published : list Action :=
  connectAs 0 1 ++ [APublish 1 (str "t") 2 false [7]] ++ takes 0 pubrec1 2 ++ [AWake 1 WakeResponse].

(** The network fails; readLoop 0 sees the error, a new Connect (generation 2,
    connection 3) succeeds and publishes; then readLoop 0 drains. *)
Definition late_drain : list Action :=
  connectAs 0 1 ++ [ARead 0 [] 2; ANetDown 1; ARead 0 [] 3] ++ connectAs 1 4 ++
  [APublish 2 (str "t") 1 false [7]; ARead 0 [] 5; AWake 2 WakeResponse].

(** The same, with readLoop 2 about to hand over the PUBACK when readLoop 0 drains. *)
Definition late_drain_panic : list Action :=
  connectAs 0 1 ++ [ARead 0 [] 2; ANetDown 1; ARead 0 [] 3] ++ connectAs 1 4 ++
  [APublish 2 (str "t") 1 false [7]; ARead 2 [] 5; ARead 2 puback1 5; ARead 2 [] 5; ARead 0 [] 5; ARead 2 [] 5].

(** A PUBACK is decoded on connection 1; the client disconnects without waiting,
    connects again (connection 4) and publishes; then readLoop 0 dispatches. *)
Definition late_puback : list Action :=
  connectAs 0 1 ++ [APublish 1 (str "t") 1 false [7]; ARead 0 [] 2; ARead 0 puback1 2; ADisconnect 2;
    AWake 2 (WakeCtx (ErrText "context deadline exceeded"))] ++ connectAs 3 4 ++
  [APublish 4 (str "u") 1 false [8]; ARead 0 [] 5; ARead 0 [] 5; AWake 4 WakeResponse].

(** A Publish outlives Disconnect; after a new Connect (generation 3) and a new
    Publish with the same identifier, the old one cleans up, then the PUBACK of
    the new one arrives. *)
Definition late_cleanup : list Action :=
  connectAs 0 1 ++ [APublish 1 (str "t") 1 false [7]; ADisconnect 2; ARead 0 [] 2; AWake 2 WakeConn] ++ connectAs 3 4 ++
  [APublish 4 (str "u") 1 false [8]; AWake 1 WakeConn; ARead 3 [] 5; ARead 3 puback1 5; ARead 3 [] 5].

(** A generation that is being torn down reaches the next one, against the
    comment of MQTTClient ("a closing old connection can never cancel or tear
    down a newer one").  Four interleavings: the drain of the old readLoop makes a
    Publish on the new, healthy connection fail; the same drain between the
    lookup and the send of the new readLoop crashes the process with a send on a
    closed channel; a PUBACK of the old connection completes a Publish on the new
    one, which received nothing; and the clean-up of an old Publish removes the
    registration of a new one, whose PUBACK is then dropped while it waits. *)
Theorem generations_interfere :
  (c ← run late_drain (New []); Some (calls c !! 2%nat, connected c, linkOf 3 c, bool_decide (2%nat ∈ cancelled c))) =
    Some (Some (CReturned (Err (ErrText "connection closed before PUBACK"))), true, LUp, false) /\
  panicked <$> run late_drain_panic (New []) = Some true /\
  (c ← run late_puback (New []);
   Some (calls c !! 4%nat, existsb (fun e => match e with Received 4%nat _ => true | _ => false end) (events c))) =
    Some (Some (CReturned (Ok [])), false) /\
  (c ← run late_cleanup (New []);
   Some (calls c !! 4%nat, connected c, pending c !! 1, buf <$> chans c !! 5%nat,
         existsb (fun e => match e with Received 4%nat (PPubAck a) => ack_PacketID a =? 1 | _ => false end) (events c))) =
    Some (Some (CPubAck 3 4 5 1), true, None, Some [], true).
Proof. split_and!; vm_compute; reflexivity. Qed.

(** ** Witnesses *)


Lemma qos2_publish_outlives_disconnect_witness :
  exists c2, run (half_published ++ [ADisconnect 2; ARead 0 [] 9; AWake 2 WakeConn]) (New []) = Some c2 /\
    calls c2 !! 1%nat = Some (CPubComp 0 2 1).
Proof.
  assert ((fun c => (connected c, calls c !! 1%nat, chans c !! 2%nat, map_to_list (readers c))) <$>
    run half_published (New []) =
    Some (true, Some (CPubComp 0 2 1), Some (mkChan [] 2 false), [(0%nat, (1%nat, RCheck))])) as H by (vm_compute; reflexivity).
  assert (panicked <$> run (half_published ++ [ADisconnect 2; ARead 0 [] 9; AWake 2 WakeConn]) (New []) = Some false)
    as Hp by (vm_compute; reflexivity).
  destruct (run (half_published ++ _) (New [])) as [c2|] eqn:E2; [|discriminate]. exists c2. split; [reflexivity|].
  rewrite run_app in E2. apply bind_Some in E2 as (c & E & E2). rewrite E in H. injection H as Hcon Hk Hch Hrd.
  apply (bind_Some (run [ARead 0 [] 9; AWake 2 WakeConn])) in E2 as (c1 & E1 & E2).
  apply (qos2_publish_outlives_disconnect [] half_published c 1 0 2 1 2 2 c1 [ARead 0 [] 9; AWake 2 WakeConn] c2 E Hcon Hk Hch);
    [|exact E1 | exact E2 | repeat constructor; discriminate].
  intros g cn p Hr. apply elem_of_map_to_list in Hr. rewrite Hrd in Hr. apply list_elem_of_singleton in Hr. discriminate.
Defined.
