(* ===== verification/StoreTypes.v ===== *)
(** * Stored data and the store interfaces: store/types.go, store/interfaces.go

    The records that survive a connection, and the three interfaces a backend
    implements.  An interface is a class of operations over the backend's state,
    with the laws the broker relies on as a second class; store/memory is an
    instance of both.  A zero [time.Time] is [None]; contexts are not modelled. *)

From S2P Require Import Prelude Topic.
Open Scope Z_scope.

Module Store.

(** types.go, UserProperty and MessageProperties *)
Record UserProperty := { Key : bytes; Value : bytes }.

Record MessageProperties := {
  PayloadFormat : option Z;
  ContentType : bytes;
  ResponseTopic : bytes;
  CorrelationData : option bytes;
  UserProperties : list UserProperty;
  SubscriptionIdentifier : list Z;
}.

(** The zero value, [MessageProperties{}]. *)
Definition noProperties : MessageProperties :=
  {| PayloadFormat := None; ContentType := []; ResponseTopic := []; CorrelationData := None;
     UserProperties := []; SubscriptionIdentifier := [] |}.

(** types.go, Subscription *)
Record Subscription := {
  sub_Topic : bytes;
  sub_QoS : Z;
  sub_NoLocal : bool;
  sub_RetainAsPublished : bool;
  sub_RetainHandling : Z;
  sub_SubscriptionIdentifier : option Z;
}.

(** types.go, InflightMessage *)
Record InflightMessage := {
  im_PacketID : Z;
  im_QoS : Z;
  im_Topic : bytes;
  im_Payload : bytes;
  im_Retain : bool;
  im_Properties : MessageProperties;
  im_ExpiresAt : option Z;
  im_PendingPubRel : bool;
}.

(** types.go, SessionData *)
Record SessionData := {
  sd_ClientID : bytes;
  sd_Username : bytes;
  sd_IsClean : bool;
  sd_KeepAlive : Z;
  sd_ProtocolVer : Z;
  sd_ExpiryInterval : Z;
  sd_ExpiryTime : option Z;
  sd_Subscriptions : list Subscription;
  sd_Inflight : gmap Z InflightMessage;
  sd_InboundQoS2 : gmap Z InflightMessage;
}.

(** types.go, StoredMessage *)
Record StoredMessage := {
  sm_ID : bytes;
  sm_Topic : bytes;
  sm_QoS : Z;
  sm_Payload : bytes;
  sm_Retain : bool;
  sm_Timestamp : Z;
  sm_ExpiresAt : option Z;
}.

(** types.go, RetainedMessage *)
Record RetainedMessage := {
  rm_Topic : bytes;
  rm_QoS : Z;
  rm_Payload : bytes;
  rm_Timestamp : option Z;
  rm_Properties : MessageProperties;
  rm_ExpiresAt : option Z;
}.
End Store.

#[export] Instance Store_UserProperty_eq_dec : EqDecision Store.UserProperty.
Proof. solve_decision. Defined.
#[export] Instance Store_MessageProperties_eq_dec : EqDecision Store.MessageProperties.
Proof. solve_decision. Defined.
#[export] Instance Store_Subscription_eq_dec : EqDecision Store.Subscription.
Proof. solve_decision. Defined.
#[export] Instance Store_InflightMessage_eq_dec : EqDecision Store.InflightMessage.
Proof. solve_decision. Defined.
#[export] Instance Store_RetainedMessage_eq_dec : EqDecision Store.RetainedMessage.
Proof. solve_decision. Defined.
#[export] Instance Store_StoredMessage_eq_dec : EqDecision Store.StoredMessage.
Proof. solve_decision. Defined.

(** ** Interfaces *)

(** interfaces.go, SessionStore.  [SaveSession] with nil data deletes. *)
Class SessionStore (S : Type) := {
  SaveSession : bytes -> option Store.SessionData -> S -> res unit * S;
  FetchSession : bytes -> S -> res Store.SessionData;
  DeleteSession : bytes -> S -> res unit * S;
  ListSessionIDs : S -> res (list bytes);
  IsSessionExists : bytes -> S -> res bool;
  RefreshSession : bytes -> Z -> S -> res unit * S;
}.

(** interfaces.go, MessageStore *)
Class MessageStore (S : Type) := {
  SaveMessage : bytes -> Store.StoredMessage -> S -> res unit * S;
  GetMessage : bytes -> bytes -> S -> res Store.StoredMessage;
  DeleteMessage : bytes -> bytes -> S -> res unit * S;
  ListMessages : bytes -> S -> res (list Store.StoredMessage);
  ClearMessages : bytes -> S -> res unit * S;
}.

(** interfaces.go, RetainedStore; [now] is the clock of the call. *)
Class RetainedStore (S : Type) := {
  SaveRetained : Z -> Store.RetainedMessage -> S -> res unit * S;
  GetRetained : bytes -> S -> res Store.RetainedMessage;
  DeleteRetained : bytes -> S -> res unit * S;
  MatchRetained : bytes -> S -> res (list Store.RetainedMessage);
}.

(** What a session store promises: a save or a delete that succeeds is what the
    next read sees, one that fails changes nothing, and neither touches another
    client.  A backend that serializes its records keeps the [storable] ones. *)
Class SessionStoreLaws (S : Type) `{SessionStore S} := {
  storable : Store.SessionData -> Prop;
  fetch_saved c d s s' : storable d -> SaveSession c (Some d) s = (Ok tt, s') -> FetchSession c s' = Ok d;
  fetch_other c c' d s : c <> c' -> FetchSession c' (snd (SaveSession c d s)) = FetchSession c' s;
  fetch_deleted c s s' : DeleteSession c s = (Ok tt, s') -> FetchSession c s' = Err ErrSessionNotFound;
  fetch_delete_other c c' s : c <> c' -> FetchSession c' (snd (DeleteSession c s)) = FetchSession c' s;
  exists_fetch c d s : FetchSession c s = Ok d -> IsSessionExists c s = Ok true;
  exists_absent c s : FetchSession c s = Err ErrSessionNotFound -> IsSessionExists c s = Ok false;
  fetch_save_failed c d s s' e : SaveSession c d s = (Err e, s') -> FetchSession c s' = FetchSession c s;
  fetch_delete_failed c s s' e : DeleteSession c s = (Err e, s') -> FetchSession c s' = FetchSession c s;
  fetch_refreshed c c' ttl s : FetchSession c' (snd (RefreshSession c ttl s)) = FetchSession c' s;
}.

(** A store that keeps every record, as the memory store does. *)
Class FaithfulSessions (S : Type) `{SessionStoreLaws S} := every_storable d : storable d.

(** What a message store promises: each client has a queue, a map from message
    identifiers to messages, and no operation on one client touches another. *)
Class MessageStoreLaws (S : Type) `{MessageStore S} := {
  queues_ok : S -> Prop;
  queue : S -> bytes -> gmap bytes Store.StoredMessage;
  queueable : Store.StoredMessage -> Prop;
  queue_save c m s s' : queues_ok s -> queueable m -> SaveMessage c m s = (Ok tt, s') ->
    queues_ok s' /\ forall c', queue s' c' = if decide (c' = c) then <[Store.sm_ID m := m]> (queue s c) else queue s c';
  queue_delete c i s s' : queues_ok s -> DeleteMessage c i s = (Ok tt, s') ->
    queues_ok s' /\ forall c', queue s' c' = if decide (c' = c) then delete i (queue s c) else queue s c';
  queue_clear c s s' : queues_ok s -> ClearMessages c s = (Ok tt, s') ->
    queues_ok s' /\ forall c', queue s' c' = if decide (c' = c) then ∅ else queue s c';
  queue_save_failed c m s s' e : queues_ok s -> SaveMessage c m s = (Err e, s') ->
    queues_ok s' /\ forall c', queue s' c' = queue s c';
  queue_delete_failed c i s s' e : queues_ok s -> DeleteMessage c i s = (Err e, s') ->
    queues_ok s' /\ forall c', queue s' c' = queue s c';
  queue_clear_failed c s s' e : queues_ok s -> ClearMessages c s = (Err e, s') ->
    queues_ok s' /\ forall c', queue s' c' = queue s c';
  queue_get c i s m : queues_ok s -> GetMessage c i s = Ok m -> queue s c !! i = Some m;
  queue_absent c i s : queues_ok s -> GetMessage c i s = Err ErrMessageNotFound -> queue s c !! i = None;
  queue_list c s l : queues_ok s -> ListMessages c s = Ok l ->
    NoDup (Store.sm_ID <$> l) /\ forall m, m ∈ l <-> queue s c !! Store.sm_ID m = Some m;
}.

(** The record a backend keeps for [msg]: stamped when the caller did not. *)
Definition stampRetained (now : Z) (msg : Store.RetainedMessage) : Store.RetainedMessage :=
  match Store.rm_Timestamp msg with
  | Some _ => msg
  | None =>
      {| Store.rm_Topic := Store.rm_Topic msg; Store.rm_QoS := Store.rm_QoS msg;
         Store.rm_Payload := Store.rm_Payload msg; Store.rm_Timestamp := Some now;
         Store.rm_Properties := Store.rm_Properties msg; Store.rm_ExpiresAt := Store.rm_ExpiresAt msg |}
  end.

(** What a save does to the retained messages: an empty payload deletes. *)
Definition retain (now : Z) (msg : Store.RetainedMessage) (m : gmap bytes Store.RetainedMessage)
    : gmap bytes Store.RetainedMessage :=
  if bool_decide (Store.rm_Payload msg = []) then delete (Store.rm_Topic msg) m
  else <[Store.rm_Topic msg := stampRetained now msg]> m.

(** What a retained store promises: it is a map from topics to messages, a write
    that fails changes nothing, a topic reported as not found has no message, and
    a match returns the messages whose topics match the filter, each once. *)
Class RetainedStoreLaws (S : Type) `{RetainedStore S} := {
  retained_ok : S -> Prop;
  retained : S -> gmap bytes Store.RetainedMessage;
  retainable : Store.RetainedMessage -> Prop;
  retained_save now msg s s' : retained_ok s -> retainable msg -> SaveRetained now msg s = (Ok tt, s') ->
    retained_ok s' /\ retained s' = retain now msg (retained s);
  retained_delete t s s' : retained_ok s -> DeleteRetained t s = (Ok tt, s') ->
    retained_ok s' /\ retained s' = delete t (retained s);
  retained_save_failed now msg s s' e : retained_ok s -> SaveRetained now msg s = (Err e, s') ->
    retained_ok s' /\ retained s' = retained s;
  retained_delete_failed t s s' e : retained_ok s -> DeleteRetained t s = (Err e, s') ->
    retained_ok s' /\ retained s' = retained s;
  retained_absent t s : retained_ok s -> GetRetained t s = Err ErrRetainedNotFound -> retained s !! t = None;
  retained_get t s m : retained_ok s -> GetRetained t s = Ok m -> retained s !! t = Some m;
  retained_match p s l : retained_ok s -> MatchRetained p s = Ok l ->
    NoDup (Store.rm_Topic <$> l) /\
    forall m, m ∈ l <-> retained s !! Store.rm_Topic m = Some m /\ MatchTopic p (Store.rm_Topic m) = true;
}.

(** A store that keeps every retained message, as the memory store does. *)
Class FaithfulRetained (S : Type) `{RetainedStoreLaws S} := every_retainable m : retainable m.
