(* ===== verification/MemoryStore.v ===== *)
(** * The in-memory stores: store/memory/memory.go

    The session and message stores are maps; the retained store keeps a trie
    beside its map and answers MatchRetained from the trie.  The deep copies the
    code makes at its borders are copies of values here.  Go iterates over maps
    in an unspecified order; the theorems do not depend on the order. *)

From S2P Require Import Prelude Topic StoreTypes.
Open Scope Z_scope.

(** ** Sessions and messages *)

(** memory.go, sessionStore and messageStore *)
Record sessionStore := { memSessions : gmap bytes Store.SessionData }.
Record messageStore := { memMessages : gmap bytes (gmap bytes Store.StoredMessage) }.

Definition NewSessionStore : sessionStore := {| memSessions := ∅ |}.
Definition NewMessageStore : messageStore := {| memMessages := ∅ |}.

(** memory.go, (sessionStore).SaveSession ... IsSessionExists *)
Definition memSaveSession (clientID : bytes) (data : option Store.SessionData) (s : sessionStore)
    : res unit * sessionStore :=
  match data with
  | None => (Ok tt, {| memSessions := delete clientID (memSessions s) |})
  | Some d => (Ok tt, {| memSessions := <[clientID := d]> (memSessions s) |})
  end.

Definition memGetSession (clientID : bytes) (s : sessionStore) : res Store.SessionData :=
  match memSessions s !! clientID with Some d => Ok d | None => Err ErrSessionNotFound end.

Definition memDeleteSession (clientID : bytes) (s : sessionStore) : res unit * sessionStore :=
  (Ok tt, {| memSessions := delete clientID (memSessions s) |}).

Definition memListSessions (s : sessionStore) : res (list bytes) := Ok (fst <$> map_to_list (memSessions s)).

Definition memIsSessionExists (clientID : bytes) (s : sessionStore) : res bool :=
  Ok (bool_decide (is_Some (memSessions s !! clientID))).

#[export] Instance memory_session_store : SessionStore sessionStore := {
  SaveSession := memSaveSession;
  FetchSession := memGetSession;
  DeleteSession := memDeleteSession;
  ListSessionIDs := memListSessions;
  IsSessionExists := memIsSessionExists;
  RefreshSession := fun _ _ s => (Ok tt, s);
}.

(** memory.go, (messageStore).SaveMessage ... ClearMessages *)
Definition memSaveMessage (clientID : bytes) (msg : Store.StoredMessage) (s : messageStore)
    : res unit * messageStore :=
  let msgs := default ∅ (memMessages s !! clientID) in
  (Ok tt, {| memMessages := <[clientID := <[Store.sm_ID msg := msg]> msgs]> (memMessages s) |}).

Definition memGetMessage (clientID id : bytes) (s : messageStore) : res Store.StoredMessage :=
  match memMessages s !! clientID ≫= lookup id with Some m => Ok m | None => Err ErrMessageNotFound end.

Definition memDeleteMessage (clientID id : bytes) (s : messageStore) : res unit * messageStore :=
  (Ok tt, {| memMessages := alter (delete id) clientID (memMessages s) |}).

Definition memListMessages (clientID : bytes) (s : messageStore) : res (list Store.StoredMessage) :=
  Ok (match memMessages s !! clientID with Some msgs => snd <$> map_to_list msgs | None => [] end).

Definition memClearMessages (clientID : bytes) (s : messageStore) : res unit * messageStore :=
  (Ok tt, {| memMessages := delete clientID (memMessages s) |}).

#[export] Instance memory_message_store : MessageStore messageStore := {
  SaveMessage := memSaveMessage;
  GetMessage := memGetMessage;
  DeleteMessage := memDeleteMessage;
  ListMessages := memListMessages;
  ClearMessages := memClearMessages;
}.

#[export] Instance memory_session_laws : SessionStoreLaws sessionStore.
Proof.
  refine {| storable := fun _ => True |};
    cbn [SaveSession FetchSession DeleteSession IsSessionExists RefreshSession memory_session_store];
    unfold memSaveSession, memGetSession, memDeleteSession, memIsSessionExists.
  - intros c d s s' _ [= <-]. cbn [memSessions]. by rewrite lookup_insert_eq.
  - intros c c' [d|] s Hc; cbn [snd memSessions]; [by rewrite lookup_insert_ne | by rewrite lookup_delete_ne].
  - intros c s s' [= <-]. cbn [memSessions]. by rewrite lookup_delete_eq.
  - intros c c' s Hc. cbn [snd memSessions]. by rewrite lookup_delete_ne.
  - intros c d s H. f_equal. destruct (memSessions s !! c); [by apply bool_decide_eq_true|done].
  - intros c s H. f_equal. destruct (memSessions s !! c); [done|]. by apply bool_decide_eq_false, is_Some_None.
  - by intros c [d|] s s' e [=].
  - by intros c s s' e [=].
  - done.
Defined.

#[export] Instance memory_sessions_faithful : FaithfulSessions sessionStore.
Proof. done. Qed.

(** A message is filed under its identifier. *)
Definition filed (s : messageStore) : Prop :=
  forall c msgs i m, memMessages s !! c = Some msgs -> msgs !! i = Some m -> Store.sm_ID m = i.

#[export] Instance memory_message_laws : MessageStoreLaws messageStore.
Proof.
  refine {| queues_ok := filed; queue := fun s c => default ∅ (memMessages s !! c); queueable := fun _ => True |};
    cbn [SaveMessage GetMessage DeleteMessage ListMessages ClearMessages memory_message_store];
    unfold memSaveMessage, memGetMessage, memDeleteMessage, memListMessages, memClearMessages, filed.
  - intros c m s s' Hs _ [= <-]. cbn [memMessages]. split.
    + intros c' msgs i m' [[<- <-]|[_ Hc]]%lookup_insert_Some; [|by eapply Hs].
      intros [[<- <-]|[_ Hi]]%lookup_insert_Some; [done|].
      destruct (memMessages s !! c) eqn:E; cbn in Hi; [by eapply Hs|done].
    + intros c'. case_decide as Hc; [subst; by rewrite lookup_insert_eq | by rewrite lookup_insert_ne].
  - intros c i s s' Hs [= <-]. cbn [memMessages]. split.
    + intros c' msgs i' m' Hc. apply lookup_alter_Some in Hc as [(<- & msgs' & Hc & ->)|[_ Hc]]; [|by eapply Hs].
      intros [_ Hi]%lookup_delete_Some. by eapply Hs.
    + intros c'. case_decide as Hc; [subst; rewrite lookup_alter_eq | by rewrite lookup_alter_ne].
      destruct (memMessages s !! c); cbn; [done | by rewrite delete_empty].
  - intros c s s' Hs [= <-]. cbn [memMessages]. split.
    + intros c' msgs i' m' [_ Hc]%lookup_delete_Some. by eapply Hs.
    + intros c'. case_decide as Hc; [subst; by rewrite lookup_delete_eq | by rewrite lookup_delete_ne].
  - done.
  - done.
  - done.
  - intros c i s m _. destruct (memMessages s !! c) as [msgs|]; cbn; [|done].
    destruct (msgs !! i); [by intros ->%Ok_inj | done].
  - intros c i s _. destruct (memMessages s !! c) as [msgs|]; cbn; [by destruct (msgs !! i)|done].
  - intros c s l Hs <-%Ok_inj. destruct (memMessages s !! c) as [msgs|] eqn:Ec; cbn [default].
    2:{ split; [constructor|]. intros m. by rewrite elem_of_nil, lookup_empty. }
    assert (Store.sm_ID <$> (snd <$> map_to_list msgs) = fst <$> map_to_list msgs) as E.
    { rewrite <- list_fmap_compose. apply list_fmap_ext. intros k [i m] Hk.
      apply list_elem_of_lookup_2, elem_of_map_to_list in Hk. by apply (Hs c msgs). }
    split; [rewrite E; apply NoDup_fst_map_to_list|]. intros m. rewrite list_elem_of_fmap. split.
    + intros ([i m'] & -> & Hi%elem_of_map_to_list). cbn [snd]. by rewrite (Hs c msgs i m').
    + intros Hm. exists (Store.sm_ID m, m). split; [done | by apply elem_of_map_to_list].
Defined.

(** ** Retained messages *)

(** memory.go, retainedTrie *)
Inductive retainedTrie :=
  RNode (rchildren : gmap bytes retainedTrie) (rmsg : option Store.RetainedMessage).

Definition rchildren (n : retainedTrie) : gmap bytes retainedTrie := match n with RNode c _ => c end.
Definition rmsg (n : retainedTrie) : option Store.RetainedMessage := match n with RNode _ m => m end.
Definition emptyTrie : retainedTrie := RNode ∅ None.

(** memory.go, retainedStore *)
Record retainedStore := { rmessages : gmap bytes Store.RetainedMessage; index : retainedTrie }.

Definition NewRetainedStore : retainedStore := {| rmessages := ∅; index := emptyTrie |}.

(** memory.go, addToIndex: the walk of its loop, from the node [n]. *)
Fixpoint addToIndex (n : retainedTrie) (parts : list bytes) (msg : Store.RetainedMessage) : retainedTrie :=
  match parts with
  | [] => RNode (rchildren n) (Some msg)
  | part :: parts' =>
      let child := default emptyTrie (rchildren n !! part) in
      RNode (<[part := addToIndex child parts' msg]> (rchildren n)) (rmsg n)
  end.

Definition noChildren (n : retainedTrie) : bool := bool_decide (size (rchildren n) = 0%nat).

(** memory.go, (retainedTrie).remove; [parts] is parts[depth:]. *)
Fixpoint remove (n : retainedTrie) (parts : list bytes) : retainedTrie * bool :=
  match parts with
  | [] => let n' := RNode (rchildren n) None in (n', noChildren n')
  | part :: parts' =>
      match rchildren n !! part with
      | None => (n, false)
      | Some child =>
          let '(child', dropped) := remove child parts' in
          let n' := RNode (if dropped then delete part (rchildren n) else <[part := child']> (rchildren n)) (rmsg n) in
          (n', match rmsg n' with None => noChildren n' | Some _ => false end)
      end
  end.

(** The results slice and the visited set of MatchRetained. *)
Definition RetainedState : Type := list Store.RetainedMessage * gset bytes.

Definition addRetained (m : option Store.RetainedMessage) (st : RetainedState) : RetainedState :=
  match m with
  | Some msg =>
      if bool_decide (Store.rm_Topic msg ∈ snd st) then st
      else (fst st ++ [msg], {[ Store.rm_Topic msg ]} ∪ snd st)
  | None => st
  end.

(** memory.go, (retainedTrie).collectAll *)
Fixpoint collectAll (n : retainedTrie) (st : RetainedState) : RetainedState :=
  match n with RNode ch m => map_fold (fun _ child st => collectAll child st) (addRetained m st) ch end.

(** memory.go, (retainedTrie).match *)
Fixpoint matchTrie (n : retainedTrie) (parts : list bytes) (st : RetainedState) {struct parts} : RetainedState :=
  match parts with
  | [] => addRetained (rmsg n) st
  | part :: parts' =>
      if bool_decide (part = [hash]) then collectAll n st
      else if bool_decide (part = [plus]) then
        map_fold (fun _ child st => matchTrie child parts' st) st (rchildren n)
      else
        match rchildren n !! part with
        | Some child => matchTrie child parts' st
        | None => st
        end
  end.

(** memory.go, (retainedStore).DeleteRetained, SaveRetained, GetRetained and
    MatchRetained *)
Definition memDeleteRetained (topic : bytes) (r : retainedStore) : res unit * retainedStore :=
  (Ok tt, {| rmessages := delete topic (rmessages r); index := fst (remove (index r) (strings_Split topic)) |}).

Definition memSaveRetained (now : Z) (msg : Store.RetainedMessage) (r : retainedStore)
    : res unit * retainedStore :=
  let topic := Store.rm_Topic msg in
  if len (Store.rm_Payload msg) =? 0 then
    (Ok tt, {| rmessages := delete topic (rmessages r); index := fst (remove (index r) (strings_Split topic)) |})
  else
    let stored := stampRetained now msg in
    (Ok tt, {| rmessages := <[topic := stored]> (rmessages r);
               index := addToIndex (index r) (strings_Split topic) stored |}).

Definition memGetRetained (topic : bytes) (r : retainedStore) : res Store.RetainedMessage :=
  match rmessages r !! topic with Some m => Ok m | None => Err ErrRetainedNotFound end.

Definition memMatchRetained (pattern : bytes) (r : retainedStore) : res (list Store.RetainedMessage) :=
  if Nat.eqb (size (rmessages r)) 0 then Ok []
  else Ok (fst (matchTrie (index r) (strings_Split pattern) ([], ∅))).

#[export] Instance memory_retained_store : RetainedStore retainedStore := {
  SaveRetained := memSaveRetained;
  GetRetained := memGetRetained;
  DeleteRetained := memDeleteRetained;
  MatchRetained := memMatchRetained;
}.

(** ** The messages of the trie *)

Fixpoint trie_size (n : retainedTrie) : nat :=
  match n with RNode ch _ => S (map_fold (fun _ c acc => (trie_size c + acc)%nat) 0%nat ch) end.

Lemma trie_induction (P : retainedTrie -> Prop) :
  (forall ch m, (forall k c, ch !! k = Some c -> P c) -> P (RNode ch m)) -> forall n, P n.
Proof.
  intros Hnode n. remember (trie_size n) as s eqn:Hs. revert n Hs.
  induction s as [s IH] using lt_wf_ind. intros [ch m] ->. apply Hnode. intros k c Hk.
  eapply IH; [|done]. cbn [trie_size].
  rewrite (map_fold_delete_L (fun _ c acc => (trie_size c + acc)%nat) 0%nat k c ch); [lia | intros; lia | done].
Qed.

Fixpoint msg_at (n : retainedTrie) (path : list bytes) : option Store.RetainedMessage :=
  match path with
  | [] => rmsg n
  | p :: ps => rchildren n !! p ≫= fun c => msg_at c ps
  end.

Lemma msg_at_empty path : msg_at emptyTrie path = None.
Proof. by destruct path. Qed.

Lemma addToIndex_at n parts msg path :
  msg_at (addToIndex n parts msg) path = if decide (path = parts) then Some msg else msg_at n path.
Proof.
  revert n path. induction parts as [|p ps IH]; intros n path; cbn [addToIndex].
  - destruct path; [by rewrite decide_True | by rewrite decide_False].
  - destruct path as [|p' ps']; cbn [msg_at rchildren rmsg]; [by rewrite decide_False|].
    destruct (decide (p' = p)) as [->|Hp].
    + rewrite lookup_insert_eq. cbn [mbind option_bind]. rewrite IH.
      destruct (rchildren n !! p) as [c|]; cbn [default mbind option_bind]; rewrite ?msg_at_empty;
        destruct (decide (ps' = ps)) as [->|]; first [by rewrite decide_True by done | by rewrite decide_False by congruence].
    + rewrite lookup_insert_ne by done. rewrite decide_False; congruence.
Qed.

(** A node that may be dropped holds nothing. *)
Definition trie_empty (n : retainedTrie) : Prop := forall path, msg_at n path = None.

Lemma noChildren_spec n : noChildren n = true <-> rchildren n = ∅.
Proof. unfold noChildren. by rewrite bool_decide_eq_true, map_size_empty_iff. Qed.

Lemma noChildren_empty n : rmsg n = None -> noChildren n = true -> trie_empty n.
Proof.
  intros Hm Hc%noChildren_spec [|p ps]; [done|]. cbn [msg_at]. by rewrite Hc, lookup_empty.
Qed.

Lemma remove_dropped n parts : snd (remove n parts) = true -> trie_empty (fst (remove n parts)).
Proof.
  destruct parts as [|p ps]; cbn [remove].
  - intros H. by apply noChildren_empty.
  - destruct (rchildren n !! p) as [c|]; [|done]. destruct (remove c ps) as [c' dropped]. cbn [fst snd rmsg].
    destruct (rmsg n) eqn:Hm; [done|]. intros H. by apply noChildren_empty.
Qed.

Lemma remove_at n parts path :
  msg_at (fst (remove n parts)) path = if decide (path = parts) then None else msg_at n path.
Proof.
  revert n path. induction parts as [|p ps IH]; intros n path.
  - cbn [remove fst]. destruct path; [by rewrite decide_True | by rewrite decide_False].
  - cbn [remove]. destruct (rchildren n !! p) as [c|] eqn:Hc.
    2:{ case_decide as Hd; [|done]. subst. cbn. by rewrite Hc. }
    pose proof (remove_dropped c ps) as Hdrop. specialize (IH c).
    destruct (remove c ps) as [c' dropped]. cbn [fst snd] in *.
    destruct path as [|p' ps']; cbn [msg_at rchildren rmsg]; [by rewrite decide_False|].
    destruct (decide (p' = p)) as [->|Hp].
    + rewrite Hc. cbn [mbind option_bind].
      replace ((if dropped then delete p (rchildren n) else <[p:=c']> (rchildren n)) !! p ≫= fun c => msg_at c ps')
        with (msg_at c' ps').
      * rewrite IH. destruct (decide (ps' = ps)) as [->|];
          [by rewrite decide_True | by rewrite decide_False by congruence].
      * destruct dropped; [rewrite lookup_delete_eq | rewrite lookup_insert_eq]; [by apply Hdrop | done].
    + rewrite decide_False by congruence. destruct dropped;
        [by rewrite lookup_delete_ne | by rewrite lookup_insert_ne].
Qed.

(** No branch is kept without a message below it. *)
Definition occupied (n : retainedTrie) : Prop := exists path m, msg_at n path = Some m.

Inductive tidy : retainedTrie -> Prop :=
  | tidy_node ch m : (forall k c, ch !! k = Some c -> tidy c /\ occupied c) -> tidy (RNode ch m).

Lemma tidy_children n k c : tidy n -> rchildren n !! k = Some c -> tidy c /\ occupied c.
Proof. intros [ch m H]. apply H. Qed.

Lemma tidy_insert n k c : tidy n -> tidy c -> occupied c -> tidy (RNode (<[k := c]> (rchildren n)) (rmsg n)).
Proof.
  intros Hn Hc Ho. constructor. intros k' c' [[-> ->]|[_ Hk]]%lookup_insert_Some; [done|].
  by apply (tidy_children n k').
Qed.

Lemma tidy_empty : tidy emptyTrie.
Proof. by constructor. Qed.

Lemma addToIndex_tidy n parts msg : tidy n -> tidy (addToIndex n parts msg).
Proof.
  revert n. induction parts as [|p ps IH]; intros n Hn; cbn [addToIndex].
  - constructor. intros k c Hk. by eapply tidy_children.
  - apply tidy_insert; [done| |].
    + apply IH. destruct (rchildren n !! p) as [c|] eqn:Hc; [by eapply tidy_children | apply tidy_empty].
    + exists ps, msg. rewrite addToIndex_at. by rewrite decide_True.
Qed.

Lemma tidy_occupied n : tidy n -> (rmsg n = None -> noChildren n = false) -> occupied n.
Proof.
  intros Hn H. destruct (rmsg n) as [m|] eqn:Hm; [by exists [], m|].
  destruct (map_choose (rchildren n)) as (k & c & Hk).
  { intros Hc%noChildren_spec. rewrite H in Hc; done. }
  destruct (tidy_children n k c Hn Hk) as (_ & path & m & Hp). exists (k :: path), m. cbn. by rewrite Hk.
Qed.

Lemma remove_tidy n parts :
  tidy n -> tidy (fst (remove n parts)) /\
  (occupied n -> snd (remove n parts) = false -> occupied (fst (remove n parts))).
Proof.
  revert n. induction parts as [|p ps IH]; intros n Hn; cbn [remove].
  - assert (tidy (RNode (rchildren n) None)) as Ht by (constructor; intros; by eapply tidy_children).
    split; [done|]. intros _ H. by apply tidy_occupied.
  - destruct (rchildren n !! p) as [c|] eqn:Hc; [|done].
    destruct (tidy_children n p c Hn Hc) as [Htc Hoc]. destruct (IH c Htc) as [IH1 IH2].
    destruct (remove c ps) as [c' dropped]. cbn [fst snd] in *.
    assert (tidy (RNode (if dropped then delete p (rchildren n) else <[p:=c']> (rchildren n)) (rmsg n))) as Ht.
    { destruct dropped; [|by apply tidy_insert; auto].
      constructor. intros k c0 [_ Hk]%lookup_delete_Some. by apply (tidy_children n k). }
    split; [done|]. intros _ H. apply tidy_occupied; [done|]. cbn [rmsg] in *. intros Hm. by rewrite Hm in H.
Qed.

(** The index holds the messages of the map, at the levels of their topics. *)
Record indexed (r : retainedStore) : Prop := {
  indexed_at t : msg_at (index r) (SplitTopic t) = rmessages r !! t;
  indexed_path path m : msg_at (index r) path = Some m -> path = SplitTopic (Store.rm_Topic m);
  indexed_tidy : tidy (index r);
}.

Lemma indexed_new : indexed NewRetainedStore.
Proof. split; cbn [index rmessages NewRetainedStore]; intros; rewrite ?msg_at_empty in *; [done..|apply tidy_empty]. Qed.

Lemma indexed_delete t r : indexed r -> indexed (snd (memDeleteRetained t r)).
Proof.
  intros [H1 H2 H3]. split; cbn [snd memDeleteRetained index rmessages];
    [intros t'|intros path m|by apply remove_tidy]; rewrite remove_at, strings_Split_SplitTopic.
  - case_decide as Hd; [apply SplitTopic_inj in Hd as ->; by rewrite lookup_delete_eq|].
    rewrite lookup_delete_ne by (intros ->; done). done.
  - case_decide; [done|apply H2].
Qed.

Lemma stampRetained_topic now msg : Store.rm_Topic (stampRetained now msg) = Store.rm_Topic msg.
Proof. unfold stampRetained. by destruct (Store.rm_Timestamp msg). Qed.

Lemma memSaveRetained_eq now msg r :
  memSaveRetained now msg r =
  if bool_decide (Store.rm_Payload msg = []) then memDeleteRetained (Store.rm_Topic msg) r
  else (Ok tt, {| rmessages := <[Store.rm_Topic msg := stampRetained now msg]> (rmessages r);
                  index := addToIndex (index r) (strings_Split (Store.rm_Topic msg)) (stampRetained now msg) |}).
Proof.
  unfold memSaveRetained. destruct (Store.rm_Payload msg) as [|b l]; [done|].
  rewrite len_cons. pose proof (len_nonneg l). by destruct (Z.eqb_spec (1 + len l) 0); [lia|].
Qed.

Lemma indexed_save now msg r : indexed r -> indexed (snd (memSaveRetained now msg r)).
Proof.
  intros Hr. rewrite memSaveRetained_eq. case_bool_decide; [by apply indexed_delete|].
  destruct Hr as [H1 H2 H3]. split; cbn [snd index rmessages];
    [intros t'|intros path m|by apply addToIndex_tidy]; rewrite addToIndex_at, strings_Split_SplitTopic.
  - case_decide as Hd; [apply SplitTopic_inj in Hd as ->; by rewrite lookup_insert_eq|].
    by rewrite lookup_insert_ne by congruence.
  - case_decide; [|apply H2]. intros [= <-]. by rewrite stampRetained_topic.
Qed.

(** ** What MatchRetained returns *)

(** The state of the walk: the topics of the results, each once. *)
Definition gathered_ok (st : RetainedState) : Prop :=
  NoDup (Store.rm_Topic <$> fst st) /\ forall t, t ∈ snd st <-> t ∈ Store.rm_Topic <$> fst st.

(** [st'] is [st] after meeting the messages of [H]. *)
Definition gathers (H : Store.RetainedMessage -> Prop) (st st' : RetainedState) : Prop :=
  (gathered_ok st -> gathered_ok st') /\
  (forall m, m ∈ fst st' -> m ∈ fst st \/ H m) /\
  (gathered_ok st -> forall m, m ∈ fst st \/ H m ->
     exists m', m' ∈ fst st' /\ Store.rm_Topic m' = Store.rm_Topic m).

Lemma gathers_refl st : gathers (fun _ => False) st st.
Proof. split_and!; [done | auto | intros _ m [?|[]]; eauto]. Qed.

Lemma gathers_ext H H' st st' : (forall m, H m <-> H' m) -> gathers H st st' -> gathers H' st st'.
Proof. intros He (A1 & A2 & A3). split_and!; [done | intros m | intros Hst m]; rewrite <- He; auto. Qed.

Lemma gathers_trans H1 H2 st1 st2 st3 :
  gathers H1 st1 st2 -> gathers H2 st2 st3 -> gathers (fun m => H1 m \/ H2 m) st1 st3.
Proof.
  intros (A1 & A2 & A3) (B1 & B2 & B3). split_and!; [auto| |].
  - intros m [Hm|Hm]%B2; [apply A2 in Hm|]; naive_solver.
  - intros Hst m Hm.
    assert ((exists m', m' ∈ fst st2 /\ Store.rm_Topic m' = Store.rm_Topic m) \/ H2 m) as [(m' & Hm' & <-)|Hm'].
    { destruct Hm as [?|[?|?]]; auto. }
    + apply B3; auto.
    + apply B3; auto.
Qed.

Lemma gathers_add o st : gathers (fun m => o = Some m) st (addRetained o st).
Proof.
  destruct o as [msg|]; [|eapply gathers_ext; [|apply gathers_refl]; done].
  unfold addRetained. case_bool_decide as Hin.
  - split_and!; [done | auto |]. intros [_ Hok] m [Hm|[= <-]]; [eauto|].
    apply Hok, list_elem_of_fmap in Hin as (m' & ? & ?). eauto.
  - split_and!; cbn [fst snd].
    + intros [Hnd Hok]. split.
      * cbn [fst]. rewrite fmap_app. apply NoDup_app. split_and!; [done| |apply NoDup_singleton].
        intros t Ht ->%list_elem_of_singleton. apply Hin, Hok, Ht.
      * cbn [fst snd]. intros t. rewrite elem_of_union, elem_of_singleton, fmap_app, elem_of_app, Hok.
        cbn [fmap list_fmap]. rewrite list_elem_of_singleton. naive_solver.
    + intros m. rewrite elem_of_app, list_elem_of_singleton. naive_solver.
    + intros _ m Hm. exists m. rewrite elem_of_app, list_elem_of_singleton. naive_solver.
Qed.

Lemma gathers_fold (ch : gmap bytes retainedTrie) (H : bytes -> retainedTrie -> Store.RetainedMessage -> Prop) f st :
  (forall k c st, ch !! k = Some c -> gathers (H k c) st (f k c st)) ->
  gathers (fun m => exists k c, ch !! k = Some c /\ H k c m) st (map_fold f st ch).
Proof.
  apply (map_fold_weak_ind (fun r ch =>
    (forall k c st, ch !! k = Some c -> gathers (H k c) st (f k c st)) ->
    gathers (fun m => exists k c, ch !! k = Some c /\ H k c m) st r)).
  - intros _. eapply gathers_ext; [|apply gathers_refl]. intros m. split; [done|]. by intros (k & c & ? & _).
  - intros k c ch' r Hk IH Hf.
    eapply gathers_ext; [|eapply gathers_trans; [apply IH|apply (Hf k c); apply lookup_insert_eq]].
    + intros m. cbn. setoid_rewrite lookup_insert_Some. split; [|naive_solver].
      intros [(k' & c' & Hk' & Hh)|Hh]; [|naive_solver].
      exists k', c'. split; [|done]. right. split; [intros ->; congruence | done].
    + intros k' c' st' Hk'. apply Hf. rewrite lookup_insert_ne; [done|]. intros ->. congruence.
Qed.

Lemma gathers_collect n st : gathers (fun m => exists path, msg_at n path = Some m) st (collectAll n st).
Proof.
  revert st. induction n as [ch m IH] using trie_induction. intros st. cbn [collectAll].
  eapply gathers_ext; [|eapply gathers_trans; [apply gathers_add|
    apply (gathers_fold ch (fun _ c msg => exists path, msg_at c path = Some msg)); eauto]].
  intros msg. cbn. split.
  - intros [Hm|(k & c & Hk & path & Hp)]; [by exists []|]. exists (k :: path). cbn. by rewrite Hk.
  - intros [[|k path] Hp]; [by left|]. right. cbn in Hp. destruct (ch !! k) as [c|] eqn:Hk; [|done]. eauto.
Qed.

Lemma level_match_cons p ps path :
  p <> [hash] ->
  level_match (p :: ps) path <-> exists t ts, path = t :: ts /\ (p = [plus] \/ p = t) /\ level_match ps ts.
Proof.
  intros Hp. split.
  - inversion 1; subst; [done | eauto 8 | eauto 8].
  - intros (t & ts & -> & [->| ->] & Hm); by constructor.
Qed.

Lemma gathers_match n parts st :
  gathers (fun m => exists path, msg_at n path = Some m /\ level_match parts path) st (matchTrie n parts st).
Proof.
  revert n st. induction parts as [|p ps IH]; intros n st; cbn [matchTrie].
  - eapply gathers_ext; [|apply gathers_add]. intros m. split.
    + intros Hm. exists []. split; [done|constructor].
    + intros (path & Hp & Hm). by inversion Hm; subst.
  - case_bool_decide as Hh; [|case_bool_decide as Hpl].
    + subst. eapply gathers_ext; [|apply gathers_collect]. intros m. split.
      * intros [path Hp]. exists path. split; [done|constructor].
      * naive_solver.
    + subst. eapply gathers_ext; [|apply (gathers_fold (rchildren n)
        (fun _ c m => exists path, msg_at c path = Some m /\ level_match ps path)); eauto].
      intros m. setoid_rewrite level_match_cons; [|done]. split.
      * intros (k & c & Hk & path & Hp & Hm). exists (k :: path). cbn. rewrite Hk. split; [done|]. eauto 6.
      * intros (path & Hp & k & path' & -> & _ & Hm). cbn in Hp.
        destruct (rchildren n !! k) as [c|] eqn:Hk; [eauto 8|done].
    + apply (gathers_ext (fun m => exists path, msg_at n (p :: path) = Some m /\ level_match ps path)).
      { intros m. split.
        - intros (path & Hp & Hm). exists (p :: path). split; [done|by constructor].
        - intros (path & Hp & (t & ts & -> & [?|<-] & Hm)%level_match_cons); [done|eauto|done]. }
      cbn [msg_at]. destruct (rchildren n !! p) as [c|]; [apply IH|].
      eapply gathers_ext; [|apply gathers_refl]. intros m. split; [done|]. by intros (path & ? & _).
Qed.

(** The store implements its interface. *)
Lemma memMatch_spec p r :
  indexed r ->
  let l := fst (matchTrie (index r) (SplitTopic p) ([], ∅)) in
  NoDup (Store.rm_Topic <$> l) /\
  forall m, m ∈ l <-> rmessages r !! Store.rm_Topic m = Some m /\ MatchTopic p (Store.rm_Topic m) = true.
Proof.
  intros [H1 H2 _] l.
  destruct (gathers_match (index r) (SplitTopic p) ([], ∅)) as (A1 & A2 & A3).
  assert (gathered_ok ([], ∅)) as Hok.
  { split; cbn; [constructor|]. intros t. rewrite elem_of_nil. set_solver. }
  assert (forall m, (exists path, msg_at (index r) path = Some m /\ level_match (SplitTopic p) path) <->
    rmessages r !! Store.rm_Topic m = Some m /\ MatchTopic p (Store.rm_Topic m) = true) as Hiff.
  { intros m. rewrite MatchTopic_levels, levels_matchb_spec, <- H1. split; [|eauto].
    intros (path & Hp & Hm). pose proof (H2 _ _ Hp) as ->. done. }
  split; [apply A1, Hok|]. intros m. rewrite <- Hiff. split.
  - intros [Hm|Hm]%A2; [by apply elem_of_nil in Hm|done].
  - intros Hm. destruct (A3 Hok m) as (m' & Hm' & Ht); [by right|].
    enough (m' = m) as -> by done.
    destruct (A2 _ Hm') as [Hx|Hx]; [by apply elem_of_nil in Hx|].
    apply Hiff in Hx as [Hx _], Hm as [Hm _]. rewrite Ht in Hx. congruence.
Qed.

#[export] Instance memory_retained_laws : RetainedStoreLaws retainedStore.
Proof.
  refine {| retained_ok := indexed; retained := rmessages; retainable := fun _ => True |};
    cbn [SaveRetained GetRetained DeleteRetained MatchRetained memory_retained_store].
  - intros now msg s s' Hs _ Hsave. pose proof (indexed_save now msg s Hs) as Hi. rewrite Hsave in Hi.
    split; [done|]. rewrite memSaveRetained_eq in Hsave. unfold retain.
    case_bool_decide; by inversion Hsave.
  - intros t s s' Hs Hdel. pose proof (indexed_delete t s Hs) as Hi. rewrite Hdel in Hi.
    split; [done|]. by inversion Hdel.
  - intros now msg s s' e _. rewrite memSaveRetained_eq. by case_bool_decide.
  - done.
  - unfold memGetRetained. intros t s _ H. by destruct (rmessages s !! t).
  - unfold memGetRetained. intros t s m _ H. destruct (rmessages s !! t); [by apply Ok_inj in H as -> | done].
  - intros p s l Hs. unfold memMatchRetained. destruct (Nat.eqb_spec (size (rmessages s)) 0) as [Hz|_].
    + intros <-%Ok_inj. apply map_size_empty_iff in Hz. split; [constructor|].
      intros m. rewrite Hz, lookup_empty, elem_of_nil. naive_solver.
    + intros <-%Ok_inj. rewrite strings_Split_SplitTopic. by apply memMatch_spec.
Defined.

#[export] Instance memory_retained_faithful : FaithfulRetained retainedStore.
Proof. done. Qed.

(** ** Histories of the retained store *)

Inductive RetainedOp := OpSave (now : Z) (msg : Store.RetainedMessage) | OpDelete (topic : bytes).

Definition stepRetained `{RetainedStore RS} (op : RetainedOp) (s : RS) : RS :=
  match op with
  | OpSave now msg => snd (SaveRetained now msg s)
  | OpDelete t => snd (DeleteRetained t s)
  end.

(** The specification: a map from topics to messages. *)
Definition specRetained (op : RetainedOp) (m : gmap bytes Store.RetainedMessage) : gmap bytes Store.RetainedMessage :=
  match op with OpSave now msg => retain now msg m | OpDelete t => delete t m end.

Lemma save_rmessages now msg r : rmessages (snd (memSaveRetained now msg r)) = retain now msg (rmessages r).
Proof. rewrite memSaveRetained_eq. unfold retain. by case_bool_decide. Qed.

Lemma run_retained ops r :
  indexed r ->
  let r' := foldl (fun r op => stepRetained op r) r ops in
  indexed r' /\ rmessages r' = foldl (fun m op => specRetained op m) (rmessages r) ops.
Proof.
  revert r. induction ops as [|[now msg|t] ops IH]; intros r Hr; [done| |];
    cbn [foldl stepRetained specRetained SaveRetained DeleteRetained memory_retained_store].
  - rewrite <- (save_rmessages now msg r).
    apply IH, indexed_save, Hr.
  - apply (IH _ (indexed_delete t r Hr)).
Qed.

(** ** Properties *)

(** C27: The retained store refines a map from topics to messages.  After any
    history of saves and deletes, GetRetained reads the map; MatchRetained
    returns the messages whose topics match the filter in the sense of
    MatchTopic, each once, and no others; and the trie has no branch without a
    message. *)
Theorem retained_store_refines_map ops pattern :
  let r := foldl (fun r op => stepRetained op r) NewRetainedStore ops in
  let m := foldl (fun m op => specRetained op m) ∅ ops in
  (forall t, GetRetained t r = match m !! t with Some x => Ok x | None => Err ErrRetainedNotFound end) /\
  (exists l, MatchRetained pattern r = Ok l /\ NoDup (Store.rm_Topic <$> l) /\
    forall x, x ∈ l <-> m !! Store.rm_Topic x = Some x /\ MatchTopic pattern (Store.rm_Topic x) = true) /\
  tidy (index r).
Proof.
  intros r m. destruct (run_retained ops NewRetainedStore indexed_new) as [Hr Hm]. fold r in Hr, Hm.
  change (rmessages r = m) in Hm. split_and!; [| |apply Hr].
  - intros t. cbn [GetRetained memory_retained_store]. unfold memGetRetained. by rewrite Hm.
  - rewrite <- Hm. destruct (MatchRetained pattern r) as [l|e] eqn:E.
    + exists l. split; [done|]. exact (retained_match pattern r l Hr E).
    + cbn in E. unfold memMatchRetained in E. by destruct (Nat.eqb _ _).
Qed.
