(* ===== verification/Json.v ===== *)
(** * Stored records as JSON: package encoding/json on the types of store/types.go

    The Redis and Badger stores keep JSON.  A [codec] is what Marshal and
    Unmarshal do to one Go type: an encoder, a decoder, the zero value, the values
    that survive ([fits]) and the proof that they do.  JSON is modelled as a value,
    not as text: a [[]byte] is one base64 string, a [time.Time] one RFC 3339
    string, and an object with number keys, which Go writes for a map[uint16], has
    a constructor of its own.  The types have no field tags and no failing
    marshallers (a year beyond 9999 apart), so Marshal is total. *)

From S2P Require Import Prelude Utf8 StoreTypes.
Open Scope Z_scope.

Inductive json :=
  | JNull
  | JBool (b : bool)
  | JNum (n : Z)
  | JStr (s : bytes)
  | JBase64 (b : bytes)
  | JTime (t : option Z)
  | JArr (l : list json)
  | JMap (l : list (Z * json))
  | JObj (l : list (string * json)).

Record codec (A : Type) := Codec {
  enc : A -> json;
  dec : json -> res A;
  zero : A;
  fits : A -> Prop;
  dec_enc a : fits a -> dec (enc a) = Ok a;
}.
Arguments enc {A}. Arguments dec {A}. Arguments zero {A}. Arguments fits {A}. Arguments dec_enc {A}.

Definition mismatch {A} : res A := Err (ErrText "json: cannot unmarshal value into Go value").

(** ** Scalars *)

(** encoding/json replaces each invalid byte of a string by U+FFFD. *)
Fixpoint coerceUTF8 (fuel : nat) (s : bytes) : bytes :=
  match fuel, s with
  | S fuel', _ :: _ =>
      let '(r, size) := decodeRune s in
      (if (r =? RuneError) && Nat.eqb size 1 then [239; 191; 189] else take size s) ++ coerceUTF8 fuel' (drop size s)
  | _, _ => []
  end.

Lemma coerce_runes fuel rs :
  Forall scalar rs -> (length (encode_runes rs) <= fuel)%nat -> coerceUTF8 fuel (encode_runes rs) = encode_runes rs.
Proof.
  intros Hrs. revert fuel. induction Hrs as [|r rs Hr Hrs IH]; intros fuel Hf; [by destruct fuel|].
  change (encode_runes (r :: rs)) with (encode_rune r ++ encode_runes rs) in *. rewrite length_app in Hf.
  pose proof (encode_rune_nonempty r). destruct fuel as [|fuel]; [lia|]. cbn [coerceUTF8].
  destruct (encode_rune r ++ encode_runes rs) as [|b t] eqn:E.
  { apply app_eq_nil in E as [E _]. rewrite E in *. cbn in *. lia. }
  rewrite <- E, decode_encode_rune by done. rewrite take_app_length, drop_app_length.
  rewrite (IH fuel) by lia. destruct (Z.eqb_spec r RuneError) as [->|]; [done|]. by rewrite andb_false_l.
Qed.

Lemma coerce_valid s : bytes_ok s -> validString s = true -> coerceUTF8 (length s) s = s.
Proof. intros Hok Hs. destruct (valid_runes s Hok Hs) as (rs & Hrs & ->). by apply coerce_runes. Qed.

Definition stringFits (s : bytes) : Prop := bytes_ok s /\ validString s = true.

Definition stringC : codec bytes.
Proof.
  refine {|
    enc s := JStr (coerceUTF8 (length s) s);
    dec j := match j with JStr s => Ok s | JNull => Ok [] | _ => mismatch end;
    zero := [];
    fits := stringFits;
  |}.
  intros s [Hok Hs]. by rewrite coerce_valid.
Defined.

Definition boolC : codec bool.
Proof.
  refine {|
    enc := JBool;
    dec j := match j with JBool b => Ok b | JNull => Ok false | _ => mismatch end;
    zero := false;
    fits _ := True;
  |}.
  done.
Defined.

(** uint8, uint16 and uint32 *)
Definition uintC (bits : Z) : codec Z.
Proof.
  refine {|
    enc := JNum;
    dec j := match j with
             | JNum n => if (0 <=? n) && (n <? 2 ^ bits) then Ok n else mismatch
             | JNull => Ok 0
             | _ => mismatch
             end;
    zero := 0;
    fits n := 0 <= n < 2 ^ bits;
  |}.
  intros n Hn. by destruct (Z.leb_spec 0 n), (Z.ltb_spec n (2 ^ bits)); try lia.
Defined.

Definition bytesC : codec bytes.
Proof.
  refine {|
    enc := JBase64;
    dec j := match j with JBase64 b => Ok b | JNull => Ok [] | _ => mismatch end;
    zero := [];
    fits _ := True;
  |}.
  done.
Defined.

(** A [[]byte] that may be nil. *)
Definition nilBytesC : codec (option bytes).
Proof.
  refine {|
    enc b := match b with Some b => JBase64 b | None => JNull end;
    dec j := match j with JBase64 b => Ok (Some b) | JNull => Ok None | _ => mismatch end;
    zero := None;
    fits _ := True;
  |}.
  by intros [b|].
Defined.

(** *byte and *uint32 *)
Definition uintPtrC (bits : Z) : codec (option Z).
Proof.
  refine {|
    enc n := match n with Some n => JNum n | None => JNull end;
    dec j := match j with
             | JNum n => if (0 <=? n) && (n <? 2 ^ bits) then Ok (Some n) else mismatch
             | JNull => Ok None
             | _ => mismatch
             end;
    zero := None;
    fits n := match n with Some n => 0 <= n < 2 ^ bits | None => True end;
  |}.
  intros [n|] Hn; [|done]. by destruct (Z.leb_spec 0 n), (Z.ltb_spec n (2 ^ bits)); try lia.
Defined.

(** time.Time; the zero time is [None]. *)
Definition timeC : codec (option Z).
Proof.
  refine {|
    enc := JTime;
    dec j := match j with JTime t => Ok t | JNull => Ok None | _ => mismatch end;
    zero := None;
    fits _ := True;
  |}.
  done.
Defined.

(** A time that is always set; the zero time is the first of January of year 1. *)
Definition zeroTime : Z := -62135596800 * second.

Definition setTimeC : codec Z.
Proof.
  refine {|
    enc t := JTime (Some t);
    dec j := match j with JTime (Some t) => Ok t | JTime None | JNull => Ok zeroTime | _ => mismatch end;
    zero := zeroTime;
    fits _ := True;
  |}.
  done.
Defined.

(** ** Slices, maps and structs *)

#[local] Arguments enc : simpl never.
#[local] Arguments dec : simpl never.
#[local] Arguments fits : simpl never.

Lemma mapM_enc {A} (c : codec A) l : Forall (fits c) l -> mapM (dec c) (enc c <$> l) = Ok l.
Proof.
  induction 1 as [|a l Ha Hl IH]; [done|]. cbn [fmap list_fmap mapM]. rewrite (dec_enc c a Ha). cbn [mbind res_bind].
  change (list_fmap _ _ (enc c) l) with (enc c <$> l). by rewrite IH.
Qed.

Definition listC {A} (c : codec A) : codec (list A).
Proof.
  refine {|
    enc l := JArr (enc c <$> l);
    dec j := match j with JArr l => mapM (dec c) l | JNull => Ok [] | _ => mismatch end;
    zero := [];
    fits := Forall (fits c);
  |}.
  apply mapM_enc.
Defined.

(** A map[uint16]*T; a null entry, which Marshal does not write here, is refused. *)
Definition addEntry {A} (c : codec A) (e : Z * json) (acc : res (gmap Z A)) : res (gmap Z A) :=
  m ← acc;
  if (0 <=? e.1) && (e.1 <? 65536) then
    v ← match e.2 with JNull => mismatch | j => dec c j end;
    Ok (<[e.1 := v]> m)
  else mismatch.

Definition entryFits {A} (c : codec A) (k : Z) (v : A) : Prop := 0 <= k < 65536 /\ fits c v /\ enc c v <> JNull.

Lemma addEntry_enc {A} (c : codec A) (l : list (Z * A)) :
  Forall (fun e => entryFits c e.1 e.2) l ->
  foldr (addEntry c) (Ok ∅) (prod_map id (enc c) <$> l) = Ok (list_to_map l).
Proof.
  induction 1 as [|[k v] l (Hk & Hv & Hn) Hl IH]; [done|]. cbn [fmap list_fmap foldr prod_map].
  change (list_fmap _ _ _ l) with (prod_map (@id Z) (enc c) <$> l). rewrite IH. unfold addEntry at 1.
  cbn [fst snd mbind res_bind] in *. unfold id.
  destruct (Z.leb_spec 0 k), (Z.ltb_spec k 65536); try lia. cbn [andb].
  pose proof (dec_enc c v Hv) as E. by destruct (enc c v); rewrite ?E.
Qed.

Definition mapC {A} (c : codec A) : codec (gmap Z A).
Proof.
  refine {|
    enc m := JMap (prod_map id (enc c) <$> map_to_list m);
    dec j := match j with JMap l => foldr (addEntry c) (Ok ∅) l | JNull => Ok ∅ | _ => mismatch end;
    zero := ∅;
    fits m := map_Forall (entryFits c) m;
  |}.
  intros m Hm. rewrite addEntry_enc; [by rewrite list_to_map_to_list|].
  apply Forall_forall. intros [k v] Hkv. apply elem_of_map_to_list in Hkv. by apply Hm.
Defined.

(** The value of a field: the last one of that name, the zero value without one. *)
Fixpoint assoc (name : string) (l : list (string * json)) : option json :=
  match l with
  | [] => None
  | (k, v) :: l' =>
      match assoc name l' with
      | Some v' => Some v'
      | None => if String.eqb k name then Some v else None
      end
  end.

Definition field {A} (c : codec A) (name : string) (l : list (string * json)) : res A :=
  match assoc name l with Some v => dec c v | None => Ok (zero c) end.

Definition object {A} (f : list (string * json) -> res A) (z : A) (j : json) : res A :=
  match j with JObj l => f l | JNull => Ok z | _ => mismatch end.

(** Decoding the encoding of a struct whose fields fit. *)
Ltac decode_fields :=
  unfold object, field; cbn; intuition idtac; rewrite ?dec_enc by done; done.

(** ** The stored types *)

Definition userPropertyC : codec Store.UserProperty.
Proof.
  refine {|
    enc p := JObj [("Key"%string, enc stringC (Store.Key p)); ("Value"%string, enc stringC (Store.Value p))];
    dec := object (fun l =>
      k ← field stringC "Key" l; v ← field stringC "Value" l; Ok {| Store.Key := k; Store.Value := v |})
      {| Store.Key := []; Store.Value := [] |};
    zero := {| Store.Key := []; Store.Value := [] |};
    fits p := fits stringC (Store.Key p) /\ fits stringC (Store.Value p);
  |}.
  intros [k v]. decode_fields.
Defined.

Definition messagePropertiesC : codec Store.MessageProperties.
Proof.
  refine {|
    enc p := JObj [
      ("PayloadFormat"%string, enc (uintPtrC 8) (Store.PayloadFormat p));
      ("ContentType"%string, enc stringC (Store.ContentType p));
      ("ResponseTopic"%string, enc stringC (Store.ResponseTopic p));
      ("CorrelationData"%string, enc nilBytesC (Store.CorrelationData p));
      ("UserProperties"%string, enc (listC userPropertyC) (Store.UserProperties p));
      ("SubscriptionIdentifier"%string, enc (listC (uintC 32)) (Store.SubscriptionIdentifier p))];
    dec := object (fun l =>
      pf ← field (uintPtrC 8) "PayloadFormat" l; ct ← field stringC "ContentType" l;
      rt ← field stringC "ResponseTopic" l; cd ← field nilBytesC "CorrelationData" l;
      ups ← field (listC userPropertyC) "UserProperties" l;
      ids ← field (listC (uintC 32)) "SubscriptionIdentifier" l;
      Ok {| Store.PayloadFormat := pf; Store.ContentType := ct; Store.ResponseTopic := rt;
            Store.CorrelationData := cd; Store.UserProperties := ups; Store.SubscriptionIdentifier := ids |})
      Store.noProperties;
    zero := Store.noProperties;
    fits p := fits (uintPtrC 8) (Store.PayloadFormat p) /\ fits stringC (Store.ContentType p) /\
      fits stringC (Store.ResponseTopic p) /\ fits nilBytesC (Store.CorrelationData p) /\
      fits (listC userPropertyC) (Store.UserProperties p) /\
      fits (listC (uintC 32)) (Store.SubscriptionIdentifier p);
  |}.
  intros [pf ct rt cd ups ids]. decode_fields.
Defined.

Definition subscriptionC : codec Store.Subscription.
Proof.
  refine {|
    enc s := JObj [
      ("Topic"%string, enc stringC (Store.sub_Topic s)); ("QoS"%string, enc (uintC 8) (Store.sub_QoS s));
      ("NoLocal"%string, enc boolC (Store.sub_NoLocal s));
      ("RetainAsPublished"%string, enc boolC (Store.sub_RetainAsPublished s));
      ("RetainHandling"%string, enc (uintC 8) (Store.sub_RetainHandling s));
      ("SubscriptionIdentifier"%string, enc (uintPtrC 32) (Store.sub_SubscriptionIdentifier s))];
    dec := object (fun l =>
      t ← field stringC "Topic" l; q ← field (uintC 8) "QoS" l; nl ← field boolC "NoLocal" l;
      rap ← field boolC "RetainAsPublished" l; rh ← field (uintC 8) "RetainHandling" l;
      sid ← field (uintPtrC 32) "SubscriptionIdentifier" l;
      Ok {| Store.sub_Topic := t; Store.sub_QoS := q; Store.sub_NoLocal := nl; Store.sub_RetainAsPublished := rap;
            Store.sub_RetainHandling := rh; Store.sub_SubscriptionIdentifier := sid |})
      (Store.Build_Subscription [] 0 false false 0 None);
    zero := Store.Build_Subscription [] 0 false false 0 None;
    fits s := fits stringC (Store.sub_Topic s) /\ fits (uintC 8) (Store.sub_QoS s) /\
      fits (uintC 8) (Store.sub_RetainHandling s) /\ fits (uintPtrC 32) (Store.sub_SubscriptionIdentifier s);
  |}.
  intros [t q nl rap rh sid]. decode_fields.
Defined.

Definition inflightC : codec Store.InflightMessage.
Proof.
  refine {|
    enc m := JObj [
      ("PacketID"%string, enc (uintC 16) (Store.im_PacketID m)); ("QoS"%string, enc (uintC 8) (Store.im_QoS m));
      ("Topic"%string, enc stringC (Store.im_Topic m)); ("Payload"%string, enc bytesC (Store.im_Payload m));
      ("Retain"%string, enc boolC (Store.im_Retain m));
      ("Properties"%string, enc messagePropertiesC (Store.im_Properties m));
      ("ExpiresAt"%string, enc timeC (Store.im_ExpiresAt m));
      ("PendingPubRel"%string, enc boolC (Store.im_PendingPubRel m))];
    dec := object (fun l =>
      pid ← field (uintC 16) "PacketID" l; q ← field (uintC 8) "QoS" l; t ← field stringC "Topic" l;
      pl ← field bytesC "Payload" l; r ← field boolC "Retain" l; ps ← field messagePropertiesC "Properties" l;
      e ← field timeC "ExpiresAt" l; rel ← field boolC "PendingPubRel" l;
      Ok {| Store.im_PacketID := pid; Store.im_QoS := q; Store.im_Topic := t; Store.im_Payload := pl;
            Store.im_Retain := r; Store.im_Properties := ps; Store.im_ExpiresAt := e;
            Store.im_PendingPubRel := rel |})
      (Store.Build_InflightMessage 0 0 [] [] false Store.noProperties None false);
    zero := Store.Build_InflightMessage 0 0 [] [] false Store.noProperties None false;
    fits m := fits (uintC 16) (Store.im_PacketID m) /\ fits (uintC 8) (Store.im_QoS m) /\
      fits stringC (Store.im_Topic m) /\ fits messagePropertiesC (Store.im_Properties m);
  |}.
  intros [pid q t pl r ps e rel]. decode_fields.
Defined.

Definition emptySessionData : Store.SessionData :=
  Store.Build_SessionData [] [] false 0 0 0 None [] ∅ ∅.

Definition sessionDataC : codec Store.SessionData.
Proof.
  refine {|
    enc d := JObj [
      ("ClientID"%string, enc stringC (Store.sd_ClientID d)); ("Username"%string, enc stringC (Store.sd_Username d));
      ("IsClean"%string, enc boolC (Store.sd_IsClean d)); ("KeepAlive"%string, enc (uintC 16) (Store.sd_KeepAlive d));
      ("ProtocolVer"%string, enc (uintC 8) (Store.sd_ProtocolVer d));
      ("ExpiryInterval"%string, enc (uintC 32) (Store.sd_ExpiryInterval d));
      ("ExpiryTime"%string, enc timeC (Store.sd_ExpiryTime d));
      ("Subscriptions"%string, enc (listC subscriptionC) (Store.sd_Subscriptions d));
      ("Inflight"%string, enc (mapC inflightC) (Store.sd_Inflight d));
      ("InboundQoS2"%string, enc (mapC inflightC) (Store.sd_InboundQoS2 d))];
    dec := object (fun l =>
      c ← field stringC "ClientID" l; u ← field stringC "Username" l; cl ← field boolC "IsClean" l;
      ka ← field (uintC 16) "KeepAlive" l; v ← field (uintC 8) "ProtocolVer" l;
      ei ← field (uintC 32) "ExpiryInterval" l; et ← field timeC "ExpiryTime" l;
      ss ← field (listC subscriptionC) "Subscriptions" l; fl ← field (mapC inflightC) "Inflight" l;
      inb ← field (mapC inflightC) "InboundQoS2" l;
      Ok {| Store.sd_ClientID := c; Store.sd_Username := u; Store.sd_IsClean := cl; Store.sd_KeepAlive := ka;
            Store.sd_ProtocolVer := v; Store.sd_ExpiryInterval := ei; Store.sd_ExpiryTime := et;
            Store.sd_Subscriptions := ss; Store.sd_Inflight := fl; Store.sd_InboundQoS2 := inb |})
      emptySessionData;
    zero := emptySessionData;
    fits d := fits stringC (Store.sd_ClientID d) /\ fits stringC (Store.sd_Username d) /\
      fits (uintC 16) (Store.sd_KeepAlive d) /\ fits (uintC 8) (Store.sd_ProtocolVer d) /\
      fits (uintC 32) (Store.sd_ExpiryInterval d) /\ fits (listC subscriptionC) (Store.sd_Subscriptions d) /\
      fits (mapC inflightC) (Store.sd_Inflight d) /\ fits (mapC inflightC) (Store.sd_InboundQoS2 d);
  |}.
  intros [c u cl ka v ei et ss fl inb]. decode_fields.
Defined.

Definition storedMessageC : codec Store.StoredMessage.
Proof.
  refine {|
    enc m := JObj [
      ("ID"%string, enc stringC (Store.sm_ID m)); ("Topic"%string, enc stringC (Store.sm_Topic m));
      ("QoS"%string, enc (uintC 8) (Store.sm_QoS m)); ("Payload"%string, enc bytesC (Store.sm_Payload m));
      ("Retain"%string, enc boolC (Store.sm_Retain m));
      ("Timestamp"%string, enc setTimeC (Store.sm_Timestamp m));
      ("ExpiresAt"%string, enc timeC (Store.sm_ExpiresAt m))];
    dec := object (fun l =>
      i ← field stringC "ID" l; t ← field stringC "Topic" l; q ← field (uintC 8) "QoS" l;
      pl ← field bytesC "Payload" l; r ← field boolC "Retain" l; ts ← field setTimeC "Timestamp" l;
      e ← field timeC "ExpiresAt" l;
      Ok {| Store.sm_ID := i; Store.sm_Topic := t; Store.sm_QoS := q; Store.sm_Payload := pl;
            Store.sm_Retain := r; Store.sm_Timestamp := ts; Store.sm_ExpiresAt := e |})
      (Store.Build_StoredMessage [] [] 0 [] false zeroTime None);
    zero := Store.Build_StoredMessage [] [] 0 [] false zeroTime None;
    fits m := fits stringC (Store.sm_ID m) /\ fits stringC (Store.sm_Topic m) /\ fits (uintC 8) (Store.sm_QoS m);
  |}.
  intros [i t q pl r ts e]. decode_fields.
Defined.

Definition retainedMessageC : codec Store.RetainedMessage.
Proof.
  refine {|
    enc m := JObj [
      ("Topic"%string, enc stringC (Store.rm_Topic m)); ("QoS"%string, enc (uintC 8) (Store.rm_QoS m));
      ("Payload"%string, enc bytesC (Store.rm_Payload m)); ("Timestamp"%string, enc timeC (Store.rm_Timestamp m));
      ("Properties"%string, enc messagePropertiesC (Store.rm_Properties m));
      ("ExpiresAt"%string, enc timeC (Store.rm_ExpiresAt m))];
    dec := object (fun l =>
      t ← field stringC "Topic" l; q ← field (uintC 8) "QoS" l; pl ← field bytesC "Payload" l;
      ts ← field timeC "Timestamp" l; ps ← field messagePropertiesC "Properties" l; e ← field timeC "ExpiresAt" l;
      Ok {| Store.rm_Topic := t; Store.rm_QoS := q; Store.rm_Payload := pl; Store.rm_Timestamp := ts;
            Store.rm_Properties := ps; Store.rm_ExpiresAt := e |})
      (Store.Build_RetainedMessage [] 0 [] None Store.noProperties None);
    zero := Store.Build_RetainedMessage [] 0 [] None Store.noProperties None;
    fits m := fits stringC (Store.rm_Topic m) /\ fits (uintC 8) (Store.rm_QoS m) /\
      fits messagePropertiesC (Store.rm_Properties m);
  |}.
  intros [t q pl ts ps e]. decode_fields.
Defined.

(** json.Unmarshal: its errors are not told apart. *)
Definition Unmarshal {A} (c : codec A) (j : json) : res A :=
  match dec c j with Ok a => Ok a | Err _ => mismatch end.

Lemma Unmarshal_enc {A} (c : codec A) a : fits c a -> Unmarshal c (enc c a) = Ok a.
Proof. intros H. unfold Unmarshal. by rewrite dec_enc. Qed.

Lemma Unmarshal_error {A} (c : codec A) j e : Unmarshal c j = Err e -> e = ErrText "json: cannot unmarshal value into Go value".
Proof. unfold Unmarshal, mismatch. destruct (dec c j); by intros [=]. Qed.

(** A record of an earlier build, with one number where this one reads a list of
    subscription identifiers, is refused and not misread (store/types.go). *)
Fact old_identifier_format_refused l n :
  assoc "SubscriptionIdentifier" l = Some (JNum n) ->
  exists e, dec messagePropertiesC (JObj l) = Err e.
Proof.
  intros H. assert (field (listC (uintC 32)) "SubscriptionIdentifier" l = mismatch) as E.
  { unfold field. by rewrite H. }
  unfold messagePropertiesC, dec at 1, object.
  repeat match goal with |- context [field ?c ?k l ≫= _] =>
    destruct (field c k l) eqn:?; cbn [mbind res_bind]; [|by eexists] end.
  done.
Qed.
