(* ===== verification/KeySpace.v ===== *)
(** * Keys of the serialized stores

    The Redis and Badger stores file their records in one key space: a prefix, and
    for messages the length-prefixed client identifier.  [under] reads the records
    below a prefix. *)

From S2P Require Import Prelude StoreTypes Strconv Json.
Open Scope Z_scope.

(** sessionKey and topicKey of the two packages *)
Definition prefixKey (keyPrefix name : bytes) : bytes := keyPrefix ++ name.

(** clientPrefix (badger) and clientPattern (redis) *)
Definition clientPrefix (keyPrefix clientID : bytes) : bytes :=
  keyPrefix ++ Itoa (len clientID) ++ str ":" ++ clientID ++ str ":".

(** messageKey of the two packages *)
Definition messageKey (keyPrefix clientID id : bytes) : bytes :=
  keyPrefix ++ Itoa (len clientID) ++ str ":" ++ clientID ++ str ":" ++ id.

(** The default prefixes of NewSessionStore, NewMessageStore and
    NewRetainedStore *)
Definition keyPrefixOr (dflt : string) (keyPrefix : bytes) : bytes :=
  if bool_decide (keyPrefix = []) then str dflt else keyPrefix.

Lemma messageKey_prefix p c i : messageKey p c i = clientPrefix p c ++ i.
Proof. unfold messageKey, clientPrefix. by rewrite <- !app_assoc. Qed.

(** A client identifier may contain the separator; the length in front of it
    keeps the keys of two clients apart. *)
Lemma clientPrefix_owner p c c' t t' : clientPrefix p c ++ t = clientPrefix p c' ++ t' -> c = c' /\ t = t'.
Proof.
  unfold clientPrefix. rewrite <- !app_assoc. intros E%app_inv_head.
  change (str ":") with [58] in E. cbn [app] in E.
  apply Itoa_len_prefix in E as [Hl E]; [|done]. apply app_inj_1 in E as [-> E]; [|done]. by simplify_eq.
Qed.

(** ** The records below a prefix *)

Definition record_at {A} (c : codec A) (p : bytes) (e : bytes * json) : option (bytes * A) :=
  if HasPrefix e.1 p
  then match Unmarshal c e.2 with Ok a => Some (drop (length p) e.1, a) | Err _ => None end
  else None.

Definition under {A} (c : codec A) (p : bytes) (m : gmap bytes json) : gmap bytes A :=
  list_to_map (omap (record_at c p) (map_to_list m)).

Definition read {A} (c : codec A) (j : json) : option A :=
  match Unmarshal c j with Ok a => Some a | Err _ => None end.

Lemma record_at_Some {A} (c : codec A) p k v i a :
  record_at c p (k, v) = Some (i, a) <-> k = p ++ i /\ read c v = Some a.
Proof.
  unfold record_at, read. cbn [fst snd]. destruct (HasPrefix k p) eqn:Hp.
  - apply HasPrefix_spec in Hp as [t ->]. rewrite drop_app_length.
    destruct (Unmarshal c v); split; [by intros [= -> ->] | by intros [->%app_inv_head [= ->]] | done | by intros [_ [=]]].
  - split; [done|]. intros [-> _]. by rewrite HasPrefix_app in Hp.
Qed.

Lemma under_lookup {A} (c : codec A) p m i : under c p m !! i = m !! (p ++ i) ≫= read c.
Proof.
  apply option_eq. intros a. unfold under. rewrite <- elem_of_list_to_map.
  - rewrite list_elem_of_omap. split.
    + intros ([k v] & Hkv%elem_of_map_to_list & [-> Hr]%record_at_Some). by rewrite Hkv.
    + intros (v & Hv & Hr)%bind_Some. exists (p ++ i, v). split; [by apply elem_of_map_to_list|].
      by apply record_at_Some.
  - pose proof (NoDup_fst_map_to_list m) as Hnd. induction (map_to_list m) as [|[k v] l IH]; [constructor|].
    rewrite fmap_cons in Hnd. apply NoDup_cons in Hnd as [Hk Hnd]. cbn [omap list_omap].
    destruct (record_at c p (k, v)) as [[j a']|] eqn:E; [|by apply IH].
    apply record_at_Some in E as [-> _]. cbn [fmap list_fmap]. constructor; [|by apply IH].
    intros ([j' a''] & Hj & ([k' v'] & Hin & [-> _]%record_at_Some)%list_elem_of_omap)%list_elem_of_fmap.
    cbn in Hj. subst j'. apply Hk, list_elem_of_fmap. by exists (p ++ j, v').
Qed.

Lemma under_insert {A} (c : codec A) p m i a :
  fits c a -> under c p (<[p ++ i := enc c a]> m) = <[i := a]> (under c p m).
Proof.
  intros Ha. apply map_eq. intros j. rewrite under_lookup. destruct (decide (j = i)) as [->|Hj].
  - rewrite !lookup_insert_eq. cbn. unfold read. by rewrite Unmarshal_enc.
  - rewrite !lookup_insert_ne, under_lookup; [done | done |]. intros E%app_inv_head. congruence.
Qed.

Lemma under_delete {A} (c : codec A) p m i : under c p (delete (p ++ i) m) = delete i (under c p m).
Proof.
  apply map_eq. intros j. rewrite under_lookup. destruct (decide (j = i)) as [->|Hj].
  - by rewrite !lookup_delete_eq.
  - rewrite !lookup_delete_ne, under_lookup; [done | done |]. intros E%app_inv_head. congruence.
Qed.

(** Two key spaces that agree below a prefix hold the same records there. *)
Lemma under_ext {A} (c : codec A) p m m' :
  (forall i, m !! (p ++ i) = m' !! (p ++ i)) -> under c p m = under c p m'.
Proof. intros H. apply map_eq. intros i. by rewrite !under_lookup, H. Qed.

(** What an operation on the messages of [c] does to the queue of [c']. *)
Lemma queue_insert p m c c' msg :
  fits storedMessageC msg ->
  under storedMessageC (clientPrefix p c') (<[messageKey p c (Store.sm_ID msg) := enc storedMessageC msg]> m) =
  if decide (c' = c) then <[Store.sm_ID msg := msg]> (under storedMessageC (clientPrefix p c) m)
  else under storedMessageC (clientPrefix p c') m.
Proof.
  intros Hm. rewrite messageKey_prefix. case_decide as Hc; [subst; by apply under_insert|].
  apply under_ext. intros i. apply lookup_insert_ne. intros E%clientPrefix_owner. naive_solver.
Qed.

Lemma queue_remove p m c c' i :
  under storedMessageC (clientPrefix p c') (delete (messageKey p c i) m) =
  if decide (c' = c) then delete i (under storedMessageC (clientPrefix p c) m)
  else under storedMessageC (clientPrefix p c') m.
Proof.
  rewrite messageKey_prefix. case_decide as Hc; [subst; by apply under_delete|].
  apply under_ext. intros j. apply lookup_delete_ne. intros E%clientPrefix_owner. naive_solver.
Qed.
