(* ===== verification/BadgerStore.v ===== *)
(** * The Badger stores: store/badger/*.go

    Badger is a library: a database and its transactions are parameters, the
    operations the stores call are a class, and what the stores rely on is a
    second class, stated as the library documents it.  Every operation is
    translated; a stored value is the JSON of Json.v.  The stores
    are proved to keep the promises of the interfaces of StoreTypes.v, so what is
    proved of the broker against those interfaces holds for a broker on Badger. *)

From S2P Require Import Prelude Utf8 Topic StoreTypes Strconv Json KeySpace.
Open Scope Z_scope.

(** ** The library *)

(** [DB.View], [DB.Update] and the transaction's Get, Set, Delete and iterator.
    [txnGet] is [Ok None] for ErrKeyNotFound; [txnSeek t p] are the keys the loop
    [it.Seek(p); it.ValidForPrefix(p); it.Next()] visits, [itemValue] the value of
    the item at a key. *)
Class Badger (D T : Type) := {
  View : forall {A}, (T -> res A) -> D -> res A;
  Update : (T -> res unit * T) -> D -> res unit * D;
  txnGet : bytes -> T -> res (option json);
  txnSet : bytes -> json -> T -> res unit * T;
  txnDelete : bytes -> T -> res unit * T;
  txnSeek : bytes -> T -> list bytes;
  itemValue : bytes -> T -> res json;
}.

(** What the library documents of an open database: a transaction reads a
    consistent snapshot and its own writes, a read-only one returns the function's
    result, an update commits all of its writes or none, and an iterator visits
    every key with the prefix once. *)
Class BadgerLaws (D T : Type) `{Badger D T} := {
  snapshot : D -> T;
  pairs : T -> gmap bytes json;
  view_snapshot {A} (f : T -> res A) d : View f d = f (snapshot d);
  update_commits f d d' : Update f d = (Ok tt, d') ->
    exists t, f (snapshot d) = (Ok tt, t) /\ pairs (snapshot d') = pairs t;
  update_fails f d d' e : Update f d = (Err e, d') -> pairs (snapshot d') = pairs (snapshot d);
  get_pair k t : txnGet k t = Ok (pairs t !! k);
  set_pair k v t t' : txnSet k v t = (Ok tt, t') -> pairs t' = <[k := v]> (pairs t);
  delete_pair k t t' : txnDelete k t = (Ok tt, t') -> pairs t' = delete k (pairs t);
  seek_nodup p t : NoDup (txnSeek p t);
  seek_pairs p t k : k ∈ txnSeek p t <-> is_Some (pairs t !! k) /\ HasPrefix k p = true;
  item_pair k t v : pairs t !! k = Some v -> itemValue k t = Ok v;
}.

Section Stores.
Context {D T : Type} `{Badger D T}.

(** ** Sessions *)

(** session_store.go, SessionStore *)
Record badgerSessions := { bs_db : D; bs_keyPrefix : bytes }.

Definition newBadgerSessions (db : D) (keyPrefix : bytes) : badgerSessions :=
  {| bs_db := db; bs_keyPrefix := keyPrefixOr "mqtt:session:" keyPrefix |}.

Definition bs_key (s : badgerSessions) (clientID : bytes) : bytes := prefixKey (bs_keyPrefix s) clientID.

Definition bs_update (f : T -> res unit * T) (s : badgerSessions) : res unit * badgerSessions :=
  let '(r, d) := Update f (bs_db s) in (r, {| bs_db := d; bs_keyPrefix := bs_keyPrefix s |}).

(** session_store.go, SaveSession; json.Marshal writes null for nil data. *)
Definition badgerSaveSession (clientID : bytes) (data : option Store.SessionData) (s : badgerSessions)
    : res unit * badgerSessions :=
  let serialized := match data with Some d => enc sessionDataC d | None => JNull end in
  bs_update (txnSet (bs_key s clientID) serialized) s.

(** session_store.go, GetSession *)
Definition badgerGetSession (clientID : bytes) (s : badgerSessions) : res Store.SessionData :=
  View (fun txn =>
    item ← txnGet (bs_key s clientID) txn;
    match item with
    | None => Err ErrSessionNotFound
    | Some val => Unmarshal sessionDataC val
    end) (bs_db s).

(** session_store.go, DeleteSession *)
Definition badgerDeleteSession (clientID : bytes) (s : badgerSessions) : res unit * badgerSessions :=
  bs_update (txnDelete (bs_key s clientID)) s.

(** session_store.go, ListSessions *)
Definition badgerListSessions (s : badgerSessions) : res (list bytes) :=
  View (fun txn => Ok ((fun key => TrimPrefix key (bs_keyPrefix s)) <$> txnSeek (bs_keyPrefix s) txn)) (bs_db s).

(** session_store.go, IsSessionExists *)
Definition badgerIsSessionExists (clientID : bytes) (s : badgerSessions) : res bool :=
  View (fun txn => item ← txnGet (bs_key s clientID) txn; Ok (bool_decide (is_Some item))) (bs_db s).

#[export] Instance badger_session_store : SessionStore badgerSessions := {
  SaveSession := badgerSaveSession;
  FetchSession := badgerGetSession;
  DeleteSession := badgerDeleteSession;
  ListSessionIDs := badgerListSessions;
  IsSessionExists := badgerIsSessionExists;
  RefreshSession := fun _ _ s => (Ok tt, s);
}.

(** ** Messages *)

(** message_store.go, MessageStore *)
Record badgerMessages := { bm_db : D; bm_keyPrefix : bytes }.

Definition newBadgerMessages (db : D) (keyPrefix : bytes) : badgerMessages :=
  {| bm_db := db; bm_keyPrefix := keyPrefixOr "mqtt:message:" keyPrefix |}.

Definition bm_update (f : T -> res unit * T) (s : badgerMessages) : res unit * badgerMessages :=
  let '(r, d) := Update f (bm_db s) in (r, {| bm_db := d; bm_keyPrefix := bm_keyPrefix s |}).

(** message_store.go, SaveMessage *)
Definition badgerSaveMessage (clientID : bytes) (msg : Store.StoredMessage) (s : badgerMessages)
    : res unit * badgerMessages :=
  bm_update (txnSet (messageKey (bm_keyPrefix s) clientID (Store.sm_ID msg)) (enc storedMessageC msg)) s.

(** message_store.go, GetMessage *)
Definition badgerGetMessage (clientID id : bytes) (s : badgerMessages) : res Store.StoredMessage :=
  View (fun txn =>
    item ← txnGet (messageKey (bm_keyPrefix s) clientID id) txn;
    match item with
    | None => Err ErrMessageNotFound
    | Some val => Unmarshal storedMessageC val
    end) (bm_db s).

(** message_store.go, DeleteMessage *)
Definition badgerDeleteMessage (clientID id : bytes) (s : badgerMessages) : res unit * badgerMessages :=
  bm_update (txnDelete (messageKey (bm_keyPrefix s) clientID id)) s.

(** The loop of an iterator: the values it can read and decode. *)
Definition readItems {A} (c : codec A) (txn : T) (keys : list bytes) : list A :=
  omap (fun key => match itemValue key txn with
                   | Err _ => None
                   | Ok val => match Unmarshal c val with Ok a => Some a | Err _ => None end
                   end) keys.

(** message_store.go, ListMessages *)
Definition badgerListMessages (clientID : bytes) (s : badgerMessages) : res (list Store.StoredMessage) :=
  View (fun txn => Ok (readItems storedMessageC txn (txnSeek (clientPrefix (bm_keyPrefix s) clientID) txn))) (bm_db s).

(** The loop of ClearMessages over the collected keys. *)
Fixpoint deleteKeys (keys : list bytes) (txn : T) : res unit * T :=
  match keys with
  | [] => (Ok tt, txn)
  | key :: keys' =>
      match txnDelete key txn with
      | (Err e, txn') => (Err e, txn')
      | (Ok _, txn') => deleteKeys keys' txn'
      end
  end.

(** message_store.go, ClearMessages *)
Definition badgerClearMessages (clientID : bytes) (s : badgerMessages) : res unit * badgerMessages :=
  match View (fun txn => Ok (txnSeek (clientPrefix (bm_keyPrefix s) clientID) txn)) (bm_db s) with
  | Err e => (Err e, s)
  | Ok keys => bm_update (deleteKeys keys) s
  end.

#[export] Instance badger_message_store : MessageStore badgerMessages := {
  SaveMessage := badgerSaveMessage;
  GetMessage := badgerGetMessage;
  DeleteMessage := badgerDeleteMessage;
  ListMessages := badgerListMessages;
  ClearMessages := badgerClearMessages;
}.

(** ** Retained messages *)

(** retained_store.go, RetainedStore *)
Record badgerRetained := { br_db : D; br_keyPrefix : bytes }.

Definition newBadgerRetained (db : D) (keyPrefix : bytes) : badgerRetained :=
  {| br_db := db; br_keyPrefix := keyPrefixOr "mqtt:retained:" keyPrefix |}.

Definition br_key (s : badgerRetained) (topic : bytes) : bytes := prefixKey (br_keyPrefix s) topic.

Definition br_update (f : T -> res unit * T) (s : badgerRetained) : res unit * badgerRetained :=
  let '(r, d) := Update f (br_db s) in (r, {| br_db := d; br_keyPrefix := br_keyPrefix s |}).

(** retained_store.go, DeleteRetained *)
Definition badgerDeleteRetained (topic : bytes) (s : badgerRetained) : res unit * badgerRetained :=
  br_update (txnDelete (br_key s topic)) s.

(** retained_store.go, SaveRetained *)
Definition badgerSaveRetained (now : Z) (msg : Store.RetainedMessage) (s : badgerRetained)
    : res unit * badgerRetained :=
  if len (Store.rm_Payload msg) =? 0 then badgerDeleteRetained (Store.rm_Topic msg) s
  else br_update (txnSet (br_key s (Store.rm_Topic msg)) (enc retainedMessageC (stampRetained now msg))) s.

(** retained_store.go, GetRetained *)
Definition badgerGetRetained (topic : bytes) (s : badgerRetained) : res Store.RetainedMessage :=
  View (fun txn =>
    item ← txnGet (br_key s topic) txn;
    match item with
    | None => Err ErrRetainedNotFound
    | Some val => Unmarshal retainedMessageC val
    end) (br_db s).

(** retained_store.go, MatchRetained *)
Definition badgerMatchRetained (pattern : bytes) (s : badgerRetained) : res (list Store.RetainedMessage) :=
  View (fun txn =>
    let matching := base.filter (fun key => MatchTopic pattern (TrimPrefix key (br_keyPrefix s)) = true)
                      (txnSeek (br_keyPrefix s) txn) in
    Ok (readItems retainedMessageC txn matching)) (br_db s).

#[export] Instance badger_retained_store : RetainedStore badgerRetained := {
  SaveRetained := badgerSaveRetained;
  GetRetained := badgerGetRetained;
  DeleteRetained := badgerDeleteRetained;
  MatchRetained := badgerMatchRetained;
}.
End Stores.

(** ** The promises of the interfaces *)

Section Laws.
Context {D T : Type} `{BadgerLaws D T}.

Definition contents (d : D) : gmap bytes json := pairs (snapshot d).

(** An update that runs one write commits it or changes nothing. *)
Lemma update_set d k v r d' :
  Update (txnSet k v) d = (r, d') -> contents d' = match r with Ok _ => <[k := v]> (contents d) | Err _ => contents d end.
Proof.
  unfold contents. destruct r as [[]|e]; [|by intros ?%update_fails].
  intros (t & Hset%set_pair & ->)%update_commits. done.
Qed.

Lemma update_delete d k r d' :
  Update (txnDelete k) d = (r, d') -> contents d' = match r with Ok _ => delete k (contents d) | Err _ => contents d end.
Proof.
  unfold contents. destruct r as [[]|e]; [|by intros ?%update_fails].
  intros (t & Hset%delete_pair & ->)%update_commits. done.
Qed.

Lemma deleteKeys_pairs keys t t' :
  deleteKeys keys t = (Ok tt, t') -> forall k, pairs t' !! k = if decide (k ∈ keys) then None else pairs t !! k.
Proof.
  revert t. induction keys as [|key keys IH]; intros t; cbn [deleteKeys].
  - intros [= <-] k. by rewrite decide_False by apply not_elem_of_nil.
  - destruct (txnDelete key t) as [[[]|e] t1] eqn:E; [|done]. intros Hd k. rewrite (IH _ Hd k).
    rewrite (delete_pair _ _ _ E). destruct (decide (k ∈ key :: keys)) as [Hin|Hin].
    + case_decide as Hk; [done|]. apply elem_of_cons in Hin as [->|]; [apply lookup_delete_eq|done].
    + apply not_elem_of_cons in Hin as [Hne Hk]. by rewrite decide_False, lookup_delete_ne by congruence.
Qed.

(** The values an iterator over [p] reads are the records below [p]. *)
Lemma readItems_under {A} (c : codec A) p t (P : bytes -> Prop) `{!forall k, Decision (P k)} a :
  a ∈ readItems c t (base.filter P (txnSeek p t)) <-> exists i, P (p ++ i) /\ under c p (pairs t) !! i = Some a.
Proof.
  unfold readItems. rewrite list_elem_of_omap. setoid_rewrite list_elem_of_filter. setoid_rewrite seek_pairs.
  setoid_rewrite under_lookup. split.
  - intros (k & (HP & [v Hv] & [i ->]%HasPrefix_spec) & Hr). exists i. split; [done|].
    rewrite (item_pair _ _ _ Hv) in Hr. by rewrite Hv.
  - intros (i & HP & Hi). apply bind_Some in Hi as (v & Hv & Hr). exists (p ++ i).
    rewrite (item_pair _ _ _ Hv). split_and!; [done | by exists v | apply HasPrefix_app | done].
Qed.

(** Records that name their place are read once each. *)
Lemma readItems_nodup {A} (c : codec A) (name : A -> bytes) p t keys :
  NoDup keys -> (forall k, k ∈ keys -> is_Some (pairs t !! k) /\ HasPrefix k p = true) ->
  (forall i a, under c p (pairs t) !! i = Some a -> name a = i) ->
  NoDup (name <$> readItems c t keys).
Proof.
  intros Hnd Hin Hname. induction Hnd as [|k keys Hk Hnd IH]; [constructor|].
  assert (forall k', k' ∈ k :: keys -> exists v i, pairs t !! k' = Some v /\ k' = p ++ i /\ itemValue k' t = Ok v) as Hv.
  { intros k' ([v Hv] & [i ->]%HasPrefix_spec)%Hin. exists v, i. by rewrite (item_pair _ _ _ Hv). }
  unfold readItems in *. cbn [omap list_omap].
  destruct (Hv k) as (v & i & Hp & -> & ->); [by left|]. destruct (Unmarshal c v) as [a|] eqn:Ea.
  2:{ apply IH. intros k' Hk'. apply Hin. by right. }
  assert (forall i' a', pairs t !! (p ++ i') ≫= read c = Some a' -> name a' = i') as Hname'.
  { intros i' a' Hr. apply Hname. by rewrite under_lookup. }
  cbn [fmap list_fmap]. constructor; [|apply IH; intros k' Hk'; apply Hin; by right].
  intros (a' & Ha' & (k' & Hk' & Hr)%list_elem_of_omap)%list_elem_of_fmap.
  destruct (Hv k') as (v' & i' & Hp' & -> & Hi'); [by right|]. rewrite Hi' in Hr.
  assert (name a = i) as <- by (apply Hname'; rewrite Hp; cbn; unfold read; by rewrite Ea).
  assert (name a' = i') as <- by (apply Hname'; by rewrite Hp'). by rewrite Ha' in Hk.
Qed.

Lemma badgerGetSession_eq c (s : @badgerSessions D) :
  badgerGetSession c s =
  match contents (bs_db s) !! (bs_keyPrefix s ++ c) with
  | None => Err ErrSessionNotFound
  | Some v => Unmarshal sessionDataC v
  end.
Proof. unfold badgerGetSession. by rewrite view_snapshot, get_pair. Qed.

Lemma badgerIsSessionExists_eq c (s : @badgerSessions D) :
  badgerIsSessionExists c s = Ok (bool_decide (is_Some (contents (bs_db s) !! (bs_keyPrefix s ++ c)))).
Proof. unfold badgerIsSessionExists. by rewrite view_snapshot, get_pair. Qed.

(** An update of the session store, by its effect on the contents. *)
Lemma bs_update_eq f (s : @badgerSessions D) r s' :
  bs_update f s = (r, s') -> bs_keyPrefix s' = bs_keyPrefix s /\ Update f (bs_db s) = (r, bs_db s').
Proof. unfold bs_update. destruct (Update f (bs_db s)) as [r' d]. by intros [= -> <-]. Qed.

#[export] Instance badger_session_laws : SessionStoreLaws (@badgerSessions D).
Proof.
  refine {| storable := fits sessionDataC |};
    cbn [SaveSession FetchSession DeleteSession IsSessionExists RefreshSession badger_session_store];
    unfold badgerSaveSession, badgerDeleteSession, bs_key, prefixKey.
  - intros c d s s' Hd [Hp Hu%update_set]%bs_update_eq.
    by rewrite badgerGetSession_eq, Hp, Hu, lookup_insert_eq, Unmarshal_enc.
  - intros c c' d s Hc. destruct (bs_update _ s) as [r s'] eqn:E. apply bs_update_eq in E as [Hp Hu%update_set].
    rewrite !badgerGetSession_eq. cbn [snd]. rewrite Hp, Hu. destruct r; [|done].
    by rewrite lookup_insert_ne by (intros ?%app_inv_head; congruence).
  - intros c s s' [Hp Hu%update_delete]%bs_update_eq. by rewrite badgerGetSession_eq, Hp, Hu, lookup_delete_eq.
  - intros c c' s Hc. destruct (bs_update _ s) as [r s'] eqn:E. apply bs_update_eq in E as [Hp Hu%update_delete].
    rewrite !badgerGetSession_eq. cbn [snd]. rewrite Hp, Hu. destruct r; [|done].
    by rewrite lookup_delete_ne by (intros ?%app_inv_head; congruence).
  - intros c d s. rewrite badgerGetSession_eq, badgerIsSessionExists_eq. by destruct (_ !! _).
  - intros c s. rewrite badgerGetSession_eq, badgerIsSessionExists_eq. destruct (_ !! _); [|done].
    by intros ?%Unmarshal_error.
  - intros c d s s' e [Hp Hu%update_set]%bs_update_eq. by rewrite !badgerGetSession_eq, Hp, Hu.
  - intros c s s' e [Hp Hu%update_delete]%bs_update_eq. by rewrite !badgerGetSession_eq, Hp, Hu.
  - done.
Defined.

(** ListSessions names exactly the stored sessions, each once. *)
Lemma badgerListSessions_spec (s : @badgerSessions D) :
  exists l, badgerListSessions s = Ok l /\ NoDup l /\
    forall c, c ∈ l <-> badgerIsSessionExists c s = Ok true.
Proof.
  unfold badgerListSessions. rewrite view_snapshot. eexists. split; [done|].
  assert (forall k, k ∈ txnSeek (bs_keyPrefix s) (snapshot (bs_db s)) ->
    exists c, k = bs_keyPrefix s ++ c) as Hk.
  { by intros k [_ Hk%HasPrefix_spec]%seek_pairs. }
  split.
  - apply NoDup_fmap_2_strong; [|apply seek_nodup].
    intros k k' [c ->]%Hk [c' ->]%Hk. rewrite !TrimPrefix_app. by intros ->.
  - intros c. rewrite badgerIsSessionExists_eq, list_elem_of_fmap. split.
    + intros (k & -> & Hin). pose proof Hin as [Hs _]%seek_pairs. destruct (Hk k Hin) as [c ->].
      rewrite TrimPrefix_app. by rewrite bool_decide_eq_true_2.
    + intros E%Ok_inj%bool_decide_eq_true. exists (bs_keyPrefix s ++ c).
      split; [by rewrite TrimPrefix_app|]. apply seek_pairs. split; [done | apply HasPrefix_app].
Qed.

(** *** Messages *)

Definition badgerQueue (s : @badgerMessages D) (c : bytes) : gmap bytes Store.StoredMessage :=
  under storedMessageC (clientPrefix (bm_keyPrefix s) c) (contents (bm_db s)).

(** A message is filed under its identifier. *)
Definition filedMessages (s : @badgerMessages D) : Prop :=
  forall c i m, badgerQueue s c !! i = Some m -> Store.sm_ID m = i.

Lemma bm_update_eq f (s : @badgerMessages D) r s' :
  bm_update f s = (r, s') -> bm_keyPrefix s' = bm_keyPrefix s /\ Update f (bm_db s) = (r, bm_db s').
Proof. unfold bm_update. destruct (Update f (bm_db s)) as [r' d]. by intros [= -> <-]. Qed.

Lemma badgerGetMessage_eq c i (s : @badgerMessages D) :
  badgerGetMessage c i s =
  match contents (bm_db s) !! (clientPrefix (bm_keyPrefix s) c ++ i) with
  | None => Err ErrMessageNotFound
  | Some v => Unmarshal storedMessageC v
  end.
Proof. unfold badgerGetMessage. by rewrite view_snapshot, get_pair, messageKey_prefix. Qed.

(** Clearing the queue of [c] removes its records and no others. *)
Lemma clear_queue p c d d' keys :
  (forall k, k ∈ keys <-> is_Some (contents d !! k) /\ HasPrefix k (clientPrefix p c) = true) ->
  Update (deleteKeys keys) d = (Ok tt, d') ->
  forall c', under storedMessageC (clientPrefix p c') (contents d') =
    if decide (c' = c) then ∅ else under storedMessageC (clientPrefix p c') (contents d).
Proof.
  intros Hk (t & Ht & Ec)%update_commits c'. pose proof (deleteKeys_pairs _ _ _ Ht) as Hd. case_decide as Hc.
  - subst c'. apply map_empty. intros i. rewrite under_lookup. unfold contents. rewrite Ec, Hd.
    case_decide as Hin; [done|]. destruct (pairs (snapshot d) !! _) eqn:E; [|done].
    exfalso. apply Hin, Hk. split; [by eexists | apply HasPrefix_app].
  - apply under_ext. intros i. unfold contents. rewrite Ec, Hd. apply decide_False.
    intros [_ [t' E%clientPrefix_owner]%HasPrefix_spec]%Hk. naive_solver.
Qed.

Lemma filed_pointwise (s s' : @badgerMessages D) :
  (forall c i m, badgerQueue s' c !! i = Some m -> badgerQueue s c !! i = Some m \/ Store.sm_ID m = i) ->
  filedMessages s -> filedMessages s'.
Proof. intros Hq Hs c i m [Hm|Hm]%Hq; [by eapply Hs | done]. Qed.

#[export] Instance badger_message_laws : MessageStoreLaws (@badgerMessages D).
Proof.
  refine {| queues_ok := filedMessages; queue := badgerQueue; queueable := fits storedMessageC |};
    cbn [SaveMessage GetMessage DeleteMessage ListMessages ClearMessages badger_message_store];
    unfold badgerSaveMessage, badgerDeleteMessage, badgerClearMessages.
  - intros c m s s' Hs Hm [Hp Hu%update_set]%bm_update_eq.
    assert (forall c', badgerQueue s' c' =
      if decide (c' = c) then <[Store.sm_ID m := m]> (badgerQueue s c) else badgerQueue s c') as Hq.
    { intros c'. unfold badgerQueue. rewrite Hp, Hu. by apply queue_insert. }
    split; [|done]. eapply filed_pointwise, Hs. intros c' i m'. rewrite Hq. case_decide; [|auto]. subst.
    intros [[<- <-]|[_ ?]]%lookup_insert_Some; auto.
  - intros c i s s' Hs [Hp Hu%update_delete]%bm_update_eq.
    assert (forall c', badgerQueue s' c' = if decide (c' = c) then delete i (badgerQueue s c) else badgerQueue s c') as Hq.
    { intros c'. unfold badgerQueue. rewrite Hp, Hu. by apply queue_remove. }
    split; [|done]. eapply filed_pointwise, Hs. intros c' i' m'. rewrite Hq. case_decide; [|auto]. subst.
    intros [_ ?]%lookup_delete_Some. auto.
  - intros c s s' Hs. rewrite view_snapshot. intros [Hp Hu]%bm_update_eq.
    pose proof (clear_queue (bm_keyPrefix s) c _ _ _ (fun k => seek_pairs _ _ k) Hu) as Hq. split.
    + eapply filed_pointwise, Hs. intros c' i' m'. unfold badgerQueue. rewrite Hp, Hq. case_decide; [done|auto].
    + intros c'. unfold badgerQueue. by rewrite Hp, Hq.
  - intros c m s s' e Hs [Hp Hu%update_set]%bm_update_eq.
    assert (forall c', badgerQueue s' c' = badgerQueue s c') as Hq by (intros c'; unfold badgerQueue; by rewrite Hp, Hu).
    split; [|done]. intros c' i m'. rewrite Hq. apply Hs.
  - intros c i s s' e Hs [Hp Hu%update_delete]%bm_update_eq.
    assert (forall c', badgerQueue s' c' = badgerQueue s c') as Hq by (intros c'; unfold badgerQueue; by rewrite Hp, Hu).
    split; [|done]. intros c' i' m'. rewrite Hq. apply Hs.
  - intros c s s' e Hs. rewrite view_snapshot. intros [Hp Hu%update_fails]%bm_update_eq.
    assert (forall c', badgerQueue s' c' = badgerQueue s c') as Hq.
    { intros c'. unfold badgerQueue, contents. by rewrite Hp, Hu. }
    split; [|done]. intros c' i' m'. rewrite Hq. apply Hs.
  - intros c i s m _. rewrite badgerGetMessage_eq. unfold badgerQueue. rewrite under_lookup.
    destruct (_ !! _) as [v|]; [|done]. cbn. unfold read. by intros ->.
  - intros c i s _. rewrite badgerGetMessage_eq. unfold badgerQueue. rewrite under_lookup.
    destruct (_ !! _) as [v|]; [|done]. by intros ?%Unmarshal_error.
  - intros c s l Hs. unfold badgerListMessages. rewrite view_snapshot. intros <-%Ok_inj. split.
    + apply (readItems_nodup _ _ (clientPrefix (bm_keyPrefix s) c)); [apply seek_nodup | by intros k ?%seek_pairs | apply Hs].
    + intros m. rewrite <- (filter_all (fun _ => True) (txnSeek _ _)) by by apply Forall_true.
      rewrite readItems_under. split.
      * intros (i & _ & Hi). by rewrite (Hs c i m Hi).
      * intros Hm. eauto.
Defined.

(** *** Retained messages *)

Definition badgerTopics (s : @badgerRetained D) : gmap bytes Store.RetainedMessage :=
  under retainedMessageC (br_keyPrefix s) (contents (br_db s)).

(** A message is filed under its topic. *)
Definition filedTopics (s : @badgerRetained D) : Prop :=
  forall t m, badgerTopics s !! t = Some m -> Store.rm_Topic m = t.

Lemma br_update_eq f (s : @badgerRetained D) r s' :
  br_update f s = (r, s') -> br_keyPrefix s' = br_keyPrefix s /\ Update f (br_db s) = (r, br_db s').
Proof. unfold br_update. destruct (Update f (br_db s)) as [r' d]. by intros [= -> <-]. Qed.

Lemma badgerGetRetained_eq t (s : @badgerRetained D) :
  badgerGetRetained t s =
  match contents (br_db s) !! (br_keyPrefix s ++ t) with
  | None => Err ErrRetainedNotFound
  | Some v => Unmarshal retainedMessageC v
  end.
Proof. unfold badgerGetRetained. by rewrite view_snapshot, get_pair. Qed.

Lemma stampRetained_fits now msg : fits retainedMessageC msg -> fits retainedMessageC (stampRetained now msg).
Proof. unfold stampRetained. by destruct (Store.rm_Timestamp msg). Qed.

Lemma badgerDeleteRetained_topics t (s : @badgerRetained D) r s' :
  badgerDeleteRetained t s = (r, s') ->
  badgerTopics s' = match r with Ok _ => delete t (badgerTopics s) | Err _ => badgerTopics s end.
Proof.
  intros [Hp Hu%update_delete]%br_update_eq. unfold badgerTopics. rewrite Hp, Hu. destruct r; [|done].
  apply under_delete.
Qed.

Lemma badgerSaveRetained_topics now msg (s : @badgerRetained D) r s' :
  fits retainedMessageC msg \/ r <> Ok tt -> badgerSaveRetained now msg s = (r, s') ->
  badgerTopics s' = match r with Ok _ => retain now msg (badgerTopics s) | Err _ => badgerTopics s end.
Proof.
  unfold badgerSaveRetained, retain. intros Hm. destruct (Store.rm_Payload msg) as [|b l] eqn:El.
  - intros ->%badgerDeleteRetained_topics. by rewrite bool_decide_eq_true_2.
  - rewrite len_cons. pose proof (len_nonneg l). destruct (Z.eqb_spec (1 + len l) 0); [lia|].
    intros [Hp Hu%update_set]%br_update_eq. unfold badgerTopics. rewrite Hp, Hu, bool_decide_eq_false_2 by done.
    destruct r as [[]|]; [|done]. destruct Hm as [Hm|]; [|done]. by apply under_insert, stampRetained_fits.
Qed.

Lemma filed_retain now msg (s s' : @badgerRetained D) :
  badgerTopics s' = retain now msg (badgerTopics s) -> filedTopics s -> filedTopics s'.
Proof.
  unfold filedTopics, retain. intros -> Hs t m. case_bool_decide.
  - intros [_ Ht]%lookup_delete_Some. by apply Hs.
  - intros [[<- <-]|[_ Ht]]%lookup_insert_Some; [|by apply Hs].
    unfold stampRetained. by destruct (Store.rm_Timestamp msg).
Qed.

#[export] Instance badger_retained_laws : RetainedStoreLaws (@badgerRetained D).
Proof.
  refine {| retained_ok := filedTopics; retained := badgerTopics; retainable := fits retainedMessageC |};
    cbn [SaveRetained GetRetained DeleteRetained MatchRetained badger_retained_store].
  - intros now msg s s' Hs Hm Hr. pose proof (badgerSaveRetained_topics _ _ _ _ _ (or_introl Hm) Hr) as E.
    split; [exact (filed_retain now msg s s' E Hs) | done].
  - intros t s s' Hs E%badgerDeleteRetained_topics. split; [|done]. intros t' m. rewrite E.
    intros [_ Ht]%lookup_delete_Some. by apply Hs.
  - intros now msg s s' e Hs E. apply badgerSaveRetained_topics in E; [|by right].
    split; [|done]. intros t m. rewrite E. apply Hs.
  - intros t s s' e Hs E%badgerDeleteRetained_topics. split; [|done]. intros t' m. rewrite E. apply Hs.
  - intros t s _. rewrite badgerGetRetained_eq. unfold badgerTopics. rewrite under_lookup.
    destruct (_ !! _); [|done]. by intros ?%Unmarshal_error.
  - intros t s m _. rewrite badgerGetRetained_eq. unfold badgerTopics. rewrite under_lookup.
    destruct (_ !! _) as [v|]; [|done]. cbn. unfold read. by intros ->.
  - intros p s l Hs. unfold badgerMatchRetained. rewrite view_snapshot. intros <-%Ok_inj. split.
    + apply (readItems_nodup _ _ (br_keyPrefix s)); [apply NoDup_filter, seek_nodup | | apply Hs].
      by intros k [_ ?%seek_pairs]%list_elem_of_filter.
    + intros m. rewrite readItems_under. setoid_rewrite TrimPrefix_app. split.
      * intros (t & Hp & Ht). by rewrite (Hs t m Ht).
      * intros [Ht Hp]. eauto.
Defined.
End Laws.

(** ** A database *)

(** The simplest database that keeps the documented promises: a map. *)
Definition MapDB : Type := gmap bytes json.

#[export] Instance map_badger : Badger MapDB MapDB := {
  View A f d := f d;
  Update f d := match f d with (Ok tt, t) => (Ok tt, t) | (Err e, _) => (Err e, d) end;
  txnGet k t := Ok (t !! k);
  txnSet k v t := (Ok tt, <[k := v]> t);
  txnDelete k t := (Ok tt, delete k t);
  txnSeek p t := base.filter (fun k => HasPrefix k p = true) (fst <$> map_to_list t);
  itemValue k t := match t !! k with Some v => Ok v | None => Err ErrStoreUnavailable end;
}.

#[export] Instance map_badger_laws : BadgerLaws MapDB MapDB.
Proof.
  refine {| snapshot := id; pairs := id |}; cbn [View Update txnGet txnSet txnDelete txnSeek itemValue map_badger];
    unfold id.
  - done.
  - intros f d d'. destruct (f d) as [[[]|e] t]; intros ?; simplify_eq. by eexists.
  - intros f d d' e. destruct (f d) as [[[]|e'] t]; intros ?; by simplify_eq.
  - done.
  - by intros k v t t' [= <-].
  - by intros k t t' [= <-].
  - intros p t. apply NoDup_filter, NoDup_fst_map_to_list.
  - intros p t k. rewrite list_elem_of_filter, list_elem_of_fmap. split.
    + intros (Hp & [k' v] & -> & Hk%elem_of_map_to_list). split; [by eexists | done].
    + intros ([v Hv] & Hp). split; [done|]. exists (k, v). split; [done|by apply elem_of_map_to_list].
  - intros k t v Hv. exact (f_equal (from_option Ok (Err ErrStoreUnavailable)) Hv).
Defined.

(** ** Histories of the message queues *)

Inductive QueueOp := QueueSave (c : bytes) (m : Store.StoredMessage) | QueueDelete (c i : bytes) | QueueClear (c : bytes).

Definition stepQueue `{MessageStore MS} (op : QueueOp) (s : MS) : res unit * MS :=
  match op with
  | QueueSave c m => SaveMessage c m s
  | QueueDelete c i => DeleteMessage c i s
  | QueueClear c => ClearMessages c s
  end.

(** The specification: one map from identifiers to messages for each client. *)
Definition specQueue (op : QueueOp) (q : bytes -> gmap bytes Store.StoredMessage)
    : bytes -> gmap bytes Store.StoredMessage :=
  fun c' =>
    match op with
    | QueueSave c m => if decide (c' = c) then <[Store.sm_ID m := m]> (q c) else q c'
    | QueueDelete c i => if decide (c' = c) then delete i (q c) else q c'
    | QueueClear c => if decide (c' = c) then ∅ else q c'
    end.

(** An operation that reports an error has no effect. *)
Definition runQueue `{MessageStore MS} (st : MS * (bytes -> gmap bytes Store.StoredMessage)) (op : QueueOp)
    : MS * (bytes -> gmap bytes Store.StoredMessage) :=
  match stepQueue op st.1 with
  | (Ok _, s') => (s', specQueue op st.2)
  | (Err _, s') => (s', st.2)
  end.

Definition opFits `{MessageStoreLaws MS} (op : QueueOp) : Prop :=
  match op with QueueSave _ m => queueable m | _ => True end.

Lemma stepQueue_refines `{MessageStoreLaws MS} op (s : MS) r s' :
  queues_ok s -> opFits op -> stepQueue op s = (r, s') ->
  queues_ok s' /\ forall c, queue s' c = match r with Ok _ => specQueue op (queue s) c | Err _ => queue s c end.
Proof.
  intros Hs Hf E. destruct op as [c m|c i|c], r as [[]|e]; cbn [stepQueue specQueue opFits] in *.
  - by apply queue_save in E.
  - by apply queue_save_failed in E.
  - by apply queue_delete in E.
  - by apply queue_delete_failed in E.
  - by apply queue_clear in E.
  - by apply queue_clear_failed in E.
Qed.

Lemma runQueue_refines `{MessageStoreLaws MS} ops (s : MS) q :
  queues_ok s -> (forall c, queue s c = q c) -> Forall opFits ops ->
  let st := foldl runQueue (s, q) ops in queues_ok st.1 /\ forall c, queue st.1 c = st.2 c.
Proof.
  intros Hs Hq Hops. revert s q Hs Hq. induction Hops as [|op ops Hop Hops IH]; intros s q Hs Hq; [done|].
  cbn [foldl]. destruct (stepQueue op s) as [r s'] eqn:E.
  assert (runQueue (s, q) op = (s', match r with Ok _ => specQueue op q | Err _ => q end)) as ->.
  { unfold runQueue. cbn [fst snd]. rewrite E. by destruct r. }
  destruct (stepQueue_refines _ _ _ _ Hs Hop E) as [Hs' Hq']. destruct r; apply IH; [done| |done|].
  - intros c. rewrite Hq'. destruct op; cbn [specQueue]; case_decide; by rewrite ?Hq.
  - intros c. by rewrite Hq', Hq.
Qed.

(** ** Properties *)

(** C15: The offline queues of the Badger store are one map per client, whatever
    the client identifiers are.  After any history of saves, deletes and clears,
    each committed or refused by the database, ListMessages returns exactly the
    messages of its client, each once, and GetMessage reads that client's map: no
    client can read or clear the queue of another, also when one identifier is
    the start of the other. *)
Theorem badger_queues_refine_maps {D T} `{BadgerLaws D T} ops (s : @badgerMessages D) c :
  filedMessages s -> Forall opFits ops ->
  let '(s', q) := foldl runQueue (s, badgerQueue s) ops in
  (forall i m, GetMessage c i s' = Ok m <-> q c !! i = Some m) /\
  exists l, ListMessages c s' = Ok l /\ NoDup (Store.sm_ID <$> l) /\ forall m, m ∈ l <-> q c !! Store.sm_ID m = Some m.
Proof.
  intros Hs Hops. destruct (foldl runQueue (s, badgerQueue s) ops) as [s' q] eqn:E.
  destruct (runQueue_refines (H0 := badger_message_laws) ops s (badgerQueue s) Hs ltac:(done) Hops) as [Hs' Hq].
  rewrite E in Hs', Hq. cbn [fst snd] in Hs', Hq. split.
  - intros i m. rewrite <- Hq. cbn [GetMessage badger_message_store queue badger_message_laws].
    rewrite badgerGetMessage_eq. unfold badgerQueue. rewrite under_lookup.
    destruct (_ !! _) as [v|]; cbn; [|done]. unfold read. destruct (Unmarshal storedMessageC v); naive_solver.
  - rewrite <- Hq. destruct (ListMessages c s') as [l|e] eqn:El.
    + exists l. split; [done|]. by apply queue_list.
    + cbn in El. unfold badgerListMessages in El. by rewrite view_snapshot in El.
Qed.

Definition sample_message (id : string) : Store.StoredMessage :=
  {| Store.sm_ID := str id; Store.sm_Topic := str "t"; Store.sm_QoS := 1; Store.sm_Payload := [1];
     Store.sm_Retain := false; Store.sm_Timestamp := 5; Store.sm_ExpiresAt := None |}.

Lemma badger_queues_refine_maps_witness :
  let s := newBadgerMessages (∅ : MapDB) [] in
  let ops := [QueueSave (str "a") (sample_message "1"); QueueSave (str "a:1") (sample_message "2");
              QueueClear (str "a")] in
  let '(s', q) := foldl runQueue (s, badgerQueue s) ops in
  q (str "a:1") !! str "2" = Some (sample_message "2") /\ GetMessage (str "a:1") (str "2") s' = Ok (sample_message "2").
Proof.
  pose proof (badger_queues_refine_maps
    [QueueSave (str "a") (sample_message "1"); QueueSave (str "a:1") (sample_message "2"); QueueClear (str "a")]
    (newBadgerMessages (∅ : MapDB) []) (str "a:1")) as H.
  cbv zeta. destruct (foldl runQueue _ _) as [s' q] eqn:E.
  assert (q (str "a:1") !! str "2" = Some (sample_message "2")) as Hq.
  { transitivity ((foldl runQueue (newBadgerMessages (∅ : MapDB) [], badgerQueue (newBadgerMessages (∅ : MapDB) []))
      [QueueSave (str "a") (sample_message "1"); QueueSave (str "a:1") (sample_message "2"); QueueClear (str "a")]).2
      (str "a:1") !! str "2"); [by rewrite E | vm_compute; reflexivity]. }
  split; [exact Hq|]. apply H; [| |exact Hq].
  - intros c i m. unfold badgerQueue. rewrite under_lookup. cbn [bm_db newBadgerMessages].
    change (contents (∅ : MapDB)) with (∅ : gmap bytes json). by rewrite lookup_empty.
  - repeat constructor; vm_compute; (reflexivity || discriminate || done).
Defined.
