(* ===== verification/RedisStore.v ===== *)
(** * The Redis stores: store/redis/*.go

    Redis is a service reached through a library: the commands the stores send are
    a class, what the stores rely on is a second class, stated as Redis documents
    it.  A stored value is the JSON of Json.v; [clock] is the time of the call.  A
    SCAN loop runs at most [rounds] commands here: Redis promises that a full
    iteration ends, not how soon. *)

From S2P Require Import Prelude Utf8 Topic StoreTypes Strconv Json KeySpace.
Open Scope Z_scope.

(** ** The service *)

(** SET with an expiry (0 for none), GET ([None] for redis.Nil), DEL, one SCAN
    command with COUNT 100, MGET, EXISTS and EXPIRE. *)
Class Redis (D : Type) := {
  redisSet : bytes -> json -> Z -> D -> res unit * D;
  redisGet : bytes -> D -> res (option json);
  redisDel : list bytes -> D -> res unit * D;
  redisScan : Z -> bytes -> D -> res (list bytes * Z);
  redisMGet : list bytes -> D -> res (list (option json));
  redisExists : bytes -> D -> res Z;
  redisExpire : bytes -> Z -> D -> res unit * D;
}.

(** The part of the glob language the stores write: a byte, escaped when it is
    special, and the star. *)
Inductive token := TByte (b : Z) | TStar.

Definition globSpecial (b : Z) : bool :=
  (b =? 42) || (b =? 63) || (b =? 91) || (b =? 92).

Definition renderToken (t : token) : bytes :=
  match t with
  | TStar => [42]
  | TByte b => if globSpecial b then [92; b] else [b]
  end.

Definition render (ts : list token) : bytes := mjoin (renderToken <$> ts).

Inductive token_match : list token -> bytes -> Prop :=
  | match_end : token_match [] []
  | match_byte b ts k : token_match ts k -> token_match (TByte b :: ts) (b :: k)
  | match_star_end ts k : token_match ts k -> token_match (TStar :: ts) k
  | match_star_more b ts k : token_match (TStar :: ts) k -> token_match (TStar :: ts) (b :: k).

(** What Redis documents of a command that succeeds. *)
Class RedisLaws (D : Type) `{Redis D} := {
  live : D -> gmap bytes json;
  glob : bytes -> bytes -> bool;
  glob_tokens ts k : glob (render ts) k = true <-> token_match ts k;
  set_live k v ttl d d' : 0 <= ttl -> redisSet k v ttl d = (Ok tt, d') -> live d' = <[k := v]> (live d);
  get_live k d r : redisGet k d = Ok r -> r = live d !! k;
  del_live ks d d' : redisDel ks d = (Ok tt, d') ->
    forall k, live d' !! k = if decide (k ∈ ks) then None else live d !! k;
  mget_live ks d l : redisMGet ks d = Ok l -> l = (fun k => live d !! k) <$> ks;
  scan_live cur p d ks cur' : redisScan cur p d = Ok (ks, cur') ->
    forall k, k ∈ ks -> is_Some (live d !! k) /\ glob p k = true;
}.

Section Stores.
Context {D : Type} `{Redis D} (rounds : nat).

(** The loop of ListMessages and MatchRetained over the cursor. *)
Fixpoint scanKeys (fuel : nat) (cursor : Z) (pattern : bytes) (db : D) (keys : list bytes) : res (list bytes) :=
  match fuel with
  | O => Err (ErrText "scan has not ended")
  | S fuel' =>
      match redisScan cursor pattern db with
      | Err e => Err e
      | Ok (batch, nextCursor) =>
          if nextCursor =? 0 then Ok (keys ++ batch) else scanKeys fuel' nextCursor pattern db (keys ++ batch)
      end
  end.

(** The values of an MGet that are present and decode. *)
Definition readValues {A} (c : codec A) (vals : list (option json)) : list A :=
  omap (fun v => v ≫= read c) vals.

(** ** Messages *)

(** message_store.go, MessageStore *)
Record redisMessages := { rm_client : D; rm_keyPrefix : bytes; rm_ttl : Z; rm_clock : Z }.

(** message_store.go, NewMessageStore *)
Definition newRedisMessages (client : D) (keyPrefix : bytes) (ttl now : Z) : redisMessages :=
  {| rm_client := client; rm_keyPrefix := keyPrefixOr "mqtt:message:" keyPrefix;
     rm_ttl := if ttl =? 0 then 3600 * second else ttl; rm_clock := now |}.

Definition with_client (s : redisMessages) (r : res unit * D) : res unit * redisMessages :=
  (r.1, {| rm_client := r.2; rm_keyPrefix := rm_keyPrefix s; rm_ttl := rm_ttl s; rm_clock := rm_clock s |}).

(** The expiry of the key in SaveMessage *)
Definition messageTTL (now ttl : Z) (msg : Store.StoredMessage) : Z :=
  match Store.sm_ExpiresAt msg with
  | None => ttl
  | Some e => if 0 <? e - now then e - now else second
  end.

(** message_store.go, SaveMessage *)
Definition redisSaveMessage (clientID : bytes) (msg : Store.StoredMessage) (s : redisMessages)
    : res unit * redisMessages :=
  with_client s (redisSet (messageKey (rm_keyPrefix s) clientID (Store.sm_ID msg)) (enc storedMessageC msg)
                   (messageTTL (rm_clock s) (rm_ttl s) msg) (rm_client s)).

(** message_store.go, GetMessage *)
Definition redisGetMessage (clientID id : bytes) (s : redisMessages) : res Store.StoredMessage :=
  val ← redisGet (messageKey (rm_keyPrefix s) clientID id) (rm_client s);
  match val with
  | None => Err ErrMessageNotFound
  | Some val => Unmarshal storedMessageC val
  end.

(** message_store.go, DeleteMessage *)
Definition redisDeleteMessage (clientID id : bytes) (s : redisMessages) : res unit * redisMessages :=
  with_client s (redisDel [messageKey (rm_keyPrefix s) clientID id] (rm_client s)).

(** message_store.go, ListMessages *)
Definition redisListMessages (clientID : bytes) (s : redisMessages) : res (list Store.StoredMessage) :=
  keys ← scanKeys rounds 0 (clientPrefix (rm_keyPrefix s) clientID) (rm_client s) [];
  match keys with
  | [] => Ok []
  | _ => vals ← redisMGet keys (rm_client s); Ok (readValues storedMessageC vals)
  end.

(** The loop of ClearMessages, which deletes each batch before the next SCAN. *)
Fixpoint clearKeys (fuel : nat) (cursor : Z) (pattern : bytes) (db : D) : res unit * D :=
  match fuel with
  | O => (Err (ErrText "scan has not ended"), db)
  | S fuel' =>
      match redisScan cursor pattern db with
      | Err e => (Err e, db)
      | Ok (keys, nextCursor) =>
          match (if 0 <? len keys then redisDel keys db else (Ok tt, db)) with
          | (Err e, db') => (Err e, db')
          | (Ok _, db') => if nextCursor =? 0 then (Ok tt, db') else clearKeys fuel' nextCursor pattern db'
          end
      end
  end.

(** message_store.go, ClearMessages *)
Definition redisClearMessages (clientID : bytes) (s : redisMessages) : res unit * redisMessages :=
  with_client s (clearKeys rounds 0 (clientPrefix (rm_keyPrefix s) clientID) (rm_client s)).

Definition redis_message_store : MessageStore redisMessages := {|
  SaveMessage := redisSaveMessage;
  GetMessage := redisGetMessage;
  DeleteMessage := redisDeleteMessage;
  ListMessages := redisListMessages;
  ClearMessages := redisClearMessages;
|}.

(** ** Retained messages *)

(** retained_store.go, RetainedStore *)
Record redisRetained := { rr_client : D; rr_keyPrefix : bytes }.

(** retained_store.go, NewRetainedStore *)
Definition newRedisRetained (client : D) (keyPrefix : bytes) : redisRetained :=
  {| rr_client := client; rr_keyPrefix := keyPrefixOr "mqtt:retained:" keyPrefix |}.

Definition rr_with_client (s : redisRetained) (r : res unit * D) : res unit * redisRetained :=
  (r.1, {| rr_client := r.2; rr_keyPrefix := rr_keyPrefix s |}).

(** retained_store.go, DeleteRetained *)
Definition redisDeleteRetained (topic : bytes) (s : redisRetained) : res unit * redisRetained :=
  rr_with_client s (redisDel [prefixKey (rr_keyPrefix s) topic] (rr_client s)).

(** retained_store.go, SaveRetained *)
Definition redisSaveRetained (now : Z) (msg : Store.RetainedMessage) (s : redisRetained)
    : res unit * redisRetained :=
  if len (Store.rm_Payload msg) =? 0 then redisDeleteRetained (Store.rm_Topic msg) s
  else rr_with_client s (redisSet (prefixKey (rr_keyPrefix s) (Store.rm_Topic msg))
                           (enc retainedMessageC (stampRetained now msg)) 0 (rr_client s)).

(** retained_store.go, GetRetained *)
Definition redisGetRetained (topic : bytes) (s : redisRetained) : res Store.RetainedMessage :=
  val ← redisGet (prefixKey (rr_keyPrefix s) topic) (rr_client s);
  match val with
  | None => Err ErrRetainedNotFound
  | Some val => Unmarshal retainedMessageC val
  end.

(** retained_store.go, topicPatternToRedis *)
Fixpoint topicPatternToRedis (pattern : bytes) : bytes :=
  match pattern with
  | [] => []
  | b :: pattern' =>
      (if (b =? 35) || (b =? 43) then [42]
       else if (b =? 92) || (b =? 42) || (b =? 63) || (b =? 91) then [92; b]
       else [b]) ++ topicPatternToRedis pattern'
  end.

(** retained_store.go, MatchRetained *)
Definition redisMatchRetained (pattern : bytes) (s : redisRetained) : res (list Store.RetainedMessage) :=
  let redisPattern := rr_keyPrefix s ++ topicPatternToRedis pattern in
  keys ← scanKeys rounds 0 redisPattern (rr_client s) [];
  match keys with
  | [] => Ok []
  | _ =>
      vals ← redisMGet keys (rr_client s);
      Ok (base.filter (fun msg => MatchTopic pattern (Store.rm_Topic msg) = true) (readValues retainedMessageC vals))
  end.

(** ** Sessions *)

(** session_store.go, SessionStore *)
Record redisSessions := { rs_client : D; rs_keyPrefix : bytes; rs_ttl : Z; rs_clock : Z }.

(** session_store.go, NewSessionStore *)
Definition newRedisSessions (client : D) (keyPrefix : bytes) (ttl now : Z) : redisSessions :=
  {| rs_client := client; rs_keyPrefix := keyPrefixOr "mqtt:session:" keyPrefix;
     rs_ttl := if ttl =? 0 then 24 * 3600 * second else ttl; rs_clock := now |}.

Definition rs_with_client (s : redisSessions) (r : res unit * D) : res unit * redisSessions :=
  (r.1, {| rs_client := r.2; rs_keyPrefix := rs_keyPrefix s; rs_ttl := rs_ttl s; rs_clock := rs_clock s |}).

(** The expiry of the key in SaveSession *)
Definition sessionTTL (now ttl : Z) (data : option Store.SessionData) : Z :=
  match data with
  | None => ttl
  | Some d =>
      match Store.sd_ExpiryTime d with
      | Some e => if e - now <=? 0 then second else e - now
      | None => if 0 <? Store.sd_ExpiryInterval d then Store.sd_ExpiryInterval d * second else ttl
      end
  end.

(** session_store.go, SaveSession *)
Definition redisSaveSession (clientID : bytes) (data : option Store.SessionData) (s : redisSessions)
    : res unit * redisSessions :=
  let serialized := match data with Some d => enc sessionDataC d | None => JNull end in
  rs_with_client s (redisSet (prefixKey (rs_keyPrefix s) clientID) serialized
                      (sessionTTL (rs_clock s) (rs_ttl s) data) (rs_client s)).

(** session_store.go, GetSession *)
Definition redisGetSession (clientID : bytes) (s : redisSessions) : res Store.SessionData :=
  val ← redisGet (prefixKey (rs_keyPrefix s) clientID) (rs_client s);
  match val with
  | None => Err ErrSessionNotFound
  | Some val => Unmarshal sessionDataC val
  end.

(** session_store.go, DeleteSession *)
Definition redisDeleteSession (clientID : bytes) (s : redisSessions) : res unit * redisSessions :=
  rs_with_client s (redisDel [prefixKey (rs_keyPrefix s) clientID] (rs_client s)).

(** session_store.go, ListSessions *)
Definition redisListSessions (s : redisSessions) : res (list bytes) :=
  if bool_decide (rs_keyPrefix s = []) then Err (ErrText "cannot list sessions with empty key prefix")
  else
    keys ← scanKeys rounds 0 (rs_keyPrefix s ++ str "*") (rs_client s) [];
    Ok (map (drop (length (rs_keyPrefix s))) keys).

(** session_store.go, IsSessionExists *)
Definition redisIsSessionExists (clientID : bytes) (s : redisSessions) : res bool :=
  n ← redisExists (prefixKey (rs_keyPrefix s) clientID) (rs_client s); Ok (0 <? n).

(** session_store.go, RefreshSession *)
Definition redisRefreshSession (clientID : bytes) (ttl : Z) (s : redisSessions) : res unit * redisSessions :=
  let ttl := if ttl <=? 0 then rs_ttl s else ttl in
  if ttl <=? 0 then (Ok tt, s)
  else rs_with_client s (redisExpire (prefixKey (rs_keyPrefix s) clientID) ttl (rs_client s)).

Definition redis_session_store : SessionStore redisSessions := {|
  SaveSession := redisSaveSession;
  FetchSession := redisGetSession;
  DeleteSession := redisDeleteSession;
  ListSessionIDs := redisListSessions;
  IsSessionExists := redisIsSessionExists;
  RefreshSession := redisRefreshSession;
|}.

Definition redis_retained_store : RetainedStore redisRetained := {|
  SaveRetained := redisSaveRetained;
  GetRetained := redisGetRetained;
  DeleteRetained := redisDeleteRetained;
  MatchRetained := redisMatchRetained;
|}.
End Stores.

(** ** Globs *)

(** Bytes that are not special stand for themselves. *)
Definition literal (p : bytes) : Prop := Forall (fun b => globSpecial b = false) p.

Lemma render_literal p : literal p -> render (TByte <$> p) = p.
Proof.
  induction 1 as [|b p Hb Hp IH]; [done|]. unfold render in *. cbn [fmap list_fmap mjoin list_join renderToken].
  rewrite Hb. cbn [app]. f_equal. exact IH.
Qed.

Lemma render_app ts us : render (ts ++ us) = render ts ++ render us.
Proof. unfold render. by rewrite fmap_app, join_app. Qed.

Lemma match_bytes p ts k : token_match ((TByte <$> p) ++ ts) k <-> exists t, k = p ++ t /\ token_match ts t.
Proof.
  revert k. induction p as [|b p IH]; intros k; cbn [fmap list_fmap app].
  - split; [by exists k | by intros (t & -> & ?)].
  - split.
    + inversion 1; subst. destruct (proj1 (IH k0)) as (t & -> & Ht); [done|]. by exists t.
    + intros (t & -> & Ht). cbn [app]. constructor. apply IH. by exists t.
Qed.

Lemma match_nil k : token_match [] k <-> k = [].
Proof. split; [by inversion 1 | intros ->; constructor]. Qed.

Lemma star_app l ts k : token_match ts k -> token_match (TStar :: ts) (l ++ k).
Proof. intros H. induction l as [|b l IH]; cbn; by constructor. Qed.

(** The tokens of a topic filter. *)
Definition filterTokens (p : bytes) : list token :=
  (fun b => if (b =? hash) || (b =? plus) then TStar else TByte b) <$> p.

Lemma topicPatternToRedis_render p : topicPatternToRedis p = render (filterTokens p).
Proof.
  induction p as [|b p IH]; [done|]. cbn [topicPatternToRedis]. rewrite IH.
  change (render (filterTokens (b :: p))) with
    (renderToken (if (b =? hash) || (b =? plus) then TStar else TByte b) ++ render (filterTokens p)).
  f_equal. unfold hash, plus. destruct ((b =? 35) || (b =? 43)); [done|]. unfold renderToken, globSpecial.
  by destruct (b =? 92), (b =? 42), (b =? 63), (b =? 91).
Qed.

Lemma filterTokens_self l ts k : token_match ts k -> token_match (filterTokens l ++ ts) (l ++ k).
Proof.
  intros H. induction l as [|b l IH]; [done|]. cbn [filterTokens fmap list_fmap app].
  destruct ((b =? hash) || (b =? plus)); [apply (star_app [b]), IH | by constructor].
Qed.

Definition slashes (t : bytes) : nat := length (base.filter (fun b => b = slash) t).

Lemma split_slashes cur t : length (SplitTopic_loop cur t) = S (slashes t).
Proof.
  revert cur. induction t as [|b t IH]; intros cur; cbn [SplitTopic_loop]; [done|]. unfold slashes in *.
  destruct (Z.eqb_spec b slash) as [->|Hb].
  - cbn [length]. by rewrite IH, filter_cons_True.
  - by rewrite IH, filter_cons_False.
Qed.

(** A glob keeps the separators of the filter. *)
Lemma tokens_slashes p k : token_match (filterTokens p) k -> (slashes p <= slashes k)%nat.
Proof.
  intros H. remember (filterTokens p) as ts eqn:E. revert p E. unfold slashes.
  induction H as [|b ts k H IH|ts k H IH|b ts k H IH]; intros [|b' p] E; try discriminate; [done|..];
    cbn [filterTokens fmap list_fmap] in E; destruct ((b' =? hash) || (b' =? plus)) eqn:Eb; simplify_eq.
  - rewrite !filter_cons. specialize (IH p eq_refl). case_decide; cbn; lia.
  - rewrite filter_cons_False; [by apply IH|]. intros ->. by vm_compute in Eb.
  - rewrite (filter_cons _ b). specialize (IH (b' :: p)). cbn [filterTokens fmap list_fmap] in IH. rewrite Eb in IH.
    specialize (IH eq_refl). case_decide; cbn [length]; lia.
Qed.

Lemma hash_last ps : filter_levels ([hash] :: ps) -> ps = [].
Proof. inversion 1 as [|l Hp| |ls Hl|l ls [Hp _] Hl]; [done..|]. exfalso. apply Hp. by left. Qed.

Lemma filter_levels_tail l ps : filter_levels (l :: ps) -> ps <> [] -> filter_levels ps.
Proof. by inversion 1. Qed.

(** One level in front of a match. *)
Lemma level_tokens x y ps ts :
  (forall us k, token_match us k -> token_match (filterTokens x ++ us) (y ++ k)) ->
  (ps = [] <-> ts = []) -> (ts <> [] -> token_match (filterTokens (joinTopic ps)) (joinTopic ts)) ->
  token_match (filterTokens (joinTopic (x :: ps))) (joinTopic (y :: ts)).
Proof.
  intros Hx He Hm. destruct (decide (ts = [])) as [->|Hne].
  - rewrite (proj2 He eq_refl). cbn [joinTopic]. rewrite <- (app_nil_r (filterTokens x)), <- (app_nil_r y).
    apply Hx. constructor.
  - rewrite !joinTopic_cons by naive_solver. unfold filterTokens. rewrite fmap_app, fmap_cons.
    apply Hx. change ((slash =? hash) || (slash =? plus)) with false. constructor. by apply Hm.
Qed.

(** A topic that matches the filter level by level and has as many levels matches
    its glob. *)
Lemma levels_tokens ps ts :
  filter_levels ps -> level_match ps ts -> ts <> [] -> (length ps <= length ts)%nat ->
  token_match (filterTokens (joinTopic ps)) (joinTopic ts).
Proof.
  intros Hf Hm. revert Hf. induction Hm as [|ps ts|ps t ts Hm IH|l ps ts Hm IH]; intros Hf Hne Hl; [done|..].
  { rewrite (hash_last ps Hf), <- (app_nil_r (joinTopic ts)). apply star_app. constructor. }
  all: cbn [length] in Hl; assert (ps = [] <-> ts = []) as He by
    (split; [intros ->; by inversion Hm | intros ->; destruct ps; [done | cbn in Hl; lia]]).
  all: apply level_tokens; [|done|intros Hts; apply IH; [eapply filter_levels_tail; [done|naive_solver] | done | lia]].
  - intros us k. apply star_app.
  - intros us k. apply filterTokens_self.
Qed.

(** What the glob of a valid filter adds to the filter: only topics with at least
    as many levels. *)
Lemma filter_glob p t :
  ValidateTopicFilter p = true -> MatchTopic p t = true ->
  token_match (filterTokens p) t <-> (length (SplitTopic p) <= length (SplitTopic t))%nat.
Proof.
  intros [_ Hf]%ValidateTopicFilter_levels. rewrite MatchTopic_levels, levels_matchb_spec. intros Hm. split.
  - intros Ht%tokens_slashes. unfold SplitTopic. rewrite !split_slashes. lia.
  - intros Hl. rewrite <- (join_split p), <- (join_split t). apply levels_tokens; [done..|apply split_nonempty|done].
Qed.

(** A full iteration, from cursor 0 until the cursor is 0 again, returns every key
    that is present and matches. *)
Class FullScan (D : Type) `{RedisLaws D} :=
  full_scan fuel p d ks : scanKeys fuel 0 p d [] = Ok ks ->
    forall k, is_Some (live d !! k) -> glob p k = true -> k ∈ ks.

(** ** What the stores do *)

Section Laws.
Context {D : Type} `{RedisLaws D} (rounds : nat).

Lemma scanKeys_sound fuel cur p d acc ks :
  scanKeys fuel cur p d acc = Ok ks -> forall k, k ∈ ks -> k ∈ acc \/ is_Some (live d !! k) /\ glob p k = true.
Proof.
  revert cur acc. induction fuel as [|fuel IH]; intros cur acc; cbn [scanKeys]; [done|].
  destruct (redisScan cur p d) as [[batch next]|e] eqn:E; [|done]. pose proof (scan_live _ _ _ _ _ E) as Hb.
  assert (forall k, k ∈ acc ++ batch -> k ∈ acc \/ is_Some (live d !! k) /\ glob p k = true) as Hk.
  { intros k [?|?]%elem_of_app; auto. }
  destruct (next =? 0); [intros <-%Ok_inj; exact Hk|]. intros Hs k [Hin|?]%(IH _ _ Hs); auto.
Qed.

Lemma literal_glob p k : literal p -> glob p k = true <-> k = p.
Proof.
  intros Hp. rewrite <- (render_literal p Hp) at 1. rewrite glob_tokens.
  rewrite <- (app_nil_r (TByte <$> p)), match_bytes. setoid_rewrite match_nil. split.
  - intros (t & -> & ->). by rewrite app_nil_r.
  - intros ->. exists []. by rewrite app_nil_r.
Qed.

(** No key matches a literal pattern that is not a key. *)
Lemma scan_literal_empty fuel p d ks : literal p -> live d !! p = None -> scanKeys fuel 0 p d [] = Ok ks -> ks = [].
Proof.
  intros Hp Hn Hs. destruct ks as [|k ks]; [done|]. exfalso.
  destruct (scanKeys_sound _ _ _ _ _ _ Hs k) as [Hin|[Hl Hg]]; [by left | by apply elem_of_nil in Hin |].
  apply literal_glob in Hg as ->; [|done]. rewrite Hn in Hl. by destruct Hl.
Qed.

Lemma clear_literal fuel cur p d d' : literal p -> live d !! p = None -> clearKeys fuel cur p d = (Ok tt, d') -> d' = d.
Proof.
  intros Hp Hn. revert cur. induction fuel as [|fuel IH]; intros cur; cbn [clearKeys]; [done|].
  destruct (redisScan cur p d) as [[keys next]|e] eqn:E; [|done].
  assert (keys = []) as ->.
  { destruct keys as [|k keys]; [done|]. exfalso. destruct (scan_live _ _ _ _ _ E k) as [Hl Hg]; [by left|].
    apply literal_glob in Hg as ->; [|done]. rewrite Hn in Hl. by destruct Hl. }
  cbn [len]. change (0 <? len (@nil bytes)) with false. cbv iota. destruct (next =? 0); [by intros [= <-] | apply IH].
Qed.

(** The queue of a client whose prefix is not itself a key is not listed. *)
Lemma list_literal_empty c (s : @redisMessages D) l :
  literal (clientPrefix (rm_keyPrefix s) c) -> live (rm_client s) !! clientPrefix (rm_keyPrefix s) c = None ->
  redisListMessages rounds c s = Ok l -> l = [].
Proof.
  intros Hp Hn. unfold redisListMessages. intros (ks & Hs & Hl)%res_bind_inv.
  rewrite (scan_literal_empty _ _ _ _ Hp Hn Hs) in Hl. by apply Ok_inj in Hl.
Qed.

Lemma saved_message c m (s s' : @redisMessages D) :
  0 <= rm_ttl s -> redisSaveMessage c m s = (Ok tt, s') ->
  rm_keyPrefix s' = rm_keyPrefix s /\
  live (rm_client s') = <[clientPrefix (rm_keyPrefix s) c ++ Store.sm_ID m := enc storedMessageC m]> (live (rm_client s)).
Proof.
  intros Ht. unfold redisSaveMessage, with_client. destruct (redisSet _ _ _ _) as [r d] eqn:E. cbn [fst snd].
  intros [= -> <-]. cbn [rm_keyPrefix rm_client]. split; [done|]. rewrite <- messageKey_prefix.
  apply set_live in E; [done|]. unfold messageTTL, second. destruct (Store.sm_ExpiresAt m); [|done].
  destruct (Z.ltb_spec 0 (z - rm_clock s)); lia.
Qed.

Definition redisTopics (s : @redisRetained D) : gmap bytes Store.RetainedMessage :=
  under retainedMessageC (rr_keyPrefix s) (live (rr_client s)).

Lemma readValues_under d (ks : list bytes) m :
  m ∈ readValues retainedMessageC ((fun k => live d !! k) <$> ks) <->
  exists k, k ∈ ks /\ live d !! k ≫= read retainedMessageC = Some m.
Proof.
  unfold readValues. rewrite list_elem_of_omap. setoid_rewrite list_elem_of_fmap. split.
  - intros (v & (k & -> & Hk) & Hr). eauto.
  - intros (k & Hk & Hr). eauto 6.
Qed.
End Laws.

(** ** A server *)

(** The simplest server that keeps the documented promises: a map whose SCAN
    answers in one batch, and which expires nothing. *)
Fixpoint parseGlob (p : bytes) : list token :=
  match p with
  | [] => []
  | 42 :: p' => TStar :: parseGlob p'
  | 92 :: b :: p' => TByte b :: parseGlob p'
  | b :: p' => TByte b :: parseGlob p'
  end.

Fixpoint matchGlob (ts : list token) (k : bytes) : bool :=
  match ts with
  | [] => match k with [] => true | _ => false end
  | TByte b :: ts' => match k with b' :: k' => (b =? b') && matchGlob ts' k' | [] => false end
  | TStar :: ts' =>
      (fix star k := matchGlob ts' k || match k with _ :: k' => star k' | [] => false end) k
  end.

Lemma parseGlob_render ts : parseGlob (render ts) = ts.
Proof.
  induction ts as [|[b|] ts IH]; [done| |].
  - change (render (TByte b :: ts)) with ((if globSpecial b then [92; b] else [b]) ++ render ts).
    destruct (globSpecial b) eqn:Eb; cbn [app parseGlob]; [by rewrite IH|].
    unfold globSpecial in Eb. apply orb_false_iff in Eb as [Eb E92]. apply orb_false_iff in Eb as [Eb _].
    apply orb_false_iff in Eb as [E42 _]. apply Z.eqb_neq in E92, E42.
    repeat case_match; simplify_eq; by rewrite ?IH.
  - change (render (TStar :: ts)) with (42 :: render ts). cbn [parseGlob]. by rewrite IH.
Qed.

Lemma matchGlob_spec ts k : matchGlob ts k = true <-> token_match ts k.
Proof.
  revert k. induction ts as [|[b|] ts IH]; intros k; cbn [matchGlob].
  - rewrite match_nil. by destruct k.
  - destruct k as [|b' k]; [split; [done | by inversion 1]|]. rewrite andb_true_iff, Z.eqb_eq, IH. split.
    + intros [-> ?]. by constructor.
    + by inversion 1.
  - induction k as [|b k IHk]; rewrite orb_true_iff, IH.
    + split; [intros [?|?]; [by constructor | done] | inversion 1; by left].
    + rewrite IHk. split; [intros [?|?]; by constructor | inversion 1; auto].
Qed.

Definition MapRedis : Type := gmap bytes json.

Definition mapScan (p : bytes) (d : gmap bytes json) : list bytes :=
  base.filter (fun k => matchGlob (parseGlob p) k = true) (fst <$> map_to_list d).

#[export] Instance map_redis : Redis MapRedis := {
  redisSet k v _ d := (Ok tt, <[k := v]> d);
  redisGet k d := Ok (d !! k);
  redisDel ks d := (Ok tt, foldr delete d ks);
  redisScan _ p d := Ok (mapScan p d, 0);
  redisMGet ks d := Ok ((fun k => d !! k) <$> ks);
  redisExists k d := Ok (if decide (is_Some (d !! k)) then 1 else 0);
  redisExpire _ _ d := (Ok tt, d);
}.

Lemma mapScan_spec p d k : k ∈ mapScan p d <-> is_Some (d !! k) /\ matchGlob (parseGlob p) k = true.
Proof.
  unfold mapScan. rewrite list_elem_of_filter, list_elem_of_fmap. split.
  - intros (Hp & [k' v] & -> & Hk%elem_of_map_to_list). split; [by eexists | done].
  - intros ([v Hv] & Hp). split; [done|]. exists (k, v). split; [done|by apply elem_of_map_to_list].
Qed.

#[export] Instance map_redis_laws : RedisLaws MapRedis.
Proof.
  refine {| live := id; glob p k := matchGlob (parseGlob p) k |};
    cbn [redisSet redisGet redisDel redisScan redisMGet map_redis]; unfold id.
  - intros ts k. by rewrite parseGlob_render, matchGlob_spec.
  - by intros k v ttl d d' _ [= <-].
  - by intros k d r [= <-].
  - intros ks d d' [= <-] k. induction ks as [|k' ks IH]; cbn [foldr].
    + by rewrite decide_False by apply not_elem_of_nil.
    + destruct (decide (k = k')) as [->|Hk].
      * rewrite decide_True by left. apply lookup_delete_eq.
      * etransitivity; [by apply lookup_delete_ne|]. rewrite IH.
        destruct (decide (k ∈ ks)); [rewrite decide_True by by right | rewrite decide_False by (rewrite elem_of_cons; tauto)]; done.
  - by intros ks d l [= <-].
  - intros cur p d ks cur' [= <- <-] k. apply mapScan_spec.
Defined.

#[export] Instance map_redis_full : FullScan MapRedis.
Proof.
  intros [|fuel] p d ks; cbn [scanKeys redisScan map_redis]; [done|]. intros <-%Ok_inj k Hk Hg. by apply mapScan_spec.
Qed.

(** ** Properties *)

(** What the Redis retained store answers.  For a valid filter, and records
    filed under their topics, MatchRetained returns exactly the stored messages
    whose topics match the filter and have at least as many levels as the filter:
    the message of the parent level, which "#" also stands for, is never
    returned, because the glob the store scans with ends in a separator and a
    star. *)
Theorem redis_match_misses_parent {D} `{FullScan D} rounds (s : @redisRetained D) pattern l m :
  literal (rr_keyPrefix s) -> (forall t x, redisTopics s !! t = Some x -> Store.rm_Topic x = t) ->
  ValidateTopicFilter pattern = true -> redisMatchRetained rounds pattern s = Ok l ->
  m ∈ l <-> redisTopics s !! Store.rm_Topic m = Some m /\ MatchTopic pattern (Store.rm_Topic m) = true /\
    (length (SplitTopic pattern) <= length (SplitTopic (Store.rm_Topic m)))%nat.
Proof.
  intros Hlit Hfiled Hv. unfold redisMatchRetained. intros (ks & Hs & Hl)%res_bind_inv.
  assert (forall t, glob (rr_keyPrefix s ++ topicPatternToRedis pattern) (rr_keyPrefix s ++ t) = true <->
    token_match (filterTokens pattern) t) as Hg.
  { intros t. rewrite topicPatternToRedis_render, <- (render_literal _ Hlit) at 1.
    rewrite <- render_app, glob_tokens, match_bytes. split; [by intros (t' & ->%app_inv_head & ?) | eauto]. }
  assert (m ∈ l <-> MatchTopic pattern (Store.rm_Topic m) = true /\
    exists k, k ∈ ks /\ live (rr_client s) !! k ≫= read retainedMessageC = Some m) as ->.
  { destruct ks as [|k ks].
    - apply Ok_inj in Hl as <-. rewrite elem_of_nil. split; [done|]. intros (_ & k & Hk & _). by apply elem_of_nil in Hk.
    - apply res_bind_inv in Hl as (vals & ->%mget_live & <-%Ok_inj).
      by rewrite list_elem_of_filter, readValues_under. }
  split.
  - intros (Hm & k & Hk & Hr). destruct (scanKeys_sound _ _ _ _ _ _ Hs k Hk) as [?%elem_of_nil|[_ Hgk]]; [done|].
    rewrite topicPatternToRedis_render, <- (render_literal _ Hlit), <- render_app, glob_tokens in Hgk at 1.
    apply match_bytes in Hgk as (t & -> & Ht).
    assert (redisTopics s !! t = Some m) as Hx by (unfold redisTopics; by rewrite under_lookup).
    pose proof (Hfiled t m Hx) as Et. rewrite Et in *. split_and!; [done..|]. by apply filter_glob.
  - intros (Hx & Hm & Hlen). split; [done|]. unfold redisTopics in Hx. rewrite under_lookup in Hx.
    exists (rr_keyPrefix s ++ Store.rm_Topic m). split; [|done]. apply (full_scan _ _ _ _ Hs).
    + apply bind_Some in Hx as (v & -> & _). by eexists.
    + apply Hg, filter_glob; done.
Qed.

(** A retained message of topic "a" is not found by the filter "a/#". *)
Definition sample_retained (topic : string) : Store.RetainedMessage :=
  {| Store.rm_Topic := str topic; Store.rm_QoS := 0; Store.rm_Payload := [7]; Store.rm_Timestamp := Some 1;
     Store.rm_Properties := Store.noProperties; Store.rm_ExpiresAt := None |}.

Definition sample_redis : @redisRetained MapRedis :=
  snd (redisSaveRetained 1 (sample_retained "a/b")
    (snd (redisSaveRetained 1 (sample_retained "a") (newRedisRetained (∅ : MapRedis) [])))).

Lemma redis_match_misses_parent_witness :
  MatchTopic (str "a/#") (str "a") = true /\ redisGetRetained (str "a") sample_redis = Ok (sample_retained "a") /\
  exists l, redisMatchRetained 1 (str "a/#") sample_redis = Ok l /\ sample_retained "a/b" ∈ l /\ sample_retained "a" ∉ l.
Proof.
  split_and!; [vm_compute; reflexivity | vm_compute; reflexivity |].
  destruct (redisMatchRetained 1 (str "a/#") sample_redis) as [l|e] eqn:El; [|vm_compute in El; discriminate].
  exists l. split; [done|].
  assert (forall m, m ∈ l <-> redisTopics sample_redis !! Store.rm_Topic m = Some m /\
    MatchTopic (str "a/#") (Store.rm_Topic m) = true /\
    (length (SplitTopic (str "a/#")) <= length (SplitTopic (Store.rm_Topic m)))%nat) as H.
  { intros m. apply (redis_match_misses_parent 1 sample_redis (str "a/#") l m); [| |vm_compute; reflexivity|done].
    - repeat constructor.
    - intros t x Hx. assert (map_Forall (fun t x => Store.rm_Topic x = t) (redisTopics sample_redis)) as Hall.
      { apply map_Forall_to_list. vm_compute. repeat constructor. }
      by apply Hall. }
  split; rewrite H; [vm_compute; split_and!; [reflexivity..|lia] | vm_compute; lia].
Defined.
