(* ===== verification/PublishProps.v ===== *)
(** * Properties of a forwarded PUBLISH: broker/publish_properties.go

    The server relays the publisher's per-message properties and adds the
    Subscription Identifiers and the remaining Message Expiry Interval.  Times are
    nanoseconds, [now] is the clock of the call and [None] a zero deadline. *)

From S2P Require Import Prelude Utf8 Wire Spec Properties StoreTypes.
Open Scope Z_scope.

#[export] Instance Properties_eta : Eta Properties := fun p =>
  mkProperties (PayloadFormat p) (MessageExpiryInterval p) (ContentType p) (ResponseTopic p) (CorrelationData p)
    (SubscriptionIdentifier p) (SessionExpiryInterval p) (AssignedClientID p) (ServerKeepAlive p)
    (AuthenticationMethod p) (AuthenticationData p) (RequestProblemInfo p) (WillDelayInterval p)
    (RequestResponseInfo p) (ResponseInfo p) (ServerReference p) (ReceiveMaximum p) (TopicAliasMaximum p)
    (TopicAlias p) (MaximumQoS p) (RetainAvailable p) (UserProperties p) (MaximumPacketSize p)
    (WildcardSubAvailable p) (SubIDAvailable p) (SharedSubAvailable p) (ReasonString p).

(** publish_properties.go, remainingExpiry *)
Definition remainingExpiry (now expiresAt : Z) : Z :=
  let d := expiresAt - now in
  if d <=? 0 then 0
  else
    let d := if d <? second then second else d in
    u32 (d / second).

(** The properties of the publisher that are relayed unaltered. *)
Definition relayed (p : Properties) : Properties :=
  emptyProperties <| PayloadFormat := PayloadFormat p |> <| ContentType := ContentType p |>
    <| ResponseTopic := ResponseTopic p |> <| CorrelationData := CorrelationData p |>
    <| UserProperties := UserProperties p |>.

Definition relayable (p : Properties) : bool :=
  bool_decide (is_Some (PayloadFormat p)) || negb (bool_decide (ContentType p = [])) ||
  negb (bool_decide (ResponseTopic p = [])) || bool_decide (is_Some (CorrelationData p)) ||
  (0 <? len (UserProperties p)).

(** publish_properties.go, forwardedPublishProperties *)
Definition forwardedPublishProperties (now : Z) (inp : option Properties) (subIDs : list Z) (expiresAt : option Z)
    : option Properties :=
  let out := match inp with Some p => if relayable p then Some (relayed p) else None | None => None end in
  if (len subIDs =? 0) && bool_decide (expiresAt = None) then out
  else
    let o := default emptyProperties out <| SubscriptionIdentifier := subIDs |> in
    Some match expiresAt with
         | Some e => o <| MessageExpiryInterval := Some (remainingExpiry now e) |>
         | None => o
         end.

(** publish_properties.go, storeProperties *)
Definition storeProperties (p : option Properties) : Store.MessageProperties :=
  match p with
  | None => Store.noProperties
  | Some p =>
      {| Store.PayloadFormat := PayloadFormat p; Store.ContentType := ContentType p;
         Store.ResponseTopic := ResponseTopic p; Store.CorrelationData := CorrelationData p;
         Store.UserProperties := (fun up => {| Store.Key := Key up; Store.Value := Value up |}) <$> UserProperties p;
         Store.SubscriptionIdentifier := SubscriptionIdentifier p |}
  end.

(** publish_properties.go, protocolProperties *)
Definition protocolProperties (sp : Store.MessageProperties) : option Properties :=
  if bool_decide (Store.PayloadFormat sp = None) && bool_decide (Store.ContentType sp = []) &&
     bool_decide (Store.ResponseTopic sp = []) && bool_decide (Store.CorrelationData sp = None) &&
     (len (Store.UserProperties sp) =? 0) && (len (Store.SubscriptionIdentifier sp) =? 0)
  then None
  else Some (emptyProperties <| PayloadFormat := Store.PayloadFormat sp |>
    <| ContentType := Store.ContentType sp |> <| ResponseTopic := Store.ResponseTopic sp |>
    <| CorrelationData := Store.CorrelationData sp |>
    <| SubscriptionIdentifier := Store.SubscriptionIdentifier sp |>
    <| UserProperties :=
         (fun up => {| Key := Store.Key up; Value := Store.Value up |}) <$> Store.UserProperties sp |>).

(** ** Proofs *)

(** What survives a store: everything but the expiry interval. *)
Definition kept (p : Properties) : Properties :=
  relayed p <| SubscriptionIdentifier := SubscriptionIdentifier p |>.

Lemma user_properties_roundtrip (ups : list UserProperty) :
  (fun up => {| Key := Store.Key up; Value := Store.Value up |}) <$>
    ((fun up => {| Store.Key := Key up; Store.Value := Value up |}) <$> ups) = ups.
Proof. rewrite <- list_fmap_compose. induction ups as [|[k v] ups IH]; cbn; [done|by f_equal]. Qed.

Lemma len_0_iff {A} (l : list A) : (len l =? 0) = bool_decide (l = []).
Proof.
  destruct l; [done|]. rewrite len_cons. pose proof (len_nonneg l).
  rewrite bool_decide_eq_false_2 by done. apply Z.eqb_neq. lia.
Qed.

Lemma is_Some_None_bool {A} (o : option A) : bool_decide (is_Some o) = negb (bool_decide (o = None)).
Proof. by destruct o. Qed.

Lemma stored_roundtrip (p : Properties) :
  protocolProperties (storeProperties (Some p)) =
  if relayable p || negb (bool_decide (SubscriptionIdentifier p = [])) then Some (kept p) else None.
Proof.
  unfold protocolProperties. set (sp := storeProperties (Some p)).
  assert (forall ups, Store.UserProperties sp = ups -> (len ups =? 0) = bool_decide (UserProperties p = [])) as Hu.
  { intros ups <-. rewrite len_0_iff. unfold sp. cbn [storeProperties Store.UserProperties].
    by destruct (UserProperties p). }
  rewrite (Hu _ eq_refl), len_0_iff. subst sp.
  change (Store.PayloadFormat (storeProperties (Some p))) with (PayloadFormat p).
  change (Store.ContentType (storeProperties (Some p))) with (ContentType p).
  change (Store.ResponseTopic (storeProperties (Some p))) with (ResponseTopic p).
  change (Store.CorrelationData (storeProperties (Some p))) with (CorrelationData p).
  change (Store.SubscriptionIdentifier (storeProperties (Some p))) with (SubscriptionIdentifier p).
  change (Store.UserProperties (storeProperties (Some p))) with
    ((fun up => {| Store.Key := Key up; Store.Value := Value up |}) <$> UserProperties p).
  rewrite user_properties_roundtrip. unfold relayable.
  replace (0 <? len (UserProperties p)) with (negb (bool_decide (UserProperties p = []))).
  2:{ destruct (UserProperties p); [done|]. rewrite len_cons. pose proof (len_nonneg l). cbn [negb bool_decide].
      symmetry. apply Z.ltb_lt. lia. }
  rewrite !is_Some_None_bool.
  destruct (bool_decide (PayloadFormat p = None)), (bool_decide (ContentType p = [])),
    (bool_decide (ResponseTopic p = [])), (bool_decide (CorrelationData p = None)),
    (bool_decide (UserProperties p = [])), (bool_decide (SubscriptionIdentifier p = [])); reflexivity.
Qed.

(** ** Properties *)

(** What a delivery relays survives a store: the properties rebuilt from the
    record of a forwarded PUBLISH are those the server would forward at any later
    time, the expiry interval apart, which is kept as a deadline. *)
Theorem relay_survives_store now now' p ids e :
  protocolProperties (storeProperties (forwardedPublishProperties now p ids e)) =
  forwardedPublishProperties now' p ids None.
Proof.
  unfold forwardedPublishProperties. rewrite len_0_iff.
  set (out := match p with Some p => if relayable p then Some (relayed p) else None | None => None end).
  assert (forall m, protocolProperties (storeProperties (Some (default emptyProperties out
      <| SubscriptionIdentifier := ids |> <| MessageExpiryInterval := m |>))) =
    if bool_decide (ids = []) then out else Some (default emptyProperties out <| SubscriptionIdentifier := ids |>)) as H.
  { intros m. rewrite stored_roundtrip. subst out. destruct p as [p|]; [destruct (relayable p) eqn:E|].
    - match goal with |- (if relayable ?q || _ then _ else _) = _ => change (relayable q) with (relayable p) end.
      rewrite E. by destruct ids.
    - by destruct ids.
    - by destruct ids. }
  rewrite (bool_decide_eq_true_2 (@None Z = None)), andb_true_r by done. destruct e as [e|].
  - rewrite (bool_decide_eq_false_2 (Some e = None)), andb_false_r by done. apply H.
  - rewrite (bool_decide_eq_true_2 (@None Z = None)), andb_true_r by done.
    case_bool_decide as Hi; [|apply (H None)]. subst ids. specialize (H None). cbn [bool_decide] in H.
    destruct out as [q|] eqn:E; [|done]. etransitivity; [|exact H]. subst out. destruct p as [p|]; [|done].
    destruct (relayable p); [|done]. by apply (inj Some) in E as <-.
Qed.
