(* ===== verification/Sessions.v ===== *)
(** * Sessions: broker/session.go and broker/session_types.go

    The session record, its methods and the session manager.  A session is a
    value: a method returns the new session, and the manager's table holds the
    current one.  Times are nanoseconds ([None] for a zero [time.Time]) and [now]
    is the clock of the call.  Locks, metrics and logging are not modelled. *)

From S2P Require Import Prelude Utf8 Wire Spec Topic Properties Packets TopicTree RateLimit StoreTypes PublishProps.
Open Scope Z_scope.

(** session_types.go, State and CloseReason *)
Inductive State := StateDisconnected | StateConnecting | StateConnected | StateDisconnecting.

Inductive CloseReason :=
  | ReasonClientDisconnect | ReasonServerKick | ReasonServerShut | ReasonKeepAliveExpired
  | ReasonProtocolError | ReasonReplacedByNewConnection.

#[export] Instance State_eq_dec : EqDecision State.
Proof. solve_decision. Defined.
#[export] Instance CloseReason_eq_dec : EqDecision CloseReason.
Proof. solve_decision. Defined.

(** session_types.go, Stats; the counters are uint64 *)
Record Stats := mkStats {
  MessagesReceived : Z;
  MessagesSent : Z;
  BytesReceived : Z;
  BytesSent : Z;
  ConnectCount : Z;
  LastConnectedAt : option Z;
  stat_Subscriptions : Z;
  stat_InflightCount : Z;
}.

#[export] Instance Stats_eta : Eta Stats := fun s =>
  mkStats (MessagesReceived s) (MessagesSent s) (BytesReceived s) (BytesSent s) (ConnectCount s)
    (LastConnectedAt s) (stat_Subscriptions s) (stat_InflightCount s).

Definition zeroStats : Stats := mkStats 0 0 0 0 0 None 0 0.

(** session.go, SubscriptionOptions *)
Record SubscriptionOptions := {
  so_QoS : Z;
  so_NoLocal : bool;
  so_RetainAsPublished : bool;
  so_RetainHandling : Z;
  so_SubscriptionIdentifier : option Z;
}.

#[export] Instance SubscriptionOptions_eq_dec : EqDecision SubscriptionOptions.
Proof. solve_decision. Defined.

(** The zero value, and [SubscriptionOptions{QoS: q}]. *)
Definition qosOptions (q : Z) : SubscriptionOptions :=
  {| so_QoS := q; so_NoLocal := false; so_RetainAsPublished := false; so_RetainHandling := 0;
     so_SubscriptionIdentifier := None |}.
Definition zeroOptions : SubscriptionOptions := qosOptions 0.

(** session.go, outboundMsg *)
Record outboundMsg := {
  om_pkt : PublishPacket;
  om_deliverQoS : Z;
  om_subOpts : SubscriptionOptions;
  om_subIDs : list Z;
  om_expiresAt : option Z;
}.

Definition maxBufferedOutbound : Z := 1000.

(** session.go, InflightMsg (AckType is never set) *)
Record InflightMsg := mkInflightMsg {
  ifm_PacketID : Z;
  ifm_QoS : Z;
  ifm_Topic : bytes;
  ifm_Payload : bytes;
  ifm_Retain : bool;
  ifm_SentAt : option Z;
  ifm_ExpiresAt : option Z;
  ifm_Properties : option Properties;
  ifm_PendingPubRel : bool;
}.

#[export] Instance InflightMsg_eta : Eta InflightMsg := fun m =>
  mkInflightMsg (ifm_PacketID m) (ifm_QoS m) (ifm_Topic m) (ifm_Payload m) (ifm_Retain m) (ifm_SentAt m)
    (ifm_ExpiresAt m) (ifm_Properties m) (ifm_PendingPubRel m).

(** session.go, InboundQoS2 *)
Record InboundQoS2 := {
  iq_PacketID : Z;
  iq_QoS : Z;
  iq_Topic : bytes;
  iq_Payload : bytes;
  iq_Retain : bool;
  iq_ReceivedAt : Z;
  iq_Properties : option Properties;
}.

(** session.go, Session.  Every constructor of a session allocates its maps, so a
    nil map is an empty one. *)
Record Session := mkSession {
  ses_ClientID : bytes;
  ses_Username : bytes;
  IsClean : bool;
  ProtocolVer : Z;
  ses_KeepAlive : Z;
  ConnectedAt : option Z;
  LastActivity : option Z;
  Subscriptions : gmap bytes Z;
  SubOptions : gmap bytes SubscriptionOptions;
  Inflight : gmap Z InflightMsg;
  inboundQoS2 : gmap Z InboundQoS2;
  packetIDSeq : Z;
  ReceiveMax : Z;
  TopicAliasMax : Z;
  ClientTopicAliasMax : Z;
  OutboundWindow : Z;
  outboundUnacked : Z;
  outboundQueue : list outboundMsg;
  publishRate : option PublishRate.publishRateTracker;
  ExpiryInterval : Z;
  ses_AssignedClientID : bytes;
  ses_RequestResponseInfo : bool;
  ses_ServerKeepAlive : option Z;
  topicAliases : gmap Z bytes;
  state : State;
  closeReason : CloseReason;
  stats : Stats;
  sentCount : Z;
  sentBytes : Z;
}.

#[export] Instance Session_eta : Eta Session := fun s =>
  mkSession (ses_ClientID s) (ses_Username s) (IsClean s) (ProtocolVer s) (ses_KeepAlive s) (ConnectedAt s)
    (LastActivity s) (Subscriptions s) (SubOptions s) (Inflight s) (inboundQoS2 s) (packetIDSeq s) (ReceiveMax s)
    (TopicAliasMax s) (ClientTopicAliasMax s) (OutboundWindow s) (outboundUnacked s) (outboundQueue s)
    (publishRate s) (ExpiryInterval s) (ses_AssignedClientID s) (ses_RequestResponseInfo s) (ses_ServerKeepAlive s)
    (topicAliases s) (state s) (closeReason s) (stats s) (sentCount s) (sentBytes s).

(** session.go, (Session).Spec, on a non-nil session *)
Definition sessionSpec (s : Session) : Spec :=
  match SpecOf (ProtocolVer s) with
  | Some sp => sp
  | None => default zeroSpec (SpecOf Version311)
  end.

(** The session a composite literal starts from: the zero value with its maps
    allocated, packetIDSeq 1 and both windows at 65535. *)
Definition blankSession (clientID username : bytes) (clean : bool) (ver keepAlive : Z) : Session :=
  {| ses_ClientID := clientID; ses_Username := username; IsClean := clean; ProtocolVer := ver;
     ses_KeepAlive := keepAlive; ConnectedAt := None; LastActivity := None; Subscriptions := ∅; SubOptions := ∅;
     Inflight := ∅; inboundQoS2 := ∅; packetIDSeq := 1; ReceiveMax := 65535; TopicAliasMax := 0;
     ClientTopicAliasMax := 0; OutboundWindow := 65535; outboundUnacked := 0; outboundQueue := [];
     publishRate := None; ExpiryInterval := 0; ses_AssignedClientID := []; ses_RequestResponseInfo := false;
     ses_ServerKeepAlive := None; topicAliases := ∅; state := StateDisconnected;
     closeReason := ReasonClientDisconnect; stats := zeroStats; sentCount := 0; sentBytes := 0 |}.

(** ** Methods of a session *)

(** session.go, UpdateActivity and IsExpired *)
Definition UpdateActivity (now : Z) (s : Session) : Session := s <| LastActivity := Some now |>.

Definition IsExpired (now : Z) (s : Session) : bool :=
  if ses_KeepAlive s =? 0 then false
  else
    let timeout := ses_KeepAlive s * second * 3 / 2 in
    match LastActivity s with
    | Some t => timeout <? now - t
    | None => true
    end.

(** session.go, AddSubscriptionFilter and AddSubscription *)
Definition AddSubscriptionFilter (f : TopicFilter) (s : Session) : Session :=
  s <| Subscriptions := <[tf_Topic f := tf_QoS f]> (Subscriptions s) |>
    <| SubOptions := <[tf_Topic f :=
         {| so_QoS := tf_QoS f; so_NoLocal := NoLocal f; so_RetainAsPublished := RetainAsPublished f;
            so_RetainHandling := RetainHandling f; so_SubscriptionIdentifier := tf_SubscriptionIdentifier f |}]>
         (SubOptions s) |>.

Definition AddSubscription (topic : bytes) (qos : Z) (s : Session) : Session :=
  AddSubscriptionFilter {| tf_Topic := topic; tf_QoS := qos; NoLocal := false; RetainAsPublished := false;
                           RetainHandling := 0; tf_SubscriptionIdentifier := None |} s.

(** session.go, RemoveSubscription and HasSubscription *)
Definition RemoveSubscription (topic : bytes) (s : Session) : Session :=
  s <| Subscriptions := delete topic (Subscriptions s) |> <| SubOptions := delete topic (SubOptions s) |>.

Definition HasSubscription (topic : bytes) (s : Session) : bool :=
  bool_decide (is_Some (Subscriptions s !! topic)).

(** session.go, moreSpecific *)
Definition moreSpecific (candidate current : bytes) : bool := bytes_ltb candidate current.

(** The loop variables of matchSubscriptions. *)
Record matchAcc := {
  ma_matched : bool;
  ma_bestQoS : Z;
  ma_bestOpts : SubscriptionOptions;
  ma_bestPattern : bytes;
  ma_identifiers : list Z;
}.

Definition matchAcc0 : matchAcc :=
  {| ma_matched := false; ma_bestQoS := 0; ma_bestOpts := zeroOptions; ma_bestPattern := []; ma_identifiers := [] |}.

(** The filter a pattern is matched by: the real filter of a shared subscription. *)
Definition realPattern (pattern : bytes) : option bytes :=
  if IsSharedSubscription pattern then snd <$> ParseSharedFilter pattern else Some pattern.

Definition patternMatches (sysProtect : bool) (topic pattern : bytes) : bool :=
  match realPattern pattern with
  | None => false
  | Some rp => if sysProtect && negb (matchSysProtected rp topic) then false else MatchTopic rp topic
  end.

(** One iteration of the loop of matchSubscriptions. *)
Definition matchOne (opts : gmap bytes SubscriptionOptions) (topic : bytes) (sysProtect : bool) (acc : matchAcc)
    (e : bytes * Z) : matchAcc :=
  let '(pattern, qos) := e in
  if patternMatches sysProtect topic pattern then
    let o := default zeroOptions (opts !! pattern) in
    let better := negb (ma_matched acc) || (ma_bestQoS acc <? qos) ||
                  ((qos =? ma_bestQoS acc) && moreSpecific pattern (ma_bestPattern acc)) in
    {| ma_matched := true;
       ma_bestQoS := if better then qos else ma_bestQoS acc;
       ma_bestOpts := if better then o else ma_bestOpts acc;
       ma_bestPattern := if better then pattern else ma_bestPattern acc;
       ma_identifiers := match so_SubscriptionIdentifier o with
                         | Some id => ma_identifiers acc ++ [id]
                         | None => ma_identifiers acc
                         end |}
  else acc.

(** slices.Compact: runs of equal elements become one element. *)
Fixpoint compact (l : list Z) : list Z :=
  match l with
  | x :: ((y :: _) as l') => if x =? y then compact l' else x :: compact l'
  | _ => l
  end.

(** session.go, matchSubscriptions, iterating over the subscriptions in the order
    [entries]. *)
Definition matchEntries (s : Session) (topic : bytes) (sysProtect : bool) (entries : list (bytes * Z))
    : bool * Z * SubscriptionOptions * list Z :=
  let acc := foldl (matchOne (SubOptions s) topic sysProtect) matchAcc0 entries in
  let ids := if 1 <? len (ma_identifiers acc) then compact (merge_sort Z.le (ma_identifiers acc))
             else ma_identifiers acc in
  (ma_matched acc, ma_bestQoS acc, ma_bestOpts acc, ids).

Definition matchSubscriptions (s : Session) (topic : bytes) (sysProtect : bool) :=
  matchEntries s topic sysProtect (map_to_list (Subscriptions s)).

Definition MatchesSubscription (topic : bytes) (s : Session) := matchSubscriptions s topic false.
Definition MatchesRetainedSubscription (topic : bytes) (s : Session) := matchSubscriptions s topic true.

(** session.go, AllowsLocalPublish *)
Definition AllowsLocalPublish (topic : bytes) (s : Session) : bool :=
  let matching := base.filter (fun e => MatchTopic (fst e) topic = true) (map_to_list (Subscriptions s)) in
  existsb (fun e => match SubOptions s !! fst e with Some o => negb (so_NoLocal o) | None => true end) matching ||
  bool_decide (matching = []).

(** session.go, NextPacketID.  packetIDSeq is a uint16 that skips 0. *)
Definition incSeq (seq : Z) : Z := let n := u16 (seq + 1) in if n =? 0 then 1 else n.

Fixpoint nextPacketID_loop (attempts : nat) (inUse : gmap Z InflightMsg) (seq : Z) : Z * Z :=
  match attempts with
  | O => (seq, incSeq seq)
  | S attempts' =>
      match inUse !! seq with
      | None => (seq, incSeq seq)
      | Some _ => nextPacketID_loop attempts' inUse (incSeq seq)
      end
  end.

Definition NextPacketID (s : Session) : Z * Session :=
  let '(id, seq) := nextPacketID_loop (Z.to_nat 65535) (Inflight s) (packetIDSeq s) in
  (id, s <| packetIDSeq := seq |>).

(** session.go, AddInflight, RemoveInflight, GetInflight and InflightSnapshot *)
Definition AddInflight (msg : InflightMsg) (s : Session) : Session :=
  s <| Inflight := <[ifm_PacketID msg := msg]> (Inflight s) |>.

Definition RemoveInflight (packetID : Z) (s : Session) : bool * Session :=
  match Inflight s !! packetID with
  | None => (false, s)
  | Some _ => (true, s <| Inflight := delete packetID (Inflight s) |>)
  end.

Definition GetInflightMsg (packetID : Z) (s : Session) : option InflightMsg := Inflight s !! packetID.
Definition InflightSnapshot (s : Session) : list InflightMsg := snd <$> map_to_list (Inflight s).

(** session.go, AddInboundQoS2, HasInboundQoS2 and TakeInboundQoS2 *)
Definition AddInboundQoS2 (msg : InboundQoS2) (maxPending : Z) (s : Session) : bool * Session :=
  if (0 <? maxPending) && (maxPending <=? Z.of_nat (size (inboundQoS2 s))) then (false, s)
  else (true, s <| inboundQoS2 := <[iq_PacketID msg := msg]> (inboundQoS2 s) |>).

Definition HasInboundQoS2 (packetID : Z) (s : Session) : bool :=
  bool_decide (is_Some (inboundQoS2 s !! packetID)).

Definition TakeInboundQoS2 (packetID : Z) (s : Session) : option InboundQoS2 * Session :=
  match inboundQoS2 s !! packetID with
  | None => (None, s)
  | Some msg => (Some msg, s <| inboundQoS2 := delete packetID (inboundQoS2 s) |>)
  end.

(** session.go, MarkInflightPubRel *)
Definition MarkInflightPubRel (packetID : Z) (s : Session) : bool * Session :=
  match Inflight s !! packetID with
  | Some msg =>
      if ifm_QoS msg =? 2
      then (true, s <| Inflight := <[packetID := msg <| ifm_PendingPubRel := true |>]> (Inflight s) |>)
      else (false, s)
  | None => (false, s)
  end.

(** session.go, SetState, SetCloseReason and IsConnected *)
Definition SetState (st : State) (s : Session) : Session := s <| state := st |>.
Definition SetCloseReason (r : CloseReason) (s : Session) : Session :=
  s <| closeReason := r |> <| state := StateDisconnecting |>.
Definition IsConnected (s : Session) : bool := bool_decide (state s = StateConnected).

(** session.go, Stats, TrackReceived and TrackSent *)
Definition sessionStats (s : Session) : Stats :=
  let st := stats s in
  st <| stat_Subscriptions := Z.of_nat (size (Subscriptions s)) |>
     <| stat_InflightCount := Z.of_nat (size (Inflight s)) |>
     <| MessagesSent := u64 (MessagesSent st + sentCount s) |>
     <| BytesSent := u64 (BytesSent st + sentBytes s) |>.

Definition TrackReceived (msgSize : Z) (s : Session) : Session :=
  let st := stats s in
  s <| stats := st <| MessagesReceived := u64 (MessagesReceived st + 1) |>
                   <| BytesReceived := u64 (BytesReceived st + msgSize) |> |>.

Definition TrackSent (msgSize : Z) (s : Session) : Session :=
  s <| sentCount := u64 (sentCount s + 1) |> <| sentBytes := u64 (sentBytes s + msgSize) |>.

(** session.go, RegisterTopicAlias and ResolveTopicAlias *)
Definition RegisterTopicAlias (alias : Z) (topic : bytes) (s : Session) : res unit * Session :=
  if (TopicAliasMax s =? 0) || (TopicAliasMax s <? alias) then (Err ErrTopicAliasOutOfRange, s)
  else (Ok tt, s <| topicAliases := <[alias := topic]> (topicAliases s) |>).

Definition ResolveTopicAlias (alias : Z) (s : Session) : option bytes := topicAliases s !! alias.

(** session.go, the outbound window.  The counter is an int32; the loop of
    DecOutboundUnacked retries its compare-and-swap until it takes effect. *)
Definition CanSendOutbound (s : Session) : bool := outboundUnacked s <? OutboundWindow s.
Definition IncOutboundUnacked (s : Session) : Session := s <| outboundUnacked := i32 (outboundUnacked s + 1) |>.
Definition DecOutboundUnacked (s : Session) : Session :=
  if outboundUnacked s <=? 0 then s else s <| outboundUnacked := outboundUnacked s - 1 |>.
Definition ResetOutboundUnacked (s : Session) : Session := s <| outboundUnacked := 0 |>.

(** session.go, BufferOutbound, PopOutbound and OutboundQueueLen *)
Definition BufferOutbound (pkt : PublishPacket) (deliverQoS : Z) (subOpts : SubscriptionOptions) (subIDs : list Z)
    (expiresAt : option Z) (s : Session) : bool * Session :=
  if maxBufferedOutbound <=? len (outboundQueue s) then (false, s)
  else (true, s <| outboundQueue := outboundQueue s ++
    [{| om_pkt := pkt; om_deliverQoS := deliverQoS; om_subOpts := subOpts; om_subIDs := subIDs;
        om_expiresAt := expiresAt |}] |>).

Definition PopOutbound (s : Session) : option outboundMsg * Session :=
  match outboundQueue s with
  | [] => (None, s)
  | msg :: rest => (Some msg, s <| outboundQueue := rest |>)
  end.

Definition OutboundQueueLen (s : Session) : Z := len (outboundQueue s).

(** ** Persistence *)

Definition saveSubscription (s : Session) (e : bytes * Z) : Store.Subscription :=
  let o := default zeroOptions (SubOptions s !! fst e) in
  {| Store.sub_Topic := fst e; Store.sub_QoS := snd e; Store.sub_NoLocal := so_NoLocal o;
     Store.sub_RetainAsPublished := so_RetainAsPublished o; Store.sub_RetainHandling := so_RetainHandling o;
     Store.sub_SubscriptionIdentifier := so_SubscriptionIdentifier o |}.

Definition saveInflight (m : InflightMsg) : Store.InflightMessage :=
  {| Store.im_PacketID := ifm_PacketID m; Store.im_QoS := ifm_QoS m; Store.im_Topic := ifm_Topic m;
     Store.im_Payload := ifm_Payload m; Store.im_Retain := ifm_Retain m;
     Store.im_Properties := storeProperties (ifm_Properties m); Store.im_ExpiresAt := ifm_ExpiresAt m;
     Store.im_PendingPubRel := ifm_PendingPubRel m |}.

Definition saveInbound (m : InboundQoS2) : Store.InflightMessage :=
  {| Store.im_PacketID := iq_PacketID m; Store.im_QoS := iq_QoS m; Store.im_Topic := iq_Topic m;
     Store.im_Payload := iq_Payload m; Store.im_Retain := iq_Retain m;
     Store.im_Properties := storeProperties (iq_Properties m); Store.im_ExpiresAt := None;
     Store.im_PendingPubRel := false |}.

(** The map of the records of a snapshot, keyed by their packet ids. *)
Definition byPacketID (l : list Store.InflightMessage) : gmap Z Store.InflightMessage :=
  list_to_map ((fun m => (Store.im_PacketID m, m)) <$> l).

(** The record Save writes. *)
Definition sessionData (now : Z) (s : Session) : Store.SessionData :=
  {| Store.sd_ClientID := ses_ClientID s; Store.sd_Username := ses_Username s; Store.sd_IsClean := IsClean s;
     Store.sd_KeepAlive := ses_KeepAlive s; Store.sd_ProtocolVer := ProtocolVer s;
     Store.sd_ExpiryInterval := ExpiryInterval s;
     Store.sd_ExpiryTime := if 0 <? ExpiryInterval s then Some (now + ExpiryInterval s * second) else None;
     Store.sd_Subscriptions := saveSubscription s <$> map_to_list (Subscriptions s);
     Store.sd_Inflight := byPacketID (saveInflight <$> InflightSnapshot s);
     Store.sd_InboundQoS2 := byPacketID (saveInbound <$> (snd <$> map_to_list (inboundQoS2 s))) |}.

Definition restoreSubscription (s : Session) (sub : Store.Subscription) : Session :=
  s <| Subscriptions := <[Store.sub_Topic sub := Store.sub_QoS sub]> (Subscriptions s) |>
    <| SubOptions := <[Store.sub_Topic sub :=
         {| so_QoS := Store.sub_QoS sub; so_NoLocal := Store.sub_NoLocal sub;
            so_RetainAsPublished := Store.sub_RetainAsPublished sub;
            so_RetainHandling := Store.sub_RetainHandling sub;
            so_SubscriptionIdentifier := Store.sub_SubscriptionIdentifier sub |}]> (SubOptions s) |>.

Definition restoreInflight (m : Store.InflightMessage) : InflightMsg :=
  {| ifm_PacketID := Store.im_PacketID m; ifm_QoS := Store.im_QoS m; ifm_Topic := Store.im_Topic m;
     ifm_Payload := Store.im_Payload m; ifm_Retain := Store.im_Retain m; ifm_SentAt := None;
     ifm_ExpiresAt := Store.im_ExpiresAt m; ifm_Properties := protocolProperties (Store.im_Properties m);
     ifm_PendingPubRel := Store.im_PendingPubRel m |}.

Definition restoreInbound (now : Z) (m : Store.InflightMessage) : InboundQoS2 :=
  {| iq_PacketID := Store.im_PacketID m; iq_QoS := Store.im_QoS m; iq_Topic := Store.im_Topic m;
     iq_Payload := Store.im_Payload m; iq_Retain := Store.im_Retain m; iq_ReceivedAt := now;
     iq_Properties := protocolProperties (Store.im_Properties m) |}.

(** The session Restore builds from a record. *)
Definition restoredSession (now : Z) (d : Store.SessionData) : Session :=
  let s := blankSession (Store.sd_ClientID d) (Store.sd_Username d) (Store.sd_IsClean d) (Store.sd_ProtocolVer d)
             (Store.sd_KeepAlive d) <| ExpiryInterval := Store.sd_ExpiryInterval d |> in
  let s := foldl restoreSubscription s (Store.sd_Subscriptions d) in
  s <| Inflight := restoreInflight <$> Store.sd_Inflight d |>
    <| inboundQoS2 := restoreInbound now <$> Store.sd_InboundQoS2 d |>.

(** ** The manager *)

(** session.go, Manager.  The store is an object shared with the broker, which
    passes it to the operations that use it; the broker installs no kick callback. *)
Record Manager := mkManager { sessions : gmap bytes Session }.

#[export] Instance Manager_eta : Eta Manager := fun m => mkManager (sessions m).

Definition NewManager : Manager := mkManager ∅.

Definition with_session (clientID : bytes) (s : Session) (m : Manager) : Manager :=
  m <| sessions := <[clientID := s]> (sessions m) |>.

(** session.go, CreateSession *)
Definition resumeSession (now : Z) (pkt : ConnectPacket) (existing : Session) : Session :=
  existing <| ses_KeepAlive := KeepAlive pkt |> <| ses_Username := Username pkt |>
    <| ProtocolVer := ProtocolVersion pkt |> <| LastActivity := Some now |> <| ConnectedAt := Some now |>
    <| topicAliases := ∅ |>.

Definition newSession (now : Z) (clientID : bytes) (pkt : ConnectPacket) : Session :=
  blankSession clientID (Username pkt) (CleanSession (Flags pkt)) (ProtocolVersion pkt) (KeepAlive pkt)
    <| ConnectedAt := Some now |> <| LastActivity := Some now |> <| state := StateConnected |>
    <| stats := zeroStats <| ConnectCount := 1 |> <| LastConnectedAt := Some now |> |>
    <| publishRate := Some (PublishRate.newPublishRateTracker second now) |>.

Definition CreateSession (now : Z) (clientID : bytes) (pkt : ConnectPacket) (isResuming : bool) (m : Manager)
    : Session * Manager :=
  let fresh := newSession now clientID pkt in
  match sessions m !! clientID with
  | Some existing =>
      if negb (CleanSession (Flags pkt)) && isResuming
      then let s := resumeSession now pkt existing in (s, with_session clientID s m)
      else (fresh, with_session clientID fresh m)
  | None => (fresh, with_session clientID fresh m)
  end.

(** session.go, GetSession, RemoveSession, ListSessions and SessionExists *)
Definition GetSession (clientID : bytes) (m : Manager) : option Session := sessions m !! clientID.
Definition RemoveSession (clientID : bytes) (m : Manager) : Manager :=
  m <| sessions := delete clientID (sessions m) |>.
Definition ListSessions (m : Manager) : list bytes := fst <$> map_to_list (sessions m).
Definition SessionExists (clientID : bytes) (m : Manager) : bool :=
  bool_decide (is_Some (sessions m !! clientID)).

(** session.go, Save and Restore *)
Section Persistence.
Context {SS : Type} `{SessionStore SS}.

Definition Save (now : Z) (s : Session) (st : SS) : res unit * SS :=
  SaveSession (ses_ClientID s) (Some (sessionData now s)) st.

Definition Restore (now : Z) (clientID : bytes) (store : option SS) (m : Manager) : res Session * Manager :=
  match store with
  | None => (Err ErrStoreUnavailable, m)
  | Some st =>
      match FetchSession clientID st with
      | Err e => (Err e, m)
      | Ok d => let s := restoredSession now d in (Ok s, with_session clientID s m)
      end
  end.
End Persistence.
