(* ===== verification/SessionProofs.v ===== *)
(** * Properties of sessions

    The choice of matching subscriptions, packet identifiers, and the round trip
    of a session through any store that keeps the promises of its interface. *)

From S2P Require Import Prelude Utf8 Wire Spec Topic Properties Packets TopicTree RateLimit StoreTypes PublishProps.
From S2P Require Import MemoryStore Sessions.
Open Scope Z_scope.

(** ** Sorted identifiers *)

Lemma compact_elem l x : x ∈ compact l <-> x ∈ l.
Proof.
  induction l as [|a [|b l] IH]; [done..|]. cbn [compact] in *. destruct (Z.eqb_spec a b) as [->|Hab].
  - rewrite IH, !elem_of_cons. naive_solver.
  - rewrite elem_of_cons, IH, !elem_of_cons. done.
Qed.

Lemma compact_sorted l : StronglySorted Z.le l -> StronglySorted Z.lt (compact l).
Proof.
  induction l as [|a [|b l] IH]; [repeat constructor..|]. intros [Hs Hf]%StronglySorted_inv.
  cbn [compact] in *. destruct (Z.eqb_spec a b) as [->|Hab]; [by apply IH|]. constructor; [by apply IH|].
  apply Forall_forall. intros x Hx%(compact_elem (b :: l)). rewrite Forall_forall in Hf.
  pose proof (Hf x Hx). apply StronglySorted_inv in Hs as [_ Hb]. rewrite Forall_forall in Hb.
  apply elem_of_cons in Hx as [->|Hx]; [specialize (Hf b (list_elem_of_here _ _)); lia|].
  specialize (Hb x Hx). specialize (Hf b (list_elem_of_here _ _)). lia.
Qed.

Definition sortedIDs (l : list Z) : list Z := if 1 <? len l then compact (merge_sort Z.le l) else l.

Lemma sortedIDs_spec l : StronglySorted Z.lt (sortedIDs l) /\ forall x, x ∈ sortedIDs l <-> x ∈ l.
Proof.
  unfold sortedIDs. destruct (Z.ltb_spec 1 (len l)) as [H|H].
  - split; [apply compact_sorted, StronglySorted_merge_sort; exact _|].
    intros x. by rewrite compact_elem, merge_sort_Permutation.
  - destruct l as [|x [|y l]]; [split; [constructor|done] | split; [repeat constructor|done] |].
    rewrite !len_cons in H. pose proof (len_nonneg l). lia.
Qed.

Lemma sorted_lt_NoDup l : StronglySorted Z.lt l -> NoDup l.
Proof.
  induction 1 as [|x l _ IH Hf]; constructor; [|done]. intros Hx. rewrite Forall_forall in Hf.
  specialize (Hf x Hx). lia.
Qed.

Lemma sorted_lt_unique l l' :
  StronglySorted Z.lt l -> StronglySorted Z.lt l' -> (forall x, x ∈ l <-> x ∈ l') -> l = l'.
Proof.
  intros H1 H2 He. apply (StronglySorted_unique_strong Z.lt); [intros; lia | done | done |].
  apply NoDup_Permutation; auto using sorted_lt_NoDup.
Qed.

(** ** matchSubscriptions *)

Section Match.
Context (s : Session) (topic : bytes) (sp : bool).

Definition matching (e : bytes * Z) : Prop := patternMatches sp topic (fst e) = true.
#[local] Instance matching_dec e : Decision (matching e) := decide (_ = true).
Definition optionsOf (p : bytes) : SubscriptionOptions := default zeroOptions (SubOptions s !! p).
Definition identifiers (l : list (bytes * Z)) : list Z :=
  omap (fun e => so_SubscriptionIdentifier (optionsOf (fst e))) (base.filter matching l).

(** The winner among the matching entries: the highest QoS, then the least filter. *)
Definition best (l : list (bytes * Z)) (p : bytes) (q : Z) : Prop :=
  (p, q) ∈ l /\ matching (p, q) /\
  forall p' q', (p', q') ∈ l -> matching (p', q') -> q' < q \/ q' = q /\ bytes_le p p'.

Record acc_ok (l : list (bytes * Z)) (acc : matchAcc) : Prop := {
  acc_ids : ma_identifiers acc = identifiers l;
  acc_none : ma_matched acc = false -> acc = matchAcc0 /\ Forall (fun e => ~ matching e) l;
  acc_best : ma_matched acc = true ->
    best l (ma_bestPattern acc) (ma_bestQoS acc) /\ ma_bestOpts acc = optionsOf (ma_bestPattern acc);
}.

Lemma identifiers_snoc l e :
  identifiers (l ++ [e]) = identifiers l ++
    (if decide (matching e) then option_list (so_SubscriptionIdentifier (optionsOf (fst e))) else []).
Proof.
  unfold identifiers. rewrite filter_app, omap_app. f_equal. rewrite filter_cons, filter_nil.
  case_decide; [|done]. cbn. by destruct (so_SubscriptionIdentifier _).
Qed.

Lemma best_snoc_other l e p q : best l p q -> ~ matching e -> best (l ++ [e]) p q.
Proof.
  intros (H1 & H2 & H3) He. split_and!; [apply elem_of_app; auto | done |].
  intros p' q' [?| ->%list_elem_of_singleton]%elem_of_app Hm; [eauto | done].
Qed.

Lemma matchOne_ok l acc e : acc_ok l acc -> acc_ok (l ++ [e]) (matchOne (SubOptions s) topic sp acc e).
Proof.
  destruct e as [p q]. intros [Hids Hnone Hbest]. unfold matchOne.
  destruct (patternMatches sp topic p) eqn:Hm.
  2:{ assert (~ matching (p, q)) as Hn by (unfold matching; cbn; congruence). split.
      - by rewrite identifiers_snoc, decide_False, app_nil_r.
      - intros H. destruct (Hnone H). split; [done|]. apply Forall_app. auto.
      - intros H. destruct (Hbest H). auto using best_snoc_other. }
  fold (optionsOf p). split; cbn [ma_matched ma_identifiers ma_bestPattern ma_bestQoS ma_bestOpts]; [|done|intros _].
  - rewrite identifiers_snoc, decide_True by done. cbn [fst]. rewrite Hids.
    destruct (so_SubscriptionIdentifier _); [done|by rewrite app_nil_r].
  - assert (forall b : bool, (b = true -> best (l ++ [(p, q)]) p q) ->
      (b = false -> best (l ++ [(p, q)]) (ma_bestPattern acc) (ma_bestQoS acc) /\
                    ma_bestOpts acc = optionsOf (ma_bestPattern acc)) ->
      best (l ++ [(p, q)]) (if b then p else ma_bestPattern acc) (if b then q else ma_bestQoS acc) /\
      (if b then optionsOf p else ma_bestOpts acc) = optionsOf (if b then p else ma_bestPattern acc)) as Hcase.
    { intros [] H1 H2; auto. }
    apply Hcase; clear Hcase; intros Hb.
    + split_and!; [apply elem_of_app; right; by apply list_elem_of_singleton | done |].
      intros p' q' [Hin|[= -> ->]%list_elem_of_singleton]%elem_of_app Hm'; [|right; split; [done|apply bytes_le_cases; auto]].
      destruct (ma_matched acc) eqn:Hacc.
      * destruct (Hbest eq_refl) as [(_ & _ & Hall) _]. specialize (Hall p' q' Hin Hm'). cbn [negb orb] in Hb.
        apply orb_true_iff in Hb as [Hlt%Z.ltb_lt|[Heq%Z.eqb_eq Hsp]%andb_true_iff]; [left; lia|].
        destruct Hall as [?|[? Hle]]; [left; lia|]. right. split; [lia|].
        etransitivity; [|exact Hle]. apply bytes_le_cases. by left.
      * destruct (Hnone eq_refl) as [_ Hf]. rewrite Forall_forall in Hf. by specialize (Hf _ Hin).
    + apply orb_false_iff in Hb as [[Hacc%negb_false_iff Hlt%Z.ltb_ge]%orb_false_iff Hsp].
      destruct (Hbest Hacc) as [(Hin & Hm' & Hall) Ho]. split; [|done].
      split_and!; [apply elem_of_app; auto | done |].
      intros p' q' [?|[= -> ->]%list_elem_of_singleton]%elem_of_app Hm''; [eauto|].
      destruct (Z.eqb_spec q (ma_bestQoS acc)); [|left; lia]. right. split; [done|]. exact Hsp.
Qed.

Lemma matchEntries_acc l : acc_ok l (foldl (matchOne (SubOptions s) topic sp) matchAcc0 l).
Proof.
  induction l as [|e l IH] using rev_ind; [by split|]. rewrite foldl_app. by apply matchOne_ok.
Qed.

Lemma best_unique l p q p' q' : best l p q -> best l p' q' -> p = p' /\ q = q'.
Proof.
  intros (H1 & H2 & H3) (H1' & H2' & H3'). specialize (H3 _ _ H1' H2'). specialize (H3' _ _ H1 H2).
  destruct H3 as [?|[-> Ha]], H3' as [?|[? Hb]]; try lia. split; [|done].
  apply bytes_le_cases in Ha as [Ha|?]; [|done]. unfold bytes_le in Hb. congruence.
Qed.

Lemma best_perm l l' p q : l ≡ₚ l' -> best l p q -> best l' p q.
Proof.
  intros Hp (H1 & H2 & H3). split_and!; [by rewrite <- Hp | done |].
  intros p' q' Hin. apply H3. by rewrite Hp.
Qed.

Lemma matchEntries_perm l l' : l ≡ₚ l' -> matchEntries s topic sp l = matchEntries s topic sp l'.
Proof.
  intros Hp. destruct (matchEntries_acc l) as [I N B], (matchEntries_acc l') as [I' N' B']. unfold matchEntries.
  set (a := foldl _ _ l) in *. set (a' := foldl _ _ l') in *.
  fold (sortedIDs (ma_identifiers a)) (sortedIDs (ma_identifiers a')).
  assert (sortedIDs (ma_identifiers a) = sortedIDs (ma_identifiers a')) as ->.
  { destruct (sortedIDs_spec (ma_identifiers a)) as [S1 E1], (sortedIDs_spec (ma_identifiers a')) as [S2 E2].
    apply sorted_lt_unique; [done..|]. intros x. rewrite E1, E2, I, I'. unfold identifiers. by rewrite Hp. }
  assert (ma_matched a = ma_matched a') as Hm.
  { destruct (ma_matched a) eqn:Ea, (ma_matched a') eqn:Ea'; try done; exfalso.
    - destruct (B eq_refl) as [(Hin & Hma & _) _], (N' eq_refl) as [_ Hf]. rewrite Forall_forall in Hf.
      rewrite Hp in Hin. by apply (Hf _ Hin).
    - destruct (B' eq_refl) as [(Hin & Hma & _) _], (N eq_refl) as [_ Hf]. rewrite Forall_forall in Hf.
      rewrite <- Hp in Hin. by apply (Hf _ Hin). }
  rewrite <- Hm in *. destruct (ma_matched a) eqn:Ea.
  - destruct (B eq_refl) as [Hb ->], (B' eq_refl) as [Hb' ->].
    by destruct (best_unique _ _ _ _ _ (best_perm _ _ _ _ Hp Hb) Hb') as [-> ->].
  - by destruct (N eq_refl) as [-> _], (N' eq_refl) as [-> _].
Qed.
End Match.

(** ** NextPacketID *)

Definition valid_id (id : Z) : Prop := 1 <= id <= 65535.

(** The [k]-th identifier tried from [seq]: the identifiers go round 1..65535. *)
Definition nth_id (seq k : Z) : Z := (seq - 1 + k) mod 65535 + 1.

Lemma incSeq_eq seq : valid_id seq -> incSeq seq = nth_id seq 1 /\ valid_id (incSeq seq).
Proof.
  unfold valid_id, incSeq, nth_id, u16. intros H. destruct (Z.eq_dec seq 65535) as [->|Hne].
  - by vm_compute.
  - rewrite !(Z.mod_small (seq + 1)), Z.mod_small by lia. destruct (Z.eqb_spec (seq + 1) 0); lia.
Qed.

Lemma nth_id_inc seq k : valid_id seq -> nth_id (incSeq seq) k = nth_id seq (k + 1).
Proof.
  intros Hs. destruct (incSeq_eq seq Hs) as [-> _]. unfold nth_id.
  replace ((seq - 1 + 1) mod 65535 + 1 - 1 + k) with ((seq - 1 + 1) mod 65535 + k) by lia.
  rewrite Zplus_mod_idemp_l. do 2 f_equal. lia.
Qed.

Lemma nth_id_0 seq : valid_id seq -> nth_id seq 0 = seq.
Proof. unfold valid_id, nth_id. intros. rewrite Z.mod_small; lia. Qed.

Lemma nextPacketID_loop_spec n inUse seq :
  valid_id seq ->
  let '(id, seq') := nextPacketID_loop n inUse seq in
  valid_id id /\ valid_id seq' /\
  (inUse !! id = None \/ forall k, 0 <= k < Z.of_nat n -> is_Some (inUse !! nth_id seq k)).
Proof.
  revert seq. induction n as [|n IH]; intros seq Hs; cbn [nextPacketID_loop].
  - split_and!; [done | by apply incSeq_eq | right; lia].
  - destruct (inUse !! seq) as [m|] eqn:Hm; [|split_and!; [done | by apply incSeq_eq | by left]].
    specialize (IH (incSeq seq) (proj2 (incSeq_eq seq Hs))).
    destruct (nextPacketID_loop n inUse (incSeq seq)) as [id seq'].
    destruct IH as (H1 & H2 & [H3|H3]); split_and!; try done; [by left|right].
    intros k Hk. destruct (Z.eq_dec k 0) as [->|]; [rewrite nth_id_0 by done; eauto|].
    replace k with (k - 1 + 1) by lia. rewrite <- nth_id_inc by done. apply H3. lia.
Qed.

Lemma all_ids_used (inUse : gmap Z InflightMsg) seq :
  valid_id seq -> (forall k, 0 <= k < 65535 -> is_Some (inUse !! nth_id seq k)) -> 65535 <= Z.of_nat (size inUse).
Proof.
  intros Hs Hall. rewrite <- (size_dom inUse).
  assert (list_to_set (seqZ 1 65535) ⊆ dom inUse) as Hsub.
  { intros x [Hx1 Hx2]%elem_of_list_to_set%elem_of_seqZ. apply elem_of_dom.
    specialize (Hall ((x - seq) mod 65535) (Z.mod_pos_bound (x - seq) 65535 eq_refl)). unfold nth_id in Hall.
    rewrite Zplus_mod_idemp_r in Hall. replace (seq - 1 + (x - seq)) with (x - 1) in Hall by lia.
    rewrite Z.mod_small in Hall by lia. by replace (x - 1 + 1) with x in Hall by lia. }
  apply subseteq_size in Hsub. rewrite size_list_to_set in Hsub by apply NoDup_seqZ.
  rewrite length_seqZ in Hsub. lia.
Qed.

Lemma NextPacketID_spec s :
  valid_id (packetIDSeq s) -> Z.of_nat (size (Inflight s)) < 65535 ->
  let '(id, s') := NextPacketID s in
  valid_id id /\ Inflight s !! id = None /\ valid_id (packetIDSeq s') /\ s' = s <| packetIDSeq := packetIDSeq s' |>.
Proof.
  intros Hs Hsize. unfold NextPacketID.
  pose proof (nextPacketID_loop_spec (Z.to_nat 65535) (Inflight s) (packetIDSeq s) Hs) as H.
  destruct (nextPacketID_loop _ _ _) as [id seq']. destruct H as (H1 & H2 & [H3|H3]); [done|].
  rewrite Z2Nat.id in H3 by lia. pose proof (all_ids_used (Inflight s) (packetIDSeq s) Hs H3). exfalso. lia.
Qed.

(** ** The invariant of a session *)

Record session_ok (s : Session) : Prop := {
  ok_seq : valid_id (packetIDSeq s);
  ok_options p : so_QoS <$> SubOptions s !! p = Subscriptions s !! p;
  ok_inflight id m : Inflight s !! id = Some m -> ifm_PacketID m = id /\ valid_id id;
  ok_inbound id m : inboundQoS2 s !! id = Some m -> iq_PacketID m = id;
  ok_unacked : 0 <= outboundUnacked s <= 65535;
  ok_queue : len (outboundQueue s) <= maxBufferedOutbound;
}.

Create HintDb session.

Lemma ok_blank c u clean v k : session_ok (blankSession c u clean v k).
Proof. split; cbn; try done; unfold valid_id; try lia. Qed.

Lemma ok_AddSubscriptionFilter f s : session_ok s -> session_ok (AddSubscriptionFilter f s).
Proof.
  intros [H1 H2 H3 H4 H5 H6]. split; [exact H1 | | exact H3 | exact H4 | exact H5 | exact H6].
  intros p. unfold AddSubscriptionFilter, set_field. cbn [SubOptions Subscriptions].
  destruct (decide (p = tf_Topic f)) as [->|Hp]; [by rewrite !lookup_insert_eq|].
  rewrite !lookup_insert_ne by done. apply H2.
Qed.

Lemma ok_RemoveSubscription t s : session_ok s -> session_ok (RemoveSubscription t s).
Proof.
  intros [H1 H2 H3 H4 H5 H6]. split; [exact H1 | | exact H3 | exact H4 | exact H5 | exact H6].
  intros p. unfold RemoveSubscription, set_field. cbn [SubOptions Subscriptions].
  destruct (decide (p = t)) as [->|Hp]; [by rewrite !lookup_delete_eq|].
  rewrite !lookup_delete_ne by done. apply H2.
Qed.

Lemma ok_AddInflight m s : valid_id (ifm_PacketID m) -> session_ok s -> session_ok (AddInflight m s).
Proof.
  intros Hm [H1 H2 H3 H4 H5 H6]. split; [exact H1 | exact H2 | | exact H4 | exact H5 | exact H6].
  intros id m'. unfold AddInflight, set_field. cbn [Inflight].
  intros [[<- <-]|[_ ?]]%lookup_insert_Some; [done|by apply H3].
Qed.

Lemma ok_RemoveInflight id s : session_ok s -> session_ok (snd (RemoveInflight id s)).
Proof.
  intros Hs. unfold RemoveInflight. destruct (Inflight s !! id); [|done]. destruct Hs as [H1 H2 H3 H4 H5 H6].
  split; [exact H1 | exact H2 | | exact H4 | exact H5 | exact H6].
  intros id' m'. unfold set_field. cbn [snd Inflight inboundQoS2]. intros [_ ?]%lookup_delete_Some. by apply H3.
Qed.

Lemma ok_MarkInflightPubRel id s : session_ok s -> session_ok (snd (MarkInflightPubRel id s)).
Proof.
  intros Hs. unfold MarkInflightPubRel. destruct (Inflight s !! id) as [m|] eqn:Hm; [|done].
  destruct (ifm_QoS m =? 2); [|done]. destruct Hs as [H1 H2 H3 H4 H5 H6].
  split; [exact H1 | exact H2 | | exact H4 | exact H5 | exact H6].
  intros id' m'. unfold set_field. cbn [snd Inflight inboundQoS2]. intros [[<- <-]|[_ ?]]%lookup_insert_Some; [exact (H3 _ _ Hm)|by apply H3].
Qed.

Lemma ok_AddInboundQoS2 m k s : session_ok s -> session_ok (snd (AddInboundQoS2 m k s)).
Proof.
  intros Hs. unfold AddInboundQoS2. destruct (_ && _); [done|]. destruct Hs as [H1 H2 H3 H4 H5 H6].
  split; [exact H1 | exact H2 | exact H3 | | exact H5 | exact H6].
  intros id m'. unfold set_field. cbn [snd inboundQoS2]. intros [[<- <-]|[_ ?]]%lookup_insert_Some; [done|by apply H4].
Qed.

Lemma ok_TakeInboundQoS2 id s : session_ok s -> session_ok (snd (TakeInboundQoS2 id s)).
Proof.
  intros Hs. unfold TakeInboundQoS2. destruct (inboundQoS2 s !! id); [|done]. destruct Hs as [H1 H2 H3 H4 H5 H6].
  split; [exact H1 | exact H2 | exact H3 | | exact H5 | exact H6].
  intros id' m'. unfold set_field. cbn [snd Inflight inboundQoS2]. intros [_ ?]%lookup_delete_Some. by apply H4.
Qed.

Lemma i32_small x : -2147483648 <= x < 2147483648 -> i32 x = x.
Proof. intros. unfold i32. rewrite Z.mod_small; lia. Qed.

Lemma ok_IncOutboundUnacked s : outboundUnacked s < 65535 -> session_ok s -> session_ok (IncOutboundUnacked s).
Proof.
  intros Hlt [H1 H2 H3 H4 H5 H6]. split; [exact H1 | exact H2 | exact H3 | exact H4 | | exact H6].
  unfold IncOutboundUnacked, set_field. cbn [outboundUnacked]. rewrite i32_small; lia.
Qed.

Lemma ok_DecOutboundUnacked s : session_ok s -> session_ok (DecOutboundUnacked s).
Proof.
  intros Hs. unfold DecOutboundUnacked. destruct (Z.leb_spec (outboundUnacked s) 0); [done|].
  destruct Hs as [H1 H2 H3 H4 H5 H6]. split; [exact H1 | exact H2 | exact H3 | exact H4 | | exact H6].
  unfold set_field. cbn [outboundUnacked]. lia.
Qed.

Lemma ok_BufferOutbound pkt q o ids e s : session_ok s -> session_ok (snd (BufferOutbound pkt q o ids e s)).
Proof.
  intros Hs. unfold BufferOutbound. destruct (Z.leb_spec maxBufferedOutbound (len (outboundQueue s))); [done|].
  destruct Hs as [H1 H2 H3 H4 H5 H6]. split; [exact H1 | exact H2 | exact H3 | exact H4 | exact H5 |].
  unfold set_field. cbn [snd outboundQueue]. rewrite len_app, len_single. lia.
Qed.

Lemma ok_PopOutbound s : session_ok s -> session_ok (snd (PopOutbound s)).
Proof.
  intros Hs. unfold PopOutbound. destruct (outboundQueue s) as [|m q] eqn:E; [done|].
  destruct Hs as [H1 H2 H3 H4 H5 H6]. split; [exact H1 | exact H2 | exact H3 | exact H4 | exact H5 |].
  unfold set_field. cbn [snd outboundQueue]. rewrite E, len_cons in H6. lia.
Qed.

Lemma ok_TrackSent n s : session_ok s -> session_ok (TrackSent n s).
Proof. intros [H1 H2 H3 H4 H5 H6]. split; assumption. Qed.

#[export] Hint Resolve ok_TrackSent ok_blank ok_AddSubscriptionFilter ok_RemoveSubscription ok_AddInflight ok_RemoveInflight
  ok_MarkInflightPubRel ok_AddInboundQoS2 ok_TakeInboundQoS2 ok_IncOutboundUnacked ok_DecOutboundUnacked
  ok_BufferOutbound ok_PopOutbound : session.

(** ** Save and Restore *)

(** What a message in flight is after a restart. *)
Definition surviving (m : InflightMsg) : InflightMsg :=
  m <| ifm_SentAt := None |> <| ifm_Properties := protocolProperties (storeProperties (ifm_Properties m)) |>.
Definition survivingInbound (now : Z) (m : InboundQoS2) : InboundQoS2 :=
  {| iq_PacketID := iq_PacketID m; iq_QoS := iq_QoS m; iq_Topic := iq_Topic m; iq_Payload := iq_Payload m;
     iq_Retain := iq_Retain m; iq_ReceivedAt := now;
     iq_Properties := protocolProperties (storeProperties (iq_Properties m)) |}.

(** The session state a restart keeps: subscriptions with their options, both
    tables of unfinished exchanges, the identity and the expiry. *)
Definition afterRestart (now : Z) (s : Session) : Session :=
  blankSession (ses_ClientID s) (ses_Username s) (IsClean s) (ProtocolVer s) (ses_KeepAlive s)
    <| ExpiryInterval := ExpiryInterval s |> <| Subscriptions := Subscriptions s |> <| SubOptions := SubOptions s |>
    <| Inflight := surviving <$> Inflight s |> <| inboundQoS2 := survivingInbound now <$> inboundQoS2 s |>.

Lemma byPacketID_saved {A} (f : A -> Store.InflightMessage) (m : gmap Z A) :
  (forall id x, m !! id = Some x -> Store.im_PacketID (f x) = id) ->
  byPacketID (f <$> (snd <$> map_to_list m)) = f <$> m.
Proof.
  intros Hid. unfold byPacketID. rewrite <- !list_fmap_compose.
  rewrite <- (list_to_map_to_list (f <$> m)), map_to_list_fmap. f_equal.
  apply list_fmap_ext. intros _ [id x] Hin%list_elem_of_lookup_2%elem_of_map_to_list. cbn. by rewrite (Hid _ _ Hin).
Qed.

Lemma restoreSubscription_fold s s0 l :
  NoDup (fst <$> l) ->
  (forall e, e ∈ l -> so_QoS (optionsOf s (fst e)) = snd e) ->
  foldl restoreSubscription s0 (saveSubscription s <$> l) =
  s0 <| Subscriptions := list_to_map l ∪ Subscriptions s0 |>
     <| SubOptions := list_to_map ((fun e => (fst e, optionsOf s (fst e))) <$> l) ∪ SubOptions s0 |>.
Proof.
  revert s0. induction l as [|[p q] l IH]; intros s0 Hnd Hq; cbn [foldl fmap list_fmap].
  - cbn. rewrite !(left_id_L ∅ (∪)). by destruct s0.
  - apply NoDup_cons in Hnd as [Hp Hnd]. rewrite IH; [|done|intros e He; apply Hq; by right].
    cbn [fst snd list_to_map foldr uncurry]. rewrite <- !insert_union_l, !insert_union_r.
    + unfold restoreSubscription, set_field. cbn. specialize (Hq (p, q) (list_elem_of_here _ _)). cbn in Hq.
      unfold saveSubscription. cbn. rewrite <- Hq.
      unfold optionsOf. by destruct (default zeroOptions (SubOptions s !! p)).
    + by apply not_elem_of_list_to_map_1.
    + apply not_elem_of_list_to_map_1. change (p ∉ fst <$> ((fun e => (fst e, optionsOf s (fst e))) <$> l)).
      by rewrite <- list_fmap_compose.
Qed.

Lemma options_list s :
  session_ok s ->
  list_to_map ((fun e => (fst e, optionsOf s (fst e))) <$> map_to_list (Subscriptions s)) = SubOptions s.
Proof.
  intros Hs. pose proof (ok_options s Hs) as Ho. apply map_eq. intros p. apply option_eq. intros o.
  rewrite <- elem_of_list_to_map.
  2:{ rewrite <- list_fmap_compose. apply NoDup_fst_map_to_list. }
  rewrite list_elem_of_fmap. specialize (Ho p). unfold optionsOf. split.
  - intros ([p' q] & [= -> ->] & Hin%elem_of_map_to_list). cbn [fst] in *. rewrite Hin in Ho.
    by destruct (SubOptions s !! p').
  - intros Hp. rewrite Hp in Ho. exists (p, so_QoS o). cbn [fst]. rewrite Hp. split; [done|].
    by apply elem_of_map_to_list.
Qed.

Lemma restoredSession_saved now now' s :
  session_ok s -> restoredSession now' (sessionData now s) = afterRestart now' s.
Proof.
  intros Hs. unfold restoredSession, sessionData.
  cbn [Store.sd_ClientID Store.sd_Username Store.sd_IsClean Store.sd_KeepAlive Store.sd_ProtocolVer
    Store.sd_ExpiryInterval Store.sd_Subscriptions Store.sd_Inflight Store.sd_InboundQoS2].
  assert (forall p q, Subscriptions s !! p = Some q -> so_QoS (optionsOf s p) = q) as Hq.
  { intros p q Hp. pose proof (ok_options s Hs p) as Ho. rewrite Hp in Ho. unfold optionsOf.
    destruct (SubOptions s !! p); by inversion Ho. }
  rewrite restoreSubscription_fold; [|apply NoDup_fst_map_to_list|].
  2:{ intros [p q] Hin%elem_of_map_to_list. by apply Hq. }
  rewrite options_list, list_to_map_to_list by done. unfold InflightSnapshot.
  rewrite !byPacketID_saved; [| intros id m Hm; cbn; by apply (ok_inflight s Hs) | intros id m Hm; cbn; by apply (ok_inbound s Hs)].
  rewrite <- !map_fmap_compose. unfold afterRestart.
  change (Subscriptions (blankSession _ _ _ _ _ <| ExpiryInterval := _ |>)) with (∅ : gmap bytes Z).
  change (SubOptions (blankSession _ _ _ _ _ <| ExpiryInterval := _ |>)) with (∅ : gmap bytes SubscriptionOptions).
  by rewrite !(right_id_L ∅ (∪)).
Qed.

(** ** Properties *)

Lemma identifiers_elem s topic sp l id :
  id ∈ identifiers s topic sp l <->
  exists p q, (p, q) ∈ l /\ patternMatches sp topic p = true /\ so_SubscriptionIdentifier (optionsOf s p) = Some id.
Proof.
  unfold identifiers. rewrite list_elem_of_omap. setoid_rewrite list_elem_of_filter. split.
  - intros ([p q] & [Hm Hin] & Hid). eauto.
  - intros (p & q & Hin & Hm & Hid). exists (p, q). auto.
Qed.

(** What a session says about a topic does not depend on the order in which
    its subscriptions are visited: it matches when one of its filters matches
    (under the protection of "$" topics, if asked for); the QoS is the highest of
    the matching filters, the options are those of the least filter with that
    QoS; and the identifiers are those of all matching subscriptions, each once,
    in increasing order. *)
Theorem matchSubscriptions_exact s topic sp entries :
  entries ≡ₚ map_to_list (Subscriptions s) ->
  let matches p q := Subscriptions s !! p = Some q /\ patternMatches sp topic p = true in
  let options p := default zeroOptions (SubOptions s !! p) in
  exists m q o ids,
    matchSubscriptions s topic sp = (m, q, o, ids) /\ matchEntries s topic sp entries = (m, q, o, ids) /\
    (m = true <-> exists p q', matches p q') /\ (m = false -> q = 0 /\ o = zeroOptions) /\
    (m = true -> exists p, matches p q /\ o = options p /\
       forall p' q', matches p' q' -> q' < q \/ q' = q /\ bytes_le p p') /\
    StronglySorted Z.lt ids /\
    forall id, id ∈ ids <-> exists p q', matches p q' /\ so_SubscriptionIdentifier (options p) = Some id.
Proof.
  intros Hp matches options. set (l := map_to_list (Subscriptions s)).
  assert (forall p q, (p, q) ∈ l <-> Subscriptions s !! p = Some q) as Hl by (intros; apply elem_of_map_to_list).
  destruct (matchEntries_acc s topic sp l) as [Hi Hn Hb].
  set (acc := foldl (matchOne (SubOptions s) topic sp) matchAcc0 l) in *.
  exists (ma_matched acc), (ma_bestQoS acc), (ma_bestOpts acc), (sortedIDs (ma_identifiers acc)).
  destruct (sortedIDs_spec (ma_identifiers acc)) as [Hsort Hel].
  split_and!; [done | rewrite (matchEntries_perm s topic sp _ l Hp); done | | | | done |].
  - split.
    + intros H. destruct (Hb H) as [(Hin & Hm & _) _]. exists (ma_bestPattern acc), (ma_bestQoS acc). by rewrite Hl in Hin.
    + intros (p & q & Hpq & Hm). destruct (ma_matched acc) eqn:E; [done|]. destruct (Hn eq_refl) as [_ Hf].
      rewrite Forall_forall in Hf. by destruct (Hf (p, q)); [apply Hl|].
  - intros H. by destruct (Hn H) as [-> _].
  - intros H. destruct (Hb H) as [(Hin & Hm & Hall) Ho]. exists (ma_bestPattern acc). rewrite Hl in Hin.
    split_and!; [done | done |]. intros p' q' [Hp' Hm']. apply Hall; [by apply Hl | done].
  - intros id. rewrite Hel, Hi, identifiers_elem. subst matches options. cbn beta. setoid_rewrite Hl.
    unfold optionsOf. split; intros (p & q & ?); exists p, q; tauto.
Qed.

Definition sample_session : Session :=
  AddSubscriptionFilter {| tf_Topic := str "a/#"; tf_QoS := 1; NoLocal := false; RetainAsPublished := true;
                           RetainHandling := 0; tf_SubscriptionIdentifier := Some 7 |}
    (AddSubscriptionFilter {| tf_Topic := str "+/b"; tf_QoS := 1; NoLocal := false; RetainAsPublished := false;
                              RetainHandling := 0; tf_SubscriptionIdentifier := Some 5 |}
       (AddSubscription (str "x") 2 (blankSession (str "c") [] false Version50 60))).

Lemma matchSubscriptions_exact_witness :
  exists m q o ids, matchSubscriptions sample_session (str "a/b") false = (m, q, o, ids) /\ StronglySorted Z.lt ids.
Proof.
  refine (match matchSubscriptions_exact sample_session (str "a/b") false (map_to_list (Subscriptions sample_session))
                  (Permutation_refl _) with
          | ex_intro _ m (ex_intro _ q (ex_intro _ o (ex_intro _ ids H))) => _
          end).
  exists m, q, o, ids. exact (conj (proj1 H) (proj1 (proj2 (proj2 (proj2 (proj2 (proj2 H))))))).
Defined.

(** NextPacketID gives a fresh identifier: as long as fewer than 65535
    deliveries are in flight it returns an identifier in 1..65535 that none of
    them uses, and only the counter changes. *)
Theorem NextPacketID_fresh s :
  valid_id (packetIDSeq s) -> Z.of_nat (size (Inflight s)) < 65535 ->
  let '(id, s') := NextPacketID s in
  valid_id id /\ Inflight s !! id = None /\ valid_id (packetIDSeq s') /\ s' = s <| packetIDSeq := packetIDSeq s' |>.
Proof. apply NextPacketID_spec. Qed.

Lemma NextPacketID_fresh_witness :
  Inflight (sample_session <| packetIDSeq := 65535 |>) !! fst (NextPacketID (sample_session <| packetIDSeq := 65535 |>)) = None.
Proof.
  pose proof (NextPacketID_fresh (sample_session <| packetIDSeq := 65535 |>)) as H.
  destruct (NextPacketID (sample_session <| packetIDSeq := 65535 |>)) as [id s'].
  apply H; [split; vm_compute; discriminate | vm_compute; reflexivity].
Defined.

(** C8: A session survives a restart.  With any store that keeps the promises of
    its interface and can keep the record, once Save succeeded, Restore rebuilds the session and registers
    it: the subscriptions with their options, every unacknowledged delivery with
    its handshake stage, every staged QoS 2 message, the identity and the expiry
    are those of the saved session. *)
Theorem session_survives_restart {SS} `{SessionStoreLaws SS} now now' s (st st' : SS) m :
  session_ok s -> storable (sessionData now s) -> Save now s st = (Ok tt, st') ->
  Restore now' (ses_ClientID s) (Some st') m =
    (Ok (afterRestart now' s), with_session (ses_ClientID s) (afterRestart now' s) m).
Proof.
  intros Hs Hd Hsave. unfold Save in Hsave. unfold Restore. rewrite (fetch_saved _ _ _ _ Hd Hsave).
  by rewrite restoredSession_saved.
Qed.

Lemma sample_session_ok : session_ok sample_session.
Proof. unfold sample_session, AddSubscription. auto with session. Qed.

Lemma session_survives_restart_witness :
  Restore 9 (str "c") (Some (snd (Save 5 sample_session NewSessionStore))) NewManager =
    (Ok (afterRestart 9 sample_session), with_session (str "c") (afterRestart 9 sample_session) NewManager).
Proof.
  apply (session_survives_restart 5 9 sample_session NewSessionStore); [apply sample_session_ok | exact I | reflexivity].
Defined.
