(* ===== verification/Auth.v ===== *)
(** * Authentication and authorization: broker/auth.go, auth_chain.go,
    auth_file.go, auth_noop.go

    An authenticator answers [None] for nil or the error.  bcrypt is not part of
    the repository: its two functions are parameters.  Reading and parsing the
    credentials file is a parameter of [LoadFile]. *)

From S2P Require Import Prelude Topic TopicTree TopicMatch Strconv.
Open Scope Z_scope.

(** auth.go, Authenticator and Authorizer *)
Definition Authenticator : Type := bytes -> bytes -> bytes -> option err.

Record Authorizer := {
  CanPublish : bytes -> bytes -> bool;
  CanSubscribe : bytes -> bytes -> bool;
}.

(** auth.go, EnhancedAuthenticator.  It is stateful per connection: its answer
    depends on the data of the exchange so far, the oldest first. *)
Record EnhancedAuthenticator := {
  Method : bytes;
  Initial : option bytes -> res (Z * option bytes);
  Continue : list (option bytes) -> res (Z * option bytes);
}.

(** auth.go, aclCovers: [a] and [r] are ap[i:] and rp[i:]. *)
Fixpoint aclCovers_loop (a r : list bytes) : bool :=
  match a with
  | [] => bool_decide (r = [])
  | al :: a' =>
      if bool_decide (al = [hash]) then true
      else
        match r with
        | [] => false
        | rl :: r' =>
            if bool_decide (rl = [hash]) then false
            else if bool_decide (rl = [plus]) then
              if bool_decide (al = [plus]) then aclCovers_loop a' r' else false
            else if negb (bool_decide (al = [plus])) && negb (bool_decide (al = rl)) then false
            else aclCovers_loop a' r'
        end
  end.

Definition aclCovers (aclPattern requested : bytes) : bool :=
  match SplitTopic aclPattern with
  | [] => false
  | (a0 :: _) as ap =>
      let rp := SplitTopic requested in
      let sys := match rp with r0 :: _ => startsDollar r0 | [] => false end in
      if sys && (bool_decide (a0 = [plus]) || bool_decide (a0 = [hash])) then false
      else aclCovers_loop ap rp
  end.

(** auth.go, ACL and StaticAuth *)
Record ACL := { PublishTopics : list bytes; SubscribeTopics : list bytes }.

Record StaticAuth := mkStaticAuth {
  credentials : gmap bytes bytes;
  acls : gmap bytes ACL;
  bcryptCost : Z;
}.

#[export] Instance StaticAuth_eta : Eta StaticAuth := fun s => mkStaticAuth (credentials s) (acls s) (bcryptCost s).

(** auth.go, IsBcryptHash *)
Definition IsBcryptHash (stored : bytes) : bool :=
  bool_decide (take 4 stored = str "$2a$") || bool_decide (take 4 stored = str "$2b$") ||
  bool_decide (take 4 stored = str "$2y$").

(** auth.go, NewStaticAuth (bcrypt.DefaultCost is 10), SetBcryptCost,
    AddCredentials and AddACL *)
Definition NewStaticAuth : StaticAuth := {| credentials := ∅; acls := ∅; bcryptCost := 10 |}.
Definition SetBcryptCost (cost : Z) (s : StaticAuth) : StaticAuth := s <| bcryptCost := cost |>.
Definition AddCredentials (username password : bytes) (s : StaticAuth) : StaticAuth :=
  s <| credentials := <[username := password]> (credentials s) |>.
Definition AddACL (username : bytes) (acl : ACL) (s : StaticAuth) : StaticAuth :=
  s <| acls := <[username := acl]> (acls s) |>.

(** auth.go, (StaticAuth).CanPublish and CanSubscribe *)
Definition staticCanPublish (s : StaticAuth) (username topic : bytes) : bool :=
  match acls s !! username with
  | None => false
  | Some acl => existsb (fun pattern => aclCovers pattern topic) (PublishTopics acl)
  end.
Definition staticCanSubscribe (s : StaticAuth) (username topic : bytes) : bool :=
  match acls s !! username with
  | None => false
  | Some acl => existsb (fun pattern => aclCovers pattern topic) (SubscribeTopics acl)
  end.
Definition staticAuthorizer (s : StaticAuth) : Authorizer :=
  {| CanPublish := staticCanPublish s; CanSubscribe := staticCanSubscribe s |}.

(** auth.go, AllowAllAuth and DenyAllAuth; auth_noop.go, NoopAuth *)
Definition allowAllAuthorizer : Authorizer :=
  {| CanPublish := fun _ topic => negb (startsDollar topic); CanSubscribe := fun _ _ => true |}.
Definition allowAllAuthenticator : Authenticator := fun _ _ _ => None.
Definition denyAllAuthorizer : Authorizer := {| CanPublish := fun _ _ => false; CanSubscribe := fun _ _ => false |}.
Definition denyAllAuthenticator : Authenticator := fun _ _ _ => Some ErrAuthFailed.
Definition noopAuthenticator : Authenticator := fun _ _ _ => None.

(** auth_file.go, UserCredential and FileAuth *)
Record UserCredential := { uc_Username : bytes; uc_Password : bytes; uc_ClientIDs : list bytes }.
Record FileAuth := { users : list UserCredential; userIndex : gmap bytes nat }.

(** auth_file.go, the part of LoadFile after parsing.  The users are replaced
    before the loop that builds the index looks for duplicates. *)
Fixpoint loadUsers_loop (i : nat) (rest : list UserCredential) (index : gmap bytes nat) : res unit * gmap bytes nat :=
  match rest with
  | [] => (Ok tt, index)
  | u :: rest' =>
      if bool_decide (is_Some (index !! uc_Username u)) then (Err (ErrText "duplicate username"), index)
      else loadUsers_loop (S i) rest' (<[uc_Username u := i]> index)
  end.

Definition loadUsers (parsed : list UserCredential) : res unit * FileAuth :=
  let '(r, index) := loadUsers_loop 0 parsed ∅ in (r, {| users := parsed; userIndex := index |}).

Section LoadFile.
(** os.ReadFile, and what json.Unmarshal and yaml.Unmarshal read an AuthFile as *)
Context (ReadFile : bytes -> res bytes) (jsonUnmarshal yamlUnmarshal : bytes -> res (list UserCredential)).

(** auth_file.go, (FileAuth).LoadFile: a file that cannot be read or parsed leaves
    the users as they are *)
Definition LoadFile (filePath : bytes) (f : FileAuth) : res unit * FileAuth :=
  match ReadFile filePath with
  | Err e => (Err e, f)
  | Ok data =>
      match (if HasSuffix filePath (str ".json") then jsonUnmarshal data else yamlUnmarshal data) with
      | Err e => (Err e, f)
      | Ok authFile => loadUsers authFile
      end
  end.

(** auth_file.go, NewFileAuth *)
Definition NewFileAuth (filePath : bytes) : res FileAuth :=
  match LoadFile filePath {| users := []; userIndex := ∅ |} with
  | (Err e, _) => Err e
  | (Ok _, fa) => Ok fa
  end.
End LoadFile.

Section Bcrypt.
(** bcrypt.GenerateFromPassword and CompareHashAndPassword *)
Context (generate : bytes -> Z -> res bytes) (compare : bytes -> bytes -> bool).

(** auth.go, HashPassword and SetHashedPassword *)
Definition HashPassword (password : bytes) : res bytes := generate password 10.
Definition SetHashedPassword (username password : bytes) (s : StaticAuth) : res unit * StaticAuth :=
  match generate password (bcryptCost s) with
  | Err e => (Err e, s)
  | Ok hash => (Ok tt, s <| credentials := <[username := hash]> (credentials s) |>)
  end.

(** The comparison StaticAuth and FileAuth share. *)
Definition passwordMatches (stored password : bytes) : bool :=
  if IsBcryptHash stored then compare stored password else bool_decide (password = stored).

(** auth.go, (StaticAuth).Authenticate *)
Definition staticAuthenticate (s : StaticAuth) : Authenticator := fun _ username password =>
  match credentials s !! username with
  | None => Some ErrUserNotFound
  | Some expected => if passwordMatches expected password then None else Some ErrAuthFailed
  end.

(** auth_file.go, (FileAuth).Authenticate.  userIndex holds positions of users. *)
Definition fileAuthenticate (f : FileAuth) : Authenticator := fun clientID username password =>
  match userIndex f !! username ≫= (users f !!.) with
  | None => Some ErrUserNotFound
  | Some user =>
      if negb (passwordMatches (uc_Password user) password) then Some ErrAuthFailed
      else if (0 <? len (uc_ClientIDs user)) && negb (existsb (fun cid => bool_decide (cid = clientID)) (uc_ClientIDs user))
      then Some ErrNotAuthorized
      else None
  end.
End Bcrypt.

(** auth_chain.go, ChainAuth.Authenticate; [last] is lastErr *)
Fixpoint chainAuthenticate_loop (auths : list Authenticator) (last : option err) : Authenticator :=
  fun clientID username password =>
    match auths with
    | [] => last
    | auth :: rest =>
        match auth clientID username password with
        | None => None
        | Some e =>
            if negb (bool_decide (e = ErrUserNotFound)) then Some e
            else chainAuthenticate_loop rest (Some e) clientID username password
        end
    end.

Definition chainAuthenticate (auths : list Authenticator) : Authenticator :=
  match auths with
  | [] => fun _ _ _ => Some (ErrText "authenticator unavailable")
  | _ => chainAuthenticate_loop auths None
  end.

(** ** Proofs *)

Lemma aclCovers_loop_sound a r ts : aclCovers_loop a r = true -> level_match r ts -> level_match a ts.
Proof.
  revert r ts. induction a as [|al a IH]; intros r ts H Hm; cbn [aclCovers_loop] in H.
  - apply bool_decide_eq_true in H as ->. done.
  - case_bool_decide as Ha; [subst; constructor|]. destruct r as [|rl r]; [done|].
    case_bool_decide as Hr; [done|]. case_bool_decide as Hp.
    + subst rl. case_bool_decide as Hal; [|done]. subst al. inversion Hm; subst; try done; constructor; eauto.
    + destruct (bool_decide_reflect (al = [plus])) as [->|Hal]; cbn [negb andb] in H.
      * inversion Hm; subst; try done; constructor; eauto.
      * case_bool_decide as He; cbn [negb] in H; [|done]. subst rl. inversion Hm; subst; try done. constructor; eauto.
Qed.

Lemma aclCovers_loop_plain a r :
  Forall (fun l => l <> [hash] /\ l <> [plus]) r -> aclCovers_loop a r = levels_matchb a r.
Proof.
  revert r. induction a as [|al a IH]; intros r Hr; cbn [aclCovers_loop levels_matchb]; [by destruct r|].
  case_bool_decide as Ha; [done|]. destruct r as [|rl r]; [done|]. apply Forall_cons in Hr as [[Hh Hp] Hr].
  rewrite !(bool_decide_eq_false_2 (rl = _)) by done. rewrite IH by done.
  destruct (bool_decide_reflect (al = [plus])) as [->|Hal]; cbn [negb andb orb]; [done|].
  by destruct (bool_decide (al = rl)).
Qed.

Lemma plain_levels t : plain t -> Forall (fun l => l <> [hash] /\ l <> [plus]) (SplitTopic t).
Proof.
  intros Ht. apply Forall_forall. intros l Hl.
  assert (forall x, x ∈ l -> x ∈ t) as Hsub.
  { rewrite <- (join_split t). clear Ht. induction (SplitTopic t) as [|l' ls IH]; [by apply elem_of_nil in Hl|].
    intros x Hx. destruct ls as [|l2 ls]; [by apply list_elem_of_singleton in Hl as ->|].
    rewrite joinTopic_cons, elem_of_app, elem_of_cons by done. apply elem_of_cons in Hl as [->|Hl]; [by left|].
    right; right. by apply IH. }
  destruct Ht as [Hh Hp]. split; intros ->; [apply Hh | apply Hp]; apply Hsub, list_elem_of_here.
Qed.

Lemma aclCovers_sound a r topic :
  aclCovers a r = true -> matchSysProtected r topic = true -> matchSysProtected a topic = true.
Proof.
  intros Hc Hr. rewrite matchSysProtected_levels in Hr |- *.
  apply andb_true_iff in Hr as [Hs%negb_true_iff Hm%levels_matchb_spec]. unfold aclCovers in Hc.
  pose proof (split_nonempty a). destruct (SplitTopic a) as [|a0 ap] eqn:Ea; [done|].
  destruct (_ && (bool_decide (a0 = _) || _)) eqn:Hsys; [done|].
  pose proof (aclCovers_loop_sound _ _ _ Hc Hm) as Hl%levels_matchb_spec. rewrite Hl, andb_true_r.
  apply negb_true_iff. rewrite split_head in Hs |- *. cbn [nth].
  inversion Hm as [Hr Ht|ps ts Hr|ps t ts Hm' Hr Ht|l ps ts Hm' Hr Ht].
  - symmetry in Hr. by apply split_nonempty in Hr.
  - rewrite <- Hr in Hs. cbn [nth] in Hs. rewrite (bool_decide_eq_true_2 ([hash] = [hash])), andb_true_r in Hs by done.
    by rewrite Hs.
  - rewrite <- Hr, <- Ht in Hs. cbn [nth] in Hs.
    rewrite (bool_decide_eq_true_2 ([plus] = [plus])), orb_true_r, andb_true_r in Hs by done. by rewrite Hs.
  - rewrite <- Hr in Hsys. rewrite orb_comm in Hsys. exact Hsys.
Qed.

Lemma aclCovers_topic a topic : ValidatePublishTopic topic = true -> aclCovers a topic = matchSysProtected a topic.
Proof.
  intros [_ Ht]%ValidatePublishTopic_plain. rewrite matchSysProtected_levels. unfold aclCovers.
  pose proof (split_nonempty a). destruct (SplitTopic a) as [|a0 ap] eqn:Ea; [done|]. cbn [nth].
  rewrite <- split_head, orb_comm, aclCovers_loop_plain by by apply plain_levels.
  by destruct (startsDollar topic && _).
Qed.

(** ** The chain *)

Section Chain.
Context (clientID username password : bytes).

(** The authenticator knows the user: it accepts, or fails with another error
    than ErrUserNotFound. *)
Definition knows (a : Authenticator) : Prop := a clientID username password <> Some ErrUserNotFound.

Lemma chain_loop auths last :
  (exists pre a post, auths = pre ++ a :: post /\ Forall (fun a => ~ knows a) pre /\ knows a /\
     chainAuthenticate_loop auths last clientID username password = a clientID username password) \/
  Forall (fun a => ~ knows a) auths /\
    chainAuthenticate_loop auths last clientID username password = match auths with [] => last | _ => Some ErrUserNotFound end.
Proof.
  revert last. induction auths as [|a l IH]; intros last; [by right|]. cbn [chainAuthenticate_loop].
  destruct (a clientID username password) as [e|] eqn:Ea.
  - destruct (bool_decide_reflect (e = ErrUserNotFound)) as [->|He]; cbn [negb].
    + assert (~ knows a) as Hk by (unfold knows; naive_solver).
      destruct (IH (Some ErrUserNotFound)) as [(pre & a' & post & -> & Hp & Hk' & Heq)|[Hf Heq]].
      * left. exists (a :: pre), a', post. split_and!; [done | by constructor | done | done].
      * right. split; [by constructor|]. rewrite Heq. by destruct l.
    + left. exists [], a, l. split_and!; [done | constructor | unfold knows; congruence | done].
  - left. exists [], a, l. split_and!; [done | constructor | unfold knows; congruence | done].
Qed.

Lemma first_known_unique pre a post pre' a' post' :
  pre ++ a :: post = pre' ++ a' :: post' ->
  Forall (fun a => ~ knows a) pre -> Forall (fun a => ~ knows a) pre' -> knows a -> knows a' -> a = a'.
Proof.
  revert pre'. induction pre as [|x pre IH]; intros [|x' pre'] [= Hx Heq] Hp Hp' Hk Hk'.
  - done.
  - subst. by apply Forall_cons in Hp' as [? _].
  - subst. by apply Forall_cons in Hp as [? _].
  - apply Forall_cons in Hp as [_ Hp], Hp' as [_ Hp']. by apply (IH pre').
Qed.
End Chain.

(** ** Properties *)


(** The chain of authenticators fails closed: it returns what the first
    authenticator that knows the user returns, so a later one cannot admit a
    user an earlier one rejected; when none knows the user it reports that, and
    an empty chain admits nobody. *)
Theorem chain_fails_closed auths clientID username password :
  let unknown := Forall (fun a => ~ knows clientID username password a) in
  (forall pre a post, auths = pre ++ a :: post -> unknown pre -> knows clientID username password a ->
     chainAuthenticate auths clientID username password = a clientID username password) /\
  (unknown auths ->
     chainAuthenticate auths clientID username password =
       Some (if bool_decide (length auths = 0%nat) then ErrText "authenticator unavailable" else ErrUserNotFound)) /\
  (chainAuthenticate auths clientID username password = None ->
     exists pre a post, auths = pre ++ a :: post /\ unknown pre /\ a clientID username password = None).
Proof.
  intros unknown. subst unknown. cbn beta.
  assert (auths <> [] -> chainAuthenticate auths = chainAuthenticate_loop auths None) as Hchain by by destruct auths.
  destruct (chain_loop clientID username password auths None) as [(pre & a & post & Heq & Hp & Hk & Hr)|[Hf Hr]].
  - assert (auths <> []) as Hne by (by subst; destruct pre). rewrite Hchain, Hr by done. split_and!.
    + intros pre' a' post' Heq' Hp' Hk'. subst.
      by rewrite (first_known_unique _ _ _ pre a post pre' a' post' Heq' Hp Hp' Hk Hk').
    + intros Hf. rewrite Heq, Forall_app, Forall_cons in Hf. by destruct Hf as (_ & ? & _).
    + intros Hn. exists pre, a, post. auto.
  - split_and!.
    + intros pre' a' post' -> Hp' Hk'. rewrite Forall_app, Forall_cons in Hf. by destruct Hf as (_ & ? & _).
    + intros _. destruct auths; [done|]. by rewrite Hchain, Hr.
    + destruct auths; [done|]. rewrite Hchain, Hr by done. done.
Qed.

(** ** Failed reloads *)

(** ** Credentials from a file *)

Lemma loadUsers_loop_spec i rest index index' :
  loadUsers_loop i rest index = (Ok tt, index') ->
  forall u j, index' !! u = Some j <-> index !! u = Some j \/ exists k x, rest !! k = Some x /\ uc_Username x = u /\ j = (i + k)%nat.
Proof.
  revert i index. induction rest as [|x rest IH]; intros i index; cbn [loadUsers_loop].
  { intros [= <-] u j. split; [by left|]. by intros [?|(k & x & Hx & _)]. }
  case_bool_decide as Hd; [done|]. intros Hl u j. rewrite (IH _ _ Hl), lookup_insert_Some. split.
  - intros [[[Hu0 <-]|[_ ?]]|(k & y & Hy & Hu & ->)]; [right; exists 0%nat, x; split_and!; [done..|lia] | by left | right].
    exists (S k), y. split_and!; [done..|lia].
  - intros [Hi|([|k] & y & Hy & Hu & ->)].
    + left. right. split; [|done]. intros <-. apply Hd. eauto.
    + cbn in Hy. injection Hy as ->. do 2 left. split; [done|lia].
    + right. exists k, y. split_and!; [done..|lia].
Qed.

Lemma NewFileAuth_users ReadFile json yaml path fa :
  NewFileAuth ReadFile json yaml path = Ok fa ->
  forall u i, userIndex fa !! u = Some i <-> exists x, users fa !! i = Some x /\ uc_Username x = u.
Proof.
  unfold NewFileAuth, LoadFile. destruct (ReadFile path) as [data|]; [|done]. destruct (if HasSuffix _ _ then _ else _) as [parsed|]; [|done].
  unfold loadUsers. destruct (loadUsers_loop 0 parsed ∅) as [[[]|e] index] eqn:E; [|done]. intros [= <-] u i. cbn [userIndex users].
  rewrite (loadUsers_loop_spec _ _ _ _ E), lookup_empty. split.
  - intros [?|(k & x & Hx & Hu & ->)]; [done|]. by exists x.
  - intros (x & Hx & Hu). right. by exists i, x.
Qed.

(** A file authenticator that loaded admits exactly the users of its file, with
    their password and, when the entry lists any, one of its client ids. *)
Lemma NewFileAuth_admits ReadFile json yaml path fa compare clientID username password :
  NewFileAuth ReadFile json yaml path = Ok fa ->
  fileAuthenticate compare fa clientID username password = None <->
  exists x, x ∈ users fa /\ uc_Username x = username /\ passwordMatches compare (uc_Password x) password = true /\
    (uc_ClientIDs x = [] \/ clientID ∈ uc_ClientIDs x).
Proof.
  intros Hf. pose proof (NewFileAuth_users _ _ _ _ _ Hf) as Hu. unfold fileAuthenticate.
  assert (forall x, ((0 <? len (uc_ClientIDs x)) && negb (existsb (fun cid => bool_decide (cid = clientID)) (uc_ClientIDs x)) = false <->
    (uc_ClientIDs x = [] \/ clientID ∈ uc_ClientIDs x))) as Hc.
  { intros x. rewrite andb_false_iff, negb_false_iff, existsb_exists. unfold len. rewrite Z.ltb_ge. destruct (uc_ClientIDs x) as [|y l]; [naive_solver|].
    setoid_rewrite bool_decide_eq_true. setoid_rewrite <- list_elem_of_In. cbn [length]. split; [|naive_solver]. intros [?|(z & Hz & ->)]; [lia | by right]. }
  destruct (userIndex fa !! username) as [i|] eqn:Ei; cbn [mbind option_bind].
  - apply Hu in Ei as Hx. destruct Hx as (x & Hx & Hn). rewrite Hx.
    assert (forall y, y ∈ users fa -> uc_Username y = username -> y = x) as Huniq.
    { intros y [j Hj]%list_elem_of_lookup Hy. assert (userIndex fa !! username = Some j) as Ej by (apply Hu; eauto). congruence. }
    destruct (passwordMatches compare (uc_Password x) password) eqn:Ep; cbn [negb].
    + specialize (Hc x). destruct (_ && _); split; [done | | | done].
      * intros (y & Hy & Hyu & _ & Hyc). rewrite (Huniq y Hy Hyu) in Hyc. by apply Hc in Hyc.
      * intros _. exists x. split_and!; [by apply list_elem_of_lookup; exists i | done | done | by apply Hc].
    + split; [done|]. intros (y & Hy & Hyu & Hyp & _). rewrite (Huniq y Hy Hyu) in Hyp. congruence.
  - split; [done|]. intros (y & [j Hj]%list_elem_of_lookup & Hyu & _). assert (userIndex fa !! username = Some j) as Ej by (apply Hu; eauto). congruence.
Qed.

(** A reload that reports a duplicate user has already replaced the users: one
    listed after the duplicate is no longer known. *)
Lemma failed_reload_drops_users :
  let u name := {| uc_Username := str name; uc_Password := str "p"; uc_ClientIDs := [] |} in
  fst (loadUsers [u "a"; u "a"; u "b"]) = Err (ErrText "duplicate username") /\
  fileAuthenticate (fun _ _ => false) (snd (loadUsers [u "a"; u "a"; u "b"])) [] (str "b") (str "p") =
    Some ErrUserNotFound.
Proof. vm_compute. auto. Qed.
