(* ===== verification/WillHandler.v ===== *)
(** * Last wills: broker/will_handler.go

    The table of registered wills and the goroutines that wait out a delay.  A
    will is identified by the pointer the code compares, modelled by a number
    drawn at registration; a goroutine is identified by its cancel function,
    modelled by a number drawn when it starts.  An operation returns the wills it
    hands to the publish callback.  Between operations a waiting goroutine may
    take its timer branch once its delay is over, and its other branch once it
    was cancelled; when both are ready Go picks either. *)

From S2P Require Import Prelude Utf8 Wire Spec Properties StoreTypes PublishProps.
Open Scope Z_scope.

(** will_handler.go, WillMessage; [will_ref] is its address *)
Record WillMessage := {
  will_ref : Z;
  will_ClientID : bytes;
  will_Username : bytes;
  will_Topic : bytes;
  will_Payload : bytes;
  will_QoS : Z;
  will_Retain : bool;
  will_Properties : option Properties;
  will_Delay : Z;
  will_Conn : option Z;
}.

(** A goroutine of TriggerWill: the client and the will it captured, and when its
    timer fires. *)
Record waiter := { wt_client : bytes; wt_will : WillMessage; wt_due : Z }.

(** will_handler.go, WillHandler, with the running goroutines, the contexts that
    are cancelled, and the next fresh addresses *)
Record WillHandler := mkWillHandler {
  wills : gmap bytes WillMessage;
  cancel : gmap bytes Z;
  waiting : gmap Z waiter;
  cancelled : gset Z;
  nextWill : Z;
  nextCancel : Z;
}.

#[export] Instance WillHandler_eta : Eta WillHandler := fun wh =>
  mkWillHandler (wills wh) (cancel wh) (waiting wh) (cancelled wh) (nextWill wh) (nextCancel wh).

(** will_handler.go, NewWillHandler *)
Definition NewWillHandler : WillHandler :=
  {| wills := ∅; cancel := ∅; waiting := ∅; cancelled := ∅; nextWill := 0; nextCancel := 0 |}.

(** will_handler.go, relayableWillProperties *)
Definition relayableWillProperties (props : option Properties) : option Properties :=
  match props with
  | None => None
  | Some p =>
      let out := emptyProperties <| PayloadFormat := PayloadFormat p |>
        <| MessageExpiryInterval := MessageExpiryInterval p |> <| ContentType := ContentType p |>
        <| ResponseTopic := ResponseTopic p |> <| CorrelationData := CorrelationData p |>
        <| UserProperties := UserProperties p |> in
      if bool_decide (PayloadFormat out = None) && bool_decide (MessageExpiryInterval out = None) &&
         bool_decide (ContentType out = []) && bool_decide (ResponseTopic out = []) &&
         bool_decide (CorrelationData out = None) && (len (UserProperties out) =? 0)
      then None else Some out
  end.

(** will_handler.go, stopTimerLocked *)
Definition stopTimerLocked (clientID : bytes) (wh : WillHandler) : WillHandler :=
  match cancel wh !! clientID with
  | Some token => wh <| cancelled := {[ token ]} ∪ cancelled wh |> <| cancel := delete clientID (cancel wh) |>
  | None => wh
  end.

(** will_handler.go, RegisterWill *)
Definition RegisterWill (clientID username topic payload : bytes) (qos : Z) (retain : bool)
    (props : option Properties) (delay : Z) (conn : option Z) (wh : WillHandler) : WillHandler :=
  let wh := stopTimerLocked clientID wh in
  wh <| wills := <[clientID :=
          {| will_ref := nextWill wh; will_ClientID := clientID; will_Username := username; will_Topic := topic;
             will_Payload := payload; will_QoS := qos; will_Retain := retain;
             will_Properties := relayableWillProperties props; will_Delay := delay; will_Conn := conn |}]> (wills wh) |>
     <| nextWill := nextWill wh + 1 |>.

(** will_handler.go, publishWillMessage: what reaches the callback *)
Definition publishWillMessage (w : WillMessage) : list WillMessage :=
  if 0 <? len (will_Topic w) then [w] else [].

Definition dropWill (clientID : bytes) (wh : WillHandler) : WillHandler :=
  wh <| wills := delete clientID (wills wh) |>.

(** will_handler.go, TriggerWill up to the start of its goroutine *)
Definition otherOwner (conn : option Z) (w : WillMessage) : bool :=
  match conn, will_Conn w with Some c, Some c' => negb (c' =? c) | _, _ => false end.

Definition TriggerWill (now : Z) (clientID : bytes) (conn : option Z) (wh : WillHandler)
    : list WillMessage * WillHandler :=
  match wills wh !! clientID with
  | None => ([], wh)
  | Some w =>
      if otherOwner conn w then ([], wh)
      else if bool_decide (is_Some (cancel wh !! clientID)) then ([], wh)
      else if will_Delay w <=? 0 then (publishWillMessage w, dropWill clientID wh)
      else
        ([], wh <| cancel := <[clientID := nextCancel wh]> (cancel wh) |>
                <| waiting := <[nextCancel wh := {| wt_client := clientID; wt_will := w; wt_due := now + will_Delay w |}]>
                     (waiting wh) |>
                <| nextCancel := nextCancel wh + 1 |>)
  end.

(** The goroutine of TriggerWill when its timer fires. *)
Definition timerBranch (token : Z) (g : waiter) (wh : WillHandler) : list WillMessage * WillHandler :=
  let wh := wh <| waiting := delete token (waiting wh) |> in
  match wills wh !! wt_client g with
  | Some current =>
      if will_ref current =? will_ref (wt_will g)
      then (publishWillMessage (wt_will g),
            dropWill (wt_client g) wh <| cancel := delete (wt_client g) (cancel wh) |>)
      else ([], wh)
  | None => ([], wh)
  end.

(** will_handler.go, FireWill, CancelWill, RemoveWill and Stop *)
Definition FireWill (clientID : bytes) (wh : WillHandler) : list WillMessage * WillHandler :=
  match wills wh !! clientID, cancel wh !! clientID with
  | Some w, Some _ => (publishWillMessage w, dropWill clientID (stopTimerLocked clientID wh))
  | _, _ => ([], wh)
  end.

Definition CancelWill (clientID : bytes) (wh : WillHandler) : WillHandler :=
  dropWill clientID (stopTimerLocked clientID wh).

Definition RemoveWill (clientID : bytes) (wh : WillHandler) : WillHandler :=
  stopTimerLocked clientID (dropWill clientID wh).

Definition stopWills (wh : WillHandler) : WillHandler :=
  wh <| cancelled := map_to_set (fun _ token => token) (cancel wh) ∪ cancelled wh |>
     <| wills := ∅ |> <| cancel := ∅ |>.

(** will_handler.go, GetWillInfo *)
Definition GetWillInfo (clientID : bytes) (wh : WillHandler) : option (bytes * Z * bool * bool) :=
  (fun w => (will_Topic w, will_QoS w, will_Retain w, 0 <? len (will_Payload w))) <$> wills wh !! clientID.

(** ** Steps: an operation, or a goroutine taking one of its branches *)

Inductive will_step : WillHandler -> list WillMessage -> WillHandler -> Prop :=
  | step_register c u t p q r props d conn wh : will_step wh [] (RegisterWill c u t p q r props d conn wh)
  | step_trigger now c conn wh : will_step wh (fst (TriggerWill now c conn wh)) (snd (TriggerWill now c conn wh))
  | step_fire c wh : will_step wh (fst (FireWill c wh)) (snd (FireWill c wh))
  | step_cancel c wh : will_step wh [] (CancelWill c wh)
  | step_remove c wh : will_step wh [] (RemoveWill c wh)
  | step_stop wh : will_step wh [] (stopWills wh)
  | step_timer now token g wh :
      waiting wh !! token = Some g -> wt_due g <= now ->
      will_step wh (fst (timerBranch token g wh)) (snd (timerBranch token g wh))
  | step_done token wh :
      token ∈ cancelled wh -> will_step wh [] (wh <| waiting := delete token (waiting wh) |>).

Inductive will_steps : WillHandler -> list WillMessage -> WillHandler -> Prop :=
  | steps_nil wh : will_steps wh [] wh
  | steps_cons wh ps wh' ps' wh'' : will_step wh ps wh' -> will_steps wh' ps' wh'' -> will_steps wh (ps ++ ps') wh''.

(** ** Invariant *)

Record will_ok (wh : WillHandler) : Prop := {
  wo_fresh c w : wills wh !! c = Some w -> will_ref w < nextWill wh /\ will_ClientID w = c;
  wo_inj c c' w w' : wills wh !! c = Some w -> wills wh !! c' = Some w' -> will_ref w = will_ref w' -> c = c';
  wo_waiting t g : waiting wh !! t = Some g -> will_ref (wt_will g) < nextWill wh /\ t < nextCancel wh;
  wo_same t g w : waiting wh !! t = Some g -> wills wh !! wt_client g = Some w ->
    will_ref w = will_ref (wt_will g) -> w = wt_will g /\ cancel wh !! wt_client g = Some t;
  wo_armed c t : cancel wh !! c = Some t -> t ∉ cancelled wh /\ exists g, waiting wh !! t = Some g /\
    wt_client g = c /\ wills wh !! c = Some (wt_will g);
  wo_cancelled t : t ∈ cancelled wh -> t < nextCancel wh;
}.

Lemma will_ok_new : will_ok NewWillHandler.
Proof. split; intros *; unfold NewWillHandler; cbn; rewrite ?lookup_empty; done. Qed.


Lemma stop_wills c wh : wills (stopTimerLocked c wh) = wills wh.
Proof. unfold stopTimerLocked. by destruct (cancel wh !! c). Qed.
Lemma stop_next c wh : nextWill (stopTimerLocked c wh) = nextWill wh.
Proof. unfold stopTimerLocked. by destruct (cancel wh !! c). Qed.
Lemma stop_cancel c wh : cancel (stopTimerLocked c wh) = delete c (cancel wh).
Proof. unfold stopTimerLocked. destruct (cancel wh !! c) eqn:E; [done|]. by rewrite delete_id. Qed.
Lemma stop_waiting c wh : waiting (stopTimerLocked c wh) = waiting wh.
Proof. unfold stopTimerLocked. by destruct (cancel wh !! c). Qed.
Lemma stop_nextCancel c wh : nextCancel (stopTimerLocked c wh) = nextCancel wh.
Proof. unfold stopTimerLocked. by destruct (cancel wh !! c). Qed.
Lemma stop_cancelled c wh t :
  t ∈ cancelled (stopTimerLocked c wh) <-> t ∈ cancelled wh \/ cancel wh !! c = Some t.
Proof.
  unfold stopTimerLocked. destruct (cancel wh !! c) as [t'|] eqn:E.
  - change (t ∈ {[t']} ∪ cancelled wh <-> t ∈ cancelled wh \/ Some t' = Some t).
    rewrite elem_of_union, elem_of_singleton. naive_solver.
  - naive_solver.
Qed.

Lemma will_ok_forget c wh : will_ok wh -> will_ok (CancelWill c wh).
Proof.
  intros [F I W S A C]. unfold CancelWill, dropWill. split; unfold set_field;
    cbn [wills cancel waiting cancelled nextWill nextCancel]; intros *;
    rewrite ?stop_wills, ?stop_next, ?stop_cancel, ?stop_waiting, ?stop_nextCancel, ?stop_cancelled.
  - intros [_ ?]%lookup_delete_Some. by apply F.
  - intros [_ ?]%lookup_delete_Some [_ ?]%lookup_delete_Some. by eapply I.
  - apply W.
  - intros Hg [Hne Hw]%lookup_delete_Some Hr. destruct (S _ _ _ Hg Hw Hr) as [-> Hc]. by rewrite lookup_delete_ne.
  - intros [Hne Hc]%lookup_delete_Some. destruct (A _ _ Hc) as (Hn & g & Hg & Hcl & Hw). split.
    + intros [?|Ht]; [done|]. destruct (A _ _ Ht) as (_ & g' & Hg' & Hcl' & _). congruence.
    + exists g. by rewrite lookup_delete_ne.
  - intros [?|Ht]; [by apply C|]. destruct (A _ _ Ht) as (_ & g & Hg & _). by destruct (W _ _ Hg).
Qed.

Lemma RemoveWill_forget c wh : RemoveWill c wh = CancelWill c wh.
Proof.
  unfold RemoveWill, CancelWill, stopTimerLocked.
  change (cancel (dropWill c wh)) with (cancel wh). by destruct (cancel wh !! c).
Qed.

Lemma will_ok_register c u t p q r props d conn wh :
  will_ok wh -> will_ok (RegisterWill c u t p q r props d conn wh).
Proof.
  intros [F I W S A C]%(will_ok_forget c). revert F I W S A C. unfold CancelWill, dropWill, RegisterWill, set_field.
  cbn [wills cancel waiting cancelled nextWill nextCancel]. set (wh1 := stopTimerLocked c wh). intros F I W S A C.
  split; unfold set_field; cbn [wills cancel waiting cancelled nextWill nextCancel]; intros *.
  - intros [[<- <-]|[Hne Hw]]%lookup_insert_Some; [cbn; split; [lia|done]|].
    destruct (F c0 w) as [? ?]; [by apply lookup_delete_Some | split; [lia|done]].
  - intros [[<- <-]|[Hne Hw]]%lookup_insert_Some [[<- <-]|[Hne' Hw']]%lookup_insert_Some; cbn [will_ref]; intros Hr; [done| | |].
    + destruct (F c' w') as [? _]; [by apply lookup_delete_Some | lia].
    + destruct (F c0 w) as [? _]; [by apply lookup_delete_Some | lia].
    + apply (I c0 c' w w'); [by apply lookup_delete_Some..|done].
  - intros Hg. destruct (W _ _ Hg). split; [lia|done].
  - intros Hg [[<- <-]|[Hne Hw]]%lookup_insert_Some; cbn [will_ref]; intros Hr; [destruct (W _ _ Hg); lia|].
    apply S; [done | by apply lookup_delete_Some | done].
  - intros Hc. destruct (A _ _ Hc) as (Hn & g & Hg & Hcl & [Hne Hw]%lookup_delete_Some). split; [done|].
    exists g. by rewrite lookup_insert_ne.
  - apply C.
Qed.

Lemma will_ok_trigger now c conn wh : will_ok wh -> will_ok (snd (TriggerWill now c conn wh)).
Proof.
  intros H. unfold TriggerWill. destruct (wills wh !! c) as [w|] eqn:Ew; [|done]. destruct (otherOwner conn w); [done|].
  case_bool_decide as Hc; [done|]. rewrite <- eq_None_not_Some in Hc. destruct (will_Delay w <=? 0).
  - assert (dropWill c wh = CancelWill c wh) as Hd by (unfold CancelWill, stopTimerLocked; by rewrite Hc).
    cbn [snd]. rewrite Hd. by apply will_ok_forget.
  - destruct H as [F I W S A C]. split; unfold set_field; cbn [snd wills cancel waiting cancelled nextWill nextCancel]; intros *.
    + apply F.
    + apply I.
    + intros [[<- <-]|[Hne Hg]]%lookup_insert_Some; cbn [wt_will]; [destruct (F _ _ Ew); split; [done|lia]|].
      destruct (W _ _ Hg). split; [done|lia].
    + intros [[<- <-]|[Hne Hg]]%lookup_insert_Some; cbn [wt_will wt_client]; intros Hw Hr.
      * rewrite Ew in Hw. split; [congruence|apply lookup_insert_eq].
      * destruct (S _ _ _ Hg Hw Hr) as [-> Hc']. split; [done|]. rewrite lookup_insert_ne by congruence. done.
    + intros [[<- <-]|[Hne Hc']]%lookup_insert_Some.
      * split; [intros Ht%C; lia|]. eexists. split; [apply lookup_insert_eq|]. done.
      * destruct (A _ _ Hc') as (Hn & g & Hg & Hcl & Hw). split; [done|]. exists g. destruct (W _ _ Hg).
        rewrite lookup_insert_ne by lia. done.
    + intros Ht%C. lia.
Qed.

Lemma will_ok_drop_waiter t wh :
  will_ok wh -> (forall c, cancel wh !! c <> Some t) -> will_ok (wh <| waiting := delete t (waiting wh) |>).
Proof.
  intros [F I W S A C] Ht. split; unfold set_field; cbn [wills cancel waiting cancelled nextWill nextCancel]; intros *.
  - apply F.
  - apply I.
  - intros [_ Hg]%lookup_delete_Some. by apply W.
  - intros [_ Hg]%lookup_delete_Some. by apply S.
  - intros Hc. destruct (A _ _ Hc) as (Hn & g & Hg & Hcl & Hw). split; [done|]. exists g.
    rewrite lookup_delete_ne; [done|]. intros ->. by apply (Ht c).
  - apply C.
Qed.

Lemma will_ok_timer t g wh : will_ok wh -> waiting wh !! t = Some g -> will_ok (snd (timerBranch t g wh)).
Proof.
  intros H Hg. unfold timerBranch. change (wills (wh <| waiting := _ |>)) with (wills wh).
  destruct (wills wh !! wt_client g) as [w|] eqn:Ew; [destruct (Z.eqb_spec (will_ref w) (will_ref (wt_will g))) as [Hr|Hr]|].
  - destruct (wo_same _ H _ _ _ Hg Ew Hr) as [-> Hc].
    pose proof (will_ok_forget (wt_client g) wh H) as H'. revert H'.
    assert (forall c, cancel (CancelWill (wt_client g) wh) !! c <> Some t) as Ht.
    { intros c. unfold CancelWill, dropWill, set_field. cbn [cancel]. rewrite stop_cancel.
      intros [Hne Hc']%lookup_delete_Some. destruct (wo_armed _ H _ _ Hc') as (_ & g' & Hg' & Hcl & _). congruence. }
    intros H'. pose proof (will_ok_drop_waiter t _ H' Ht) as [F I W S A C].
    revert F I W S A C. unfold CancelWill, dropWill, set_field. cbn [wills cancel waiting cancelled nextWill nextCancel].
    rewrite !stop_wills, !stop_next, !stop_waiting, !stop_cancel, !stop_nextCancel. intros F I W S A C.
    split; unfold set_field; cbn [snd wills cancel waiting cancelled nextWill nextCancel]; try done.
    + intros c t' Hc'. destruct (A c t' Hc') as [Hn ?]. split; [|done]. intros Hin. apply Hn, stop_cancelled. by left.
    + intros t' Ht'. apply C, stop_cancelled. by left.
  - apply will_ok_drop_waiter; [done|]. intros c Hc. destruct (wo_armed _ H _ _ Hc) as (_ & g' & Hg' & Hcl & Hw).
    by simplify_eq.
  - apply will_ok_drop_waiter; [done|]. intros c Hc. destruct (wo_armed _ H _ _ Hc) as (_ & g' & Hg' & Hcl & Hw).
    by simplify_eq.
Qed.

Lemma will_ok_stop wh : will_ok wh -> will_ok (stopWills wh).
Proof.
  intros [F I W S A C]. split; unfold set_field; cbn [wills cancel waiting cancelled nextWill nextCancel]; intros *;
    rewrite ?lookup_empty; try done; [apply W|].
  unfold stopWills, set_field. cbn [cancelled]. intros [Ht|Ht]%elem_of_union; [|by apply C].
  apply elem_of_map_to_set in Ht as (c & t' & Hc & ->). destruct (A _ _ Hc) as (_ & g & Hg & _). by destruct (W _ _ Hg).
Qed.

Lemma will_ok_step wh ps wh' : will_ok wh -> will_step wh ps wh' -> will_ok wh'.
Proof.
  intros H Hs. destruct Hs as [| | c wh| | | | |].
  - by apply will_ok_register.
  - by apply will_ok_trigger.
  - unfold FireWill. destruct (wills wh !! c), (cancel wh !! c); [by apply will_ok_forget|done..].
  - by apply will_ok_forget.
  - rewrite RemoveWill_forget. by apply will_ok_forget.
  - by apply will_ok_stop.
  - by apply will_ok_timer.
  - apply will_ok_drop_waiter; [done|]. intros c Hc. by destruct (wo_armed _ H _ _ Hc).
Qed.

(** ** What is published *)

(** Only a registered will is published, by a step that removes it. *)
Lemma step_published wh ps wh' :
  will_ok wh -> will_step wh ps wh' ->
  ps = [] \/ exists c w, ps = [w] /\ wills wh !! c = Some w /\ wills wh' = delete c (wills wh) /\ nextWill wh' = nextWill wh.
Proof.
  intros H Hs.
  assert (forall c w wh', wills wh !! c = Some w -> wills wh' = delete c (wills wh) -> nextWill wh' = nextWill wh ->
    publishWillMessage w = [] \/ exists c w', publishWillMessage w = [w'] /\ wills wh !! c = Some w' /\
      wills wh' = delete c (wills wh) /\ nextWill wh' = nextWill wh) as Hpub.
  { intros c w wh1 Hw Hd Hn. unfold publishWillMessage. destruct (0 <? _); [right; eauto 10|by left]. }
  destruct Hs as [|now c conn wh|c wh| | | |now t g wh Hg Hdue|]; try by left.
  - unfold TriggerWill. destruct (wills wh !! c) as [w|] eqn:Ew; [|by left]. destruct (otherOwner conn w); [by left|].
    destruct (bool_decide _); [by left|]. destruct (will_Delay w <=? 0); [|by left]. by apply (Hpub c).
  - unfold FireWill. destruct (wills wh !! c) as [w|] eqn:Ew; [|by left]. destruct (cancel wh !! c); [|by left].
    apply (Hpub c w); [done| |].
    + unfold dropWill, set_field. cbn. by rewrite stop_wills.
    + unfold dropWill, set_field. cbn. by rewrite stop_next.
  - unfold timerBranch. change (wills (wh <| waiting := _ |>)) with (wills wh).
    destruct (wills wh !! wt_client g) as [w|] eqn:Ew; [|by left].
    destruct (Z.eqb_spec (will_ref w) (will_ref (wt_will g))) as [Hr|]; [|by left].
    destruct (wo_same _ H _ _ _ Hg Ew Hr) as [-> _]. by apply (Hpub (wt_client g)).
Qed.

(** A will that is not in the table: removed or published. *)
Definition gone (r : Z) (wh : WillHandler) : Prop :=
  r < nextWill wh /\ forall c w, wills wh !! c = Some w -> will_ref w <> r.

Lemma step_wills wh ps wh' c w :
  will_step wh ps wh' -> wills wh' !! c = Some w -> wills wh !! c = Some w \/ will_ref w = nextWill wh.
Proof.
  destruct 1 as [c0 u t p q r props d conn wh|now c0 conn wh|c0 wh|c0 wh|c0 wh|wh|now t g wh Hg Hdue|t wh Ht].
  - unfold RegisterWill, set_field. cbn. rewrite stop_wills, stop_next.
    intros [[<- <-]|[_ ?]]%lookup_insert_Some; [by right|by left].
  - unfold TriggerWill. destruct (wills wh !! c0); [|by left]. destruct (otherOwner _ _); [by left|].
    destruct (bool_decide _); [by left|]. destruct (_ <=? _); [|by left].
    unfold dropWill, set_field. cbn. intros [_ ?]%lookup_delete_Some. by left.
  - unfold FireWill. destruct (wills wh !! c0), (cancel wh !! c0); try by left.
    unfold dropWill, set_field. cbn. rewrite stop_wills. intros [_ ?]%lookup_delete_Some. by left.
  - unfold CancelWill, dropWill, set_field. cbn. rewrite stop_wills. intros [_ ?]%lookup_delete_Some. by left.
  - rewrite RemoveWill_forget. unfold CancelWill, dropWill, set_field. cbn. rewrite stop_wills.
    intros [_ ?]%lookup_delete_Some. by left.
  - done.
  - unfold timerBranch. change (wills (wh <| waiting := _ |>)) with (wills wh).
    destruct (wills wh !! wt_client g); [|by left]. destruct (_ =? _); [|by left].
    unfold dropWill, set_field. cbn. intros [_ ?]%lookup_delete_Some. by left.
  - by left.
Qed.

Lemma step_next wh ps wh' : will_step wh ps wh' -> nextWill wh <= nextWill wh'.
Proof.
  destruct 1 as [c0 u t p q r props d conn wh|now c0 conn wh|c0 wh|c0 wh|c0 wh|wh|now t g wh Hg Hdue|t wh Ht]; try done.
  - unfold RegisterWill, set_field. cbn. rewrite stop_next. lia.
  - unfold TriggerWill. destruct (wills wh !! c0); [|done]. destruct (otherOwner _ _); [done|].
    destruct (bool_decide _); [done|]. by destruct (_ <=? _).
  - unfold FireWill. destruct (wills wh !! c0), (cancel wh !! c0); try done.
    unfold dropWill, set_field. cbn. by rewrite stop_next.
  - unfold CancelWill, dropWill, set_field. cbn. by rewrite stop_next.
  - rewrite RemoveWill_forget. unfold CancelWill, dropWill, set_field. cbn. by rewrite stop_next.
  - unfold timerBranch. change (wills (wh <| waiting := _ |>)) with (wills wh).
    destruct (wills wh !! wt_client g); [|done]. by destruct (_ =? _).
Qed.

Lemma gone_step r wh ps wh' : will_ok wh -> gone r wh -> will_step wh ps wh' -> gone r wh' /\ r ∉ will_ref <$> ps.
Proof.
  intros H [Hr Hg] Hs. split; [split|].
  - pose proof (step_next _ _ _ Hs). lia.
  - intros c w Hw. destruct (step_wills _ _ _ _ _ Hs Hw) as [Hw'|Hw']; [by eapply Hg | lia].
  - destruct (step_published _ _ _ H Hs) as [->|(c & w & -> & Hw & _)]; [by intros ?%elem_of_nil|].
    cbn. intros ->%list_elem_of_singleton. by apply (Hg c w).
Qed.

Lemma gone_steps r wh ps wh' : will_ok wh -> gone r wh -> will_steps wh ps wh' -> r ∉ will_ref <$> ps.
Proof.
  intros H Hr Hs. induction Hs as [|wh ps wh' ps' wh'' Hs _ IH]; [by intros ?%elem_of_nil|].
  destruct (gone_step _ _ _ _ H Hr Hs) as [Hr' Hn]. rewrite fmap_app, not_elem_of_app. split; [done|].
  apply IH; [by eapply will_ok_step|done].
Qed.

Lemma published_gone wh ps wh' w : will_ok wh -> will_step wh ps wh' -> w ∈ ps -> gone (will_ref w) wh'.
Proof.
  intros H Hs Hin. destruct (step_published _ _ _ H Hs) as [->|(c & w' & -> & Hw & Hd & Hn)]; [by apply elem_of_nil in Hin|].
  apply list_elem_of_singleton in Hin as ->. destruct (wo_fresh _ H _ _ Hw) as [Hf _]. split; [lia|].
  intros c' w Hw' Hr. rewrite Hd in Hw'. apply lookup_delete_Some in Hw' as [Hne Hw'].
  by apply Hne, (wo_inj _ H _ _ _ _ Hw Hw').
Qed.

Lemma steps_ok wh ps wh' : will_ok wh -> will_steps wh ps wh' -> will_ok wh'.
Proof. intros H Hs. induction Hs; eauto using will_ok_step. Qed.

Lemma published_once wh ps wh' : will_ok wh -> will_steps wh ps wh' -> NoDup (will_ref <$> ps).
Proof.
  intros H Hs. induction Hs as [|wh ps wh' ps' wh'' Hs Hss IH]; [constructor|].
  pose proof (will_ok_step _ _ _ H Hs) as H'. rewrite fmap_app. apply NoDup_app. split_and!.
  - destruct (step_published _ _ _ H Hs) as [->|(c & w & -> & _)]; [constructor|apply NoDup_singleton].
  - intros r (w & -> & Hin)%list_elem_of_fmap. eapply gone_steps; [exact H' | exact (published_gone _ _ _ _ H Hs Hin) | done].
  - by apply IH.
Qed.

(** ** Properties *)

(** C19: A will is published at most once, only while it is registered, and never
    after it was withdrawn, however operations and waiting goroutines interleave.
    In every reachable state: no will is published twice on any continuation; a
    will that is cancelled or removed is not published on any continuation; a
    connection that did not register the will cannot trigger it; and a will whose
    delay runs is published by its goroutine when the delay is over. *)
Theorem will_published_at_most_once wh0 ps0 :
  will_steps NewWillHandler ps0 wh0 ->
  NoDup (will_ref <$> ps0) /\
  (forall ps wh, will_steps wh0 ps wh -> NoDup (will_ref <$> ps0 ++ ps)) /\
  (forall c w ps wh, wills wh0 !! c = Some w ->
     will_steps (CancelWill c wh0) ps wh \/ will_steps (RemoveWill c wh0) ps wh -> will_ref w ∉ will_ref <$> ps) /\
  (forall now c w conn conn', wills wh0 !! c = Some w -> will_Conn w = Some conn -> conn' <> conn ->
     TriggerWill now c (Some conn') wh0 = ([], wh0)) /\
  (forall c token, cancel wh0 !! c = Some token ->
     exists g, waiting wh0 !! token = Some g /\ wills wh0 !! c = Some (wt_will g) /\
       fst (timerBranch token g wh0) = publishWillMessage (wt_will g)).
Proof.
  intros H0. pose proof (steps_ok _ _ _ will_ok_new H0) as Hok. split_and!.
  - exact (published_once _ _ _ will_ok_new H0).
  - intros ps wh Hs. apply (published_once NewWillHandler _ wh will_ok_new).
    clear Hok. induction H0 as [|a ps1 b ps2 c Hst _ IH]; [done|]. rewrite <- app_assoc. by econstructor; [|apply IH].
  - intros c w ps wh Hw Hs. rewrite RemoveWill_forget in Hs.
    assert (will_steps (CancelWill c wh0) ps wh) as Hs' by tauto.
    eapply gone_steps; [by apply will_ok_forget | | exact Hs'].
    destruct (wo_fresh _ Hok _ _ Hw) as [Hf _]. unfold CancelWill, dropWill, set_field.
    split; cbn; rewrite ?stop_next, ?stop_wills; [done|].
    intros c' w' [Hne Hw']%lookup_delete_Some Hr. by apply Hne, (wo_inj _ Hok _ _ _ _ Hw Hw').
  - intros now c w conn conn' Hw Hc Hne. unfold TriggerWill, otherOwner. rewrite Hw, Hc.
    apply not_eq_sym, Z.eqb_neq in Hne. by rewrite Hne.
  - intros c token Hc. destruct (wo_armed _ Hok _ _ Hc) as (_ & g & Hg & <- & Hw). exists g. split_and!; [done..|].
    unfold timerBranch. change (wills (wh0 <| waiting := _ |>)) with (wills wh0). by rewrite Hw, Z.eqb_refl.
Qed.

(** A delayed will of connection 1, and the handler after it is armed at time 3. *)
Definition sample_will : WillHandler :=
  RegisterWill (str "c") [] (str "gone") [] 1 false None 5 (Some 1) NewWillHandler.
Definition sample_armed : WillHandler := snd (TriggerWill 3 (str "c") (Some 1) sample_will).

Lemma will_published_at_most_once_witness :
  exists g, waiting sample_armed !! 0 = Some g /\ wills sample_armed !! str "c" = Some (wt_will g) /\
    fst (timerBranch 0 g sample_armed) = publishWillMessage (wt_will g).
Proof.
  apply (proj2 (proj2 (proj2 (proj2 (will_published_at_most_once sample_armed []
    (steps_cons NewWillHandler [] sample_will [] sample_armed
       (step_register (str "c") [] (str "gone") [] 1 false None 5 (Some 1) NewWillHandler)
       (steps_cons sample_will [] sample_armed [] sample_armed
          (step_trigger 3 (str "c") (Some 1) sample_will) (steps_nil sample_armed))))))) (str "c") 0).
  vm_compute. reflexivity.
Defined.
