(* ===== verification/Broker.v ===== *)
(** * Publish and subscribe: broker/pub_sub.go and broker/qos_outbound.go

    The broker's shared state and the handlers that route messages.  A handler is
    a function from states to states; what it hands to the connections is the
    trace.  The stores are any implementations of their interfaces, [now] is the
    clock during the handler, and [accepts] decides which packets a connection's
    write queue takes (it may look at everything written so far).  Metrics,
    logging, plugin hooks and the locks are not modelled: handlers run one at a
    time.  The session a handler works on is the registered one of its client. *)

From stdpp Require Import pretty.
From S2P Require Import Prelude Utf8 Wire Spec Topic Properties Packets TopicTree RateLimit StoreTypes PublishProps.
From S2P Require Import Sessions QoSEngine Auth WillHandler Flapping.
Open Scope Z_scope.

(** options.go, the options the modelled code reads; durations are nanoseconds.
    A connection rate is given by what the limiter reads of it: whether it is
    positive, and the connections it allows in a window. *)
Record brokerOptions := {
  authenticator : option Authenticator;
  enhancedAuth : list EnhancedAuthenticator;
  authorizer : option Authorizer;
  maxTopicFiltersPerSub : Z;
  maxRetainedTopics : Z;
  maxOfflineQueue : Z;
  retainedExpiry : Z;
  opt_maxInflight : Z;
  maxConnections : Z;
  maxConnRate : option Z;
  maxPublishRate : Z;
  opt_maxPacketSize : Z;
  sessionExpiry : Z;
  opt_keepAlive : Z;
  maxClientIDLength : Z;
  maxWillDelay : Z;
}.

(** broker.go, clientState: the identity of the connection, its codec, and the
    enhanced authenticator with the data of its exchange *)
Record clientState := {
  cs_conn : Z;
  cs_codec : Codec;
  cs_enhancedAuth : option (EnhancedAuthenticator * list (option bytes));
}.

(** What reaches a connection: a packet taken by the write queue, a packet the
    queue refused, the last packet before a close, and the close itself; and, on
    a connection that is not registered yet, a packet written to it directly. *)
Inductive Event :=
  | Sent (clientID : bytes) (pkt : Packet)
  | Dropped (clientID : bytes) (pkt : Packet)
  | Final (clientID : bytes) (pkt : Packet)
  | Closed (clientID : bytes)
  | Raw (conn : Z) (pkt : Packet)
  | RawClosed (conn : Z).

(** broker.go, Broker *)
Record Broker (SS MS RS : Type) := mkBroker {
  opts : brokerOptions;
  topics : TopicTree;
  qos : QoSEngine;
  will : WillHandler;
  b_sessions : Manager;
  b_sessionStore : option SS;
  b_messageStore : option MS;
  b_retainedStore : option RS;
  flapping : option FlappingDetector;
  connections : gmap bytes clientState;
  pendingConns : Z;
  offlineCount : gmap bytes Z;
  msgSeq : Z;
  retainedCount : Z;
  retainedExpirations : gmap bytes Z;
  connRate : ConnRate.connRateLimiter;
  shuttingDown : bool;
  trace : list Event;
}.
Arguments mkBroker {SS MS RS}.
Arguments opts {SS MS RS}.
Arguments topics {SS MS RS}.
Arguments qos {SS MS RS}.
Arguments will {SS MS RS}.
Arguments b_sessions {SS MS RS}.
Arguments b_sessionStore {SS MS RS}.
Arguments b_messageStore {SS MS RS}.
Arguments b_retainedStore {SS MS RS}.
Arguments flapping {SS MS RS}.
Arguments connections {SS MS RS}.
Arguments pendingConns {SS MS RS}.
Arguments offlineCount {SS MS RS}.
Arguments msgSeq {SS MS RS}.
Arguments retainedCount {SS MS RS}.
Arguments retainedExpirations {SS MS RS}.
Arguments connRate {SS MS RS}.
Arguments shuttingDown {SS MS RS}.
Arguments trace {SS MS RS}.

#[export] Instance Broker_eta SS MS RS : Eta (Broker SS MS RS) := fun b =>
  mkBroker (opts b) (topics b) (qos b) (will b) (b_sessions b) (b_sessionStore b) (b_messageStore b)
    (b_retainedStore b) (flapping b) (connections b) (pendingConns b) (offlineCount b) (msgSeq b) (retainedCount b)
    (retainedExpirations b) (connRate b) (shuttingDown b) (trace b).

Section Handlers.
Context {SS MS RS : Type} `{SessionStore SS} `{MessageStore MS} `{RetainedStore RS}.
Context (accepts : list Event -> bytes -> Packet -> bool).
Implicit Types b : Broker SS MS RS.

Definition session b (clientID : bytes) : option Session := GetSession clientID (b_sessions b).
Definition putSession (clientID : bytes) (s : Session) b : Broker SS MS RS :=
  b <| b_sessions := with_session clientID s (b_sessions b) |>.
Definition emit (e : Event) b : Broker SS MS RS := b <| trace := trace b ++ [e] |>.

(** pub_sub.go, writePacket.  A QoS 0 PUBLISH is refused by a full queue; any
    other packet waits for room and is lost only when the writer has stopped. *)
Definition writePacket (clientID : bytes) (pkt : Packet) b : Broker SS MS RS :=
  match connections b !! clientID with
  | None => b
  | Some _ => emit (if accepts (trace b) clientID pkt then Sent clientID pkt else Dropped clientID pkt) b
  end.

(** conn_lifecycle.go, sendDisconnectBeforeClose *)
Definition sendDisconnectBeforeClose (clientID : bytes) (pkt : Packet) b : Broker SS MS RS :=
  match connections b !! clientID with
  | None => b
  | Some _ => if accepts (trace b) clientID pkt then emit (Final clientID pkt) b else b
  end.

(** pub_sub.go, closeProtocolViolationWithReason and closeProtocolViolation *)
Definition closeProtocolViolationWithReason (clientID : bytes) (s : Session) (reason : Z) b : Broker SS MS RS :=
  let b := if ServerDisconnect (sessionSpec s) then sendDisconnectBeforeClose clientID (disconnectPacket reason) b
           else b in
  match connections b !! clientID with
  | Some _ => emit (Closed clientID) b
  | None => b
  end.

Definition closeProtocolViolation (clientID : bytes) (s : Session) b : Broker SS MS RS :=
  closeProtocolViolationWithReason clientID s ReasonCodeProtocolError b.

(** pub_sub.go, ackDiscardedPublish *)
Definition ackDiscardedPublish (clientID : bytes) (s : Session) (pkt : PublishPacket) (v5Reason : Z) b
    : Broker SS MS RS :=
  if pub_QoS pkt =? 0 then b
  else
    let reason := if negb (SpecReasonCodes (sessionSpec s)) then ReasonCodeSuccess else v5Reason in
    if pub_QoS pkt =? 1 then writePacket clientID (pubAckPacket (pub_PacketID pkt) reason) b
    else if pub_QoS pkt =? 2 then writePacket clientID (pubRecPacket (pub_PacketID pkt) reason) b
    else b.

(** pub_sub.go, rejectInboundOverBudget and rejectMalformedTopic *)
Definition rejectInboundOverBudget (clientID : bytes) (s : Session) (pkt : PublishPacket) b : Broker SS MS RS :=
  if ServerDisconnect (sessionSpec s)
  then closeProtocolViolationWithReason clientID s DisconnectReceiveMaximumExceeded b
  else ackDiscardedPublish clientID s pkt ReasonCodeSuccess b.

Definition rejectMalformedTopic (clientID : bytes) (s : Session) b : Broker SS MS RS :=
  closeProtocolViolationWithReason clientID s DisconnectProtocolError b.

(** pub_sub.go, messageExpiresAt *)
Definition messageExpiresAt (now : Z) (pkt : PublishPacket) : option Z :=
  match pub_Properties pkt ≫= MessageExpiryInterval with
  | Some i => if 0 <? i then Some (now + i * second) else None
  | None => None
  end.

Definition expired (now : Z) (deadline : option Z) : bool :=
  match deadline with Some e => e <? now | None => false end.

(** ** Retained messages *)

(** The soonest of the operator's TTL and the publisher's deadline. *)
Definition retainedDeadline (ttl storedAt : Z) (expiresAt : option Z) : option Z :=
  if 0 <? ttl then
    match expiresAt with
    | Some e => if storedAt + ttl <? e then Some (storedAt + ttl) else Some e
    | None => Some (storedAt + ttl)
    end
  else expiresAt.

(** pub_sub.go, handleRetainedMessage, once it is known whether the topic has a
    message; then the function itself *)
Definition storeRetained (now : Z) (pkt : PublishPacket) (existed : bool) (rs : RS) b : Broker SS MS RS :=
  let topic := pub_Topic pkt in
  if (0 <? len (Payload pkt)) && negb existed && (0 <? maxRetainedTopics (opts b)) &&
     (maxRetainedTopics (opts b) <=? retainedCount b) then b
  else if len (Payload pkt) =? 0 then
    match DeleteRetained topic rs with
    | (Err _, rs') => b <| b_retainedStore := Some rs' |>
    | (Ok _, rs') =>
        b <| b_retainedStore := Some rs' |>
          <| retainedCount := if existed then retainedCount b - 1 else retainedCount b |>
          <| retainedExpirations := delete topic (retainedExpirations b) |>
    end
  else
    let record :=
      {| Store.rm_Topic := topic; Store.rm_QoS := pub_QoS pkt; Store.rm_Payload := Payload pkt;
         Store.rm_Timestamp := Some now; Store.rm_Properties := storeProperties (pub_Properties pkt);
         Store.rm_ExpiresAt := messageExpiresAt now pkt |} in
    match SaveRetained now record rs with
    | (Err _, rs') => b <| b_retainedStore := Some rs' |>
    | (Ok _, rs') =>
        b <| b_retainedStore := Some rs' |>
          <| retainedCount := if existed then retainedCount b else retainedCount b + 1 |>
          <| retainedExpirations :=
               match retainedDeadline (retainedExpiry (opts b)) now (Store.rm_ExpiresAt record) with
               | None => delete topic (retainedExpirations b)
               | Some d => <[topic := d]> (retainedExpirations b)
               end |>
    end.

Definition handleRetainedMessage (now : Z) (pkt : PublishPacket) b : Broker SS MS RS :=
  match b_retainedStore b with
  | None => b
  | Some rs =>
      match GetRetained (pub_Topic pkt) rs with
      | Ok _ => storeRetained now pkt true rs b
      | Err e => if bool_decide (e = ErrRetainedNotFound) then storeRetained now pkt false rs b else b
      end
  end.

(** ** Delivery *)

(** pub_sub.go, doDeliver *)
Definition trackDelivery (now : Z) (clientID : bytes) (msg : InflightMsg) (q : QoSEngine) : QoSEngine :=
  snd (if ifm_QoS msg =? 1
       then TrackOutboundQoS1 clientID (ifm_PacketID msg) (ifm_Topic msg) (ifm_Payload msg) (ifm_Retain msg) now q
       else TrackOutboundQoS2 clientID (ifm_PacketID msg) (ifm_Topic msg) (ifm_Payload msg) (ifm_Retain msg) now q).

Definition doDeliver (now : Z) (clientID : bytes) (pkt : PublishPacket) (deliverQoS : Z) (expiresAt : option Z)
    (subOpts : SubscriptionOptions) (subIDs : list Z) (retainedDelivery : bool) b : Broker SS MS RS :=
  match session b clientID with
  | None => b
  | Some s =>
      if expired now expiresAt then b
      else if (0 <? deliverQoS) && negb (CanSendOutbound s) then
        putSession clientID (snd (BufferOutbound pkt deliverQoS subOpts subIDs expiresAt s)) b
      else
        let outRetain := retainedDelivery || (so_RetainAsPublished subOpts && pub_Retain pkt) in
        let props := if SpecProperties (sessionSpec s)
                     then forwardedPublishProperties now (pub_Properties pkt) subIDs expiresAt else None in
        let size := len (pub_Topic pkt) + len (Payload pkt) in
        if 0 <? deliverQoS then
          let '(id, s) := NextPacketID s in
          let msg := {| ifm_PacketID := id; ifm_QoS := deliverQoS; ifm_Topic := pub_Topic pkt;
                        ifm_Payload := Payload pkt; ifm_Retain := outRetain; ifm_SentAt := Some now;
                        ifm_ExpiresAt := expiresAt; ifm_Properties := props; ifm_PendingPubRel := false |} in
          let s := IncOutboundUnacked (TrackSent size (AddInflight msg s)) in
          writePacket clientID
            (PPublish (mkPublish deliverQoS false outRetain id (pub_Topic pkt) (Payload pkt) props))
            (putSession clientID s b <| qos := trackDelivery now clientID msg (qos b) |>)
        else
          writePacket clientID
            (PPublish (mkPublish deliverQoS false outRetain 0 (pub_Topic pkt) (Payload pkt) props))
            (putSession clientID (TrackSent size s) b)
  end.

(** pub_sub.go, deliverWithQoS *)
Definition minQoS (a q : Z) : Z := if q <? a then q else a.

Definition deliverWithQoS (now : Z) (s : Session) (pkt : PublishPacket) (subQoS : Z) (subOpts : SubscriptionOptions)
    (subIDs : list Z) b : Broker SS MS RS :=
  doDeliver now (ses_ClientID s) pkt (minQoS (pub_QoS pkt) subQoS) (messageExpiresAt now pkt) subOpts subIDs false b.

(** pub_sub.go, nextMessageID: "%d-%d" of the clock and the counter *)
Definition nextMessageID (now : Z) b : bytes * Broker SS MS RS :=
  let seq := u64 (msgSeq b + 1) in
  (str (pretty now +:+ "-" +:+ pretty seq), b <| msgSeq := seq |>).

Definition bumpOffline (clientID : bytes) b : Broker SS MS RS :=
  b <| offlineCount := <[clientID := default 0 (offlineCount b !! clientID) + 1]> (offlineCount b) |>.

(** pub_sub.go, queueOfflineMessage *)
Definition saveOffline (now : Z) (clientID : bytes) (ms : MS) (topic payload : bytes) (q : Z) (retain : bool)
    (expiresAt : option Z) b : Broker SS MS RS :=
  let '(id, b) := nextMessageID now b in
  let msg := {| Store.sm_ID := id; Store.sm_Topic := topic; Store.sm_QoS := q; Store.sm_Payload := payload;
                Store.sm_Retain := retain; Store.sm_Timestamp := now; Store.sm_ExpiresAt := expiresAt |} in
  match SaveMessage clientID msg ms with
  | (Err _, ms') => b <| b_messageStore := Some ms' |>
  | (Ok _, ms') => bumpOffline clientID (b <| b_messageStore := Some ms' |>)
  end.

Definition queueOfflineMessage (now : Z) (clientID : bytes) (pkt : PublishPacket) (expiresAt : option Z) b
    : Broker SS MS RS :=
  match b_messageStore b, b_sessionStore b with
  | Some ms, Some ss =>
      if pub_QoS pkt =? 0 then b
      else
        match IsSessionExists clientID ss, FetchSession clientID ss with
        | Ok true, Ok data =>
            let expiry := if 0 <? Store.sd_ExpiryInterval data then Store.sd_ExpiryTime data else None in
            if expired now expiry then b
            else if (0 <? maxOfflineQueue (opts b)) && (maxOfflineQueue (opts b) <=? default 0 (offlineCount b !! clientID))
            then b
            else
              let expiresAt := match expiresAt with Some e => Some e | None => expiry end in
              saveOffline now clientID ms (pub_Topic pkt) (Payload pkt) (pub_QoS pkt) (pub_Retain pkt) expiresAt b
        | _, _ => b
        end
  | _, _ => b
  end.

(** pub_sub.go, deliverToClient and deliverToSharedClient *)
Definition deliverToClient (now : Z) (clientID sourceClientID : bytes) (pkt : PublishPacket) b : Broker SS MS RS :=
  match session b clientID with
  | None => queueOfflineMessage now clientID pkt (messageExpiresAt now pkt) b
  | Some s =>
      if negb (bool_decide (sourceClientID = [])) && bool_decide (clientID = sourceClientID) &&
         negb (AllowsLocalPublish (pub_Topic pkt) s) then b
      else
        let '(matches, subQoS, subOpts, subIDs) := MatchesSubscription (pub_Topic pkt) s in
        if matches then deliverWithQoS now s pkt subQoS subOpts subIDs b else b
  end.

Definition deliverToSharedClient (now : Z) (clientID sourceClientID : bytes) (pkt : PublishPacket) (subQoS : Z) b
    : Broker SS MS RS :=
  match session b clientID with
  | None => b
  | Some s =>
      if negb (bool_decide (sourceClientID = [])) && bool_decide (clientID = sourceClientID) &&
         negb (AllowsLocalPublish (pub_Topic pkt) s) then b
      else deliverWithQoS now s pkt subQoS (qosOptions subQoS) [] b
  end.

(** pub_sub.go, isClientOnline and routeSharedPublish *)
Definition isClientOnline b (clientID : bytes) : bool := bool_decide (is_Some (session b clientID)).

Definition routeSharedPublish (now : Z) (sourceClientID : bytes) (pkt : PublishPacket) b : Broker SS MS RS :=
  let '(shared, tree) := matchShared (pub_Topic pkt) (Some (isClientOnline b)) (topics b) in
  foldl (fun b sub => deliverToSharedClient now (sharedClientID sub) sourceClientID pkt (sharedQoS sub) b)
    (b <| topics := tree |>) shared.

(** The loop over the matching plain subscriptions. *)
Definition deliverToMatches (now : Z) (sourceClientID : bytes) (pkt : PublishPacket) b : Broker SS MS RS :=
  foldl (fun b sub => deliverToClient now (fst sub) sourceClientID pkt b) b (Match (pub_Topic pkt) (topics b)).

(** The routing shared by handlePublish, handlePubRel and publishWill. *)
Definition routePublish (now : Z) (sourceClientID : bytes) (pkt : PublishPacket) b : Broker SS MS RS :=
  routeSharedPublish now sourceClientID pkt (deliverToMatches now sourceClientID pkt b).

(** pub_sub.go, shouldDeliverRetained *)
Definition shouldDeliverRetained (retainHandling : Z) (existed : bool) : bool :=
  if retainHandling =? 1 then negb existed else if retainHandling =? 2 then false else true.

(** pub_sub.go, deliverRetainedMessages *)
Definition deliverRetained (now : Z) (clientID : bytes) b (msg : Store.RetainedMessage) : Broker SS MS RS :=
  match session b clientID with
  | None => b
  | Some s =>
      let '(matches, subQoS, subOpts, subIDs) := MatchesRetainedSubscription (Store.rm_Topic msg) s in
      if matches then
        let deliverQoS := minQoS (Store.rm_QoS msg) subQoS in
        let pkt := mkPublish deliverQoS false true 0 (Store.rm_Topic msg) (Store.rm_Payload msg)
                     (protocolProperties (Store.rm_Properties msg)) in
        doDeliver now clientID pkt deliverQoS (Store.rm_ExpiresAt msg) subOpts subIDs true b
      else b
  end.

Definition deliverRetainedMessages (now : Z) (clientID topicFilter : bytes) b : Broker SS MS RS :=
  match b_retainedStore b with
  | None => b
  | Some rs =>
      match MatchRetained topicFilter rs with
      | Err _ => b
      | Ok msgs => foldl (deliverRetained now clientID) b msgs
      end
  end.

(** ** PUBLISH *)

(** pub_sub.go, handlePublish: the QoS 2 branch *)
Definition stageQoS2 (now : Z) (clientID : bytes) (s : Session) (pkt : PublishPacket) b : Broker SS MS RS :=
  let id := pub_PacketID pkt in
  if HasInboundQoS2 id s then
    let reason := if pub_Dup pkt then ReasonCodeSuccess else ReasonCodePacketIdentifierInUse in
    let reason := if negb (SpecReasonCodes (sessionSpec s)) then ReasonCodeSuccess else reason in
    writePacket clientID (pubRecPacket id reason) b
  else
    let msg := {| iq_PacketID := id; iq_QoS := pub_QoS pkt; iq_Topic := pub_Topic pkt; iq_Payload := Payload pkt;
                  iq_Retain := pub_Retain pkt; iq_ReceivedAt := now; iq_Properties := pub_Properties pkt |} in
    match AddInboundQoS2 msg (ReceiveMax s) s with
    | (false, _) => rejectInboundOverBudget clientID s pkt b
    | (true, s') =>
        let b := putSession clientID s' b in
        let b := if pub_Retain pkt then handleRetainedMessage now pkt b else b in
        writePacket clientID (pubRecPacket id ReasonCodeSuccess) b
    end.

(** pub_sub.go, handlePublish: the QoS 0 and QoS 1 branch *)
Definition forwardPublish (now : Z) (clientID : bytes) (pkt : PublishPacket) b : Broker SS MS RS :=
  let b := if pub_Retain pkt then handleRetainedMessage now pkt b else b in
  let b := routePublish now clientID pkt b in
  if pub_QoS pkt =? 1 then writePacket clientID (pubAckPacket (pub_PacketID pkt) ReasonCodeSuccess) b else b.

Definition canPublish b (username topic : bytes) : bool :=
  match authorizer (opts b) with Some a => CanPublish a username topic | None => true end.
Definition canSubscribe b (username topic : bytes) : bool :=
  match authorizer (opts b) with Some a => CanSubscribe a username topic | None => true end.

(** The checks of handlePublish after its topic is known. *)
Definition acceptPublish (now : Z) (clientID : bytes) (s : Session) (pkt : PublishPacket) b : Broker SS MS RS :=
  if bool_decide (pub_Properties pkt ≫= MessageExpiryInterval = Some 0)
  then ackDiscardedPublish clientID s pkt ReasonCodeSuccess b
  else if negb (ValidatePublishTopic (pub_Topic pkt)) then rejectMalformedTopic clientID s b
  else if negb (canPublish b (ses_Username s) (pub_Topic pkt))
  then ackDiscardedPublish clientID s pkt ReasonCodeNotAuthorized b
  else if pub_QoS pkt =? 2 then stageQoS2 now clientID s pkt b
  else forwardPublish now clientID pkt b.

Definition with_topic (pkt : PublishPacket) (topic : bytes) : PublishPacket :=
  {| pub_FixedHeader := pub_FixedHeader pkt; pub_PacketID := pub_PacketID pkt; pub_Topic := topic;
     Payload := Payload pkt; pub_Properties := pub_Properties pkt |}.

(** The topic alias step of handlePublish. *)
Definition resolveAlias (now : Z) (clientID : bytes) (s : Session) (pkt : PublishPacket) b : Broker SS MS RS :=
  match pub_Properties pkt ≫= TopicAlias with
  | None => acceptPublish now clientID s pkt b
  | Some alias =>
      if alias =? 0 then closeProtocolViolationWithReason clientID s ReasonCodeTopicAliasInvalid b
      else if bool_decide (pub_Topic pkt = []) then
        match ResolveTopicAlias alias s with
        | None => closeProtocolViolation clientID s b
        | Some resolved => acceptPublish now clientID s (with_topic pkt resolved) b
        end
      else
        match RegisterTopicAlias alias (pub_Topic pkt) s with
        | (Err _, _) => closeProtocolViolationWithReason clientID s ReasonCodeTopicAliasInvalid b
        | (Ok _, s') => acceptPublish now clientID s' pkt (putSession clientID s' b)
        end
  end.

(** pub_sub.go, handlePublish *)
Definition handlePublish (now : Z) (clientID : bytes) (pkt : PublishPacket) b : Broker SS MS RS :=
  match session b clientID with
  | None => b
  | Some s =>
      match publishRate s with
      | None => resolveAlias now clientID s pkt b
      | Some r =>
          let '(ok, r') := PublishRate.Allow now r in
          let s := s <| publishRate := Some r' |> in
          let b := putSession clientID s b in
          if ok then resolveAlias now clientID s pkt b
          else ackDiscardedPublish clientID s pkt ReasonCodeQuotaExceeded b
      end
  end.

(** ** SUBSCRIBE and UNSUBSCRIBE *)

(** pub_sub.go, subAckFailureCode *)
Definition subAckFailureCode (s : Session) : Z :=
  if negb (SubAckFailureSupported (sessionSpec s)) then ReasonCodeGrantedQoS0 else SubAckFailure.

(** The verdict of handleSubscribe on one filter: tear the connection down, or
    go on with the reason code, whether retained messages follow, and the new
    state. *)
Inductive SubscribeStep :=
  | SubMalformed
  | SubViolation
  | SubGranted (code : Z) (retained : bool) (b : Broker SS MS RS).

Definition subscribeOne (clientID : bytes) (f : TopicFilter) (s : Session) b : SubscribeStep :=
  let failCode := subAckFailureCode s in
  if IsSharedSubscription (tf_Topic f) then
    match ParseSharedFilter (tf_Topic f) with
    | None => SubMalformed
    | Some (shareName, realFilter) =>
        if negb (ValidateTopicFilter realFilter) then SubMalformed
        else if NoLocal f then SubViolation
        else if negb (canSubscribe b (ses_Username s) realFilter) then SubGranted failCode false b
        else
          SubGranted (tf_QoS f) (shouldDeliverRetained (RetainHandling f) false)
            (putSession clientID (AddSubscriptionFilter f s)
               (b <| topics := SubscribeShared shareName realFilter clientID (tf_QoS f) (topics b) |>))
    end
  else if negb (ValidateTopicFilter (tf_Topic f)) then SubMalformed
  else if negb (canSubscribe b (ses_Username s) (tf_Topic f)) then SubGranted failCode false b
  else
    let existed := HasSubscription (tf_Topic f) s in
    match Subscribe (tf_Topic f) clientID (tf_QoS f) (topics b) with
    | (false, tree) => SubGranted failCode false (b <| topics := tree |>)
    | (true, tree) =>
        SubGranted (tf_QoS f) (shouldDeliverRetained (RetainHandling f) existed)
          (putSession clientID (AddSubscriptionFilter f s) (b <| topics := tree |>))
    end.

(** The loop of handleSubscribe: the reason codes and the filters whose retained
    messages are delivered, or the state after a teardown. *)
Fixpoint subscribeLoop (clientID : bytes) (fs : list TopicFilter) (codes : bytes) (retained : list TopicFilter) b
    : (bytes * list TopicFilter * Broker SS MS RS) + Broker SS MS RS :=
  match fs with
  | [] => inl (codes, retained, b)
  | f :: fs' =>
      match session b clientID with
      | None => inr b
      | Some s =>
          match subscribeOne clientID f s b with
          | SubMalformed => inr (rejectMalformedTopic clientID s b)
          | SubViolation => inr (closeProtocolViolation clientID s b)
          | SubGranted code r b => subscribeLoop clientID fs' (codes ++ [code]) (if r then retained ++ [f] else retained) b
          end
      end
  end.

Definition deliverRetainedFor (now : Z) (clientID : bytes) b (f : TopicFilter) : Broker SS MS RS :=
  if IsSharedSubscription (tf_Topic f) then
    match ParseSharedFilter (tf_Topic f) with
    | Some (_, realFilter) =>
        if ValidateTopicFilter realFilter then deliverRetainedMessages now clientID realFilter b else b
    | None => b
    end
  else deliverRetainedMessages now clientID (tf_Topic f) b.

(** pub_sub.go, handleSubscribe *)
Definition handleSubscribe (now : Z) (clientID : bytes) (pkt : SubscribePacket) b : Broker SS MS RS :=
  match session b clientID with
  | None => b
  | Some s =>
      if (0 <? maxTopicFiltersPerSub (opts b)) && (maxTopicFiltersPerSub (opts b) <? len (sub_Topics pkt)) then
        writePacket clientID (subAckPacket (sub_PacketID pkt) (replicate (length (sub_Topics pkt)) (subAckFailureCode s))) b
      else
        match subscribeLoop clientID (sub_Topics pkt) [] [] b with
        | inr b => b
        | inl (codes, retained, b) =>
            foldl (deliverRetainedFor now clientID)
              (writePacket clientID (subAckPacket (sub_PacketID pkt) codes) b) retained
        end
  end.

(** The loop of handleUnsubscribe: the reason codes, or the state after a
    teardown. *)
Fixpoint unsubscribeLoop (clientID : bytes) (fs : list bytes) (codes : bytes) b
    : (bytes * Broker SS MS RS) + Broker SS MS RS :=
  match fs with
  | [] => inl (codes, b)
  | f :: fs' =>
      match session b clientID with
      | None => inr b
      | Some s =>
          let continue tree := unsubscribeLoop clientID fs' (codes ++ [ReasonCodeSuccess])
                                 (putSession clientID (RemoveSubscription f s) (b <| topics := tree |>)) in
          if IsSharedSubscription f then
            match ParseSharedFilter f with
            | None => inr (rejectMalformedTopic clientID s b)
            | Some (shareName, realFilter) =>
                if negb (ValidateTopicFilter realFilter) then inr (rejectMalformedTopic clientID s b)
                else continue (UnsubscribeShared shareName realFilter clientID (topics b))
            end
          else if negb (ValidateTopicFilter f) then inr (rejectMalformedTopic clientID s b)
          else continue (Unsubscribe f clientID (topics b))
      end
  end.

(** pub_sub.go, handleUnsubscribe *)
Definition handleUnsubscribe (clientID : bytes) (pkt : UnsubscribePacket) b : Broker SS MS RS :=
  match session b clientID with
  | None => b
  | Some s =>
      match unsubscribeLoop clientID (unsub_Topics pkt) [] b with
      | inr b => b
      | inl (codes, b) =>
          let codes := if SpecReasonCodes (sessionSpec s) then codes else [] in
          writePacket clientID (unsubAckPacket (unsub_PacketID pkt) codes) b
      end
  end.

(** pub_sub.go, unsubscribeTopics and unsubscribeSessionTopics *)
Definition unsubscribeTopic (clientID : bytes) (tree : TopicTree) (topic : bytes) : TopicTree :=
  if IsSharedSubscription topic then
    match ParseSharedFilter topic with
    | Some (shareName, realFilter) => UnsubscribeShared shareName realFilter clientID tree
    | None => tree
    end
  else Unsubscribe topic clientID tree.

Definition unsubscribeTopics (clientID : bytes) (ts : list bytes) b : Broker SS MS RS :=
  b <| topics := foldl (unsubscribeTopic clientID) (topics b) ts |>.

Definition unsubscribeSessionTopics (s : Session) b : Broker SS MS RS :=
  unsubscribeTopics (ses_ClientID s) (fst <$> map_to_list (Subscriptions s)) b.

(** ** Acknowledgements *)

(** pub_sub.go, flushBufferedOutbound.  An iteration removes the oldest buffered
    delivery and adds none, so the length of the queue is enough fuel. *)
Fixpoint flushLoop (fuel : nat) (now : Z) (clientID : bytes) b : Broker SS MS RS :=
  match fuel with
  | O => b
  | S fuel' =>
      match session b clientID with
      | None => b
      | Some s =>
          if negb (CanSendOutbound s) then b
          else
            match PopOutbound s with
            | (None, _) => b
            | (Some m, s') =>
                flushLoop fuel' now clientID
                  (doDeliver now clientID (om_pkt m) (om_deliverQoS m) (om_expiresAt m) (om_subOpts m) (om_subIDs m)
                     false (putSession clientID s' b))
            end
      end
  end.

Definition flushBufferedOutbound (now : Z) (clientID : bytes) b : Broker SS MS RS :=
  match session b clientID with
  | None => b
  | Some s => flushLoop (length (outboundQueue s)) now clientID b
  end.

(** The part the acknowledgement handlers share: drop the delivery, count it as
    acknowledged only if it was one, and use the room. *)
Definition releaseDelivery (packetID : Z) (s : Session) : Session :=
  match RemoveInflight packetID s with
  | (true, s') => DecOutboundUnacked s'
  | (false, s') => s'
  end.

Definition acknowledge (now : Z) (clientID : bytes) (packetID : Z) b : Broker SS MS RS :=
  match session b clientID with
  | None => b
  | Some s => flushBufferedOutbound now clientID (putSession clientID (releaseDelivery packetID s) b)
  end.

(** qos_outbound.go, handlePubAck, handlePubComp and dropRejectedDelivery *)
Definition handlePubAck (now : Z) (clientID : bytes) (packetID : Z) b : Broker SS MS RS :=
  acknowledge now clientID packetID (b <| qos := AckQoS1 clientID packetID (qos b) |>).

Definition handlePubComp (now : Z) (clientID : bytes) (packetID : Z) b : Broker SS MS RS :=
  acknowledge now clientID packetID (b <| qos := AckPubComp clientID packetID (qos b) |>).

Definition dropRejectedDelivery (now : Z) (clientID : bytes) (packetID : Z) b : Broker SS MS RS :=
  acknowledge now clientID packetID (b <| qos := ReleaseInflight clientID packetID (qos b) |>).

(** qos_outbound.go, buildRetransmitPublish *)
Definition buildRetransmitPublish (now : Z) (m : InflightMsg) : PublishPacket :=
  let props :=
    match ifm_Properties m, ifm_ExpiresAt m with
    | Some p, Some e => Some (p <| MessageExpiryInterval := Some (remainingExpiry now e) |>)
    | p, _ => p
    end in
  mkPublish (ifm_QoS m) true (ifm_Retain m) (ifm_PacketID m) (ifm_Topic m) (ifm_Payload m) props.

(** qos_outbound.go, republish *)
Definition republish (now : Z) (clientID : bytes) (packetID q : Z) b : Broker SS MS RS :=
  match session b clientID ≫= GetInflightMsg packetID with
  | Some m =>
      if ifm_QoS m =? q then writePacket clientID (PPublish (buildRetransmitPublish now m)) b else b
  | None => b
  end.

(** broker.go, the give-up callback *)
Definition giveUp (clientID : bytes) (packetID : Z) b : Broker SS MS RS :=
  match session b clientID with
  | None => b
  | Some s => putSession clientID (releaseDelivery packetID s) b
  end.

(** broker.go, the callbacks the broker installs in the QoS engine (they never
    fail, and no error callback is set). *)
Definition runCall (now : Z) b (c : QoSCall) : Broker SS MS RS :=
  match c with
  | CallPubRel clientID id => writePacket clientID (pubRelPacket id) b
  | CallPubComp clientID id => writePacket clientID (pubCompPacket id) b
  | CallRepublish clientID id _ _ q _ => republish now clientID id q b
  | CallGiveUp clientID id => giveUp clientID id b
  | CallError _ _ => b
  end.

Definition runQoSCalls (now : Z) (r : list QoSCall * QoSEngine) b : Broker SS MS RS :=
  foldl (runCall now) (b <| qos := snd r |>) (fst r).

(** One round of the engine's retry loop. *)
Definition retryRound (now : Z) b : Broker SS MS RS := runQoSCalls now (doRetry (fun _ => false) now (qos b)) b.

(** qos_outbound.go, handlePubRec *)
Definition handlePubRec (now : Z) (clientID : bytes) (packetID reasonCode : Z) b : Broker SS MS RS :=
  if ReasonCodeFailureBase <=? reasonCode then dropRejectedDelivery now clientID packetID b
  else
    let b := match session b clientID with
             | Some s => putSession clientID (snd (MarkInflightPubRel packetID s)) b
             | None => b
             end in
    runQoSCalls now (AckPubRec (fun _ => false) clientID packetID (qos b)) b.

(** qos_outbound.go, handlePubRel *)
Definition handlePubRel (now : Z) (clientID : bytes) (packetID : Z) b : Broker SS MS RS :=
  let b :=
    match session b clientID with
    | None => b
    | Some s =>
        match TakeInboundQoS2 packetID s with
        | (None, _) => b
        | (Some m, s') =>
            routePublish now clientID
              (mkPublish (iq_QoS m) false (iq_Retain m) (iq_PacketID m) (iq_Topic m) (iq_Payload m) (iq_Properties m))
              (putSession clientID s' b)
        end
    end in
  writePacket clientID (pubCompPacket packetID) b.

(** qos_outbound.go, publishWill *)
Definition publishWill (now : Z) (username topic payload : bytes) (q : Z) (retain : bool) (props : option Properties) b
    : Broker SS MS RS :=
  if negb (canPublish b username topic) then b
  else
    let pkt := mkPublish q false retain 0 topic payload props in
    let b := if retain then handleRetainedMessage now pkt b else b in
    routePublish now [] pkt b.

(** lifecycle.go, publishSystem *)
Definition publishSystem (now : Z) (topic payload : bytes) b : Broker SS MS RS :=
  deliverToMatches now (str "$SYS") (mkPublish 0 false false 0 topic payload None) b.

(** ** Queued messages and resumption *)

(** pub_sub.go, adjustOfflineCount *)
Definition adjustOfflineCount (clientID : bytes) (delta : Z) b : Broker SS MS RS :=
  let n := default 0 (offlineCount b !! clientID) + delta in
  b <| offlineCount := if n <=? 0 then delete clientID (offlineCount b) else <[clientID := n]> (offlineCount b) |>.

Definition deleteQueued (clientID id : bytes) b : Broker SS MS RS :=
  match b_messageStore b with
  | None => b
  | Some ms =>
      match DeleteMessage clientID id ms with
      | (Err _, ms') => b <| b_messageStore := Some ms' |>
      | (Ok _, ms') => adjustOfflineCount clientID (-1) (b <| b_messageStore := Some ms' |>)
      end
  end.

(** pub_sub.go, deliverQueuedMessages *)
Definition deliverQueued (now : Z) (clientID : bytes) b (m : Store.StoredMessage) : Broker SS MS RS :=
  if expired now (Store.sm_ExpiresAt m) then deleteQueued clientID (Store.sm_ID m) b
  else
    match session b clientID with
    | None => b
    | Some s =>
        let '(matches, subQoS, subOpts, subIDs) := MatchesSubscription (Store.sm_Topic m) s in
        if negb matches then deleteQueued clientID (Store.sm_ID m) b
        else
          let deliverQoS := minQoS (Store.sm_QoS m) subQoS in
          if (0 <? deliverQoS) && negb (CanSendOutbound s) then b
          else
            let props :=
              match Store.sm_ExpiresAt m with
              | Some e => if SpecProperties (sessionSpec s)
                          then Some (emptyProperties <| MessageExpiryInterval := Some (remainingExpiry now e) |>)
                          else None
              | None => None
              end in
            let pkt := mkPublish deliverQoS false (Store.sm_Retain m) 0 (Store.sm_Topic m) (Store.sm_Payload m) props in
            deleteQueued clientID (Store.sm_ID m)
              (doDeliver now clientID pkt deliverQoS (Store.sm_ExpiresAt m) subOpts subIDs false b)
    end.

Definition deliverQueuedMessages (now : Z) (clientID : bytes) b : Broker SS MS RS :=
  match b_messageStore b with
  | None => b
  | Some ms =>
      match ListMessages clientID ms with
      | Err _ => b
      | Ok msgs => foldl (deliverQueued now clientID) b msgs
      end
  end.

(** pub_sub.go, persistBufferedOutbound, on the queue of a removed session *)
Definition persistOne (now : Z) (clientID : bytes) b (m : outboundMsg) : Broker SS MS RS :=
  match b_messageStore b with
  | None => b
  | Some ms => saveOffline now clientID ms (pub_Topic (om_pkt m)) (Payload (om_pkt m)) (om_deliverQoS m)
                 (pub_Retain (om_pkt m)) (om_expiresAt m) b
  end.

Definition persistBufferedOutbound (now : Z) (clientID : bytes) (s : Session) b : Broker SS MS RS :=
  foldl (persistOne now clientID) b (outboundQueue s).

(** qos_outbound.go, restoreSessionInflight and resendSessionInflight *)
Definition restoreTracking (now : Z) (clientID : bytes) (q : QoSEngine) (m : InflightMsg) : QoSEngine :=
  snd (if ifm_QoS m =? 2 then
         if ifm_PendingPubRel m
         then TrackOutboundQoS2AwaitingPubComp clientID (ifm_PacketID m) (ifm_Topic m) (ifm_Payload m) (ifm_Retain m) now q
         else TrackOutboundQoS2 clientID (ifm_PacketID m) (ifm_Topic m) (ifm_Payload m) (ifm_Retain m) now q
       else TrackOutboundQoS1 clientID (ifm_PacketID m) (ifm_Topic m) (ifm_Payload m) (ifm_Retain m) now q).

Definition restoreSessionInflight (now : Z) (clientID : bytes) (restored : Session) b : Broker SS MS RS :=
  b <| qos := foldl (restoreTracking now clientID) (qos b) (InflightSnapshot restored) |>.

Definition resendOne (now : Z) (clientID : bytes) b (m : InflightMsg) : Broker SS MS RS :=
  if (ifm_QoS m =? 2) && ifm_PendingPubRel m
  then writePacket clientID (pubRelPacket (ifm_PacketID m)) b
  else writePacket clientID (PPublish (buildRetransmitPublish now m)) b.

Definition resendSessionInflight (now : Z) (clientID : bytes) (s : Session) b : Broker SS MS RS :=
  foldl (resendOne now clientID) b (InflightSnapshot s).
End Handlers.
