(* ===== verification/BrokerInv.v ===== *)
(** * Steps of the broker and their invariants

    Every handler of Broker.v is a sequence of primitive steps: a step of one
    session, a grant or a removal of a subscription, a write, an update of a
    store.  A property of brokers that the primitive steps keep is therefore kept
    by every handler, which is what the lemmas [inv_*] say; a property of
    sessions that the steps of a session keep is an instance. *)

From S2P Require Import Prelude Utf8 Wire Spec Topic Properties Packets TopicTree RateLimit StoreTypes PublishProps.
From S2P Require Import Sessions SessionProofs QoSEngine Auth WillHandler Broker.
Open Scope Z_scope.

(** The message doDeliver records for a delivery, and the session it leaves. *)
Definition sentSession (size : Z) (msg : InflightMsg) (s : Session) : Session :=
  IncOutboundUnacked (TrackSent size (AddInflight msg (snd (NextPacketID s)))).

(** What handleSubscribe requires of a filter it grants: it is well formed (the
    real filter of a shared subscription) and the authorizer allows it. *)
Definition grantable (auth : option Authorizer) (username filter : bytes) : Prop :=
  let allowed rf := ValidateTopicFilter rf = true /\
    match auth with Some a => CanSubscribe a username rf = true | None => True end in
  if IsSharedSubscription filter then exists g rf, ParseSharedFilter filter = Some (g, rf) /\ allowed rf
  else allowed filter.

(** ** Primitive steps

    What a delivery does to the session it goes to. *)
Inductive delivery_step : Session -> Session -> Prop :=
  | ds_sent s size msg : CanSendOutbound s = true -> ifm_PacketID msg = fst (NextPacketID s) -> 0 < ifm_QoS msg ->
      delivery_step s (sentSession size msg s)
  | ds_sent0 s size : delivery_step s (TrackSent size s)
  | ds_buffer s pkt q o ids e : CanSendOutbound s = false -> 0 < q ->
      delivery_step s (snd (BufferOutbound pkt q o ids e s)).

(** What the handlers do to a session, one primitive at a time. *)
Inductive session_step : Session -> Session -> Prop :=
  | ss_delivery s s' : delivery_step s s' -> session_step s s'
  | ss_pop s : CanSendOutbound s = true -> session_step s (snd (PopOutbound s))
  | ss_release s id : session_step s (releaseDelivery id s)
  | ss_mark s id : session_step s (snd (MarkInflightPubRel id s))
  | ss_stage s m : iq_QoS m = 2 -> session_step s (snd (AddInboundQoS2 m (ReceiveMax s) s))
  | ss_take s id : session_step s (snd (TakeInboundQoS2 id s))
  | ss_alias s a t : a <> 0 -> session_step s (snd (RegisterTopicAlias a t s))
  | ss_rate s r : session_step s (s <| publishRate := r |>)
  | ss_activity s now : session_step s (UpdateActivity now s)
  | ss_received s n : session_step s (TrackReceived n s)
  | ss_expiry s v : session_step s (s <| ExpiryInterval := v |>).

Definition with_last (l : gmap bytes bytes) (t : TopicTree) : TopicTree :=
  {| root := root t; totalSubs := totalSubs t; sharedSubs := sharedSubs t; sharedLast := l |}.

Lemma matchShared_tree topic online t :
  snd (matchShared topic online t) = with_last (sharedLast (snd (matchShared topic online t))) t.
Proof. unfold matchShared. by destruct (map_fold _ _ _). Qed.

Section Steps.
Context {SS MS RS : Type} `{SessionStore SS} `{MessageStore MS} `{RetainedStore RS}.
Implicit Types b : Broker SS MS RS.

Lemma session_put c s b c' : session (putSession c s b) c' = if decide (c' = c) then Some s else session b c'.
Proof.
  unfold session, GetSession, putSession, with_session, set_field. cbn.
  destruct (decide (c' = c)) as [->|Hc]; [by rewrite lookup_insert_eq | by rewrite lookup_insert_ne].
Qed.

(** What deliveries do to the broker. *)
Inductive dstep b : Broker SS MS RS -> Prop :=
  | d_session c s s' : session b c = Some s -> delivery_step s s' -> dstep b (putSession c s' b)
  | d_emit e : dstep b (emit e b)
  | d_qos q : dstep b (b <| qos := q |>)
  | d_messages ms : dstep b (b <| b_messageStore := ms |>)
  | d_offline oc : dstep b (b <| offlineCount := oc |>)
  | d_seq n : dstep b (b <| msgSeq := n |>)
  | d_rotate l : dstep b (b <| topics := with_last l (topics b) |>).

(** What the handlers do to the broker, one primitive at a time.  None of them
    adds or removes a session, a connection or a stored session. *)
Inductive bstep b : Broker SS MS RS -> Prop :=
  | bs_delivery b' : dstep b b' -> bstep b b'
  | bs_session c s s' : session b c = Some s -> session_step s s' -> bstep b (putSession c s' b)
  | bs_will w : bstep b (b <| will := w |>)
  | bs_retain now pkt : bstep b (handleRetainedMessage now pkt b)
  | bs_subscribe c f s code r b' : session b c = Some s -> subscribeOne c f s b = SubGranted code r b' -> bstep b b'
  | bs_unsubscribe c f s : session b c = Some s -> grantable None (ses_Username s) f ->
      bstep b (putSession c (RemoveSubscription f s) (b <| topics := unsubscribeTopic c (topics b) f |>)).
End Steps.

#[export] Hint Constructors delivery_step session_step dstep bstep : session.

(** ** Deliveries *)

Section Deliveries.
Context {SS MS RS : Type} `{SessionStore SS} `{MessageStore MS} `{RetainedStore RS}.
Context (accepts : list Event -> bytes -> Packet -> bool).
Implicit Types b : Broker SS MS RS.
Context (I : Broker SS MS RS -> Prop) (Istep : forall b b', dstep b b' -> I b -> I b').

Lemma inv_delivery c s s' b : session b c = Some s -> delivery_step s s' -> I b -> I (putSession c s' b).
Proof. eauto with session. Qed.

Lemma inv_fold {A} (f : Broker SS MS RS -> A -> Broker SS MS RS) l b :
  (forall b x, I b -> I (f b x)) -> I b -> I (foldl f b l).
Proof. intros Hf. revert b. induction l; cbn; auto. Qed.

Lemma inv_write c pkt b : I b -> I (writePacket accepts c pkt b).
Proof. intros Hb. unfold writePacket. destruct (connections b !! c); eauto with session. Qed.

Lemma inv_final c pkt b : I b -> I (sendDisconnectBeforeClose accepts c pkt b).
Proof.
  intros Hb. unfold sendDisconnectBeforeClose. destruct (connections b !! c); [|done]. destruct (accepts _ _ _); eauto with session.
Qed.

Lemma inv_close c s r b : I b -> I (closeProtocolViolationWithReason accepts c s r b).
Proof.
  intros Hb. unfold closeProtocolViolationWithReason.
  set (b1 := if ServerDisconnect _ then _ else _).
  assert (I b1) by (subst b1; destruct (ServerDisconnect _); [by apply inv_final|done]).
  destruct (connections b1 !! c); eauto with session.
Qed.

Lemma inv_ackDiscarded c s pkt r b : I b -> I (ackDiscardedPublish accepts c s pkt r b).
Proof.
  intros Hb. unfold ackDiscardedPublish. destruct (_ =? 0); [done|].
  destruct (_ =? 1); [by apply inv_write|]. destruct (_ =? 2); [by apply inv_write|done].
Qed.

Lemma inv_doDeliver now c pkt q e o ids r b : I b -> I (doDeliver accepts now c pkt q e o ids r b).
Proof.
  intros Hb. unfold doDeliver. destruct (session b c) as [s|] eqn:Es; [|done].
  destruct (expired now e); [done|]. destruct (0 <? q) eqn:Eq; cbn [andb].
  - apply Z.ltb_lt in Eq. destruct (CanSendOutbound s) eqn:Ec; cbn [negb].
    + destruct (NextPacketID s) as [id s1] eqn:Eid. apply inv_write.
      eapply Istep; [apply d_qos|]. apply (inv_delivery c s); [done| |done].
      match goal with |- delivery_step _ (IncOutboundUnacked (TrackSent ?n (AddInflight ?m s1))) =>
        replace s1 with (snd (NextPacketID s)) by (by rewrite Eid); apply (ds_sent s n m Ec); [by rewrite Eid|done]
      end.
    + apply (inv_delivery c s); [done| |done]. by constructor.
  - apply inv_write, (inv_delivery c s); [done|by constructor|done].
Qed.

Lemma inv_saveOffline now c ms t p q r e b : I b -> I (saveOffline now c ms t p q r e b).
Proof.
  intros Hb. unfold saveOffline. cbn [nextMessageID]. set (b1 := b <| msgSeq := _ |>).
  assert (I b1) as Hb1 by (eapply Istep; [apply d_seq | exact Hb]).
  destruct (SaveMessage _ _ ms) as [[] ms']; [|eapply Istep; [apply d_messages | exact Hb1]].
  eapply Istep; [apply d_offline|]. eapply Istep; [apply d_messages | exact Hb1].
Qed.

Lemma inv_queueOffline now c pkt e b : I b -> I (queueOfflineMessage now c pkt e b).
Proof.
  intros Hb. unfold queueOfflineMessage. destruct (b_messageStore b), (b_sessionStore b); try done.
  destruct (_ =? 0); [done|]. destruct (IsSessionExists c s) as [[]|]; try done.
  destruct (FetchSession c s); [|done]. destruct (expired _ _); [done|]. destruct (_ && _); [done|].
  by apply inv_saveOffline.
Qed.

Lemma inv_deliverToClient now c src pkt b : I b -> I (deliverToClient accepts now c src pkt b).
Proof.
  intros Hb. unfold deliverToClient. destruct (session b c) as [s|].
  - destruct (_ && _); [done|]. destruct (MatchesSubscription _ s) as [[[[] q] o] ids]; [|done].
    by apply inv_doDeliver.
  - by apply inv_queueOffline.
Qed.

Lemma inv_deliverToShared now c src pkt q b : I b -> I (deliverToSharedClient accepts now c src pkt q b).
Proof.
  intros Hb. unfold deliverToSharedClient. destruct (session b c) as [s|]; [|done].
  destruct (_ && _); [done|]. by apply inv_doDeliver.
Qed.

Lemma inv_matches now src pkt b : I b -> I (deliverToMatches accepts now src pkt b).
Proof. intros Hb. apply inv_fold; [|done]. intros. by apply inv_deliverToClient. Qed.

Lemma inv_route now src pkt b : I b -> I (routePublish accepts now src pkt b).
Proof.
  intros Hb%(inv_matches now src pkt). unfold routePublish, routeSharedPublish.
  set (b1 := deliverToMatches _ _ _ _ b) in *.
  pose proof (matchShared_tree (pub_Topic pkt) (Some (isClientOnline b1)) (topics b1)) as Ht.
  destruct (matchShared _ _ _) as [shared tree]. apply inv_fold; [intros; by apply inv_deliverToShared|].
  cbn [snd] in Ht. rewrite Ht. eapply Istep; [apply d_rotate | done].
Qed.

Lemma inv_retainedMessages now c f b : I b -> I (deliverRetainedMessages accepts now c f b).
Proof.
  intros Hb. unfold deliverRetainedMessages. destruct (b_retainedStore b); [|done]. destruct (MatchRetained f r); [|done].
  apply inv_fold; [|done]. intros b' m Hb'. unfold deliverRetained. destruct (session b' c) as [s|]; [|done].
  destruct (MatchesRetainedSubscription _ s) as [[[[] q] o] ids]; [by apply inv_doDeliver | done].
Qed.

Lemma inv_publishSystem now t p b : I b -> I (publishSystem accepts now t p b).
Proof. apply inv_matches. Qed.

Lemma inv_deleteQueued c id b : I b -> I (deleteQueued c id b).
Proof.
  intros Hb. unfold deleteQueued. destruct (b_messageStore b); [|done].
  destruct (DeleteMessage _ _ _) as [[] ms']; [|eapply Istep; [apply d_messages | done]].
  eapply Istep; [apply d_offline|]. eapply Istep; [apply d_messages | done].
Qed.

Lemma inv_deliverQueuedMessages now c b : I b -> I (deliverQueuedMessages accepts now c b).
Proof.
  intros Hb. unfold deliverQueuedMessages. destruct (b_messageStore b); [|done]. destruct (ListMessages c m); [|done].
  apply inv_fold; [|done]. intros b' x Hb'. unfold deliverQueued.
  destruct (expired _ _); [by apply inv_deleteQueued|]. destruct (session b' c) as [s|]; [|done].
  destruct (MatchesSubscription _ s) as [[[[] q] o] ids]; cbn [negb]; [|by apply inv_deleteQueued].
  destruct (_ && _); [done|]. by apply inv_deleteQueued, inv_doDeliver.
Qed.

Lemma inv_persistBuffered now c s b : I b -> I (persistBufferedOutbound now c s b).
Proof.
  intros Hb. apply inv_fold; [|done]. intros b' m Hb'. unfold persistOne.
  destruct (b_messageStore b'); [by apply inv_saveOffline | done].
Qed.

Lemma inv_resend now c s b : I b -> I (resendSessionInflight accepts now c s b).
Proof.
  intros Hb. apply inv_fold; [|done]. intros b' m Hb'. unfold resendOne. destruct (_ && _); by apply inv_write.
Qed.
End Deliveries.

(** ** Handlers *)

Section Handlers.
Context {SS MS RS : Type} `{SessionStore SS} `{MessageStore MS} `{RetainedStore RS}.
Context (accepts : list Event -> bytes -> Packet -> bool).
Implicit Types b : Broker SS MS RS.
Context (I : Broker SS MS RS -> Prop) (Istep : forall b b', bstep b b' -> I b -> I b').

#[local] Lemma Idelivery b b' : dstep b b' -> I b -> I b'.
Proof. eauto with session. Qed.
#[local] Hint Resolve Idelivery : session.

Lemma inv_session c s s' b : session b c = Some s -> session_step s s' -> I b -> I (putSession c s' b).
Proof. eauto with session. Qed.

Lemma inv_retained now pkt b : I b -> I (handleRetainedMessage now pkt b).
Proof. eauto with session. Qed.

Lemma inv_flushLoop fuel now c b : I b -> I (flushLoop accepts fuel now c b).
Proof.
  revert b. induction fuel as [|fuel IH]; intros b Hb; cbn [flushLoop]; [done|].
  destruct (session b c) as [s|] eqn:Es; [|done]. destruct (CanSendOutbound s) eqn:Ec; cbn [negb]; [|done].
  pose proof (inv_session c s _ b Es (ss_pop s Ec) Hb) as Hp. destruct (PopOutbound s) as [[m|] s']; [|done].
  by apply IH, (inv_doDeliver accepts I Idelivery).
Qed.

Lemma inv_flush now c b : I b -> I (flushBufferedOutbound accepts now c b).
Proof. unfold flushBufferedOutbound. destruct (session b c); [apply inv_flushLoop|done]. Qed.

Lemma inv_acknowledge now c id b : I b -> I (acknowledge accepts now c id b).
Proof.
  intros Hb. unfold acknowledge. destruct (session b c) as [s|] eqn:Es; [|done].
  apply inv_flush, (inv_session c s); [done | apply ss_release | done].
Qed.

Lemma inv_runCall now b k : I b -> I (runCall accepts now b k).
Proof.
  intros Hb. destruct k as [c id|c id|c id t p q r|c id|c id]; cbn [runCall]; [by apply (inv_write accepts I Idelivery)..| | |done].
  - unfold republish. destruct (session b c ≫= _) as [m|]; [|done]. destruct (_ =? _); [by apply (inv_write accepts I Idelivery)|done].
  - unfold giveUp. destruct (session b c) as [s|] eqn:Es; [|done]. apply (inv_session c s); [done | apply ss_release | done].
Qed.

Lemma inv_runQoSCalls now r b : I b -> I (runQoSCalls accepts now r b).
Proof.
  intros Hb. apply (inv_fold I); [intros; by apply inv_runCall|]. eapply Istep; [apply bs_delivery, d_qos | done].
Qed.

Lemma inv_handlePubRec now c id r b : I b -> I (handlePubRec accepts now c id r b).
Proof.
  intros Hb. unfold handlePubRec. destruct (_ <=? _).
  - apply inv_acknowledge. eapply Istep; [apply bs_delivery, d_qos | done].
  - apply inv_runQoSCalls. destruct (session b c) as [s|] eqn:Es; [|done].
    apply (inv_session c s); [done | apply ss_mark | done].
Qed.

Lemma inv_handlePubRel now c id b : I b -> I (handlePubRel accepts now c id b).
Proof.
  intros Hb. apply (inv_write accepts I Idelivery). destruct (session b c) as [s|] eqn:Es; [|done].
  pose proof (inv_session c s _ b Es (ss_take s id) Hb) as Ht.
  destruct (TakeInboundQoS2 id s) as [[m|] s']; [by apply (inv_route accepts I Idelivery) | done].
Qed.

Lemma inv_acceptPublish now c s pkt b :
  session b c = Some s -> I b -> I (acceptPublish accepts now c s pkt b).
Proof.
  intros Es Hb. unfold acceptPublish. destruct (bool_decide _); [by apply (inv_ackDiscarded accepts I Idelivery)|].
  destruct (negb (ValidatePublishTopic _)); [by apply (inv_close accepts I Idelivery)|].
  destruct (negb (canPublish _ _ _)); [by apply (inv_ackDiscarded accepts I Idelivery)|]. destruct (pub_QoS pkt =? 2) eqn:E2.
  - apply Z.eqb_eq in E2. unfold stageQoS2. destruct (HasInboundQoS2 _ s); [by apply (inv_write accepts I Idelivery)|].
    match goal with |- context [AddInboundQoS2 ?m ?k s] => pose proof (inv_session c s _ b Es (ss_stage s m E2) Hb) as Hst;
      destruct (AddInboundQoS2 m k s) as [[] s'] end.
    + apply (inv_write accepts I Idelivery). destruct (pub_Retain pkt); [by apply inv_retained | done].
    + unfold rejectInboundOverBudget. destruct (ServerDisconnect _); [by apply (inv_close accepts I Idelivery) | by apply (inv_ackDiscarded accepts I Idelivery)].
  - assert (I (if pub_Retain pkt then handleRetainedMessage now pkt b else b)) as Hr
      by (destruct (pub_Retain pkt); [by apply inv_retained|done]).
    unfold forwardPublish. destruct (pub_QoS pkt =? 1); [apply (inv_write accepts I Idelivery)|]; by apply (inv_route accepts I Idelivery).
Qed.

Lemma inv_resolveAlias now c s pkt b : session b c = Some s -> I b -> I (resolveAlias accepts now c s pkt b).
Proof.
  intros Es Hb. unfold resolveAlias. destruct (pub_Properties pkt ≫= TopicAlias) as [a|]; [|by apply inv_acceptPublish].
  destruct (Z.eqb_spec a 0) as [|Ha]; [by apply (inv_close accepts I Idelivery)|]. destruct (bool_decide _).
  - destruct (ResolveTopicAlias a s); [by apply inv_acceptPublish | by apply (inv_close accepts I Idelivery)].
  - pose proof (inv_session c s _ b Es (ss_alias s a (pub_Topic pkt) Ha) Hb) as Hal.
    destruct (RegisterTopicAlias a (pub_Topic pkt) s) as [[] s']; [|by apply (inv_close accepts I Idelivery)].
    apply inv_acceptPublish; [by rewrite session_put, decide_True | done].
Qed.

Lemma inv_handlePublish now c pkt b : I b -> I (handlePublish accepts now c pkt b).
Proof.
  intros Hb. unfold handlePublish. destruct (session b c) as [s|] eqn:Es; [|done].
  destruct (publishRate s) as [r|]; [|by apply inv_resolveAlias]. destruct (PublishRate.Allow now r) as [ok r'].
  assert (I (putSession c (s <| publishRate := Some r' |>) b)) by (apply (inv_session c s); [done | apply ss_rate | done]).
  destruct ok; [|by apply (inv_ackDiscarded accepts I Idelivery)]. apply inv_resolveAlias; [by rewrite session_put, decide_True | done].
Qed.

Lemma inv_subscribeLoop c fs codes ret b :
  I b -> match subscribeLoop accepts c fs codes ret b with inl (_, _, b') => I b' | inr b' => I b' end.
Proof.
  revert codes ret b. induction fs as [|f fs IH]; intros codes ret b Hb; cbn [subscribeLoop]; [done|].
  destruct (session b c) as [s|] eqn:Es; [|done]. destruct (subscribeOne c f s b) as [| |code r b'] eqn:E.
  - by apply (inv_close accepts I Idelivery).
  - by apply (inv_close accepts I Idelivery).
  - apply IH. eapply Istep; [by eapply bs_subscribe | done].
Qed.

Lemma inv_handleSubscribe now c pkt b : I b -> I (handleSubscribe accepts now c pkt b).
Proof.
  intros Hb. unfold handleSubscribe. destruct (session b c) as [s|]; [|done].
  destruct (_ && _); [by apply (inv_write accepts I Idelivery)|]. pose proof (inv_subscribeLoop c (sub_Topics pkt) [] [] b Hb) as Hl.
  destruct (subscribeLoop _ _ _ _ _ _) as [[[codes ret] b']|b']; [|done].
  apply (inv_fold I); [|by apply (inv_write accepts I Idelivery)]. intros b'' f Hb''. unfold deliverRetainedFor.
  destruct (IsSharedSubscription _); [|by apply (inv_retainedMessages accepts I Idelivery)].
  destruct (ParseSharedFilter _) as [[sn rf]|]; [|done].
  destruct (ValidateTopicFilter rf); [by apply (inv_retainedMessages accepts I Idelivery)|done].
Qed.

Lemma inv_unsubscribeLoop c fs codes b :
  I b -> match unsubscribeLoop accepts c fs codes b with inl (_, b') => I b' | inr b' => I b' end.
Proof.
  revert codes b. induction fs as [|f fs IH]; intros codes b Hb; cbn [unsubscribeLoop]; [done|].
  destruct (session b c) as [s|] eqn:Es; [|done].
  pose proof (bs_unsubscribe b c f s Es) as Hstep. unfold grantable, unsubscribeTopic in Hstep.
  destruct (IsSharedSubscription f).
  - destruct (ParseSharedFilter f) as [[sn rf]|] eqn:Ep; [|by apply (inv_close accepts I Idelivery)].
    destruct (negb (ValidateTopicFilter rf)) eqn:Ev; [by apply (inv_close accepts I Idelivery)|]. apply negb_false_iff in Ev.
    apply IH. eapply Istep; [apply Hstep; eauto | done].
  - destruct (negb (ValidateTopicFilter f)) eqn:Ev; [by apply (inv_close accepts I Idelivery)|]. apply negb_false_iff in Ev.
    apply IH. eapply Istep; [apply Hstep; eauto | done].
Qed.

Lemma inv_handleUnsubscribe c pkt b : I b -> I (handleUnsubscribe accepts c pkt b).
Proof.
  intros Hb. unfold handleUnsubscribe. destruct (session b c) as [s|]; [|done].
  pose proof (inv_unsubscribeLoop c (unsub_Topics pkt) [] b Hb) as Hl.
  destruct (unsubscribeLoop _ _ _ _ _) as [[codes b']|b']; [by apply (inv_write accepts I Idelivery) | done].
Qed.

Lemma inv_publishWill now u t p q r props b : I b -> I (publishWill accepts now u t p q r props b).
Proof.
  intros Hb. unfold publishWill. destruct (negb _); [done|]. apply (inv_route accepts I Idelivery). destruct r; [by apply inv_retained|done].
Qed.

Lemma inv_handlePubAck now c id b : I b -> I (handlePubAck accepts now c id b).
Proof. intros Hb. apply inv_acknowledge. eapply Istep; [apply bs_delivery, d_qos | done]. Qed.

Lemma inv_handlePubComp now c id b : I b -> I (handlePubComp accepts now c id b).
Proof. intros Hb. apply inv_acknowledge. eapply Istep; [apply bs_delivery, d_qos | done]. Qed.

Lemma inv_retryRound now b : I b -> I (retryRound accepts now b).
Proof. apply inv_runQoSCalls. Qed.
End Handlers.

(** ** What the steps leave alone *)

Section Frames.
Context {SS MS RS : Type} `{SessionStore SS} `{MessageStore MS} `{RetainedStore RS}.
Implicit Types b : Broker SS MS RS.

Lemma retained_frame now pkt b :
  handleRetainedMessage now pkt b =
  b <| b_retainedStore := b_retainedStore (handleRetainedMessage now pkt b) |>
    <| retainedCount := retainedCount (handleRetainedMessage now pkt b) |>
    <| retainedExpirations := retainedExpirations (handleRetainedMessage now pkt b) |>.
Proof.
  unfold handleRetainedMessage, storeRetained. destruct (b_retainedStore b) as [rs|] eqn:Er; [|destruct b; cbn in *; by subst].
  destruct (GetRetained _ rs) as [m|e]; [|destruct (bool_decide _); [|destruct b; cbn in *; by subst]];
    (destruct (_ && _); [destruct b; cbn in *; by subst|]; destruct (_ =? 0);
      [by destruct (DeleteRetained _ rs) as [[] ?], b | by destruct (SaveRetained _ _ rs) as [[] ?], b]).
Qed.

Lemma subscribeOne_frame c f s b code r b' :
  subscribeOne c f s b = SubGranted code r b' ->
  b' = b \/ (exists tree, b' = b <| topics := tree |> /\ Subscribe (tf_Topic f) c (tf_QoS f) (topics b) = (false, tree)) \/
  exists tree, b' = putSession c (AddSubscriptionFilter f s) (b <| topics := tree |>) /\
    grantable (authorizer (opts b)) (ses_Username s) (tf_Topic f) /\
    if IsSharedSubscription (tf_Topic f)
    then exists g rf, ParseSharedFilter (tf_Topic f) = Some (g, rf) /\ tree = SubscribeShared g rf c (tf_QoS f) (topics b)
    else Subscribe (tf_Topic f) c (tf_QoS f) (topics b) = (true, tree).
Proof.
  assert (forall rf, negb (canSubscribe b (ses_Username s) rf) = false ->
    match authorizer (opts b) with Some a => CanSubscribe a (ses_Username s) rf = true | None => True end) as Hcan.
  { intros rf Hrf%negb_false_iff. unfold canSubscribe in Hrf. by destruct (authorizer (opts b)). }
  unfold subscribeOne, grantable. destruct (IsSharedSubscription _).
  - destruct (ParseSharedFilter _) as [[g rf]|]; [|done]. destruct (negb (ValidateTopicFilter _)) eqn:Ev; [done|].
    apply negb_false_iff in Ev. destruct (NoLocal f); [done|].
    destruct (negb (canSubscribe _ _ _)) eqn:Ec; intros [= <- <- <-]; [by left|].
    right; right. eexists. split; [done|]. split; [|by eauto]. exists g, rf. split_and!; [done..|by apply Hcan].
  - destruct (negb (ValidateTopicFilter _)) eqn:Ev; [done|]. apply negb_false_iff in Ev.
    destruct (negb (canSubscribe _ _ _)) eqn:Ec; [intros [= <- <- <-]; by left|].
    destruct (Subscribe _ _ _ _) as [[] tree]; intros [= <- <- <-]; right; [right|left].
    + eexists. split; [done|]. split; [|done]. split; [done|by apply Hcan].
    + by eexists.
Qed.

(** The options and the connections never change, and no session comes or goes. *)
Lemma bstep_frame b b' :
  bstep b b' -> opts b' = opts b /\ connections b' = connections b /\ b_sessionStore b' = b_sessionStore b /\
    (forall c, is_Some (session b' c) <-> is_Some (session b c)).
Proof.
  assert (forall b c s s' tree, session b c = Some s ->
    forall c', is_Some (session (putSession c s' (b <| topics := tree |>)) c') <-> is_Some (session b c')) as Hput.
  { intros b0 c s s' tree Hs c'. rewrite session_put. case_decide; [|done]. subst. by rewrite Hs. }
  intros [b'' [c s s' Hs Hst|e|q|ms|oc|n|l]|c s s' Hs Hst|w|now pkt|c f s code r b'' Hs Hsub|c f s Hs Hg]; try done.
  - split_and!; [done..|]. intros c'. rewrite session_put. case_decide; [|done]. subst. by rewrite Hs.
  - split_and!; [done..|]. intros c'. rewrite session_put. case_decide; [|done]. subst. by rewrite Hs.
  - by rewrite retained_frame.
  - apply subscribeOne_frame in Hsub as [->|[(tree & -> & _)|(tree & -> & _)]]; [done..|].
    split_and!; [done..|]. by eapply Hput.
  - split_and!; [done..|]. by eapply Hput.
Qed.
End Frames.

(** ** Invariants of sessions *)

Class SessionInvariant (auth : option Authorizer) (P : bytes -> Session -> Prop) : Prop := {
  si_step c s s' : P c s -> session_step s s' -> P c s';
  si_subscribe c s f : P c s -> grantable auth (ses_Username s) (tf_Topic f) -> P c (AddSubscriptionFilter f s);
  si_unsubscribe c s f : P c s -> P c (RemoveSubscription f s);
}.

Section Sessions.
Context {SS MS RS : Type} `{SessionStore SS} `{MessageStore MS} `{RetainedStore RS}.
Context (auth : option Authorizer) (P : bytes -> Session -> Prop) `{!SessionInvariant auth P}.
Implicit Types b : Broker SS MS RS.

Definition sat b : Prop := authorizer (opts b) = auth /\ forall c s, session b c = Some s -> P c s.

Lemma sat_put c s b : P c s -> sat b -> sat (putSession c s b).
Proof.
  intros Hp [Ha Hb]. split; [done|]. intros c' s'. rewrite session_put. case_decide as Hc; [|apply Hb].
  intros <-%(inj Some). by subst.
Qed.

Lemma sat_bstep b b' : bstep b b' -> sat b -> sat b'.
Proof.
  intros Hst Hb. pose proof Hb as [Ha Hs].
  destruct Hst as [b'' [c s s' Es Hst|e|q|ms|oc|n|l]|c s s' Es Hst|w|now pkt|c f s code r b'' Es Hsub|c f s Es Hg]; try exact Hb.
  - apply sat_put; [|done]. eapply si_step; eauto with session.
  - apply sat_put; [|done]. eapply si_step; eauto.
  - by rewrite retained_frame.
  - apply subscribeOne_frame in Hsub as [->|[(tree & -> & _)|(tree & -> & Hg & _)]]; [done|done|].
    apply sat_put; [|done]. rewrite Ha in Hg. apply si_subscribe; eauto.
  - apply sat_put; [|done]. apply si_unsubscribe; eauto.
Qed.
End Sessions.
