(* ===== verification/FlowControl.v ===== *)
(** * Flow control: the outbound window of a client

    A history is any sequence of handler calls.  The theorems: the deliveries in
    flight to a client never exceed its Receive Maximum, beyond what a resumed
    session brought along; and an acknowledgement that makes room leaves no
    delivery buffered that fits. *)

From S2P Require Import Prelude Utf8 Wire Spec Topic Properties Packets TopicTree RateLimit StoreTypes PublishProps.
From S2P Require Import MemoryStore Sessions SessionProofs QoSEngine Auth WillHandler Flapping Broker BrokerInv.
Open Scope Z_scope.

(** ** Histories of handlers *)

Inductive HandlerOp :=
  | HPublish (clientID : bytes) (pkt : PublishPacket)
  | HSubscribe (clientID : bytes) (pkt : SubscribePacket)
  | HUnsubscribe (clientID : bytes) (pkt : UnsubscribePacket)
  | HPubAck (clientID : bytes) (packetID : Z)
  | HPubRec (clientID : bytes) (packetID reason : Z)
  | HPubRel (clientID : bytes) (packetID : Z)
  | HPubComp (clientID : bytes) (packetID : Z)
  | HQueued (clientID : bytes)
  | HRetry
  | HWill (w : WillMessage)
  | HSystem (topic payload : bytes).

Section Histories.
Context {SS MS RS : Type} `{SessionStore SS} `{MessageStore MS} `{RetainedStore RS}.
Context (accepts : list Event -> bytes -> Packet -> bool).
Implicit Types b : Broker SS MS RS.

Definition runHandler b (e : Z * HandlerOp) : Broker SS MS RS :=
  let '(now, op) := e in
  match op with
  | HPublish c p => handlePublish accepts now c p b
  | HSubscribe c p => handleSubscribe accepts now c p b
  | HUnsubscribe c p => handleUnsubscribe accepts c p b
  | HPubAck c id => handlePubAck accepts now c id b
  | HPubRec c id r => handlePubRec accepts now c id r b
  | HPubRel c id => handlePubRel accepts now c id b
  | HPubComp c id => handlePubComp accepts now c id b
  | HQueued c => deliverQueuedMessages accepts now c b
  | HRetry => retryRound accepts now b
  | HWill w => publishWill accepts now (will_Username w) (will_Topic w) (will_Payload w) (will_QoS w) (will_Retain w)
                 (will_Properties w) b
  | HSystem t p => publishSystem accepts now t p b
  end.

Definition runHandlers (ops : list (Z * HandlerOp)) b : Broker SS MS RS := foldl runHandler b ops.

Lemma inv_runHandlers (I : Broker SS MS RS -> Prop) ops b :
  (forall b b', bstep b b' -> I b -> I b') -> I b -> I (runHandlers ops b).
Proof.
  intros Hst Hb. assert (forall b b', dstep b b' -> I b -> I b') by eauto with session.
  unfold runHandlers. apply (inv_fold I); [|done]. intros b' [now op] Hb'. destruct op; cbn [runHandler];
    [apply inv_handlePublish | apply inv_handleSubscribe | apply inv_handleUnsubscribe | apply inv_handlePubAck |
     apply inv_handlePubRec | apply inv_handlePubRel | apply inv_handlePubComp | apply inv_deliverQueuedMessages |
     apply inv_retryRound | apply inv_publishWill | apply inv_publishSystem]; done.
Qed.
End Histories.

(** ** The window *)

(** A session with window [w] that was resumed with at most [k] deliveries the
    counter does not know. *)
Record flow (k w : bytes -> Z) (c : bytes) (s : Session) : Prop := {
  fl_ok : session_ok s;
  fl_window : OutboundWindow s = w c;
  fl_room : w c + k c <= 65535;
  fl_counted : outboundUnacked s <= Z.of_nat (size (Inflight s)) <= outboundUnacked s + k c;
  fl_bound : outboundUnacked s <= w c;
}.

(** The fields the invariant reads. *)
Lemma flow_same k w c s s' :
  packetIDSeq s' = packetIDSeq s -> SubOptions s' = SubOptions s -> Subscriptions s' = Subscriptions s ->
  Inflight s' = Inflight s -> inboundQoS2 s' = inboundQoS2 s -> outboundUnacked s' = outboundUnacked s ->
  outboundQueue s' = outboundQueue s -> OutboundWindow s' = OutboundWindow s -> flow k w c s -> flow k w c s'.
Proof.
  intros E1 E2 E3 E4 E5 E6 E7 E8 [[H1 H2 H3 H4 H5 H6] F1 F2 F3 F4].
  split; [split|..]; rewrite ?E1, ?E4, ?E5, ?E6, ?E7, ?E8; try done. intros p. rewrite E2, E3. apply H2.
Qed.

Lemma flow_session_ok k w c s s' :
  session_ok s' -> Inflight s' = Inflight s -> outboundUnacked s' = outboundUnacked s ->
  OutboundWindow s' = OutboundWindow s -> flow k w c s -> flow k w c s'.
Proof. intros Hok E1 E2 E3 [_ F1 F2 F3 F4]. split; rewrite ?E1, ?E2, ?E3; done. Qed.

Lemma flow_intro k w c s :
  session_ok s /\ OutboundWindow s = w c /\ w c + k c <= 65535 /\
  outboundUnacked s <= Z.of_nat (size (Inflight s)) <= outboundUnacked s + k c /\ outboundUnacked s <= w c ->
  flow k w c s.
Proof. intros (? & ? & ? & ? & ?). by split. Qed.

Lemma flow_sent k w c s size msg :
  flow k w c s -> CanSendOutbound s = true -> ifm_PacketID msg = fst (NextPacketID s) ->
  flow k w c (sentSession size msg s).
Proof.
  intros [Hok F1 F2 F3 F4] Hc%Z.ltb_lt Hid. rewrite F1 in Hc. apply flow_intro.
  pose proof (NextPacketID_spec s (ok_seq s Hok) ltac:(lia)) as Hn. unfold sentSession.
  destruct (NextPacketID s) as [id s1]. cbn [fst snd] in *. destruct Hn as (Hv & Hfresh & Hv' & Hs1).
  assert (Inflight s1 = Inflight s /\ outboundUnacked s1 = outboundUnacked s /\ OutboundWindow s1 = OutboundWindow s)
    as (E1 & E2 & E3) by by rewrite Hs1.
  assert (session_ok s1) as Hok2.
  { rewrite Hs1. destruct Hok as [_ A2 A3 A4 A5 A6].
    split; [exact Hv' | exact A2 | exact A3 | exact A4 | exact A5 | exact A6]. }
  assert (i32 (outboundUnacked s + 1) = outboundUnacked s + 1) as Hi
    by (destruct (ok_unacked s Hok); apply i32_small; lia).
  set (s2 := IncOutboundUnacked (TrackSent size (AddInflight msg s1))).
  assert (Inflight s2 = <[ifm_PacketID msg := msg]> (Inflight s1)) as -> by reflexivity.
  assert (outboundUnacked s2 = i32 (outboundUnacked s1 + 1)) as -> by reflexivity.
  assert (OutboundWindow s2 = OutboundWindow s1) as -> by reflexivity.
  rewrite E1, E2, E3, Hi, Hid, map_size_insert_None by done. split_and!; [| done | lia..].
  apply ok_IncOutboundUnacked; [change (outboundUnacked s1 < 65535); lia|].
  apply ok_TrackSent, ok_AddInflight; [by rewrite Hid | done].
Qed.

Lemma flow_release k w c s id : flow k w c s -> flow k w c (releaseDelivery id s).
Proof.
  intros Hf. unfold releaseDelivery. destruct (RemoveInflight id s) as [found s'] eqn:Er.
  unfold RemoveInflight in Er. destruct (Inflight s !! id) as [m|] eqn:Em; inversion Er; subst; [|done].
  pose proof (ok_DecOutboundUnacked _ (ok_RemoveInflight id s (fl_ok _ _ _ _ Hf))) as Hok.
  unfold RemoveInflight in Hok. rewrite Em in Hok. cbn [snd] in Hok. destruct Hf as [Hs F1 F2 F3 F4].
  assert (size (delete id (Inflight s)) = pred (size (Inflight s))) as Hd by (apply map_size_delete_Some; eauto).
  revert Hok.
  unfold DecOutboundUnacked, set_field. cbn. destruct (Z.leb_spec (outboundUnacked s) 0); intros Hok.
  - split; cbn; try done. rewrite Hd. destruct (ok_unacked s Hs). lia.
  - split; cbn; try done; [|lia]. rewrite Hd.
    assert (0 < size (Inflight s))%nat by lia. lia.
Qed.

#[export] Instance flow_invariant auth k w : SessionInvariant auth (flow k w).
Proof.
  split.
  - intros c s s' Hf Hst. pose proof (fl_ok _ _ _ _ Hf) as Hok.
    destruct Hst as [s s' [s0 size msg Hc Hid Hq|s0 size|s0 pkt q o ids e Hc Hq]|s Hc|s id|s id|s m Hm|s id|s a t Ha|s r|
      s now|s n|s v].
    + by apply flow_sent.
    + by apply (flow_same k w c s0).
    + apply (flow_session_ok k w c s0); auto with session;
        unfold BufferOutbound; by destruct (_ <=? _).
    + apply (flow_session_ok k w c s); auto with session; unfold PopOutbound; by destruct (outboundQueue s).
    + by apply flow_release.
    + pose proof (ok_MarkInflightPubRel id s Hok) as Hok'. unfold MarkInflightPubRel in *.
      destruct (Inflight s !! id) as [m|] eqn:Em; [|done]. destruct (ifm_QoS m =? 2); [|done].
      destruct Hf as [_ F1 F2 F3 F4].
      split; unfold set_field; cbn [snd Inflight outboundUnacked OutboundWindow]; try done.
      rewrite map_size_insert_Some; eauto.
    + apply (flow_session_ok k w c s); auto with session; unfold AddInboundQoS2; by destruct (_ && _).
    + apply (flow_session_ok k w c s); auto with session; unfold TakeInboundQoS2; by destruct (inboundQoS2 s !! id).
    + unfold RegisterTopicAlias. destruct (_ || _); [done|]. by apply (flow_same k w c s).
    + by apply (flow_same k w c s).
    + by apply (flow_same k w c s).
    + by apply (flow_same k w c s).
    + by apply (flow_same k w c s).
  - intros c s f Hf _. apply (flow_session_ok k w c s); [apply ok_AddSubscriptionFilter, (fl_ok _ _ _ _ Hf) | done..].
  - intros c s f Hf. apply (flow_session_ok k w c s); [apply ok_RemoveSubscription, (fl_ok _ _ _ _ Hf) | done..].
Qed.

(** ** Draining the buffer *)

Section Drain.
Context {SS MS RS : Type} `{SessionStore SS} `{MessageStore MS} `{RetainedStore RS}.
Context (accepts : list Event -> bytes -> Packet -> bool).
Implicit Types b : Broker SS MS RS.

Lemma session_write c pkt b c' : session (writePacket accepts c pkt b) c' = session b c'.
Proof. unfold writePacket. by destruct (connections b !! c). Qed.

(** A delivery that finds room buffers nothing. *)
Lemma doDeliver_room now c pkt q e o ids r b s :
  session b c = Some s -> CanSendOutbound s = true ->
  exists s', session (doDeliver accepts now c pkt q e o ids r b) c = Some s' /\ outboundQueue s' = outboundQueue s.
Proof.
  intros Hs Hc. unfold doDeliver. rewrite Hs, Hc, andb_false_r. destruct (expired now e); [by eauto|].
  destruct (0 <? q).
  - assert (outboundQueue (snd (NextPacketID s)) = outboundQueue s) as Hn
      by (unfold NextPacketID; by destruct (nextPacketID_loop _ _ _)).
    destruct (NextPacketID s) as [id s1]. cbn [snd] in Hn.
    match goal with |- context [putSession c ?s2 b <| qos := _ |>] => exists s2 end. rewrite session_write.
    match goal with |- session (putSession c ?s2 b <| qos := _ |>) c = _ /\ _ =>
      change (session (putSession c s2 b) c = Some s2 /\ outboundQueue s1 = outboundQueue s) end.
    by rewrite session_put, decide_True.
  - eexists. rewrite session_write, session_put, decide_True by done. done.
Qed.

Lemma flushLoop_drains fuel now c b s :
  session b c = Some s -> (length (outboundQueue s) <= fuel)%nat ->
  exists s' n, session (flushLoop accepts fuel now c b) c = Some s' /\
    outboundQueue s' = drop n (outboundQueue s) /\ (outboundQueue s' = [] \/ CanSendOutbound s' = false) /\
    flushLoop accepts (S fuel) now c b = flushLoop accepts fuel now c b.
Proof.
  revert b s. induction fuel as [|fuel IH]; intros b s Hs Hl.
  - exists s, 0%nat. destruct (outboundQueue s) eqn:Eq; [|cbn in Hl; lia]. split_and!; [done.. | by left |].
    cbn [flushLoop]. rewrite Hs. destruct (negb _); [done|]. unfold PopOutbound. by rewrite Eq.
  - cbn [flushLoop]. rewrite Hs. destruct (CanSendOutbound s) eqn:Ec; cbn [negb].
    2:{ exists s, 0%nat. split_and!; auto. }
    unfold PopOutbound. destruct (outboundQueue s) as [|m queue] eqn:Eq.
    { exists s, 0%nat. rewrite Eq. split_and!; auto. }
    set (s1 := s <| outboundQueue := queue |>).
    destruct (doDeliver_room now c (om_pkt m) (om_deliverQoS m) (om_expiresAt m) (om_subOpts m) (om_subIDs m) false
      (putSession c s1 b) s1) as (s2 & Hs2 & Hq2); [by rewrite session_put, decide_True | done |].
    change (outboundQueue s1) with queue in Hq2.
    destruct (IH _ _ Hs2) as (s' & n & Hs' & Hd & Hr & Hfix); [rewrite Hq2; cbn in Hl; lia|].
    exists s', (S n). rewrite Hq2 in Hd. split_and!; done.
Qed.

Lemma flushLoop_more fuel fuel' now c b s :
  session b c = Some s -> (length (outboundQueue s) <= fuel <= fuel')%nat ->
  flushLoop accepts fuel' now c b = flushLoop accepts fuel now c b.
Proof.
  intros Hs [Hl Hle]. induction Hle as [|fuel' Hle IH]; [done|].
  destruct (flushLoop_drains fuel' now c b s Hs) as (_ & _ & _ & _ & _ & ->); [lia|done].
Qed.

Lemma acknowledge_drains now c id b s :
  session b c = Some s ->
  exists s' n, session (acknowledge accepts now c id b) c = Some s' /\
    outboundQueue s' = drop n (outboundQueue s) /\ (outboundQueue s' = [] \/ CanSendOutbound s' = false).
Proof.
  intros Hs. unfold acknowledge, flushBufferedOutbound. rewrite Hs, session_put, decide_True by done.
  set (s1 := releaseDelivery id s).
  assert (outboundQueue s1 = outboundQueue s) as Hq.
  { unfold s1, releaseDelivery, RemoveInflight. destruct (Inflight s !! id); [|done].
    unfold DecOutboundUnacked. by destruct (_ <=? _). }
  destruct (flushLoop_drains (length (outboundQueue s1)) now c (putSession c s1 b) s1) as (s' & n & Hs' & Hd & Hr & _);
    [by rewrite session_put, decide_True | done |].
  exists s', n. rewrite Hq in Hd |- *. rewrite Hq in Hs'. done.
Qed.
End Drain.

(** ** Properties *)


(** C28: An acknowledgement uses the room it makes.  After a PUBACK or a PUBCOMP
    the session has no buffered delivery, or no room for one; what is still
    buffered is the tail of what was, so deliveries leave in order; and the loop
    that flushes them ends: more iterations than buffered deliveries change
    nothing. *)
Theorem acknowledgement_uses_room {SS MS RS} `{SessionStore SS} `{MessageStore MS} `{RetainedStore RS}
    accepts now c id (b : Broker SS MS RS) s :
  session b c = Some s ->
  (forall handler, handler = handlePubAck accepts \/ handler = handlePubComp accepts ->
     exists s' n, session (handler now c id b) c = Some s' /\ outboundQueue s' = drop n (outboundQueue s) /\
       (outboundQueue s' = [] \/ CanSendOutbound s' = false)) /\
  (forall fuel, (length (outboundQueue s) <= fuel)%nat ->
     flushLoop accepts fuel now c b = flushBufferedOutbound accepts now c b).
Proof.
  intros Hs. split.
  - intros handler [->| ->]; by apply acknowledge_drains.
  - intros fuel Hl. unfold flushBufferedOutbound. rewrite Hs. by apply (flushLoop_more _ _ _ _ _ _ s).
Qed.

(** A broker with the memory stores and one connected session. *)
Definition sample_options : brokerOptions :=
  {| authenticator := None; enhancedAuth := []; authorizer := None; maxTopicFiltersPerSub := 0; maxRetainedTopics := 0;
     maxOfflineQueue := 0; retainedExpiry := 0; opt_maxInflight := 100; maxConnections := 0; maxConnRate := None;
     maxPublishRate := 0; opt_maxPacketSize := 262144; sessionExpiry := 3600 * second; opt_keepAlive := 0;
     maxClientIDLength := 128; maxWillDelay := 3600 * second |}.

Definition sample_broker : Broker sessionStore messageStore retainedStore :=
  {| opts := sample_options; topics := NewTopicTree; qos := defaultQoSEngine; will := NewWillHandler;
     b_sessions := with_session (str "c") (sample_session <| OutboundWindow := 1 |>) NewManager;
     b_sessionStore := Some NewSessionStore; b_messageStore := Some NewMessageStore;
     b_retainedStore := Some NewRetainedStore; flapping := None;
     connections := {[ str "c" := {| cs_conn := 1; cs_codec := NewCodecForVersion 0 Version50; cs_enhancedAuth := None |} ]};
     pendingConns := 0; offlineCount := ∅; msgSeq := 0; retainedCount := 0; retainedExpirations := ∅;
     connRate := ConnRate.newConnRateLimiter second; shuttingDown := false; trace := [] |}.

Lemma sample_flow c : flow (fun _ => 0) (fun _ => 1) c (sample_session <| OutboundWindow := 1 |>).
Proof.
  destruct sample_session_ok as [A1 A2 A3 A4 A5 A6].
  split; [split; assumption | reflexivity | lia | split; vm_compute; discriminate | vm_compute; discriminate].
Qed.


Lemma acknowledgement_uses_room_witness :
  flushLoop (fun _ _ _ => true) 7 5 (str "c") sample_broker = flushBufferedOutbound (fun _ _ _ => true) 5 (str "c") sample_broker.
Proof.
  apply (acknowledgement_uses_room (fun _ _ _ => true) 5 (str "c") 1 sample_broker (sample_session <| OutboundWindow := 1 |>)
    eq_refl). vm_compute. lia.
Defined.
