(* ===== verification/OfflineQueue.v ===== *)
(** * Messages queued for offline clients

    What happens to the queue of a client when it comes back
    (broker/pub_sub.go, deliverQueuedMessages), against the interface a message
    store promises, and on the Redis backend, which does not keep that promise. *)

From S2P Require Import Prelude Utf8 Wire Spec Topic Properties Packets TopicTree RateLimit StoreTypes PublishProps.
From S2P Require Import Sessions SessionProofs QoSEngine Auth WillHandler Broker BrokerInv FlowControl.
From S2P Require Import MemoryStore Json KeySpace RedisStore.
Open Scope Z_scope.

Section Reconnect.
Context {SS MS RS : Type} `{SessionStore SS} `{MessageStoreLaws MS} `{RetainedStore RS}.
Context (accepts : list Event -> bytes -> Packet -> bool) (k w : bytes -> Z) (c : bytes).
Implicit Types b : Broker SS MS RS.

(** What the loop keeps of a client that was in session [s] with the queues of [ms]. *)
Record replaying (ms : MS) (s : Session) b (ms' : MS) (s' : Session) : Prop := {
  re_store : b_messageStore b = Some ms';
  re_ok : queues_ok ms';
  re_session : session b c = Some s';
  re_flow : flow k w c s';
  re_subs : forall t, MatchesSubscription t s' = MatchesSubscription t s;
  re_others : forall c', c' <> c -> queue ms' c' = queue ms c';
  re_queue : queue ms' c ⊆ queue ms c;
  re_inflight : Inflight s ⊆ Inflight s';
  re_full : CanSendOutbound s = false -> CanSendOutbound s' = false;
}.

Lemma replaying_refl ms s b :
  b_messageStore b = Some ms -> queues_ok ms -> session b c = Some s -> flow k w c s -> replaying ms s b ms s.
Proof. by split. Qed.

Lemma replaying_trans ms s b1 ms1 s1 b2 ms2 s2 :
  replaying ms s b1 ms1 s1 -> replaying ms1 s1 b2 ms2 s2 -> replaying ms s b2 ms2 s2.
Proof.
  intros [_ _ _ _ A1 A2 A3 A4 A5] [B1 B2 B3 B4 B5 B6 B7 B8 B9]. split; try done.
  - intros t. by rewrite B5.
  - intros c' Hc. by rewrite B6, A2.
  - by etrans.
  - by etrans.
  - auto.
Qed.

(** A message taken from the queue: it is gone when the store could delete it. *)
Lemma replay_delete i ms s b :
  b_messageStore b = Some ms -> queues_ok ms -> session b c = Some s -> flow k w c s ->
  exists ms', replaying ms s (deleteQueued c i b) ms' s /\
    (forall j, j <> i -> queue ms' c !! j = queue ms c !! j) /\
    ((forall x, fst (DeleteMessage c i x) = Ok tt) -> queue ms' c !! i = None).
Proof.
  intros Hb Hq Hs Hf. unfold deleteQueued. rewrite Hb. destruct (DeleteMessage c i ms) as [[[]|e] ms'] eqn:Ed.
  - destruct (queue_delete _ _ _ _ Hq Ed) as [Hq' E]. exists ms'. rewrite (E c), decide_True by done. split_and!.
    + split; try done; [intros c' Hc; by rewrite E, decide_False | rewrite (E c), decide_True by done; apply delete_subseteq].
    + intros j Hj. by apply lookup_delete_ne.
    + intros _. apply lookup_delete_eq.
  - destruct (queue_delete_failed _ _ _ _ _ Hq Ed) as [Hq' E]. exists ms'. split_and!.
    + split; try done; [by rewrite E].
    + by rewrite E.
    + intros Hd. specialize (Hd ms). by rewrite Ed in Hd.
Qed.

(** The delivery of a message that the loop hands over. *)
Definition in_flight (topic payload : bytes) (q : Z) (s : Session) : Prop :=
  exists id msg, Inflight s !! id = Some msg /\ ifm_Topic msg = topic /\ ifm_Payload msg = payload /\ ifm_QoS msg = q.

Lemma replay_deliver now pkt q e o ids ms s b :
  b_messageStore b = Some ms -> queues_ok ms -> session b c = Some s -> flow k w c s ->
  expired now e = false -> (0 < q -> CanSendOutbound s = true) ->
  exists s', replaying ms s (doDeliver accepts now c pkt q e o ids false b) ms s' /\
    (0 < q -> in_flight (pub_Topic pkt) (Payload pkt) q s').
Proof.
  intros Hb Hq Hs Hf He Hc. unfold doDeliver. rewrite Hs, He. destruct (Z.ltb_spec 0 q) as [Hp|Hp].
  - rewrite (Hc Hp). cbn [negb andb].
    pose proof (fl_ok _ _ _ _ Hf) as Hok. pose proof (Hc Hp) as Hw. apply Z.ltb_lt in Hw.
    pose proof (NextPacketID_spec s (ok_seq s Hok)) as Hn.
    pose proof (flow_sent k w c s (len (pub_Topic pkt) + len (Payload pkt))) as Hsent. unfold sentSession in Hsent.
    destruct (NextPacketID s) as [id s1]. cbn [fst snd] in Hsent.
    destruct Hn as (_ & Hfresh & _ & Es1); [destruct Hf; lia|].
    match goal with |- context [AddInflight ?m s1] => set (msg := m) end.
    specialize (Hsent msg Hf (Hc Hp) eq_refl).
    set (s2 := IncOutboundUnacked _) in *.
    assert (Inflight s2 = <[id := msg]> (Inflight s)) as Ei.
    { change (Inflight s2) with (<[id := msg]> (Inflight s1)). by rewrite Es1. }
    exists s2. split.
    + split; [| done | | done | | done | done | | by rewrite (Hc Hp)].
      * unfold writePacket. destruct (_ !! c); [by destruct (accepts _ _ _)|done].
      * rewrite session_write. change (session (putSession c s2 b) c = Some s2). by rewrite session_put, decide_True.
      * intros t. change (MatchesSubscription t s2) with (MatchesSubscription t s1). by rewrite Es1.
      * rewrite Ei. by apply insert_subseteq.
    + intros _. exists id, msg. rewrite Ei, lookup_insert_eq. done.
  - cbn [andb]. set (s2 := TrackSent _ s). exists s2. split; [|lia].
    split; try done.
    + unfold writePacket. destruct (_ !! c); [by destruct (accepts _ _ _)|done].
    + rewrite session_write, session_put, decide_True; done.
    + by apply (flow_same k w c s).
Qed.

(** ** One message *)

(** The messages the loop has to deliver with an acknowledgement. *)
Definition deliverable (now : Z) (s : Session) (m : Store.StoredMessage) : Prop :=
  expired now (Store.sm_ExpiresAt m) = false /\
  exists q o ids, MatchesSubscription (Store.sm_Topic m) s = (true, q, o, ids) /\ 0 < minQoS (Store.sm_QoS m) q.

(** Where such a message is afterwards: in flight, or still queued, and when the
    store deletes what it is told to, queued only because the window is full. *)
Definition safe (ms' : MS) (s s' : Session) (m : Store.StoredMessage) : Prop :=
  (exists q o ids, MatchesSubscription (Store.sm_Topic m) s = (true, q, o, ids) /\
     in_flight (Store.sm_Topic m) (Store.sm_Payload m) (minQoS (Store.sm_QoS m) q) s') \/
  (queue ms' c !! Store.sm_ID m = Some m /\ CanSendOutbound s' = false).

Lemma replay_one now m ms s b :
  b_messageStore b = Some ms -> queues_ok ms -> session b c = Some s -> flow k w c s ->
  queue ms c !! Store.sm_ID m = Some m ->
  exists ms' s', replaying ms s (deliverQueued accepts now c b m) ms' s' /\
    (forall j, j <> Store.sm_ID m -> queue ms' c !! j = queue ms c !! j) /\
    (deliverable now s m -> safe ms' s s' m) /\
    ((forall i x, fst (DeleteMessage c i x) = Ok tt) ->
     queue ms' c !! Store.sm_ID m <> None -> CanSendOutbound s' = false).
Proof.
  intros Hb Hq Hs Hf Hm. unfold deliverQueued. rewrite Hs.
  assert (forall b1 s1, b_messageStore b1 = Some ms -> session b1 c = Some s1 -> flow k w c s1 -> replaying ms s b1 ms s1 ->
    (deliverable now s m -> forall ms1, safe ms1 s s1 m) ->
    exists ms' s', replaying ms s (deleteQueued c (Store.sm_ID m) b1) ms' s' /\
      (forall j, j <> Store.sm_ID m -> queue ms' c !! j = queue ms c !! j) /\
      (deliverable now s m -> safe ms' s s' m) /\
      ((forall i x, fst (DeleteMessage c i x) = Ok tt) ->
       queue ms' c !! Store.sm_ID m <> None -> CanSendOutbound s' = false)) as Hdel.
  { intros b1 s1 Hb1 Hs1 Hf1 Hr Hsafe. destruct (replay_delete (Store.sm_ID m) ms s1 b1) as (ms' & Hr' & Ho & Hn); [done..|].
    exists ms', s1. split_and!; [by eapply replaying_trans | done | eauto |]. intros Hd Hsome. by rewrite Hn in Hsome. }
  destruct (expired now (Store.sm_ExpiresAt m)) eqn:Ee.
  { apply (Hdel b s); [done..| by apply replaying_refl |]. intros [? _]. congruence. }
  destruct (MatchesSubscription (Store.sm_Topic m) s) as [[[[] q] o] ids] eqn:Em; cbn [negb].
  2:{ apply (Hdel b s); [done..| by apply replaying_refl |]. intros (_ & ? & ? & ? & ? & _). congruence. }
  destruct ((0 <? minQoS (Store.sm_QoS m) q) && negb (CanSendOutbound s)) eqn:Ew.
  { apply andb_true_iff in Ew as [_ Hc%negb_true_iff].
    exists ms, s. split_and!; [by apply replaying_refl | done | by right | done]. }
  destruct (replay_deliver now
    (mkPublish (minQoS (Store.sm_QoS m) q) false (Store.sm_Retain m) 0 (Store.sm_Topic m) (Store.sm_Payload m)
       match Store.sm_ExpiresAt m with
       | Some e => if SpecProperties (sessionSpec s)
                   then Some (emptyProperties <| MessageExpiryInterval := Some (remainingExpiry now e) |>) else None
       | None => None end)
    (minQoS (Store.sm_QoS m) q) (Store.sm_ExpiresAt m) o ids ms s b) as (s1 & Hr & Hin); [done..| |].
  { intros Hp%Z.ltb_lt. rewrite Hp in Ew. cbn in Ew. by apply negb_false_iff. }
  apply (Hdel _ s1); [by destruct Hr.. | done |].
  intros (_ & q' & o' & ids' & Em' & Hp) ms1. left. rewrite Em in Em'. injection Em' as <- <- <-.
  exists q, o, ids. split; [done|]. by apply Hin.
Qed.

(** ** The loop *)

Lemma in_flight_mono t p q s s' : Inflight s ⊆ Inflight s' -> in_flight t p q s -> in_flight t p q s'.
Proof. intros Hs (id & msg & Hm & He). exists id, msg. split; [by eapply lookup_weaken | done]. Qed.

Lemma deliverable_same now s s' m :
  (forall t, MatchesSubscription t s' = MatchesSubscription t s) -> deliverable now s m -> deliverable now s' m.
Proof. intros E [He (q & o & ids & Hm & Hq)]. split; [done|]. exists q, o, ids. by rewrite E. Qed.

Lemma replay_all now l ms s b :
  b_messageStore b = Some ms -> queues_ok ms -> session b c = Some s -> flow k w c s ->
  NoDup (Store.sm_ID <$> l) -> (forall m, m ∈ l -> queue ms c !! Store.sm_ID m = Some m) ->
  exists ms' s', replaying ms s (foldl (deliverQueued accepts now c) b l) ms' s' /\
    (forall j, j ∉ (Store.sm_ID <$> l) -> queue ms' c !! j = queue ms c !! j) /\
    (forall m, m ∈ l -> deliverable now s m -> safe ms' s s' m) /\
    ((forall i x, fst (DeleteMessage c i x) = Ok tt) ->
     forall m, m ∈ l -> queue ms' c !! Store.sm_ID m <> None -> CanSendOutbound s' = false).
Proof.
  revert ms s b. induction l as [|m l IH]; intros ms s b Hb Hq Hs Hf Hd Hl; cbn [foldl].
  { exists ms, s. split_and!; [by apply replaying_refl | done | by intros ? ?%elem_of_nil | by intros _ ? ?%elem_of_nil]. }
  rewrite fmap_cons in Hd. apply NoDup_cons in Hd as [Hm Hd].
  destruct (replay_one now m ms s b) as (ms1 & s1 & Hr1 & Ho1 & Hs1 & Hw1); [done..|apply Hl; left|].
  destruct (IH ms1 s1 (deliverQueued accepts now c b m)) as (ms2 & s2 & Hr2 & Ho2 & Hs2 & Hw2); [by destruct Hr1..|done| |].
  { intros m' Hm'. rewrite Ho1; [apply Hl; by right|]. intros E. apply Hm. rewrite <- E. by apply list_elem_of_fmap_2. }
  exists ms2, s2. split_and!.
  - by eapply replaying_trans.
  - intros j [Hj1 Hj2]%not_elem_of_cons. by rewrite Ho2, Ho1.
  - intros m' [->|Hm']%elem_of_cons Hdm.
    + destruct (Hs1 Hdm) as [(q & o & ids & Em & Hin)|[Hin Hfull]].
      * left. exists q, o, ids. split; [done|]. eapply in_flight_mono, Hin. apply Hr2.
      * right. split; [by rewrite Ho2 | by apply Hr2].
    + destruct (Hs2 m' Hm') as [(q & o & ids & Em & Hin)|Hin]; [by apply (deliverable_same now s), Hdm; destruct Hr1 | | by right].
      left. exists q, o, ids. split; [|done]. rewrite <- Em. symmetry. by destruct Hr1.
  - intros Hdel m' [->|Hm']%elem_of_cons Hin.
    + apply Hr2, Hw1; [done|]. by rewrite <- Ho2.
    + by apply (Hw2 Hdel m').
Qed.
End Reconnect.

(** ** Properties *)

(** C24: No queued message is lost when its client comes back.  Take a message
    store that keeps its promises and a client that has resumed its session.
    After the queued messages have been delivered, every queued message that has
    not expired and that a subscription still wants at QoS 1 or 2 is in flight,
    with its topic, its payload and the smaller of the two QoS, or is still in
    the queue with the window full; the queues of other clients are untouched,
    nothing was added to this one, and when the store deletes what it is told to,
    what remains queued is there only because the window is full. *)
Theorem queued_messages_survive_reconnect {SS MS RS} `{SessionStore SS} `{MessageStoreLaws MS} `{RetainedStore RS}
    accepts k w c now (b : Broker SS MS RS) ms s l :
  b_messageStore b = Some ms -> queues_ok ms -> session b c = Some s -> flow k w c s -> ListMessages c ms = Ok l ->
  exists ms' s',
    let b' := deliverQueuedMessages accepts now c b in
    b_messageStore b' = Some ms' /\ session b' c = Some s' /\ queues_ok ms' /\
    (forall c', c' <> c -> queue ms' c' = queue ms c') /\ queue ms' c ⊆ queue ms c /\
    (forall m, queue ms c !! Store.sm_ID m = Some m -> deliverable now s m -> safe c ms' s s' m) /\
    ((forall i x, fst (DeleteMessage c i x) = Ok tt) ->
     forall m, queue ms' c !! Store.sm_ID m = Some m -> CanSendOutbound s' = false).
Proof.
  intros Hb Hq Hs Hf Hl. destruct (queue_list c ms l Hq Hl) as [Hd Hin].
  destruct (replay_all accepts k w c now l ms s b) as (ms' & s' & [] & Ho & Hsafe & Hw); [done..|by intros m ?%Hin|].
  exists ms', s'. unfold deliverQueuedMessages. rewrite Hb, Hl. split_and!; try done.
  - intros m Hm. by apply Hsafe, Hin.
  - intros Hdel m Hm. apply (Hw Hdel m); [|by rewrite Hm]. apply Hin. by eapply lookup_weaken.
Qed.

(** Two messages queued for a client whose window takes one. *)
Definition queued (id topic : string) : Store.StoredMessage :=
  {| Store.sm_ID := str id; Store.sm_Topic := str topic; Store.sm_QoS := 1; Store.sm_Payload := [1];
     Store.sm_Retain := false; Store.sm_Timestamp := 1; Store.sm_ExpiresAt := None |}.

Definition two_queued : messageStore :=
  snd (SaveMessage (str "c") (queued "2" "a/c") (snd (SaveMessage (str "c") (queued "1" "a/b") NewMessageStore))).

Definition waiting_broker : Broker sessionStore messageStore retainedStore :=
  sample_broker <| b_messageStore := Some two_queued |>.

Lemma queued_messages_survive_reconnect_witness :
  exists ms' s', b_messageStore (deliverQueuedMessages (fun _ _ _ => true) 5 (str "c") waiting_broker) = Some ms' /\
    safe (str "c") ms' (sample_session <| OutboundWindow := 1 |>) s' (queued "1" "a/b").
Proof.
  set (s := sample_session <| OutboundWindow := 1 |>).
  destruct (ListMessages (str "c") two_queued) as [l|e] eqn:El; [|vm_compute in El; discriminate].
  destruct (queued_messages_survive_reconnect (fun _ _ _ => true) (fun _ => 0) (fun _ => 1) (str "c") 5 waiting_broker
    two_queued s l) as (ms' & s' & Hb & _ & _ & _ & _ & Hsafe & _); [reflexivity | | reflexivity | | exact El |].
  - unfold two_queued. repeat (eapply (queue_save (str "c")); [|exact I|apply surjective_pairing]).
    intros ? ? ? ? Hn. exfalso. exact (lookup_empty_Some _ _ Hn).
  - apply sample_flow.
  - exists ms', s'. split; [exact Hb|]. apply Hsafe; [vm_compute; reflexivity|].
    split; [reflexivity|]. do 3 eexists. split; [vm_compute; reflexivity | vm_compute; reflexivity].
Defined.

(** C39: Redis never gives a queued message back.  Once SaveMessage has succeeded on
    the Redis store, for a client identifier and key prefix without glob
    characters, and no key that is the bare client prefix, the message is in the
    database, yet ListMessages returns nothing for the client, a reconnecting
    client is delivered nothing by deliverQueuedMessages, and a ClearMessages
    that succeeds leaves the database as it is. *)
Theorem redis_queue_is_write_only {SS D RS} `{SessionStore SS} `{RedisLaws D} `{RetainedStore RS}
    rounds accepts now c m (s s' : @redisMessages D) :
  let prefix := clientPrefix (rm_keyPrefix s) c in
  literal prefix -> live (rm_client s) !! prefix = None -> Store.sm_ID m <> [] -> 0 <= rm_ttl s ->
  redisSaveMessage c m s = (Ok tt, s') ->
  live (rm_client s') !! messageKey (rm_keyPrefix s') c (Store.sm_ID m) = Some (enc storedMessageC m) /\
  (forall l, redisListMessages rounds c s' = Ok l -> l = []) /\
  (forall b : Broker SS (@redisMessages D) RS, b_messageStore b = Some s' ->
     deliverQueuedMessages (H0 := redis_message_store rounds) accepts now c b = b) /\
  (forall s'', redisClearMessages rounds c s' = (Ok tt, s'') -> rm_client s'' = rm_client s').
Proof.
  intros prefix Hp Hn Hid Ht Hsave. destruct (saved_message c m s s' Ht Hsave) as [Ek El].
  assert (live (rm_client s') !! prefix = None) as Hn'.
  { rewrite El, lookup_insert_ne; [done|]. intros E. apply (f_equal length) in E. rewrite length_app in E.
    destruct (Store.sm_ID m); [done|cbn in E; unfold prefix in E; lia]. }
  assert (forall l, redisListMessages rounds c s' = Ok l -> l = []) as Hlist
    by (intros l; apply list_literal_empty; by rewrite Ek).
  split_and!; [by rewrite Ek, El, messageKey_prefix, lookup_insert_eq | done | |].
  - intros b Hb. unfold deliverQueuedMessages. rewrite Hb. cbn [ListMessages redis_message_store].
    destruct (redisListMessages rounds c s') as [l|] eqn:E; [|done]. by rewrite (Hlist l eq_refl).
  - intros s''. unfold redisClearMessages, with_client. destruct (clearKeys _ _ _ _) as [r d] eqn:E. cbn [fst snd].
    intros [= -> <-]. cbn [rm_client]. eapply clear_literal, E; by rewrite Ek.
Qed.

(** A message for client "c" saved in an empty database, and the broker whose
    client has come back. *)
Definition redis_queue : @redisMessages MapRedis :=
  snd (redisSaveMessage (str "c") (queued "1" "a/b") (newRedisMessages (∅ : MapRedis) [] 0 5)).

Lemma redis_queue_is_write_only_witness :
  redisGetMessage (str "c") (str "1") redis_queue = Ok (queued "1" "a/b") /\
  redisListMessages 1 (str "c") redis_queue = Ok [].
Proof.
  split; [vm_compute; reflexivity|].
  destruct (redisListMessages 1 (str "c") redis_queue) as [l|e] eqn:E; [|vm_compute in E; discriminate].
  f_equal. revert E. refine (proj1 (proj2 (redis_queue_is_write_only (SS := sessionStore) (RS := retainedStore) 1
    (fun _ _ _ => true) 5 (str "c") (queued "1" "a/b") (newRedisMessages (∅ : MapRedis) [] 0 5) redis_queue _ _ _ _ _)) l).
  - repeat constructor.
  - reflexivity.
  - discriminate.
  - vm_compute. discriminate.
  - reflexivity.
Defined.
