(* ===== verification/ExactlyOnce.v ===== *)
(** * Exactly-once reception: the inbound side of QoS 2

    A QoS 2 PUBLISH is staged in the session and routed by its PUBREL.  However
    often the client repeats either, the message is routed once. *)

From S2P Require Import Prelude Utf8 Wire Spec Topic Properties Packets TopicTree RateLimit StoreTypes PublishProps.
From S2P Require Import MemoryStore Sessions SessionProofs QoSEngine Auth WillHandler Flapping Broker BrokerInv FlowControl.
Open Scope Z_scope.

(** The PUBLISH packets handed to connections. *)
Definition delivery (e : Event) : option (bytes * PublishPacket) :=
  match e with
  | Sent c (PPublish p) | Dropped c (PPublish p) => Some (c, p)
  | _ => None
  end.

Section ExactlyOnce.
Context {SS MS RS : Type} `{SessionStore SS} `{MessageStore MS} `{RetainedStore RS}.
Context (accepts : list Event -> bytes -> Packet -> bool).
Implicit Types b : Broker SS MS RS.

Definition deliveries b : list (bytes * PublishPacket) := omap delivery (trace b).

Definition isPublish (p : Packet) : bool := match p with PPublish _ => true | _ => false end.

(** Two states with the same deliveries and the same staged messages of [c]. *)
Definition quiet (c : bytes) b b' : Prop :=
  deliveries b' = deliveries b /\
  (forall s', session b' c = Some s' -> exists s, session b c = Some s /\ inboundQoS2 s' = inboundQoS2 s) /\
  (is_Some (session b c) -> is_Some (session b' c)).

Lemma quiet_refl c b : quiet c b b.
Proof. split_and!; eauto. Qed.

Lemma quiet_trans c b1 b2 b3 : quiet c b1 b2 -> quiet c b2 b3 -> quiet c b1 b3.
Proof.
  intros (D1 & S1 & T1) (D2 & S2 & T2). split_and!; [congruence | | auto].
  intros s3 (s2 & (s1 & Hs1 & E1)%S1 & E2)%S2. exists s1. split; [done|congruence].
Qed.

Lemma quiet_emit c e b : delivery e = None -> quiet c b (emit e b).
Proof.
  intros He. split_and!; [|eauto|done]. unfold deliveries, emit, set_field. cbn [trace].
  rewrite omap_app. cbn. by rewrite He, app_nil_r.
Qed.

Lemma quiet_write c c' pkt b : isPublish pkt = false -> quiet c b (writePacket accepts c' pkt b).
Proof.
  intros Hp. unfold writePacket. destruct (connections b !! c'); [|apply quiet_refl]. apply quiet_emit.
  destruct (accepts _ _ _); by destruct pkt.
Qed.

Lemma quiet_close c c' s r b : quiet c b (closeProtocolViolationWithReason accepts c' s r b).
Proof.
  unfold closeProtocolViolationWithReason. set (b1 := if ServerDisconnect _ then _ else _).
  assert (quiet c b b1) as Hq.
  { subst b1. destruct (ServerDisconnect _); [|apply quiet_refl]. unfold sendDisconnectBeforeClose.
    destruct (connections b !! c'); [|apply quiet_refl]. destruct (accepts _ _ _); [by apply quiet_emit|apply quiet_refl]. }
  eapply quiet_trans; [exact Hq|]. destruct (connections b1 !! c'); [by apply quiet_emit|apply quiet_refl].
Qed.

Lemma quiet_ackDiscarded c c' s pkt r b : quiet c b (ackDiscardedPublish accepts c' s pkt r b).
Proof.
  unfold ackDiscardedPublish. destruct (_ =? 0); [apply quiet_refl|].
  destruct (_ =? 1); [by apply quiet_write|]. destruct (_ =? 2); [by apply quiet_write|apply quiet_refl].
Qed.

Lemma quiet_retained c now pkt b : quiet c b (handleRetainedMessage now pkt b).
Proof. rewrite retained_frame. split_and!; [done|eauto|done]. Qed.

Lemma quiet_put c s s' b : session b c = Some s -> inboundQoS2 s' = inboundQoS2 s -> quiet c b (putSession c s' b).
Proof.
  intros Hs He. split_and!; [done| |].
  - intros s1. rewrite session_put, decide_True by done. intros <-%(inj Some). eauto.
  - rewrite session_put, decide_True by done. eauto.
Qed.

(** What a QoS 2 PUBLISH does: nothing is delivered, and the staged messages are
    those before, or those with this message added under a free identifier. *)
Definition staged c id (payload : bytes) (retain : bool) b b' : Prop :=
  deliveries b' = deliveries b /\ is_Some (session b' c) /\
  forall s', session b' c = Some s' -> exists s, session b c = Some s /\
    (inboundQoS2 s' = inboundQoS2 s \/
     inboundQoS2 s !! id = None /\ exists m, inboundQoS2 s' = <[id := m]> (inboundQoS2 s) /\
       iq_QoS m = 2 /\ iq_Payload m = payload /\ iq_Retain m = retain).

Lemma staged_quiet c id p r b b' : is_Some (session b c) -> quiet c b b' -> staged c id p r b b'.
Proof.
  intros Hs (D & S & T). split_and!; [done | auto |]. intros s' (s & Hs' & E)%S. eauto.
Qed.

Lemma staged_after c id p r b1 b2 b3 : quiet c b1 b2 -> staged c id p r b2 b3 -> staged c id p r b1 b3.
Proof.
  intros (D & S & T) (D' & T' & S'). split_and!; [congruence | done |].
  intros s' (s2 & Hs2 & Hc)%S'. destruct (S _ Hs2) as (s1 & Hs1 & E). exists s1. rewrite E in Hc. eauto.
Qed.

Lemma staged_then c id p r b1 b2 b3 : staged c id p r b1 b2 -> quiet c b2 b3 -> staged c id p r b1 b3.
Proof.
  intros (D & T & S) (D' & S' & T'). split_and!; [congruence | auto |].
  intros s3 (s2 & Hs2 & E)%S'. destruct (S _ Hs2) as (s1 & Hs1 & Hc). exists s1. rewrite E. eauto.
Qed.

Lemma staged_stageQoS2 now c s pkt b :
  session b c = Some s -> pub_QoS pkt = 2 ->
  staged c (pub_PacketID pkt) (Payload pkt) (pub_Retain pkt) b (stageQoS2 accepts now c s pkt b).
Proof.
  intros Hs Hq. assert (is_Some (session b c)) as Hsome by eauto. unfold stageQoS2.
  destruct (HasInboundQoS2 (pub_PacketID pkt) s) eqn:Eh; [by apply staged_quiet, quiet_write|].
  apply bool_decide_eq_false, eq_None_not_Some in Eh.
  match goal with |- context [AddInboundQoS2 ?x _ s] => set (m := x) end. unfold AddInboundQoS2.
  destruct (_ && _).
  - apply staged_quiet; [done|]. unfold rejectInboundOverBudget.
    destruct (ServerDisconnect _); [apply quiet_close | apply quiet_ackDiscarded].
  - eapply staged_then; [|by apply quiet_write]. set (b1 := putSession _ _ b).
    assert (staged c (pub_PacketID pkt) (Payload pkt) (pub_Retain pkt) b b1) as Hst.
    { split_and!; [done | subst b1; rewrite session_put, decide_True by done; eauto |].
      intros s'. subst b1. rewrite session_put, decide_True by done. intros <-%(inj Some). exists s. split; [done|].
      right. split; [done|]. exists m. by split_and!. }
    destruct (pub_Retain pkt); [eapply staged_then; [exact Hst | apply quiet_retained] | exact Hst].
Qed.

Lemma staged_acceptPublish now c s pkt b :
  session b c = Some s -> pub_QoS pkt = 2 ->
  staged c (pub_PacketID pkt) (Payload pkt) (pub_Retain pkt) b (acceptPublish accepts now c s pkt b).
Proof.
  intros Hs Hq. assert (is_Some (session b c)) as Hsome by eauto. unfold acceptPublish.
  destruct (bool_decide _); [apply staged_quiet, quiet_ackDiscarded; done|].
  destruct (negb (ValidatePublishTopic _)); [by apply staged_quiet, quiet_close|].
  destruct (negb (canPublish _ _ _)); [by apply staged_quiet, quiet_ackDiscarded|].
  rewrite Hq. change (2 =? 2) with true. by apply staged_stageQoS2.
Qed.

Lemma staged_handlePublish now c pkt b :
  is_Some (session b c) -> pub_QoS pkt = 2 ->
  staged c (pub_PacketID pkt) (Payload pkt) (pub_Retain pkt) b (handlePublish accepts now c pkt b).
Proof.
  intros [s Hs] Hq.
  assert (forall b s, session b c = Some s ->
    staged c (pub_PacketID pkt) (Payload pkt) (pub_Retain pkt) b (resolveAlias accepts now c s pkt b)) as Hres.
  { clear b s Hs. intros b s Hs. unfold resolveAlias.
    destruct (pub_Properties pkt ≫= TopicAlias) as [a|]; [|by apply staged_acceptPublish].
    destruct (a =? 0); [by apply staged_quiet, quiet_close|]. destruct (bool_decide _).
    - destruct (ResolveTopicAlias a s) as [t|]; [|by apply staged_quiet, quiet_close].
      by apply (staged_acceptPublish now c s (with_topic pkt t) b).
    - unfold RegisterTopicAlias. destruct (_ || _); [by apply staged_quiet, quiet_close|].
      eapply staged_after; [|apply staged_acceptPublish; [by rewrite session_put, decide_True | done]].
      by apply (quiet_put c s). }
  unfold handlePublish. rewrite Hs. destruct (publishRate s) as [r|]; [|by apply Hres].
  destruct (PublishRate.Allow now r) as [ok r'].
  apply (staged_after _ _ _ _ b (putSession c (s <| publishRate := Some r' |>) b)); [by apply (quiet_put c s)|].
  assert (session (putSession c (s <| publishRate := Some r' |>) b) c = Some (s <| publishRate := Some r' |>)) as Hs'
    by by rewrite session_put, decide_True.
  destruct ok; [by apply Hres | apply staged_quiet, quiet_ackDiscarded; eauto].
Qed.

(** Releasing what is not staged delivers nothing. *)
Lemma handlePubRel_absent now c id b s :
  session b c = Some s -> inboundQoS2 s !! id = None -> quiet c b (handlePubRel accepts now c id b).
Proof.
  intros Hs Hn. unfold handlePubRel. rewrite Hs. unfold TakeInboundQoS2. rewrite Hn. by apply quiet_write.
Qed.

(** The packet a staged message is routed as. *)
Definition releasedPublish (m : InboundQoS2) : PublishPacket :=
  mkPublish (iq_QoS m) false (iq_Retain m) (iq_PacketID m) (iq_Topic m) (iq_Payload m) (iq_Properties m).

Definition unstaged (id : Z) (s : Session) : Session := s <| inboundQoS2 := delete id (inboundQoS2 s) |>.

(** A delivery does not touch the staged messages. *)
Lemma delivery_inbound s s' : delivery_step s s' -> inboundQoS2 s' = inboundQoS2 s.
Proof.
  intros [s0 size msg _ _ _|s0 size|s0 pkt q o ids e _ _]; [|done|].
  - unfold sentSession, NextPacketID. by destruct (nextPacketID_loop _ _ _).
  - unfold BufferOutbound. by destruct (_ <=? _).
Qed.

Lemma route_inbound now c src pkt b s :
  session b c = Some s ->
  exists s', session (routePublish accepts now src pkt b) c = Some s' /\ inboundQoS2 s' = inboundQoS2 s.
Proof.
  intros Hs.
  apply (inv_route accepts (fun b => exists s', session b c = Some s' /\ inboundQoS2 s' = inboundQoS2 s)); [|by eauto].
  intros b1 b2 Hst (s1 & Hs1 & He). destruct Hst as [c' s2 s2' Hs2 Hd|e|q|ms|oc|n|l]; try by exists s1.
  rewrite session_put. case_decide as Hc; [|by exists s1]. subst c'. exists s2'. split; [done|].
  apply delivery_inbound in Hd. congruence.
Qed.

(** Releasing a staged message routes it, and it is no longer staged. *)
Lemma handlePubRel_staged now c id b s m :
  session b c = Some s -> inboundQoS2 s !! id = Some m ->
  deliveries (handlePubRel accepts now c id b) =
    deliveries (routePublish accepts now c (releasedPublish m) (putSession c (unstaged id s) b)) /\
  exists s', session (handlePubRel accepts now c id b) c = Some s' /\ inboundQoS2 s' = delete id (inboundQoS2 s).
Proof.
  intros Hs Hm. unfold handlePubRel. rewrite Hs. unfold TakeInboundQoS2. rewrite Hm. fold (unstaged id s).
  fold (releasedPublish m). set (b1 := routePublish _ _ _ _ _).
  destruct (quiet_write c c (pubCompPacket id) b1 eq_refl) as (D & S & T). split; [exact D|].
  destruct (route_inbound now c c (releasedPublish m) (putSession c (unstaged id s) b) (unstaged id s))
    as (s1 & Hs1 & E1); [by rewrite session_put, decide_True|]. fold b1 in Hs1.
  destruct T as [s' Hs']; [eauto|]. exists s'. split; [done|]. destruct (S _ Hs') as (s2 & Hs2 & E2).
  assert (s2 = s1) as -> by congruence. by rewrite E2, E1.
Qed.

Definition publishAll (c : bytes) (pkts : list (Z * PublishPacket)) b : Broker SS MS RS :=
  foldl (fun b '(now, p) => handlePublish accepts now c p b) b pkts.
Definition releaseAll (c : bytes) (id : Z) (times : list Z) b : Broker SS MS RS :=
  foldl (fun b now => handlePubRel accepts now c id b) b times.

(** The exchange of identifier [id]: nothing staged yet, or one of the packets. *)
Definition stagedFrom (c : bytes) (id : Z) (pkts : list (Z * PublishPacket)) b : Prop :=
  exists s, session b c = Some s /\
    (inboundQoS2 s !! id = None \/
     exists m now p, inboundQoS2 s !! id = Some m /\ (now, p) ∈ pkts /\ iq_QoS m = 2 /\ iq_Payload m = Payload p /\
       iq_Retain m = pub_Retain p).

Lemma publishAll_staged c id pkts b s :
  session b c = Some s -> inboundQoS2 s !! id = None ->
  Forall (fun e => pub_QoS (snd e) = 2 /\ pub_PacketID (snd e) = id) pkts ->
  deliveries (publishAll c pkts b) = deliveries b /\ stagedFrom c id pkts (publishAll c pkts b).
Proof.
  intros Hs Hn. induction pkts as [|[now p] pkts IH] using rev_ind; intros Hp.
  - split; [done|]. exists s. auto.
  - apply Forall_app in Hp as [Hp [[Hq Hid] _]%Forall_cons]. cbn [snd] in *.
    destruct (IH Hp) as (D & s1 & Hs1 & Hc). unfold publishAll. rewrite foldl_app. cbn [foldl].
    fold (publishAll c pkts b). set (b1 := publishAll c pkts b) in *.
    destruct (staged_handlePublish now c p b1 ltac:(eauto) Hq) as (D' & [s2 Hs2] & S). split; [congruence|].
    exists s2. split; [done|]. destruct (S _ Hs2) as (s1' & Hs1' & Hcase). simplify_eq.
    destruct Hcase as [->|(Hfree & m & -> & Hm)].
    + destruct Hc as [?|(m & now' & p' & Hm & Hin & Hrest)]; [by left|]. right. exists m, now', p'.
      split_and!; try apply Hrest; [done|]. apply elem_of_app. by left.
    + right. exists m, now, p. rewrite lookup_insert_eq. split_and!; try apply Hm; [done|].
      apply elem_of_app. right. by apply list_elem_of_singleton.
Qed.

Lemma releaseAll_absent c id times b s :
  session b c = Some s -> inboundQoS2 s !! id = None -> deliveries (releaseAll c id times b) = deliveries b.
Proof.
  revert b s. induction times as [|now times IH]; intros b s Hs Hn; [done|].
  destruct (handlePubRel_absent now c id b s Hs Hn) as (D & S & T). destruct T as [s' Hs']; [eauto|].
  destruct (S _ Hs') as (s1 & Hs1 & E). change (releaseAll c id (now :: times) b) with
    (releaseAll c id times (handlePubRel accepts now c id b)).
  rewrite (IH _ s'), D; [done | done |]. rewrite E. congruence.
Qed.

Lemma handlePubRel_clears now c id b s :
  session b c = Some s -> exists s', session (handlePubRel accepts now c id b) c = Some s' /\ inboundQoS2 s' !! id = None.
Proof.
  intros Hs. destruct (inboundQoS2 s !! id) as [m|] eqn:Hm.
  - destruct (handlePubRel_staged now c id b s m Hs Hm) as (_ & s' & Hs' & E). exists s'.
    by rewrite E, lookup_delete_eq.
  - destruct (handlePubRel_absent now c id b s Hs Hm) as (_ & S & T). destruct T as [s' Hs']; [eauto|].
    exists s'. destruct (S _ Hs') as (s1 & Hs1 & E). rewrite E. split; [done|congruence].
Qed.
End ExactlyOnce.

(** ** Properties *)


Definition sample_publish : PublishPacket := mkPublish 2 false false 7 (str "a/b") [1] None.

