(* ===== verification/Connect.v ===== *)
(** * Connections: broker/conn_lifecycle.go and broker/connack.go

    The handshake of a connection from its slot to a registered session, the
    rejections, the dispatch of received packets and the teardown.  A connection
    is a number; the adapter has already decoded its CONNECT.  Packets written
    before the connection is registered are written to it directly.  The read
    loop handles the packets of the registered connection one at a time, each
    packet at the time [now] of its handler. *)

From S2P Require Import Prelude Utf8 Wire Spec Topic Properties Packets TopicTree RateLimit StoreTypes PublishProps.
From S2P Require Import Sessions QoSEngine Auth WillHandler Flapping Broker.
Open Scope Z_scope.

(** conn.go, Conn: the transport, the address of the peer, the codec, the
    capability table, the CONNECT of the handshake, and what the transport gives
    to the reads of an enhanced authentication *)
Record Conn := {
  c_Raw : Z;
  c_PeerIP : bytes;
  c_Codec : Codec;
  c_Spec : Spec;
  c_Connect : option ConnectPacket;
  c_AuthReads : list (res Packet);
}.

Inductive ConnectOutcome :=
  | Refused (e : err)
  | Established (sessionPresent : bool)
  | Panicked.

(** connack.go, buildConnAck *)
Definition buildConnAck (reasonCode : Z) (sessionPresent : bool) (props : option Properties) : Packet :=
  PConnAck {| cack_FixedHeader := header PacketTypeConnAck 0 false false; cack_ReasonCode := reasonCode;
              SessionPresent := sessionPresent; cack_Properties := props |}.

Definition authPacket (reason : Z) (method : bytes) (data : option bytes) : Packet :=
  PAuth {| dis_FixedHeader := header PacketTypeAuth 0 false false; dis_ReasonCode := reason;
           dis_Properties := Some (emptyProperties <| AuthenticationMethod := method |>
                                                   <| AuthenticationData := data |>) |}.

(** conn_lifecycle.go, connAckForConnectRejection *)
Definition connAckForConnectRejection (sp : Spec) (pkt : ConnectPacket) : Z :=
  if ConnAckHasReasonCode sp then ConnAckProtocolError
  else
    let emptyID := (len (ClientID pkt) =? 0) && negb (AllowEmptyID sp) in
    let tooLongID := (0 <? MaxClientIDLen sp) && (MaxClientIDLen sp <? len (ClientID pkt)) in
    if emptyID || tooLongID then ConnAckIdentifierRejected else ConnAckUnacceptableProtocol.

(** conn_lifecycle.go, decodeErrorReasonCode *)
Definition decodeErrorReasonCode (e : err) : option Z :=
  match e with
  | ErrProtocolError => Some ReasonCodeProtocolError
  | ErrMalformedPacket => Some ReasonCodeMalformedPacket
  | ErrInvalidPacket => Some ReasonCodeMalformedPacket
  | ErrPacketTooLarge => Some ReasonCodePacketTooLarge
  | _ => None
  end.

(** fmt's %x of a non-negative int64 *)
Fixpoint hexDigits (fuel : nat) (n : Z) (acc : bytes) : bytes :=
  match fuel with
  | O => acc
  | S fuel' =>
      let d := n mod 16 in
      let acc := (if d <? 10 then 48 + d else 87 + d) :: acc in
      if n / 16 =? 0 then acc else hexDigits fuel' (n / 16) acc
  end.
Definition hex (n : Z) : bytes := hexDigits 16 n [].

Definition with_clientID (id : bytes) (p : ConnectPacket) : ConnectPacket :=
  {| con_FixedHeader := con_FixedHeader p; ProtocolName := ProtocolName p; ProtocolVersion := ProtocolVersion p;
     Flags := Flags p; KeepAlive := KeepAlive p; ClientID := id; WillTopic := WillTopic p;
     Packets.WillMessage := Packets.WillMessage p; Username := Username p; Password := Password p;
     con_Properties := con_Properties p; WillProperties := WillProperties p |}.

(** conn_lifecycle.go, findEnhancedAuth *)
Definition findEnhancedAuth (method : bytes) (auths : list EnhancedAuthenticator) : option EnhancedAuthenticator :=
  find (fun a => bool_decide (Method a = method)) auths.

Section Lifecycle.
Context {SS MS RS : Type} `{SessionStore SS} `{MessageStore MS} `{RetainedStore RS}.
Context (accepts : list Event -> bytes -> Packet -> bool).
Implicit Types b : Broker SS MS RS.

(** conn_lifecycle.go, reserveConnectionSlot and releaseConnectionSlot *)
Definition reserveConnectionSlot b : bool * Broker SS MS RS :=
  if maxConnections (opts b) <=? 0 then (true, b)
  else if maxConnections (opts b) <=? Z.of_nat (size (connections b)) + pendingConns b then (false, b)
  else (true, b <| pendingConns := pendingConns b + 1 |>).

Definition releaseConnectionSlot b : Broker SS MS RS :=
  if maxConnections (opts b) <=? 0 then b
  else if 0 <? pendingConns b then b <| pendingConns := pendingConns b - 1 |> else b.

(** connack.go, sendConnAckRaw *)
Definition sendConnAckRaw (conn reason : Z) b : Broker SS MS RS := emit (Raw conn (buildConnAck reason false None)) b.

Definition refuse (conn reason : Z) (e : err) b : ConnectOutcome * Broker SS MS RS :=
  (Refused e, sendConnAckRaw conn reason b).

(** conn_lifecycle.go, rejectSessionOwnerMismatch and rejectFlapping *)
Definition rejectSessionOwnerMismatch (conn : Z) (sp : Spec) b : ConnectOutcome * Broker SS MS RS :=
  refuse conn (if ConnAckHasReasonCode sp then ConnAckNotAuthorized5 else ConnAckNotAuthorized)
    (ErrText "broker: client ID belongs to a different user") b.

Definition rejectFlapping (conn : Z) (sp : Spec) b : ConnectOutcome * Broker SS MS RS :=
  refuse conn (if ConnAckHasReasonCode sp then ConnAckBanned else ConnAckServerUnavailable)
    (ErrText "broker: connection flapping limit exceeded") b.

(** conn_lifecycle.go, enhancedAuthHandshake: the loop after an answer
    ([reason], [resp]) to the data [seen]; [reads] is what the transport still
    gives.  A read past the end of [reads] fails. *)
Fixpoint enhancedAuthLoop (conn : Z) (a : EnhancedAuthenticator) (seen : list (option bytes)) (reads : list (res Packet))
    (reason : Z) (resp : option bytes) (continued : bool) b : res (list (option bytes)) * Broker SS MS RS :=
  if reason =? AuthContinueAuth then
    let b := emit (Raw conn (authPacket reason (Method a) resp)) b in
    match reads with
    | Ok (PAuth p) :: reads' =>
        let seen := seen ++ [dis_Properties p ≫= AuthenticationData] in
        match Continue a seen with
        | Err e => (Err e, b)
        | Ok (reason, resp) => enhancedAuthLoop conn a seen reads' reason resp true b
        end
    | Ok _ :: _ => (Err (ErrText "broker: enhanced auth: expected AUTH"), b)
    | Err e :: _ => (Err e, b)
    | [] => (Err ErrEOF, b)
    end
  else if reason =? AuthSuccess then
    (Ok seen, if continued then emit (Raw conn (authPacket reason (Method a) resp)) b else b)
  else (Err (ErrText "broker: enhanced auth rejected"),
        emit (Raw conn (disconnectPacket ReasonCodeNotAuthorized)) b).

Definition enhancedAuthHandshake (c : Conn) (pkt : ConnectPacket) (a : EnhancedAuthenticator) b
    : res (list (option bytes)) * Broker SS MS RS :=
  let data := con_Properties pkt ≫= AuthenticationData in
  match Initial a data with
  | Err e => (Err e, b)
  | Ok (reason, resp) => enhancedAuthLoop (c_Raw c) a [data] (c_AuthReads c) reason resp false b
  end.

(** What HandleConnection knows of a CONNECT it lets through: the enhanced
    authenticator in use and the stored session of the client. *)
Record Admission := {
  ad_enhanced : option (EnhancedAuthenticator * list (option bytes));
  ad_stored : option Store.SessionData;
}.

(** HandleConnection, the ownership of the client identifier *)
Definition checkOwner (c : Conn) (sp : Spec) (pkt : ConnectPacket)
    (enhanced : option (EnhancedAuthenticator * list (option bytes))) b
    : (ConnectOutcome * Broker SS MS RS) + Admission :=
  let admitted stored := inr {| ad_enhanced := enhanced; ad_stored := stored |} in
  if bool_decide (ClientID pkt = []) then admitted None
  else
    let foreign := match session b (ClientID pkt) with
                   | Some s => negb (bool_decide (ses_Username s = Username pkt))
                   | None => false
                   end in
    if foreign then inl (rejectSessionOwnerMismatch (c_Raw c) sp b)
    else
      match FetchSession (ClientID pkt) <$> b_sessionStore b with
      | Some (Ok data) =>
          if negb (bool_decide (Store.sd_Username data = Username pkt))
          then inl (rejectSessionOwnerMismatch (c_Raw c) sp b) else admitted (Some data)
      | _ => admitted None
      end.

(** HandleConnection, the will topic *)
Definition checkWillTopic (c : Conn) (sp : Spec) (pkt : ConnectPacket)
    (enhanced : option (EnhancedAuthenticator * list (option bytes))) b
    : (ConnectOutcome * Broker SS MS RS) + Admission :=
  if WillFlag (Flags pkt) && negb (ValidatePublishTopic (WillTopic pkt))
  then inl (refuse (c_Raw c) ConnAckUnspecifiedError (ErrText "broker: will topic contains wildcards") b)
  else checkOwner c sp pkt enhanced b.

(** HandleConnection, authentication.  The handshake of an enhanced
    authentication writes to the connection, so the state goes along. *)
Definition authenticate (c : Conn) (sp : Spec) (pkt : ConnectPacket) b
    : (ConnectOutcome * Broker SS MS RS) + (Admission * Broker SS MS RS) :=
  let proceed enhanced b :=
    match checkWillTopic c sp pkt enhanced b with inl r => inl r | inr a => inr (a, b) end in
  let method := default [] (AuthenticationMethod <$> con_Properties pkt) in
  if negb (bool_decide (method = [])) then
    match findEnhancedAuth method (enhancedAuth (opts b)) with
    | None => inl (refuse (c_Raw c) ReasonCodeBadAuthMethod (ErrText "broker: unsupported authentication method") b)
    | Some a =>
        match enhancedAuthHandshake c pkt a b with
        | (Err e, b) => inl (Refused e, b)
        | (Ok seen, b) => proceed (Some (a, seen)) b
        end
    end
  else
    match authenticator (opts b) with
    | None => proceed None b
    | Some auth =>
        match auth (ClientID pkt) (Username pkt) (Password pkt) with
        | Some e =>
            inl (refuse (c_Raw c) (if ConnAckHasReasonCode sp then ConnAckBadUsernameOrPassword5
                                   else ConnAckBadUsernameOrPassword) e b)
        | None => proceed None b
        end
    end.

(** HandleConnection, the checks between the packet and authentication.  A nil
    detector allows every connection. *)
Definition admitConnect (now : Z) (c : Conn) (sp : Spec) (pkt : ConnectPacket) b
    : (ConnectOutcome * Broker SS MS RS) + (Admission * Broker SS MS RS) :=
  match ValidateConnect pkt with
  | Err e => inl (refuse (c_Raw c) (connAckForConnectRejection sp pkt) e b)
  | Ok _ =>
      let flap := match flapping b with
                  | None => Some (FlapAllow, None)
                  | Some d => (fun r => (fst r, Some (snd r))) <$> Flapping.Check (c_PeerIP c) (ClientID pkt) now d
                  end in
      match flap with
      | None => inl (Panicked, b)
      | Some (d, det) =>
          let b := b <| flapping := det |> in
          if negb (bool_decide (d = FlapAllow)) then inl (rejectFlapping (c_Raw c) sp b)
          else if (0 <? maxClientIDLength (opts b)) && (maxClientIDLength (opts b) <? len (ClientID pkt)) then
            inl (refuse (c_Raw c) (if ConnAckHasReasonCode sp then ConnAckClientIdentifierNotValid
                                   else ConnAckIdentifierRejected) (ErrText "broker: client ID exceeds max bytes") b)
          else authenticate c sp pkt b
      end
  end.

(** ** Opening the session *)

(** HandleConnection, the restored subscriptions go back into the topic tree. *)
Definition resubscribe (clientID : bytes) (tree : TopicTree) (e : bytes * Z) : TopicTree :=
  let '(topic, q) := e in
  if IsSharedSubscription topic then
    match ParseSharedFilter topic with
    | Some (group, filter) => SubscribeShared group filter clientID q tree
    | None => tree
    end
  else snd (Subscribe topic clientID q tree).

Definition restoreSession (now : Z) (clientID : bytes) b : bool * Broker SS MS RS :=
  match b_sessionStore b with
  | None => (false, b)
  | Some ss =>
      match IsSessionExists clientID ss with
      | Ok true =>
          match Restore now clientID (Some ss) (b_sessions b) with
          | (Ok restored, m) =>
              let b := b <| b_sessions := m |>
                         <| topics := foldl (resubscribe clientID) (topics b) (map_to_list (Subscriptions restored)) |> in
              (true, restoreSessionInflight now clientID restored b)
          | (Err _, m) => (false, b <| b_sessions := m |>)
          end
      | _ => (false, b)
      end
  end.

(** HandleConnection, create or resume *)
Definition openSession (now : Z) (pkt : ConnectPacket) b : bool * Broker SS MS RS :=
  let clientID := ClientID pkt in
  let b := b <| qos := SetClientVersion clientID (ProtocolVersion pkt) (qos b) |> in
  let isResuming := negb (CleanSession (Flags pkt)) && SessionExists clientID (b_sessions b) in
  let '(isResuming, b) :=
    if negb isResuming && negb (CleanSession (Flags pkt)) then restoreSession now clientID b else (isResuming, b) in
  let '(_, m) := CreateSession now clientID pkt isResuming (b_sessions b) in
  let b := b <| b_sessions := m |> in
  (isResuming, if isResuming then b <| will := CancelWill clientID (will b) |> else b).

Definition clearOffline (clientID : bytes) b : Broker SS MS RS :=
  let b := match b_messageStore b with
           | Some ms => b <| b_messageStore := Some (snd (ClearMessages clientID ms)) |>
           | None => b
           end in
  b <| offlineCount := delete clientID (offlineCount b) |>.

(** HandleConnection, what a clean start discards.  The session GetSession
    returns here is the one CreateSession has just registered. *)
Definition discardOldSession (clientID : bytes) (stored : option Store.SessionData) b : Broker SS MS RS :=
  let b := match session b clientID with Some s => unsubscribeSessionTopics s b | None => b end in
  let b :=
    match b_sessionStore b with
    | None => b
    | Some ss =>
        let b := match stored with
                 | Some data => unsubscribeTopics clientID (Store.sub_Topic <$> Store.sd_Subscriptions data) b
                 | None => b
                 end in
        b <| b_sessionStore := Some (snd (DeleteSession clientID ss)) |>
    end in
  clearOffline clientID b.

(** HandleConnection, the negotiated session expiry *)
Definition serverMaxExpiry (o : brokerOptions) : Z := u32 (Z.quot (sessionExpiry o) second).

Definition negotiatedExpiry (o : brokerOptions) (pkt : ConnectPacket) : Z :=
  match con_Properties pkt ≫= SessionExpiryInterval with
  | Some v => if serverMaxExpiry o <? v then serverMaxExpiry o else v
  | None => if CleanSession (Flags pkt) then 0 else serverMaxExpiry o
  end.

Definition serverReceiveMax (o : brokerOptions) : Z := let n := u16 (opt_maxInflight o) in if n =? 0 then 65535 else n.
Definition clientReceiveMax (pkt : ConnectPacket) : Z := default 65535 (con_Properties pkt ≫= ReceiveMaximum).
Definition serverTopicAliasMax : Z := 64.

(** HandleConnection, the fields of the session a CONNECT sets.  [None] is the
    panic of SetMaxRate on a nil tracker. *)
Definition negotiateSession (o : brokerOptions) (assigned : bytes) (pkt : ConnectPacket) (s : Session) : option Session :=
  let s := if bool_decide ((con_Properties pkt ≫= RequestResponseInfo) = Some 1)
           then s <| ses_RequestResponseInfo := true |> else s in
  let s := if bool_decide (assigned = []) then s else s <| ses_AssignedClientID := assigned |> in
  rate ← (if 0 <? maxPublishRate o
          then (fun r => Some (PublishRate.SetMaxRate (maxPublishRate o) r)) <$> publishRate s
          else Some (publishRate s));
  let s := s <| publishRate := rate |> <| ExpiryInterval := negotiatedExpiry o pkt |>
             <| ReceiveMax := serverReceiveMax o |>
             <| OutboundWindow := Z.min (clientReceiveMax pkt) (serverReceiveMax o) |>
             <| TopicAliasMax := if SpecTopicAlias (sessionSpec s) then serverTopicAliasMax else 0 |> in
  let s := match con_Properties pkt ≫= TopicAliasMaximum with
           | Some n => s <| ClientTopicAliasMax := n |>
           | None => s
           end in
  Some (if (0 <? opt_keepAlive o) && (opt_keepAlive o <? KeepAlive pkt)
        then s <| ses_ServerKeepAlive := Some (opt_keepAlive o) |> <| ses_KeepAlive := opt_keepAlive o |>
        else s).

(** ** Registration *)

(** The publish callback of the will handler. *)
Definition publishWills (now : Z) (ws : list WillMessage) b : Broker SS MS RS :=
  foldl (fun b w => publishWill accepts now (will_Username w) (will_Topic w) (will_Payload w) (will_QoS w)
                      (will_Retain w) (will_Properties w) b) b ws.

Definition triggerWill (now : Z) (clientID : bytes) (conn : Z) b : Broker SS MS RS :=
  let '(ws, wh) := TriggerWill now clientID (Some conn) (will b) in
  publishWills now ws (b <| will := wh |>).

(** HandleConnection, the take-over of a registered connection *)
Definition takeOver (now : Z) (clientID : bytes) b : Broker SS MS RS :=
  match connections b !! clientID with
  | None => b
  | Some old =>
      let b := if ServerDisconnect (spec (cs_codec old))
               then sendDisconnectBeforeClose accepts clientID (disconnectPacket DisconnectSessionTakenOver) b else b in
      emit (Closed clientID) (triggerWill now clientID (cs_conn old) b)
  end.

Definition connCodec (c : Conn) (pkt : ConnectPacket) : Codec :=
  match con_Properties pkt ≫= MaximumPacketSize with
  | Some n => SetOutboundMaxPacketSize n (c_Codec c)
  | None => c_Codec c
  end.

Definition register (clientID : bytes) (cs : clientState) b : Broker SS MS RS :=
  b <| connections := <[clientID := cs]> (connections b) |>
    <| pendingConns := if 0 <? pendingConns b then pendingConns b - 1 else pendingConns b |>.

(** HandleConnection, the delay of the will *)
Definition willDelay (o : brokerOptions) (pkt : ConnectPacket) (expiry : Z) : Z :=
  let d := match WillProperties pkt ≫= WillDelayInterval with Some i => i * second | None => 0 end in
  let d := if maxWillDelay o <? d then maxWillDelay o else d in
  if expiry * second <? d then expiry * second else d.

Definition registerWill (clientID : bytes) (conn : Z) (pkt : ConnectPacket) (expiry : Z) b : Broker SS MS RS :=
  if WillFlag (Flags pkt) then
    b <| will := RegisterWill clientID (Username pkt) (WillTopic pkt) (Packets.WillMessage pkt) (WillQoS (Flags pkt))
                   (WillRetain (Flags pkt)) (WillProperties pkt) (willDelay (opts b) pkt expiry) (Some conn) (will b) |>
  else b.

Definition fireWill (now : Z) (clientID : bytes) b : Broker SS MS RS :=
  let '(ws, wh) := FireWill clientID (will b) in publishWills now ws (b <| will := wh |>).

(** connack.go, buildConnAckProperties and sendConnAck *)
Definition buildConnAckProperties (s : Session) b : Properties :=
  let receiveMax := if ReceiveMax s =? 0 then 65535 else ReceiveMax s in
  let p := emptyProperties <| SessionExpiryInterval := Some (ExpiryInterval s) |>
    <| ReceiveMaximum := Some receiveMax |>
    <| RetainAvailable := Some (match b_retainedStore b with Some _ => 1 | None => 0 end) |>
    <| MaximumPacketSize := Some (u32 (opt_maxPacketSize (opts b))) |> <| WildcardSubAvailable := Some 1 |>
    <| SubIDAvailable := Some 1 |> <| SharedSubAvailable := Some 1 |> in
  let p := if ses_RequestResponseInfo s then p <| ResponseInfo := ses_ClientID s |> else p in
  let p := if 0 <? TopicAliasMax s then p <| TopicAliasMaximum := Some (TopicAliasMax s) |> else p in
  let p := match ses_ServerKeepAlive s with Some k => p <| ServerKeepAlive := Some k |> | None => p end in
  if bool_decide (ses_AssignedClientID s = []) then p else p <| AssignedClientID := ses_AssignedClientID s |>.

Definition sendConnAck (clientID : bytes) (reasonCode : Z) (sessionPresent : bool) (s : Session) b : Broker SS MS RS :=
  let present := ConnAckSessionPresent (sessionSpec s) && sessionPresent in
  let props := if SpecProperties (sessionSpec s) then Some (buildConnAckProperties s b) else None in
  writePacket accepts clientID (buildConnAck reasonCode present props) b.

(** HandleConnection after the checks, up to its read loop *)
Definition establish (now : Z) (c : Conn) (pkt : ConnectPacket) (a : Admission) b : ConnectOutcome * Broker SS MS RS :=
  let assigned := if bool_decide (ClientID pkt = []) then str "shark-" ++ hex now else [] in
  let pkt := if bool_decide (ClientID pkt = []) then with_clientID assigned pkt else pkt in
  let clientID := ClientID pkt in
  let clean := CleanSession (Flags pkt) in
  let '(isResuming, b) := openSession now pkt b in
  let b := if clean then discardOldSession clientID (ad_stored a) b else b in
  match session b clientID ≫= negotiateSession (opts b) assigned pkt with
  | None => (Panicked, b)
  | Some s =>
      let b := takeOver now clientID (putSession clientID s b) in
      let b := register clientID {| cs_conn := c_Raw c; cs_codec := connCodec c pkt; cs_enhancedAuth := ad_enhanced a |} b in
      let b := if clean then fireWill now clientID b else b in
      let b := registerWill clientID (c_Raw c) pkt (ExpiryInterval s) b in
      match session b clientID with
      | None => (Established isResuming, b)
      | Some s =>
          let b := sendConnAck clientID ConnAckAccepted isResuming s b in
          let b := if isResuming then resendSessionInflight accepts now clientID s b else b in
          (Established isResuming, deliverQueuedMessages accepts now clientID b)
      end
  end.

(** conn_lifecycle.go, HandleConnection up to its read loop *)
Definition connRateAllows (now : Z) b : bool * Broker SS MS RS :=
  match maxConnRate (opts b) with
  | None => (true, b)
  | Some n =>
      let '(ok, r) := ConnRate.Allow now (ConnRate.SetRate true n (connRate b)) in (ok, b <| connRate := r |>)
  end.

Definition handleConnect (now : Z) (c : Conn) b : ConnectOutcome * Broker SS MS RS :=
  let '(allowed, b) := connRateAllows now b in
  if negb allowed then
    let '(r, b) := refuse (c_Raw c) ReasonCodeConnectionRateExceeded (ErrText "broker: connection rate limit exceeded") b in
    (r, emit (RawClosed (c_Raw c)) b)
  else
    match c_Connect c with
    | None => (Refused (ErrText "broker: connection carries no MQTT CONNECT info"), b)
    | Some pkt =>
        let sp := if Version (c_Spec c) =? 0 then default zeroSpec (SpecOf (ProtocolVersion pkt)) else c_Spec c in
        match admitConnect now c sp pkt b with
        | inl r => r
        | inr (a, b) => establish now c pkt a b
        end
    end.

Definition HandleConnection (now : Z) (c : Conn) b : ConnectOutcome * Broker SS MS RS :=
  let '(reserved, b) := reserveConnectionSlot b in
  if negb reserved then
    (Refused (ErrText "broker: max connections reached"), emit (RawClosed (c_Raw c)) b)
  else
    match handleConnect now c b with
    | (Refused e, b) => (Refused e, releaseConnectionSlot b)
    | r => r
    end.

(** ** Teardown *)

(** conn_lifecycle.go, disconnect: what is stored before the state is removed *)
Definition storeOnDisconnect (now : Z) (clientID : bytes) b : Broker SS MS RS :=
  match session b clientID, b_sessionStore b with
  | Some s, Some ss =>
      if 0 <? ExpiryInterval s then b <| b_sessionStore := Some (snd (Save now s ss)) |>
      else clearOffline clientID (b <| b_sessionStore := Some (snd (DeleteSession clientID ss)) |>)
  | _, _ => b
  end.

(** conn_lifecycle.go, disconnect *)
Definition ownsConnection (clientID : bytes) (conn : Z) b : bool :=
  match connections b !! clientID with Some cs => cs_conn cs =? conn | None => false end.

Definition disconnect (now : Z) (clientID : bytes) (conn : Z) b : Broker SS MS RS :=
  if negb (ownsConnection clientID conn b) then b
  else
    let b := storeOnDisconnect now clientID b in
    let s := ResetOutboundUnacked <$> session b clientID in
    let b := match s with
             | Some s => if 0 <? ExpiryInterval s then b else unsubscribeSessionTopics s b
             | None => b
             end in
    let b := b <| b_sessions := RemoveSession clientID (b_sessions b) |> <| qos := RemoveClient clientID (qos b) |>
               <| connections := delete clientID (connections b) |> in
    match s with
    | Some s => if 0 <? ExpiryInterval s then persistBufferedOutbound now clientID s b else b
    | None => b
    end.

(** conn_lifecycle.go, abnormalDisconnect and gracefulDisconnect *)
Definition abnormalDisconnect (now : Z) (clientID : bytes) (conn : Z) b : Broker SS MS RS :=
  let b := if shuttingDown b then b <| will := RemoveWill clientID (will b) |> else triggerWill now clientID conn b in
  disconnect now clientID conn b.

Definition gracefulDisconnect (now : Z) (clientID : bytes) (conn : Z) b : Broker SS MS RS :=
  disconnect now clientID conn (b <| will := RemoveWill clientID (will b) |>).

(** ** The read loop *)

Definition pingRespPacket : Packet := PPingResp (header PacketTypePingResp 0 false false).

(** A DISCONNECT of the server, to a client whose version has one. *)
Definition announce (clientID : bytes) (reason : Z) b : Broker SS MS RS :=
  match session b clientID with
  | Some s => if ServerDisconnect (sessionSpec s)
              then sendDisconnectBeforeClose accepts clientID (disconnectPacket reason) b else b
  | None => b
  end.

(** conn_lifecycle.go, readLoop on an error of Decode: the deadline of the keep
    alive passed, or the stream is broken *)
Inductive ReadError := KeepAliveTimeout | DecodeError (e : err).

Definition readFailed (now : Z) (clientID : bytes) (conn : Z) (e : ReadError) b : Broker SS MS RS :=
  let b :=
    match e with
    | KeepAliveTimeout => announce clientID DisconnectKeepAliveTimeout b
    | DecodeError e => match decodeErrorReasonCode e with Some r => announce clientID r b | None => b end
    end in
  abnormalDisconnect now clientID conn b.

(** conn_lifecycle.go, readLoop: the AUTH case *)
Definition handleAuth (now : Z) (clientID : bytes) (conn : Z) (p : DisconnectPacket) b : bool * Broker SS MS RS :=
  let bad b := (false, gracefulDisconnect now clientID conn
                         (writePacket accepts clientID (disconnectPacket ReasonCodeBadAuthMethod) b)) in
  match connections b !! clientID with
  | Some {| cs_conn := cn; cs_codec := codec; cs_enhancedAuth := Some (a, seen) |} =>
      let seen := seen ++ [dis_Properties p ≫= AuthenticationData] in
      let b := b <| connections := <[clientID := {| cs_conn := cn; cs_codec := codec;
                                                    cs_enhancedAuth := Some (a, seen) |}]> (connections b) |> in
      match Continue a seen with
      | Err _ => bad b
      | Ok (reason, resp) =>
          let b := writePacket accepts clientID (authPacket reason (Method a) resp) b in
          if (reason =? AuthContinueAuth) || (reason =? ReasonCodeSuccess) then (true, b)
          else (false, gracefulDisconnect now clientID conn b)
      end
  | _ => bad b
  end.

Definition modifySession (clientID : bytes) (f : Session -> Session) b : Broker SS MS RS :=
  match session b clientID with Some s => putSession clientID (f s) b | None => b end.

(** conn_lifecycle.go, readLoop: one packet; [false] ends the loop *)
Definition handlePacket (now : Z) (clientID : bytes) (conn : Z) (pkt : Packet) b : bool * Broker SS MS RS :=
  let b := modifySession clientID (UpdateActivity now) b in
  match pkt with
  | PPublish p =>
      (true, handlePublish accepts now clientID p
               (modifySession clientID (TrackReceived (len (Payload p) + len (pub_Topic p))) b))
  | PSubscribe p => (true, handleSubscribe accepts now clientID p b)
  | PUnsubscribe p => (true, handleUnsubscribe accepts clientID p b)
  | PPingReq _ => (true, writePacket accepts clientID pingRespPacket b)
  | PDisconnect p =>
      let b :=
        match dis_Properties p ≫= SessionExpiryInterval with
        | Some v =>
            let v := if serverMaxExpiry (opts b) <? v then serverMaxExpiry (opts b) else v in
            modifySession clientID (fun s => s <| ExpiryInterval := v |>) b
        | None => b
        end in
      (false, gracefulDisconnect now clientID conn b)
  | PPubAck p => (true, handlePubAck accepts now clientID (ack_PacketID p) b)
  | PPubRec p => (true, handlePubRec accepts now clientID (ack_PacketID p) (ack_ReasonCode p) b)
  | PPubRel p => (true, handlePubRel accepts now clientID (ack_PacketID p) b)
  | PPubComp p => (true, handlePubComp accepts now clientID (ack_PacketID p) b)
  | PAuth p => handleAuth now clientID conn p b
  | PConnect _ => (false, abnormalDisconnect now clientID conn (announce clientID ReasonCodeProtocolError b))
  | _ => (true, b)
  end.
End Lifecycle.
