(* ===== verification/Lifecycle.v ===== *)
(** * The broker's life: broker/lifecycle.go and broker/admin.go

    The sweeps of the background loops (one tick each), the rebuild of the
    retained bookkeeping at start, shutdown, and the management operations.  The
    tickers, the plugin calls and the waits are not modelled. *)

From stdpp Require Import pretty.
From S2P Require Import Prelude Utf8 Wire Spec Topic Properties Packets TopicTree RateLimit StoreTypes PublishProps.
From S2P Require Import Sessions QoSEngine Auth WillHandler Flapping Broker Connect.
Open Scope Z_scope.

(** admin.go, ClientInfo *)
Record ClientInfo := {
  ci_ClientID : bytes;
  ci_Username : bytes;
  ci_Online : bool;
  ci_ProtocolVersion : Z;
  ci_CleanStart : bool;
  ci_KeepAlive : Z;
  ci_ConnectedAt : option Z;
  ci_LastActivity : option Z;
  ci_ExpiryInterval : Z;
  ci_Subscriptions : gmap bytes Z;
  ci_Inflight : Z;
}.

Section Lifecycle.
Context {SS MS RS : Type} `{SessionStore SS} `{MessageStore MS} `{RetainedStore RS}.
Context (accepts : list Event -> bytes -> Packet -> bool).
Implicit Types b : Broker SS MS RS.

(** ** Retained messages *)

(** lifecycle.go, rebuildRetainedExpirations *)
Definition rebuildOne (now : Z) b (m : Store.RetainedMessage) : Broker SS MS RS :=
  let base := default now (Store.rm_Timestamp m) in
  let b := match retainedDeadline (retainedExpiry (opts b)) base (Store.rm_ExpiresAt m) with
           | Some d => b <| retainedExpirations := <[Store.rm_Topic m := d]> (retainedExpirations b) |>
           | None => b
           end in
  b <| retainedCount := retainedCount b + 1 |>.

Definition rebuildRetainedExpirations (now : Z) b : Broker SS MS RS :=
  match b_retainedStore b with
  | None => b
  | Some rs =>
      match MatchRetained (str "#") rs with
      | Err _ => b
      | Ok msgs => foldl (rebuildOne now) (b <| retainedExpirations := ∅ |> <| retainedCount := 0 |>) msgs
      end
  end.

(** lifecycle.go, cleanupExpiredRetained: the deletion of one candidate, then
    the sweep.  A candidate whose deadline moved since it was collected stays. *)
Definition removeExpired (now : Z) b (topic : bytes) : Broker SS MS RS :=
  match b_retainedStore b, retainedExpirations b !! topic with
  | Some rs, Some cur =>
      if cur <? now then
        match DeleteRetained topic rs with
        | (Ok _, rs') => b <| b_retainedStore := Some rs' |>
                           <| retainedExpirations := delete topic (retainedExpirations b) |>
                           <| retainedCount := retainedCount b - 1 |>
        | (Err _, rs') => b <| b_retainedStore := Some rs' |>
        end
      else b
  | _, _ => b
  end.

Definition cleanupExpiredRetained (now : Z) b : Broker SS MS RS :=
  match b_retainedStore b with
  | None => b
  | Some _ =>
      let due := base.filter (fun e => snd e <? now = true) (map_to_list (retainedExpirations b)) in
      foldl (removeExpired now) b (fst <$> due)
  end.

(** ** Sessions *)

(** lifecycle.go, cleanupExpiredSessions *)
Definition sessionExpired (now : Z) (data : Store.SessionData) : bool :=
  (0 <? Store.sd_ExpiryInterval data) && expired now (Store.sd_ExpiryTime data).

Definition dropExpiredSession (clientID : bytes) (ss : SS) (data : Store.SessionData) b : Broker SS MS RS :=
  match DeleteSession clientID ss with
  | (Err _, ss') => b <| b_sessionStore := Some ss' |>
  | (Ok _, ss') =>
      let b := b <| b_sessionStore := Some ss' |> in
      let b :=
        match b_messageStore b with
        | None => b
        | Some ms =>
            match ClearMessages clientID ms with
            | (Err _, ms') => b <| b_messageStore := Some ms' |>
            | (Ok _, ms') => b <| b_messageStore := Some ms' |>
                               <| offlineCount := delete clientID (offlineCount b) |>
            end
        end in
      unsubscribeTopics clientID (Store.sub_Topic <$> Store.sd_Subscriptions data) b
  end.

Definition sweepSession (now : Z) b (clientID : bytes) : Broker SS MS RS :=
  match b_sessionStore b with
  | None => b
  | Some ss =>
      match connections b !! clientID with
      | Some _ => b <| b_sessionStore := Some (snd (RefreshSession clientID (sessionExpiry (opts b)) ss)) |>
      | None =>
          match FetchSession clientID ss with
          | Err _ => b
          | Ok data => if sessionExpired now data then dropExpiredSession clientID ss data b else b
          end
      end
  end.

Definition cleanupExpiredSessions (now : Z) b : Broker SS MS RS :=
  match ListSessionIDs <$> b_sessionStore b with
  | Some (Ok ids) => foldl (sweepSession now) b ids
  | _ => b
  end.

(** ** Status *)

(** lifecycle.go, publishSystemStatus; the version and the formatted uptime are
    given. *)
Definition publishSystemStatus (now : Z) (version uptime : bytes) b : Broker SS MS RS :=
  let conns := Z.of_nat (size (connections b)) in
  let b := publishSystem accepts now (str "$SYS/broker/version") version b in
  let b := publishSystem accepts now (str "$SYS/broker/uptime") uptime b in
  let b := publishSystem accepts now (str "$SYS/broker/connections") (str (pretty conns)) b in
  let b := publishSystem accepts now (str "$SYS/broker/retained") (str (pretty (retainedCount b))) b in
  publishSystem accepts now (str "$SYS/broker/subscriptions") (str (pretty (SubscriberCount (topics b)))) b.

(** ** Shutdown *)

(** lifecycle.go, BeginShutdown and notifyShuttingDown: a full queue drops the
    notice *)
Definition notifyOne b (e : bytes * clientState) : Broker SS MS RS :=
  if SpecReasonCodes (spec (cs_codec (snd e)))
  then writePacket accepts (fst e) (disconnectPacket DisconnectServerShuttingDown) b else b.

Definition BeginShutdown b : Broker SS MS RS :=
  foldl notifyOne (b <| shuttingDown := true |>) (map_to_list (connections b)).

(** lifecycle.go, Stop: every connection is closed and its read loop tears it
    down, in the order [conns]; what is left is taken out of the registry, and
    the pending wills are dropped. *)
Definition Stop (now : Z) (conns : list (bytes * Z)) b : Broker SS MS RS :=
  let b := BeginShutdown b in
  let b := foldl (fun b '(id, conn) => readFailed accepts now id conn (DecodeError ErrEOF) (emit (Closed id) b)) b conns in
  b <| connections := ∅ |> <| will := stopWills (will b) |>.

(** lifecycle.go, totalInflight *)
Definition totalInflight b : Z :=
  foldr (fun c n => InflightCount c (qos b) + n) 0 (ListSessions (b_sessions b)).

(** lifecycle.go, drainInflight.  [clock] and [count] give the time and the number of
    deliveries in flight at each poll; a wait that was made before is not repeated,
    and [OutOfPolls] is no outcome of the code. *)
Inductive DrainResult := NotDrained | Drained | Abandoned (n : Z) | OutOfPolls.

Definition pollInterval : Z := 100 * 1000000.

Fixpoint drainLoop (fuel : nat) (clock count : nat -> Z) (deadline : Z) (i : nat) : DrainResult :=
  match fuel with
  | O => OutOfPolls
  | S fuel =>
      let n := count i in
      if n =? 0 then Drained
      else if negb (clock i <? deadline) then Abandoned n
      else drainLoop fuel clock count deadline (S i)
  end.

Definition drainInflight (drained : bool) (timeout now : Z) (clock count : nat -> Z) : DrainResult :=
  if drained then NotDrained
  else if timeout <? 0 then NotDrained
  else if timeout =? 0 then if 0 <? count 0%nat then Abandoned (count 0%nat) else Drained
  else drainLoop (Z.to_nat (timeout / pollInterval) + 2) clock count (now + timeout) 0.

(** ** Management *)

(** admin.go, clientInfo, Client and Clients *)
Definition clientInfo (online : bool) (s : Session) : ClientInfo :=
  {| ci_ClientID := ses_ClientID s; ci_Username := ses_Username s; ci_Online := online;
     ci_ProtocolVersion := ProtocolVer s; ci_CleanStart := IsClean s; ci_KeepAlive := ses_KeepAlive s;
     ci_ConnectedAt := ConnectedAt s; ci_LastActivity := LastActivity s; ci_ExpiryInterval := ExpiryInterval s;
     ci_Subscriptions := Subscriptions s;
     ci_Inflight := Z.of_nat (size (Inflight s)) + Z.of_nat (size (inboundQoS2 s)) |}.

Definition Client (clientID : bytes) b : option ClientInfo :=
  clientInfo (bool_decide (is_Some (connections b !! clientID))) <$> session b clientID.

Definition Clients b : list ClientInfo := omap (fun id => Client id b) (ListSessions (b_sessions b)).

(** admin.go, DisconnectClient and DisconnectAllClients: the close is noticed by
    the read loop of the connection *)
Definition DisconnectClient (clientID : bytes) b : bool * Broker SS MS RS :=
  match connections b !! clientID with
  | None => (false, b)
  | Some _ => (true, emit (Closed clientID) (b <| will := RemoveWill clientID (will b) |>))
  end.

Definition DisconnectAllClients b : Z * Broker SS MS RS :=
  foldl (fun '(n, b) id => let '(ok, b) := DisconnectClient id b in (if ok then n + 1 else n, b)) (0, b)
    (fst <$> map_to_list (connections b)).
End Lifecycle.

(** ** The drain ends *)

(** With polls at least a poll interval apart, the drain never runs out of its
    polls: it ends when a poll finds nothing in flight, or at the first poll after
    the deadline. *)
Lemma drainLoop_ends fuel clock count deadline i :
  (forall i, clock i + pollInterval <= clock (S i)) -> (0 < fuel)%nat ->
  deadline - clock i <= pollInterval * (Z.of_nat fuel - 1) ->
  match drainLoop fuel clock count deadline i with
  | Drained => exists j, (i <= j)%nat /\ count j = 0
  | Abandoned n => exists j, (i <= j)%nat /\ count j = n /\ n <> 0 /\ deadline <= clock j /\ forall k, (i <= k < j)%nat -> clock k < deadline
  | NotDrained | OutOfPolls => False
  end.
Proof.
  intros Hc. revert i. induction fuel as [|fuel IH]; intros i Hf Hd; [lia|]. cbn [drainLoop].
  destruct (Z.eqb_spec (count i) 0) as [H0|H0]; [by exists i|]. destruct (Z.ltb_spec (clock i) deadline) as [Hl|Hl]; cbn [negb].
  - assert (0 < fuel)%nat as Hf' by (destruct fuel; [cbn in Hd; lia | lia]).
    specialize (IH (S i) Hf'). pose proof (Hc i) as Hi.
    assert (deadline - clock (S i) <= pollInterval * (Z.of_nat fuel - 1)) as Hd' by lia. specialize (IH Hd').
    destruct (drainLoop fuel clock count deadline (S i)) as [| |n|]; [done | | |done].
    + destruct IH as (j & Hj & H). exists j. split; [lia | done].
    + destruct IH as (j & Hj & Hn & Hn0 & Hdl & Hk). exists j. split_and!; [lia | done | done | done|]. intros k Hk'.
      destruct (decide (k = i)) as [->|]; [done | apply Hk; lia].
  - exists i. split_and!; [lia | done | done | lia | lia].
Qed.

Lemma drain_ends drained timeout clock count :
  (forall i, clock i + pollInterval <= clock (S i)) -> drainInflight drained timeout (clock 0%nat) clock count <> OutOfPolls.
Proof.
  intros Hc. unfold drainInflight. destruct drained; [done|]. destruct (Z.ltb_spec timeout 0); [done|].
  destruct (Z.eqb_spec timeout 0); [by destruct (0 <? count 0%nat)|]. set (fuel := (Z.to_nat (timeout / pollInterval) + 2)%nat).
  pose proof (drainLoop_ends fuel clock count (clock 0%nat + timeout) 0 Hc ltac:(lia)) as K. destruct (drainLoop _ _ _ _ _); try done. exfalso. apply K.
  unfold fuel. rewrite Nat2Z.inj_add, Z2Nat.id by (apply Z.div_pos; unfold pollInterval; lia).
  pose proof (Z.mod_pos_bound timeout pollInterval ltac:(done)). pose proof (Z.div_mod timeout pollInterval ltac:(done)). unfold pollInterval in *. lia.
Qed.

