(* ===== verification/Options.v ===== *)
(** * Broker options and construction: broker/options.go and broker/broker.go

    The functional options, their defaults, and New.  [brokerOptions] of Broker.v
    holds the options the handlers read; [options] adds those that configure the
    engine, the stores, the timers and the write queues.  The plugin manager, the
    logger and the metrics sink are not part of the model. *)

From S2P Require Import Prelude Utf8 Wire Spec Topic Properties Packets TopicTree RateLimit StoreTypes.
From S2P Require Import Sessions QoSEngine Auth WillHandler Flapping Broker.
Open Scope Z_scope.

#[export] Instance brokerOptions_eta : Eta brokerOptions := fun o =>
  Build_brokerOptions (authenticator o) (enhancedAuth o) (authorizer o) (maxTopicFiltersPerSub o) (maxRetainedTopics o)
    (maxOfflineQueue o) (retainedExpiry o) (opt_maxInflight o) (maxConnections o) (maxConnRate o) (maxPublishRate o)
    (opt_maxPacketSize o) (sessionExpiry o) (opt_keepAlive o) (maxClientIDLength o) (maxWillDelay o).

(** ** qos_engine.go, the engine's options *)

Record qosOptions := mkQosOptions { qo_maxInflight : Z; qo_retryInterval : Z; qo_maxRetries : Z }.

#[export] Instance qosOptions_eta : Eta qosOptions := fun o =>
  mkQosOptions (qo_maxInflight o) (qo_retryInterval o) (qo_maxRetries o).

Definition defaultQoSOptions : qosOptions := mkQosOptions 100 (10 * second) 3.

Definition QoSOption := qosOptions -> qosOptions.
Definition WithMaxInflight (n : Z) : QoSOption := fun o => o <| qo_maxInflight := n |>.
Definition WithRetryInterval (d : Z) : QoSOption := fun o => o <| qo_retryInterval := d |>.
Definition WithMaxRetries (n : Z) : QoSOption := fun o => o <| qo_maxRetries := n |>.

(** ** options.go *)

(** brokerOptions, all of it *)
Record options (SS MS RS : Type) := mkOptions {
  core : brokerOptions;
  sessionStore : option SS;
  messageStore : option MS;
  retainedStore : option RS;
  o_flapping : option FlappingDetector;
  qosOpts : list QoSOption;
  o_retryInterval : Z;
  o_maxRetries : Z;
  sessionCleanupInterval : Z;
  connectTimeout : Z;
  writeQueueSize : Z;
  writeTimeout : Z;
  retainedCleanupInterval : Z;
  connectionRateWindow : Z;
  sysInterval : Z;
  version : bytes;
  latencySampling : Z;
  drainTimeout : Z;
}.
Arguments mkOptions {SS MS RS}.
Arguments core {SS MS RS}.
Arguments sessionStore {SS MS RS}.
Arguments messageStore {SS MS RS}.
Arguments retainedStore {SS MS RS}.
Arguments o_flapping {SS MS RS}.
Arguments qosOpts {SS MS RS}.
Arguments o_retryInterval {SS MS RS}.
Arguments o_maxRetries {SS MS RS}.
Arguments sessionCleanupInterval {SS MS RS}.
Arguments connectTimeout {SS MS RS}.
Arguments writeQueueSize {SS MS RS}.
Arguments writeTimeout {SS MS RS}.
Arguments retainedCleanupInterval {SS MS RS}.
Arguments connectionRateWindow {SS MS RS}.
Arguments sysInterval {SS MS RS}.
Arguments version {SS MS RS}.
Arguments latencySampling {SS MS RS}.
Arguments drainTimeout {SS MS RS}.

#[export] Instance options_eta SS MS RS : Eta (options SS MS RS) := fun o =>
  mkOptions (core o) (sessionStore o) (messageStore o) (retainedStore o) (o_flapping o) (qosOpts o) (o_retryInterval o)
    (o_maxRetries o) (sessionCleanupInterval o) (connectTimeout o) (writeQueueSize o) (writeTimeout o)
    (retainedCleanupInterval o) (connectionRateWindow o) (sysInterval o) (version o) (latencySampling o) (drainTimeout o).

Section Options.
Context {SS MS RS : Type}.

(** defaultBrokerOptions; a rate of 0 is no limit *)
Definition defaultBrokerOptions : options SS MS RS := {|
  core := {| authenticator := Some denyAllAuthenticator; enhancedAuth := []; authorizer := Some allowAllAuthorizer;
             maxTopicFiltersPerSub := 100; maxRetainedTopics := 10000; maxOfflineQueue := 1000; retainedExpiry := 0;
             opt_maxInflight := 100; maxConnections := 10000; maxConnRate := None; maxPublishRate := 0;
             opt_maxPacketSize := 256 * 1024; sessionExpiry := 24 * 3600 * second; opt_keepAlive := 0;
             maxClientIDLength := 128; maxWillDelay := 24 * 3600 * second |};
  sessionStore := None; messageStore := None; retainedStore := None; o_flapping := None; qosOpts := [];
  o_retryInterval := 10 * second; o_maxRetries := 3; sessionCleanupInterval := 60 * second; connectTimeout := 10 * second;
  writeQueueSize := 256; writeTimeout := 30 * second; retainedCleanupInterval := 600 * second;
  connectionRateWindow := second; sysInterval := 30 * second; version := str "dev"; latencySampling := 1;
  drainTimeout := 5 * second |}.

Definition Option := options SS MS RS -> options SS MS RS.

Definition WithSessionStore (s : option SS) : Option := fun o => o <| sessionStore := s |>.
Definition WithMessageStore (s : option MS) : Option := fun o => o <| messageStore := s |>.
Definition WithRetainedStore (s : option RS) : Option := fun o => o <| retainedStore := s |>.
Definition WithAuth (a : option Authenticator) : Option := fun o => o <| core := core o <| authenticator := a |> |>.
Definition WithEnhancedAuth (a : EnhancedAuthenticator) : Option := fun o =>
  o <| core := core o <| enhancedAuth := enhancedAuth (core o) ++ [a] |> |>.
Definition WithAuthorizer (a : option Authorizer) : Option := fun o => o <| core := core o <| authorizer := a |> |>.

(** A disabled detector is the same as none. *)
Definition WithFlappingDetection (d : option FlappingDetector) : Option := fun o =>
  o <| o_flapping := match d with Some d' => if Enabled (cfg d') then d else None | None => None end |>.

Definition WithQoSOptions (opts : list QoSOption) : Option := fun o => o <| qosOpts := opts |>.
Definition WithMaxConnections (n : Z) : Option := fun o => o <| core := core o <| maxConnections := n |> |>.
Definition WithBrokerMaxPacketSize (n : Z) : Option := fun o => o <| core := core o <| opt_maxPacketSize := n |> |>.
Definition WithSessionExpiry (d : Z) : Option := fun o => o <| core := core o <| sessionExpiry := d |> |>.
Definition WithSessionCleanupInterval (d : Z) : Option := fun o => o <| sessionCleanupInterval := d |>.
Definition WithBrokerKeepAlive (seconds : Z) : Option := fun o => o <| core := core o <| opt_keepAlive := seconds |> |>.
Definition WithBrokerConnectTimeout (d : Z) : Option := fun o => o <| connectTimeout := d |>.
Definition WithDrainTimeout (d : Z) : Option := fun o => o <| drainTimeout := d |>.
Definition WithMaxConnectRate (rate : option Z) : Option := fun o => o <| core := core o <| maxConnRate := rate |> |>.
Definition WithMaxPublishRate (rate : Z) : Option := fun o => o <| core := core o <| maxPublishRate := rate |> |>.
Definition WithMaxClientIDLength (n : Z) : Option := fun o => o <| core := core o <| maxClientIDLength := n |> |>.
Definition WithMaxTopicFiltersPerSubscribe (n : Z) : Option := fun o => o <| core := core o <| maxTopicFiltersPerSub := n |> |>.
Definition WithMaxRetainedTopics (n : Z) : Option := fun o => o <| core := core o <| maxRetainedTopics := n |> |>.
Definition WithMaxOfflineQueue (n : Z) : Option := fun o => o <| core := core o <| maxOfflineQueue := n |> |>.
Definition WithMaxWillDelay (d : Z) : Option := fun o => o <| core := core o <| maxWillDelay := d |> |>.
Definition WithRetainedExpiry (d : Z) : Option := fun o => o <| core := core o <| retainedExpiry := d |> |>.
Definition WithRetainedCleanupInterval (d : Z) : Option := fun o => o <| retainedCleanupInterval := d |>.
Definition WithWriteQueueSize (n : Z) : Option := fun o => o <| writeQueueSize := n |>.
Definition WithWriteTimeout (d : Z) : Option := fun o => o <| writeTimeout := d |>.
Definition WithSysInterval (d : Z) : Option := fun o => o <| sysInterval := d |>.
Definition WithVersion (v : bytes) : Option := fun o => o <| version := v |>.
Definition WithLatencySampling (n : Z) : Option := fun o => o <| latencySampling := n |>.

Definition applyOptions (opts : list Option) : options SS MS RS := foldl (fun o f => f o) defaultBrokerOptions opts.

(** ** broker.go, New *)

(** The callbacks New installs in the engine: all but the error callback *)
Definition brokerCallbacks : Callbacks :=
  {| cb_sendPubRel := true; cb_sendPubComp := true; cb_republish := true; cb_onError := false; cb_onGiveUp := true |}.

Definition newEngine (opts : list QoSOption) : QoSEngine :=
  let o := foldl (fun o f => f o) defaultQoSOptions opts in
  let q := NewQoSEngine (qo_maxInflight o) (qo_retryInterval o) (qo_maxRetries o) in
  {| inflight := inflight q; maxInflight := maxInflight q; retryInterval := retryInterval q; maxRetries := maxRetries q;
     sessionVersions := sessionVersions q; callbacks := brokerCallbacks |}.

Definition New (opts : list Option) : Broker SS MS RS :=
  let o := applyOptions opts in
  {| Broker.opts := core o; topics := NewTopicTree; qos := newEngine (qosOpts o); will := NewWillHandler;
     b_sessions := NewManager; b_sessionStore := sessionStore o; b_messageStore := messageStore o;
     b_retainedStore := retainedStore o; flapping := o_flapping o; connections := ∅; pendingConns := 0;
     offlineCount := ∅; msgSeq := 0; retainedCount := 0; retainedExpirations := ∅;
     connRate := ConnRate.newConnRateLimiter (connectionRateWindow o); shuttingDown := false; trace := [] |}.
End Options.
