(* ===== verification/BrokerWf.v ===== *)
(** * The broker's invariant

    Each registered session is well formed and belongs to the client it is
    registered for, everything it is subscribed to was granted to its user, its
    subscriptions are in the topic tree, and every stored session restores to
    such a session.  This file has the invariant and its preservation by the
    handlers and by the parts connections and sweeps are made of; BrokerHistory.v
    composes them. *)

From S2P Require Import Prelude Utf8 Wire Spec Topic Properties Packets TopicTree TopicTreeProofs RateLimit StoreTypes.
From S2P Require Import PublishProps MemoryStore Sessions SessionProofs QoSEngine Auth WillHandler Flapping Broker.
From S2P Require Import BrokerInv FlowControl Connect Lifecycle.
Open Scope Z_scope.

(** ** Subscriptions in the tree *)

(** The QoS the tree holds for a client at a filter, shared or not. *)
Definition entry (m : SubscriptionMaps) (c f : bytes) : option Z :=
  if IsSharedSubscription f
  then match ParseSharedFilter f with Some (g, rf) => groupSubs m !! (g, rf, c) | None => None end
  else plainSubs m !! (f, c).

Lemma ParseSharedFilter_eq f g rf : ParseSharedFilter f = Some (g, rf) -> f = sharedSubPrefix ++ g ++ slash :: rf.
Proof.
  unfold ParseSharedFilter. destruct (IsSharedSubscription f) eqn:Es; cbn [negb]; [|done].
  apply andb_true_iff in Es as [_ Hp%bool_decide_eq_true]. pose proof (indexSlash_spec (drop (length sharedSubPrefix) f)) as Hi.
  destruct (indexSlash _) as [i|]; [|done]. destruct (_ || _); [done|]. intros [= <- <-]. destruct Hi as [_ Hi].
  transitivity (take (length sharedSubPrefix) f ++ drop (length sharedSubPrefix) f); [by rewrite take_drop|].
  rewrite Hp at 1. apply (f_equal (app sharedSubPrefix)). exact Hi.
Qed.

Lemma entry_shared m c f g rf : ParseSharedFilter f = Some (g, rf) -> entry m c f = groupSubs m !! (g, rf, c).
Proof.
  intros Hp. unfold entry. rewrite Hp. unfold ParseSharedFilter in Hp. by destruct (IsSharedSubscription f).
Qed.

Definition setEntry (c f : bytes) (q : Z) (m : SubscriptionMaps) : SubscriptionMaps :=
  if IsSharedSubscription f
  then match ParseSharedFilter f with Some (g, rf) => stepSpec (OpSubscribeShared g rf c q) m | None => m end
  else stepSpec (OpSubscribe f c q) m.

Definition delEntry (c f : bytes) (m : SubscriptionMaps) : SubscriptionMaps :=
  if IsSharedSubscription f
  then match ParseSharedFilter f with Some (g, rf) => stepSpec (OpUnsubscribeShared g rf c) m | None => m end
  else stepSpec (OpUnsubscribe f c) m.

Lemma entry_set c f q m c' f' :
  grantable None [] f ->
  entry (setEntry c f q m) c' f' = if decide (c' = c /\ f' = f) then Some q else entry m c' f'.
Proof.
  unfold grantable, setEntry, entry. destruct (IsSharedSubscription f) eqn:Es.
  - intros (g & rf & Hp & _). rewrite Hp. destruct (IsSharedSubscription f') eqn:Es'.
    + destruct (ParseSharedFilter f') as [[g' rf']|] eqn:Hp'; [|rewrite decide_False; [done|naive_solver]].
      cbn [stepSpec groupSubs]. case_decide as Hd; [destruct Hd as [-> ->]; simplify_eq; by rewrite lookup_insert_eq|].
      rewrite lookup_insert_ne; [done|]. intros [= <- <- <-]. apply Hd. split; [done|].
      apply ParseSharedFilter_eq in Hp, Hp'. congruence.
    + rewrite decide_False; [done|]. intros [_ ->]. congruence.
  - intros [Hv _]. cbn [stepSpec]. rewrite Hv. destruct (IsSharedSubscription f') eqn:Es'.
    + rewrite decide_False; [done|]. intros [_ ->]. congruence.
    + cbn [plainSubs]. case_decide as Hd; [destruct Hd as [-> ->]; by rewrite lookup_insert_eq|].
      rewrite lookup_insert_ne; [done|]. intros [= <- <-]. by apply Hd.
Qed.

Lemma entry_del c f m c' f' : c' <> c \/ f' <> f -> entry (delEntry c f m) c' f' = entry m c' f'.
Proof.
  intros Hne. unfold delEntry, entry. destruct (IsSharedSubscription f) eqn:Es.
  - destruct (ParseSharedFilter f) as [[g rf]|] eqn:Hp; [|done]. destruct (IsSharedSubscription f'); [|done].
    destruct (ParseSharedFilter f') as [[g' rf']|] eqn:Hp'; [|done]. cbn [stepSpec groupSubs].
    rewrite lookup_delete_ne; [done|]. intros [= <- <- <-]. apply ParseSharedFilter_eq in Hp, Hp'.
    destruct Hne; congruence.
  - destruct (IsSharedSubscription f'); [done|]. cbn [stepSpec plainSubs]. rewrite lookup_delete_ne; [done|].
    intros [= <- <-]. destruct Hne; congruence.
Qed.

Lemma refines_resubscribe c f q t m :
  tree_refines t m -> tree_refines (resubscribe c t (f, q)) (setEntry c f q m).
Proof.
  intros Hr. unfold resubscribe, setEntry. destruct (IsSharedSubscription f).
  - destruct (ParseSharedFilter f) as [[g rf]|]; [by apply refines_subscribe_shared | done].
  - by apply refines_subscribe.
Qed.

Lemma refines_unsubscribeTopic c f t m : tree_refines t m -> tree_refines (unsubscribeTopic c t f) (delEntry c f m).
Proof.
  intros Hr. unfold unsubscribeTopic, delEntry. destruct (IsSharedSubscription f).
  - destruct (ParseSharedFilter f) as [[g rf]|]; [by apply refines_unsubscribe_shared | done].
  - by apply refines_unsubscribe.
Qed.

Lemma refines_with_last l t m : tree_refines t m -> tree_refines (with_last l t) m.
Proof. intros [H1 H2 H3 H4 H5 H6]. by split. Qed.

(** Removing topics of one client leaves the entries of the others. *)
Lemma refines_unsubscribe_all c ts t m :
  tree_refines t m ->
  exists m', tree_refines (foldl (unsubscribeTopic c) t ts) m' /\ forall c' f, c' <> c -> entry m' c' f = entry m c' f.
Proof.
  revert t m. induction ts as [|f ts IH]; intros t m Hr; [by exists m|]. cbn [foldl].
  destruct (IH _ _ (refines_unsubscribeTopic c f t m Hr)) as (m' & Hr' & He). exists m'. split; [done|].
  intros c' f' Hc. rewrite He by done. apply entry_del. by left.
Qed.

Lemma refines_resubscribe_all c l t m :
  tree_refines t m -> NoDup (fst <$> l) -> Forall (fun e => grantable None [] (fst e)) l ->
  exists m', tree_refines (foldl (resubscribe c) t l) m' /\
    forall c' f, entry m' c' f = if decide (c' = c) then match (list_to_map l : gmap bytes Z) !! f with Some q => Some q | None => entry m c' f end
                                 else entry m c' f.
Proof.
  revert t m. induction l as [|[f q] l IH]; intros t m Hr Hnd Hg; cbn [foldl].
  { exists m. split; [done|]. intros c' f. by case_decide. }
  apply NoDup_cons in Hnd as [Hf Hnd]. apply Forall_cons in Hg as [Hgf Hg]. cbn [fst] in *.
  destruct (IH _ _ (refines_resubscribe c f q t m Hr) Hnd Hg) as (m' & Hr' & He). exists m'. split; [done|].
  intros c' f'. rewrite He, entry_set by done. cbn [list_to_map foldr uncurry fst snd].
  destruct (decide (c' = c)) as [->|Hc]; [|rewrite decide_False; [done|naive_solver]].
  destruct (decide (f' = f)) as [->|Hff].
  - rewrite decide_True by done. rewrite lookup_insert_eq.
    by rewrite (not_elem_of_list_to_map_1 (M := gmap bytes) l f Hf).
  - rewrite decide_False by naive_solver. by rewrite lookup_insert_ne.
Qed.

(** ** A good session *)

Lemma grantable_valid auth u f : grantable auth u f -> grantable None [] f.
Proof. unfold grantable. destruct (IsSharedSubscription f); naive_solver. Qed.

Record good (auth : option Authorizer) (c : bytes) (s : Session) : Prop := {
  gd_ok : session_ok s;
  gd_client : ses_ClientID s = c;
  gd_counted : outboundUnacked s <= Z.of_nat (size (Inflight s));
  gd_window : OutboundWindow s <= 65535;
  gd_granted f q : Subscriptions s !! f = Some q -> grantable auth (ses_Username s) f;
}.

Lemma inflight_size s : session_ok s -> Z.of_nat (size (Inflight s)) <= 65535.
Proof.
  intros Hok. assert (dom (Inflight s) ⊆ list_to_set (seqZ 1 65535)) as Hsub.
  { intros id [m Hm]%elem_of_dom. destruct (ok_inflight s Hok _ _ Hm) as [_ Hv]. unfold valid_id in Hv.
    apply elem_of_list_to_set, elem_of_seqZ. lia. }
  apply subseteq_size in Hsub. rewrite size_dom, size_list_to_set in Hsub by apply NoDup_seqZ.
  rewrite length_seqZ in Hsub. lia.
Qed.

(** The fields a good session is about. *)
Lemma good_same auth c s s' :
  session_ok s' -> ses_ClientID s' = ses_ClientID s -> ses_Username s' = ses_Username s ->
  Subscriptions s' = Subscriptions s -> Inflight s' = Inflight s -> outboundUnacked s' = outboundUnacked s ->
  OutboundWindow s' = OutboundWindow s -> good auth c s -> good auth c s'.
Proof.
  intros Hok E1 E2 E3 E4 E5 E6 [_ G1 G2 G3 G4]. split; [done|..].
  - congruence.
  - by rewrite E4, E5.
  - congruence.
  - rewrite E2, E3. apply G4.
Qed.

Lemma good_sent auth c s size msg :
  good auth c s -> CanSendOutbound s = true -> ifm_PacketID msg = fst (NextPacketID s) ->
  good auth c (sentSession size msg s).
Proof.
  intros [Hok G1 G2 G3 G4] Hc%Z.ltb_lt Hid.
  pose proof (nextPacketID_loop_spec (Z.to_nat 65535) (Inflight s) (packetIDSeq s) (ok_seq s Hok)) as Hn.
  unfold sentSession, NextPacketID in *. destruct (nextPacketID_loop _ _ _) as [id seq]. cbn [fst snd] in *.
  destruct Hn as (Hv & Hv' & Hfree). set (s1 := s <| packetIDSeq := seq |>).
  assert (session_ok s1) as Hok1.
  { destruct Hok as [_ A2 A3 A4 A5 A6]. split; [exact Hv' | exact A2 | exact A3 | exact A4 | exact A5 | exact A6]. }
  destruct (ok_unacked s Hok) as [Hu0 Hu1].
  assert (i32 (outboundUnacked s + 1) = outboundUnacked s + 1) as Hi by (apply i32_small; lia).
  set (s2 := IncOutboundUnacked (TrackSent size (AddInflight msg s1))).
  split; [| done | | done | done].
  - apply ok_IncOutboundUnacked; [change (outboundUnacked s < 65535); lia|].
    apply ok_TrackSent, ok_AddInflight; [by rewrite Hid | done].
  - change (i32 (outboundUnacked s + 1) <= Z.of_nat (base.size (<[ifm_PacketID msg := msg]> (Inflight s)))).
    rewrite Hi, Hid. destruct (Inflight s !! id) as [m|] eqn:Em.
    + rewrite map_size_insert_Some by eauto. destruct Hfree as [?|Hall]; [congruence|].
      rewrite Z2Nat.id in Hall by lia. pose proof (all_ids_used (Inflight s) (packetIDSeq s) (ok_seq s Hok) Hall). lia.
    + rewrite map_size_insert_None by done. lia.
Qed.

Lemma good_release auth c s id : good auth c s -> good auth c (releaseDelivery id s).
Proof.
  intros Hg. unfold releaseDelivery. destruct (RemoveInflight id s) as [found s'] eqn:Er.
  unfold RemoveInflight in Er. destruct (Inflight s !! id) as [m|] eqn:Em; inversion Er; subst; [|done].
  pose proof (ok_DecOutboundUnacked _ (ok_RemoveInflight id s (gd_ok _ _ _ Hg))) as Hok.
  unfold RemoveInflight in Hok. rewrite Em in Hok. cbn [snd] in Hok. destruct Hg as [Hs G1 G2 G3 G4].
  assert (size (delete id (Inflight s)) = pred (size (Inflight s))) as Hd by (apply map_size_delete_Some; eauto).
  assert (0 < size (Inflight s))%nat.
  { destruct (size (Inflight s)) eqn:E; [|lia]. apply map_size_empty_iff in E. by rewrite E, lookup_empty in Em. }
  revert Hok. unfold DecOutboundUnacked, set_field. cbn. destruct (Z.leb_spec (outboundUnacked s) 0); intros Hok;
    (split; cbn; [done | done | rewrite Hd; lia | done | done]).
Qed.

#[export] Instance good_invariant auth : SessionInvariant auth (good auth).
Proof.
  split.
  - intros c s s' Hg Hst. pose proof (gd_ok _ _ _ Hg) as Hok.
    destruct Hst as [s s' [s0 size msg Hc Hid Hq|s0 size|s0 pkt q o ids e Hc Hq]|s Hc|s id|s id|s m Hm|s id|s a t Ha|s r|
      s now|s n|s v].
    + by apply good_sent.
    + apply (good_same auth c s0); auto with session.
    + apply (good_same auth c s0); auto with session; unfold BufferOutbound; by destruct (_ <=? _).
    + apply (good_same auth c s); auto with session; unfold PopOutbound; by destruct (outboundQueue s).
    + by apply good_release.
    + pose proof (ok_MarkInflightPubRel id s Hok) as Hok'. unfold MarkInflightPubRel in *.
      destruct (Inflight s !! id) as [m|] eqn:Em; [|done]. destruct (ifm_QoS m =? 2); [|done].
      destruct Hg as [_ G1 G2 G3 G4].
      split; unfold set_field; cbn [snd Inflight outboundUnacked OutboundWindow]; try done.
      rewrite map_size_insert_Some; eauto.
    + apply (good_same auth c s); auto with session; unfold AddInboundQoS2; by destruct (_ && _).
    + apply (good_same auth c s); auto with session; unfold TakeInboundQoS2; by destruct (inboundQoS2 s !! id).
    + unfold RegisterTopicAlias. destruct (_ || _); [done|]. apply (good_same auth c s); auto.
      destruct Hok as [A1 A2 A3 A4 A5 A6]. by split.
    + apply (good_same auth c s); auto. destruct Hok as [A1 A2 A3 A4 A5 A6]. by split.
    + apply (good_same auth c s); auto. destruct Hok as [A1 A2 A3 A4 A5 A6]. by split.
    + apply (good_same auth c s); auto. destruct Hok as [A1 A2 A3 A4 A5 A6]. by split.
    + apply (good_same auth c s); auto. destruct Hok as [A1 A2 A3 A4 A5 A6]. by split.
  - intros c s f Hg Hf. pose proof (ok_AddSubscriptionFilter f s (gd_ok _ _ _ Hg)) as Hok.
    destruct Hg as [_ G1 G2 G3 G4]. split; try done. intros f' q.
    change (<[tf_Topic f := tf_QoS f]> (Subscriptions s) !! f' = Some q -> grantable auth (ses_Username s) f').
    intros [[<- _]|[_ ?]]%lookup_insert_Some; [done | by eapply G4].
  - intros c s f Hg. pose proof (ok_RemoveSubscription f s (gd_ok _ _ _ Hg)) as Hok.
    destruct Hg as [_ G1 G2 G3 G4]. split; try done. intros f' q.
    change (delete f (Subscriptions s) !! f' = Some q -> grantable auth (ses_Username s) f').
    intros [_ ?]%lookup_delete_Some. by eapply G4.
Qed.

(** ** The invariant *)

Lemma step_subscriptions s s' : session_step s s' -> Subscriptions s' = Subscriptions s.
Proof.
  intros [s1 s1' [s0 size msg _ _ _|s0 size|s0 pkt q o ids e _ _]|s0 _|s0 id|s0 id|s0 m _|s0 id|s0 a t _|s0 r|s0 now|s0 n|s0 v];
    try done.
  - unfold sentSession, NextPacketID. by destruct (nextPacketID_loop _ _ _).
  - unfold BufferOutbound. by destruct (_ <=? _).
  - unfold PopOutbound. by destruct (outboundQueue s0).
  - unfold releaseDelivery, RemoveInflight. destruct (Inflight s0 !! id); [|done].
    unfold DecOutboundUnacked. by destruct (_ <=? _).
  - unfold MarkInflightPubRel. destruct (Inflight s0 !! id) as [m|]; [|done]. by destruct (ifm_QoS m =? 2).
  - unfold AddInboundQoS2. by destruct (_ && _).
  - unfold TakeInboundQoS2. by destruct (inboundQoS2 s0 !! id).
  - unfold RegisterTopicAlias. by destruct (_ || _).
Qed.

Section Wf.
Context {SS MS RS : Type} `{FaithfulSessions SS} `{MessageStore MS} `{RetainedStore RS}.
Context (auth : option Authorizer).
Implicit Types b : Broker SS MS RS.

(** The tree holds every subscription of every registered session. *)
Definition mirrored b : Prop :=
  exists m, tree_refines (topics b) m /\
    forall c s f q, session b c = Some s -> Subscriptions s !! f = Some q -> entry m c f = Some q.

(** Every stored session restores to a good one. *)
Definition record_good (c : bytes) (d : Store.SessionData) : Prop := forall now, good auth c (restoredSession now d).
Definition stored_good b : Prop :=
  forall ss c d, b_sessionStore b = Some ss -> FetchSession c ss = Ok d -> record_good c d.

Record wf b : Prop := {
  wf_sessions : sat auth (good auth) b;
  wf_mirror : mirrored b;
  wf_stored : stored_good b;
}.

Lemma mirrored_put c s s' b :
  session b c = Some s -> Subscriptions s' = Subscriptions s -> mirrored b -> mirrored (putSession c s' b).
Proof.
  intros Hs He (m & Hr & Hm). exists m. split; [done|]. intros c1 s1 f q. rewrite session_put.
  case_decide as Hc; [|by apply Hm]. intros <-%(inj Some). rewrite He. subst. by apply Hm.
Qed.

Lemma mirrored_bstep b b' : sat auth (good auth) b -> bstep b b' -> mirrored b -> mirrored b'.
Proof.
  intros [Ha Hsat] Hst Hm.
  destruct Hst as [b'' [c s s' Es Hst|e|q|ms|oc|n|l]|c s s' Es Hst|w|now pkt|c f s code r b'' Es Hsub|c f s Es Hg]; try exact Hm.
  - eapply mirrored_put; [done | | done]. eauto using step_subscriptions, ss_delivery.
  - destruct Hm as (m & Hr & Hm). exists m. split; [by apply refines_with_last | done].
  - eapply mirrored_put; [done | | done]. by apply step_subscriptions.
  - by rewrite retained_frame.
  - destruct Hm as (m & Hr & Hm).
    apply subscribeOne_frame in Hsub as [->|[(tree & -> & Htree)|(tree & -> & Hg & Htree)]]; [by exists m| |].
    + exists m. split; [|done]. pose proof (refines_subscribe (topics b) m (tf_Topic f) c (tf_QoS f) Hr) as Hr'.
      rewrite Htree in Hr'. unfold Subscribe in Htree. destruct (negb _) eqn:Ev; [by inversion Htree|].
      by destruct (subscribeNode _ _ _ _).
    + apply grantable_valid in Hg. exists (setEntry c (tf_Topic f) (tf_QoS f) m). split.
      * pose proof (refines_resubscribe c (tf_Topic f) (tf_QoS f) (topics b) m Hr) as Hr'. unfold resubscribe in Hr'.
        destruct (IsSharedSubscription (tf_Topic f)); [destruct Htree as (g & rf & Hp & ->); by rewrite Hp in Hr'|].
        by rewrite Htree in Hr'.
      * intros c1 s1 f1 q1. rewrite session_put, entry_set by done. case_decide as Hc.
        { subst c1. intros <-%(inj Some).
          change (<[tf_Topic f := tf_QoS f]> (Subscriptions s) !! f1 = Some q1 ->
            (if decide (c = c /\ f1 = tf_Topic f) then Some (tf_QoS f) else entry m c f1) = Some q1).
          intros [[<- <-]|[Hf Hq]]%lookup_insert_Some; [by rewrite decide_True|].
          rewrite decide_False by naive_solver. by eapply Hm. }
        { intros Hs1 Hf1. rewrite decide_False by naive_solver. by eapply Hm. }
  - destruct Hm as (m & Hr & Hm). exists (delEntry c f m). split; [by apply refines_unsubscribeTopic|].
    intros c1 s1 f1 q1. rewrite session_put. case_decide as Hc.
    + subst c1. intros <-%(inj Some).
      change (delete f (Subscriptions s) !! f1 = Some q1 -> entry (delEntry c f m) c f1 = Some q1).
      intros [Hf Hq]%lookup_delete_Some. rewrite entry_del by naive_solver. by eapply Hm.
    + intros Hs1 Hf1. rewrite entry_del by naive_solver. by eapply Hm.
Qed.

Lemma wf_bstep b b' : bstep b b' -> wf b -> wf b'.
Proof.
  intros Hst [Hs Hm Hr]. split.
  - exact (sat_bstep auth _ _ _ Hst Hs).
  - exact (mirrored_bstep _ _ Hs Hst Hm).
  - destruct (bstep_frame _ _ Hst) as (_ & _ & He & _). unfold stored_good. by rewrite He.
Qed.

(** A step that leaves the sessions, the tree, the stored sessions and the
    options alone. *)
Lemma wf_same b b' :
  b_sessions b' = b_sessions b -> topics b' = topics b -> b_sessionStore b' = b_sessionStore b -> opts b' = opts b ->
  wf b -> wf b'.
Proof.
  intros E1 E2 E3 E4 [[Ha Hs] (m & Hr & Hm) Hst]. split.
  - unfold sat, session. by rewrite E1, E4.
  - exists m. unfold session. by rewrite E1, E2.
  - unfold stored_good. by rewrite E3.
Qed.

Lemma wf_put c s b :
  good auth c s ->
  (forall f q, Subscriptions s !! f = Some q -> exists s0, session b c = Some s0 /\ Subscriptions s0 !! f = Some q) ->
  wf b -> wf (putSession c s b).
Proof.
  intros Hg He [Hs (m & Hr & Hm) Hst]. split; [apply sat_put; [exact _ | done..]| |done]. exists m. split; [done|].
  intros c1 s1 f q. rewrite session_put. case_decide as Hc1; [|by apply Hm]. intros <-%(inj Some) Hq. subst c1.
  destruct (He f q Hq) as (s0 & Hs0 & Hq0). by eapply Hm.
Qed.

(** Topics of a client without registered subscriptions may leave the tree. *)
Lemma wf_unsubscribeTopics c ts b :
  (forall s, session b c = Some s -> Subscriptions s = ∅) -> wf b -> wf (unsubscribeTopics c ts b).
Proof.
  intros Hc [Hs (m & Hr & Hm) Hst]. split; [done| |done].
  destruct (refines_unsubscribe_all c ts _ _ Hr) as (m' & Hr' & He). exists m'. split; [done|].
  intros c1 s1 f q Hs1 Hq. destruct (decide (c1 = c)) as [->|Hne]; [|rewrite He by done; by eapply Hm].
  rewrite (Hc s1 Hs1) in Hq. by rewrite lookup_empty in Hq.
Qed.

(** Removing a session, and possibly its topics. *)
Lemma wf_remove c ts b :
  wf b ->
  wf (b <| topics := foldl (unsubscribeTopic c) (topics b) ts |> <| b_sessions := RemoveSession c (b_sessions b) |>).
Proof.
  intros [[Ha Hs] (m & Hr & Hm) Hst].
  assert (forall c1 s1, session (b <| topics := foldl (unsubscribeTopic c) (topics b) ts |>
    <| b_sessions := RemoveSession c (b_sessions b) |>) c1 = Some s1 -> c1 <> c /\ session b c1 = Some s1) as Hrem.
  { intros c1 s1. change (delete c (sessions (b_sessions b)) !! c1 = Some s1 -> c1 <> c /\ session b c1 = Some s1).
    intros [Hne ?]%lookup_delete_Some. split; [congruence | done]. }
  split; [split; [done|]| |done].
  - intros c1 s1 [_ Hs1]%Hrem. by apply Hs.
  - destruct (refines_unsubscribe_all c ts _ _ Hr) as (m' & Hr' & He). exists m'. split; [done|].
    intros c1 s1 f q [Hne Hs1]%Hrem Hq. rewrite He by done. by eapply Hm.
Qed.

(** ** Stored sessions *)

Lemma good_afterRestart now c s : good auth c s -> good auth c (afterRestart now s).
Proof.
  intros [[A1 A2 A3 A4 A5 A6] G1 G2 G3 G4].
  assert (packetIDSeq (afterRestart now s) = 1) as E1 by reflexivity.
  assert (SubOptions (afterRestart now s) = SubOptions s) as E2 by reflexivity.
  assert (Subscriptions (afterRestart now s) = Subscriptions s) as E3 by reflexivity.
  assert (Inflight (afterRestart now s) = surviving <$> Inflight s) as E4 by reflexivity.
  assert (inboundQoS2 (afterRestart now s) = survivingInbound now <$> inboundQoS2 s) as E5 by reflexivity.
  assert (outboundUnacked (afterRestart now s) = 0) as E6 by reflexivity.
  assert (outboundQueue (afterRestart now s) = []) as E7 by reflexivity.
  assert (OutboundWindow (afterRestart now s) = 65535) as E8 by reflexivity.
  assert (ses_ClientID (afterRestart now s) = ses_ClientID s) as E9 by reflexivity.
  assert (ses_Username (afterRestart now s) = ses_Username s) as E10 by reflexivity.
  generalize dependent (afterRestart now s). intros s' E1 E2 E3 E4 E5 E6 E7 E8 E9 E10.
  split; [split|..]; rewrite ?E1, ?E4, ?E5, ?E6, ?E7, ?E8, ?E9, ?E10; try done; try lia.
  - intros p. by rewrite E2, E3.
  - intros id m. rewrite lookup_fmap. intros (m0 & Hm & ->)%fmap_Some. by apply (A3 id m0).
  - intros id m. rewrite lookup_fmap. intros (m0 & Hm & ->)%fmap_Some. by apply (A4 id m0).
  - rewrite E3. apply G4.
Qed.

Lemma wf_store_update c b ss ss' :
  b_sessionStore b = Some ss -> (forall c', c' <> c -> FetchSession c' ss' = FetchSession c' ss) ->
  (forall d, FetchSession c ss' = Ok d -> record_good c d) -> wf b -> wf (b <| b_sessionStore := Some ss' |>).
Proof.
  intros Hss Ho Hc [Hs Hm Hst]. split; [done..|]. intros ss1 c1 d [= <-] Hf.
  destruct (decide (c1 = c)) as [->|Hne]; [by apply Hc|]. rewrite Ho in Hf by done. by eapply Hst.
Qed.

Lemma wf_save now c s ss b :
  session b c = Some s -> b_sessionStore b = Some ss -> wf b -> wf (b <| b_sessionStore := Some (snd (Save now s ss)) |>).
Proof.
  intros Hs Hss Hb. pose proof (proj2 (wf_sessions _ Hb) c s Hs) as Hg.
  apply (wf_store_update c b ss); [done| | |done].
  - intros c' Hne. unfold Save. rewrite (gd_client _ _ _ Hg). by apply fetch_other.
  - intros d Hd. unfold Save in Hd. rewrite (gd_client _ _ _ Hg) in Hd.
    destruct (SaveSession c (Some (sessionData now s)) ss) as [[[]|e] ss'] eqn:Es; cbn [snd] in Hd.
    + rewrite (fetch_saved _ _ _ _ (every_storable _) Es) in Hd. apply Ok_inj in Hd as <-. intros now'.
      rewrite restoredSession_saved by apply (gd_ok _ _ _ Hg). by apply good_afterRestart.
    + rewrite (fetch_save_failed _ _ _ _ _ Es) in Hd. by apply (wf_stored _ Hb ss).
Qed.

Lemma wf_delete_record c ss b :
  b_sessionStore b = Some ss -> wf b -> wf (b <| b_sessionStore := Some (snd (DeleteSession c ss)) |>).
Proof.
  intros Hss Hb. apply (wf_store_update c b ss); [done| | |done].
  - intros c' Hne. by apply fetch_delete_other.
  - intros d Hd. destruct (DeleteSession c ss) as [[[]|e] ss'] eqn:Es; cbn [snd] in Hd.
    + by rewrite (fetch_deleted _ _ _ Es) in Hd.
    + rewrite (fetch_delete_failed _ _ _ _ Es) in Hd. by apply (wf_stored _ Hb ss).
Qed.

Lemma wf_clearOffline c b : wf b -> wf (clearOffline c b).
Proof. apply wf_same; unfold clearOffline; by destruct (b_messageStore b). Qed.

(** ** Opening a session *)

Lemma good_new now c pkt : good auth c (newSession now c pkt).
Proof.
  split; [|done..]. assert (session_ok (blankSession c (Username pkt) (CleanSession (Flags pkt)) (ProtocolVersion pkt)
    (KeepAlive pkt))) as [A1 A2 A3 A4 A5 A6] by apply ok_blank. by split.
Qed.

Lemma good_resume now c pkt s : ses_Username s = Username pkt -> good auth c s -> good auth c (resumeSession now pkt s).
Proof.
  intros Hu Hg. apply (good_same auth c s); try done. destruct (gd_ok _ _ _ Hg) as [A1 A2 A3 A4 A5 A6]. by split.
Qed.

(** [s'] has the identity, the subscriptions and the unfinished exchanges of [s]. *)
Record same_core (s s' : Session) : Prop := {
  sc_seq : packetIDSeq s' = packetIDSeq s;
  sc_options : SubOptions s' = SubOptions s;
  sc_subscriptions : Subscriptions s' = Subscriptions s;
  sc_inflight : Inflight s' = Inflight s;
  sc_inbound : inboundQoS2 s' = inboundQoS2 s;
  sc_unacked : outboundUnacked s' = outboundUnacked s;
  sc_queue : outboundQueue s' = outboundQueue s;
  sc_client : ses_ClientID s' = ses_ClientID s;
  sc_user : ses_Username s' = ses_Username s;
}.

Lemma good_core c s s' : same_core s s' -> OutboundWindow s' <= 65535 -> good auth c s -> good auth c s'.
Proof.
  intros [E1 E2 E3 E4 E5 E6 E7 E8 E9] Hw [[A1 A2 A3 A4 A5 A6] G1 G2 G3 G4].
  split; [split|..]; rewrite ?E1, ?E4, ?E5, ?E6, ?E7, ?E8, ?E9; try done.
  - intros p. by rewrite E2, E3.
  - rewrite E3. apply G4.
Qed.

Lemma negotiate_core o assigned pkt s s' :
  negotiateSession o assigned pkt s = Some s' ->
  same_core s s' /\ OutboundWindow s' = Z.min (clientReceiveMax pkt) (serverReceiveMax o).
Proof.
  unfold negotiateSession. intros (rate & _ & Hs)%bind_Some. apply (inj Some) in Hs as <-.
  destruct (bool_decide (_ = Some 1)), (bool_decide (assigned = [])), (con_Properties pkt ≫= TopicAliasMaximum),
    ((0 <? opt_keepAlive o) && _); (split; [split|]; reflexivity).
Qed.

Lemma good_negotiate o assigned pkt c s s' :
  negotiateSession o assigned pkt s = Some s' -> good auth c s -> good auth c s' /\ Subscriptions s' = Subscriptions s.
Proof.
  intros [Hc Hw]%negotiate_core Hg. split; [|apply Hc]. apply (good_core c s); [done| |done]. rewrite Hw.
  unfold serverReceiveMax. destruct (_ =? 0); [lia|]. unfold u16. pose proof (Z.mod_pos_bound (opt_maxInflight o) 65536). lia.
Qed.

(** Who may resume: the in-memory and the stored session are the user's own. *)
Definition owned (pkt : ConnectPacket) b : Prop :=
  (forall s, session b (ClientID pkt) = Some s -> ses_Username s = Username pkt) /\
  (forall ss d, b_sessionStore b = Some ss -> FetchSession (ClientID pkt) ss = Ok d -> Store.sd_Username d = Username pkt).

Lemma restored_username now d : ses_Username (restoredSession now d) = Store.sd_Username d.
Proof.
  unfold restoredSession. set (s0 := blankSession _ _ _ _ _ <| ExpiryInterval := _ |>).
  change (ses_Username (foldl restoreSubscription s0 (Store.sd_Subscriptions d)) = ses_Username s0).
  generalize s0. induction (Store.sd_Subscriptions d) as [|sub l IH]; intros s; [done|]. cbn [foldl]. by rewrite IH.
Qed.

(** The state after a session was looked for in the store. *)
Definition restored_state (now : Z) (c : bytes) b (r : bool) b' : Prop :=
  wf b' /\ b_sessionStore b' = b_sessionStore b /\
  if r then exists ss d, b_sessionStore b = Some ss /\ FetchSession c ss = Ok d /\ session b' c = Some (restoredSession now d)
  else session b' c = session b c.

Lemma wf_restore now c b :
  wf b -> session b c = None -> let '(r, b') := restoreSession now c b in restored_state now c b r b'.
Proof.
  intros Hb Hn. unfold restoreSession, restored_state. destruct (b_sessionStore b) as [ss|] eqn:Hss; [|by split_and!].
  destruct (IsSessionExists c ss) as [[]|]; [|by split_and!..]. unfold Restore.
  destruct (FetchSession c ss) as [d|e] eqn:Hd.
  2:{ split_and!; [|done..]. by apply (wf_same b). }
  set (s := restoredSession now d). pose proof (wf_stored _ Hb ss c d Hss Hd now) as Hg. fold s in Hg.
  split_and!; [|done|].
  2:{ exists ss, d. split_and!; [done..|]. change (<[c := s]> (sessions (b_sessions b)) !! c = Some s). apply lookup_insert_eq. }
  destruct Hb as [[Ha Hs] (m & Hr & Hm) Hst].
  destruct (refines_resubscribe_all c (map_to_list (Subscriptions s)) (topics b) m Hr) as (m' & Hr' & He).
  { apply NoDup_fst_map_to_list. }
  { apply Forall_forall. intros [f q] Hin%elem_of_map_to_list. by eapply grantable_valid, (gd_granted _ _ _ Hg). }
  rewrite list_to_map_to_list in He.
  assert (forall b', b_sessions b' = with_session c s (b_sessions b) -> forall c1, session b' c1 =
    if decide (c1 = c) then Some s else session b c1) as Hses.
  { intros b' E c1. unfold session. rewrite E. change (<[c := s]> (sessions (b_sessions b)) !! c1 =
      if decide (c1 = c) then Some s else sessions (b_sessions b) !! c1).
    case_decide; [subst; apply lookup_insert_eq | by rewrite lookup_insert_ne]. }
  split.
  - split; [done|]. intros c1 s1. rewrite Hses by done. case_decide; [|apply Hs]. intros <-%(inj Some). by subst.
  - exists m'. split; [done|]. intros c1 s1 f q. rewrite Hses, He by done. case_decide; [|apply Hm].
    intros <-%(inj Some) Hq. by rewrite Hq.
  - done.
Qed.
End Wf.
