(* ===== verification/BrokerHistory.v ===== *)
(** * The broker over its whole life

    Histories of connections, packets, failures, timers, sweeps and management
    calls in any order, and the invariant of BrokerWf.v over all of them.  An
    operation of a history is one run of the code under the broker's locks: the
    interleavings inside one HandleConnection are not part of it. *)

From S2P Require Import Prelude Utf8 Wire Spec Topic Properties Packets TopicTree TopicTreeProofs RateLimit StoreTypes.
From S2P Require Import PublishProps MemoryStore Sessions SessionProofs QoSEngine Auth WillHandler Flapping Broker.
From S2P Require Import BrokerInv FlowControl Connect Lifecycle BrokerWf.
Open Scope Z_scope.

Section History.
Context {SS MS RS : Type} `{FaithfulSessions SS} `{MessageStore MS} `{RetainedStore RS}.
Context (accepts : list Event -> bytes -> Packet -> bool) (auth : option Authorizer).
Implicit Types b : Broker SS MS RS.

(** ** Sessions and connections *)

(** A session is registered exactly while its client is connected. *)
Definition registered b : Prop := forall c, is_Some (session b c) -> is_Some (connections b !! c).

Definition sound b : Prop := wf auth b /\ registered b.

Lemma sound_bstep b b' : bstep b b' -> sound b -> sound b'.
Proof.
  intros Hst [Hw Hr]. split; [by apply (wf_bstep auth b)|].
  destruct (bstep_frame _ _ Hst) as (_ & Hc & _ & Hs). intros c. rewrite Hs, Hc. apply Hr.
Qed.

Lemma sound_dstep b b' : dstep b b' -> sound b -> sound b'.
Proof. intros Hst. by apply sound_bstep, bs_delivery. Qed.

Lemma sound_same b b' :
  b_sessions b' = b_sessions b -> topics b' = topics b -> b_sessionStore b' = b_sessionStore b -> opts b' = opts b ->
  connections b' = connections b -> sound b -> sound b'.
Proof.
  intros E1 E2 E3 E4 E5 [Hw Hr]. split; [by apply (wf_same auth b)|]. unfold registered, session. by rewrite E1, E5.
Qed.

Lemma sound_publishWills now ws b : sound b -> sound (publishWills accepts now ws b).
Proof. apply (inv_fold sound). intros b' w. apply (inv_publishWill accepts sound sound_bstep). Qed.

Lemma sound_triggerWill now c conn b : sound b -> sound (triggerWill accepts now c conn b).
Proof. intros Hb. unfold triggerWill. destruct (TriggerWill _ _ _ _). by apply sound_publishWills, (sound_same b). Qed.

Lemma sound_fireWill now c b : sound b -> sound (fireWill accepts now c b).
Proof. intros Hb. unfold fireWill. destruct (FireWill _ _). by apply sound_publishWills, (sound_same b). Qed.

(** ** Connecting *)

(** While the connection of [c] to the broker [b0] is being set up. *)
Definition opening c b0 b : Prop :=
  wf auth b /\ (forall c', c' <> c -> is_Some (session b c') -> is_Some (session b0 c')) /\ connections b = connections b0.

Lemma opening_bstep c b0 b b' : bstep b b' -> opening c b0 b -> opening c b0 b'.
Proof.
  intros Hst (Hw & Hs & Hc). destruct (bstep_frame _ _ Hst) as (_ & Hc' & _ & Hs').
  split_and!; [by apply (wf_bstep auth b) | | congruence]. intros c' Hne. rewrite Hs'. by apply Hs.
Qed.

Lemma opening_put c b0 b s : wf auth (putSession c s b) -> opening c b0 b -> opening c b0 (putSession c s b).
Proof.
  intros Hw (_ & Hs & Hc). split_and!; [done| |done]. intros c' Hne. rewrite session_put, decide_False by done. by apply Hs.
Qed.

(** What CreateSession leaves for the client. *)
Definition opened c (clean : bool) b : Prop :=
  exists s, session b c = Some s /\ (clean = true -> Subscriptions s = ∅).

Lemma restore_sessions now c b c' :
  c' <> c -> session (snd (restoreSession now c b)) c' = session b c' /\
    connections (snd (restoreSession now c b)) = connections b.
Proof.
  intros Hne. unfold restoreSession. destruct (b_sessionStore b) as [ss|]; [|done].
  destruct (IsSessionExists c ss) as [[]|]; [|done..]. unfold Restore. destruct (FetchSession c ss) as [d|e]; [|done].
  split; [|done]. change (<[c := restoredSession now d]> (sessions (b_sessions b)) !! c' = sessions (b_sessions b) !! c').
  by rewrite lookup_insert_ne.
Qed.

Lemma create_fresh now c pkt b b0 r :
  (CleanSession (Flags pkt) = true \/ r = false) -> opening c b0 b ->
  opening c b0 (b <| b_sessions := snd (CreateSession now c pkt r (b_sessions b)) |>) /\
  session (b <| b_sessions := snd (CreateSession now c pkt r (b_sessions b)) |>) c = Some (newSession now c pkt).
Proof.
  intros Hf Hb. assert (snd (CreateSession now c pkt r (b_sessions b)) = with_session c (newSession now c pkt) (b_sessions b)) as ->.
  { unfold CreateSession. destruct (sessions (b_sessions b) !! c); [|done]. by destruct Hf as [-> | ->]; rewrite ?andb_false_r. }
  change (opening c b0 (putSession c (newSession now c pkt) b) /\
    session (putSession c (newSession now c pkt) b) c = Some (newSession now c pkt)).
  split; [|by rewrite session_put, decide_True]. apply opening_put; [|done]. apply wf_put; [apply good_new|by intros|apply Hb].
Qed.

Lemma create_resumed now c pkt b b0 s :
  session b c = Some s -> ses_Username s = Username pkt -> CleanSession (Flags pkt) = false -> opening c b0 b ->
  opening c b0 (b <| b_sessions := snd (CreateSession now c pkt true (b_sessions b)) |>) /\
  session (b <| b_sessions := snd (CreateSession now c pkt true (b_sessions b)) |>) c = Some (resumeSession now pkt s).
Proof.
  intros Hs Hu Hclean Hb. unfold CreateSession. change (sessions (b_sessions b) !! c = Some s) in Hs.
  rewrite Hs, Hclean. cbn [negb andb snd].
  change (opening c b0 (putSession c (resumeSession now pkt s) b) /\
    session (putSession c (resumeSession now pkt s) b) c = Some (resumeSession now pkt s)).
  split; [|by rewrite session_put, decide_True]. apply opening_put; [|done].
  apply wf_put; [|by exists s|apply Hb]. apply good_resume; [done|]. by apply (wf_sessions _ _ (proj1 Hb)).
Qed.

Lemma open_session now pkt b0 b :
  CleanSession (Flags pkt) = true \/ owned pkt b -> opening (ClientID pkt) b0 b ->
  opening (ClientID pkt) b0 (snd (openSession now pkt b)) /\
  opened (ClientID pkt) (CleanSession (Flags pkt)) (snd (openSession now pkt b)).
Proof.
  intros Hown Hb. set (c := ClientID pkt) in *. unfold openSession. fold c.
  set (b1 := b <| qos := _ |>). assert (opening c b0 b1) as Hb1 by (eapply opening_bstep; [apply bs_delivery, d_qos | done]).
  destruct (CleanSession (Flags pkt)) eqn:Hclean; cbn [negb andb].
  { pose proof (create_fresh now c pkt b1 b0 false (or_introl Hclean) Hb1) as [Ho Hs].
    destruct (CreateSession now c pkt false (b_sessions b1)) as [s m]. cbn [snd] in *. split; [done|]. by exists (newSession now c pkt). }
  destruct Hown as [|[Hmem Hsto]]; [done|]. cbn [andb]. unfold SessionExists. fold c in Hmem, Hsto.
  assert (forall b2 s, session b2 c = Some s -> ses_Username s = Username pkt -> opening c b0 b2 ->
    opening c b0 (snd (let '(_, m) := CreateSession now c pkt true (b_sessions b2) in
      (true, b2 <| b_sessions := m |> <| will := CancelWill c (will (b2 <| b_sessions := m |>)) |>))) /\
    opened c false (snd (let '(_, m) := CreateSession now c pkt true (b_sessions b2) in
      (true, b2 <| b_sessions := m |> <| will := CancelWill c (will (b2 <| b_sessions := m |>)) |>)))) as Hres.
  { intros b2 s Hs Hu Hb2. destruct (create_resumed now c pkt b2 b0 s Hs Hu Hclean Hb2) as [Ho Hs'].
    destruct (CreateSession now c pkt true (b_sessions b2)) as [s' m]. cbn [snd] in *. split; [|by eexists].
    eapply opening_bstep; [apply bs_will | done]. }
  destruct (session b1 c) as [s|] eqn:Es.
  - rewrite bool_decide_eq_true_2 by (by exists s). cbn [negb andb]. apply (Hres b1 s); auto.
  - rewrite bool_decide_eq_false_2 by (rewrite (eq_refl : sessions (b_sessions b1) !! c = session b1 c), Es; by intros []).
    cbn [negb andb]. pose proof (wf_restore auth now c b1 (proj1 Hb1) Es) as Hrs.
    pose proof (fun c' => restore_sessions now c b1 c') as Hfr.
    destruct (restoreSession now c b1) as [r b2]. destruct Hrs as (Hw & _ & Hr). cbn [snd] in Hfr.
    assert (opening c b0 b2) as Hb2.
    { destruct Hb1 as (_ & Hs & Hc). split_and!; [done| |].
      - intros c' Hne. destruct (Hfr c' Hne) as [-> _]. by apply Hs.
      - destruct (Hfr (c ++ [0])) as [_ ->]; [|done]. intros He%(f_equal length). rewrite length_app in He. cbn in He. lia. }
    destruct r.
    + destruct Hr as (ss & d & Hss & Hd & Hs). eapply Hres; [done| |done]. rewrite restored_username. by eapply Hsto.
    + pose proof (create_fresh now c pkt b2 b0 false (or_intror eq_refl) Hb2) as [Ho Hs].
      destruct (CreateSession now c pkt false (b_sessions b2)) as [s m]. cbn [snd] in *. split; [done|]. by eexists.
Qed.

Lemma opening_wf c b0 b b' :
  wf auth b' -> b_sessions b' = b_sessions b -> connections b' = connections b -> opening c b0 b -> opening c b0 b'.
Proof.
  intros Hw E1 E2 (_ & Hs & Hc). split_and!; [done| |congruence]. intros c' Hne. unfold session. rewrite E1. by apply Hs.
Qed.

Lemma clearOffline_frame c b :
  b_sessions (clearOffline c b) = b_sessions b /\ connections (clearOffline c b) = connections b.
Proof. unfold clearOffline. by destruct (b_messageStore b). Qed.

Lemma discard_old c stored b0 b :
  opened c true b -> opening c b0 b ->
  opening c b0 (discardOldSession c stored b) /\ opened c true (discardOldSession c stored b).
Proof.
  intros (s & Hs & He) Hb. specialize (He eq_refl). unfold discardOldSession. rewrite Hs.
  assert (forall b1 ts, session b1 c = Some s -> wf auth b1 -> wf auth (unsubscribeTopics c ts b1)) as Hun.
  { intros b1 ts Hs1 Hw. apply wf_unsubscribeTopics; [|done]. intros s1 Hs1'. rewrite Hs1 in Hs1'. by apply (inj Some) in Hs1' as <-. }
  pose proof (gd_client _ _ _ (proj2 (wf_sessions _ _ (proj1 Hb)) c s Hs)) as Hid.
  unfold unsubscribeSessionTopics. rewrite Hid. set (b1 := unsubscribeTopics c _ b).
  assert (opening c b0 b1) as Hb1 by (apply (opening_wf c b0 b); [apply Hun; [done|apply Hb]|done..]).
  assert (session b1 c = Some s) as Hs1 by done. clearbody b1.
  set (b2 := match b_sessionStore b1 with Some _ => _ | None => b1 end).
  assert (opening c b0 b2 /\ session b2 c = Some s) as [Hb2 Hs2].
  { subst b2. destruct (b_sessionStore b1) as [ss|] eqn:Hss; [|done].
    set (b3 := match stored with Some _ => _ | None => b1 end).
    assert (opening c b0 b3 /\ b_sessionStore b3 = Some ss /\ session b3 c = Some s) as (Hb3 & Hss3 & Hs3).
    { subst b3. destruct stored; [|done]. split_and!; [|done..]. apply (opening_wf c b0 b1); [apply Hun; [done|apply Hb1]|done..]. }
    split; [|done]. apply (opening_wf c b0 b3); [|done..]. apply wf_delete_record; [done|apply Hb3]. }
  destruct (clearOffline_frame c b2) as [E1 E2]. split; [apply (opening_wf c b0 b2); [|done..]; apply wf_clearOffline, Hb2|].
  exists s. unfold session. rewrite E1. done.
Qed.

Lemma opening_takeOver now c b0 b : opening c b0 b -> opening c b0 (takeOver accepts now c b).
Proof.
  intros Hb. unfold takeOver. destruct (connections b !! c) as [old|]; [|done].
  eapply opening_bstep; [apply bs_delivery, d_emit|]. set (b1 := if ServerDisconnect _ then _ else _).
  assert (opening c b0 b1) as Hb1.
  { subst b1. destruct (ServerDisconnect _); [|done].
    apply (inv_final accepts (opening c b0)); [|done]. eauto using opening_bstep, bs_delivery. }
  unfold triggerWill. destruct (TriggerWill _ _ _ _) as [ws wh].
  apply (inv_fold (opening c b0)); [intros; apply (inv_publishWill accepts (opening c b0)); eauto using opening_bstep|].
  eapply opening_bstep; [apply bs_will | done].
Qed.

Lemma sound_register c cs b0 b : registered b0 -> opening c b0 b -> sound (register c cs b).
Proof.
  intros Hr (Hw & Hs & Hc). split; [by apply (wf_same auth b)|]. intros c' Hsome.
  change (is_Some (<[c := cs]> (connections b) !! c')). destruct (decide (c' = c)) as [->|Hne];
    [rewrite lookup_insert_eq; by eexists|]. rewrite lookup_insert_ne, Hc by done. by apply Hr, Hs.
Qed.

Lemma opening_start c b : wf auth b -> opening c b b.
Proof. done. Qed.

Lemma sound_establish now cn pkt a b r b' :
  (ClientID pkt = [] -> CleanSession (Flags pkt) = true) -> (CleanSession (Flags pkt) = true \/ owned pkt b) ->
  sound b -> establish accepts now cn pkt a b = (r, b') -> r <> Panicked -> sound b'.
Proof.
  intros Hempty Hown [Hw Hreg]. unfold establish.
  set (assigned := if bool_decide (ClientID pkt = []) then str "shark-" ++ hex now else []).
  set (pkt' := if bool_decide (ClientID pkt = []) then with_clientID assigned pkt else pkt). set (c := ClientID pkt').
  assert (CleanSession (Flags pkt') = CleanSession (Flags pkt)) as Hfl by (subst pkt'; by case_bool_decide).
  assert (CleanSession (Flags pkt') = true \/ owned pkt' b) as Hown'.
  { rewrite Hfl. subst pkt'. case_bool_decide; [left; auto | done]. }
  destruct (open_session now pkt' b b Hown' (opening_start _ _ Hw)) as [Ho Hs]. fold c in Ho, Hs.
  destruct (openSession now pkt' b) as [resuming b1]. cbn [snd] in Ho, Hs.
  set (b2 := if CleanSession _ then _ else b1).
  assert (opening c b b2 /\ opened c false b2) as [Ho2 (s & Hs2 & _)].
  { subst b2. destruct (CleanSession (Flags pkt')); [|done].
    destruct (discard_old c (ad_stored a) b b1 Hs Ho) as [? (s & ? & _)]. split; [done|]. by exists s. }
  clearbody b2. rewrite Hs2. cbn [mbind option_bind]. destruct (negotiateSession _ _ _ s) as [s'|] eqn:Hn; [|by intros [= <- <-]].
  destruct (good_negotiate auth _ _ _ c _ _ Hn) as [Hg Hsub]; [by apply (wf_sessions _ _ (proj1 Ho2))|].
  assert (opening c b (putSession c s' b2)) as Ho3.
  { apply opening_put; [|done]. apply wf_put; [done| |apply Ho2]. rewrite Hsub. eauto. }
  pose proof (sound_register c {| cs_conn := c_Raw cn; cs_codec := connCodec cn pkt'; cs_enhancedAuth := ad_enhanced a |}
    b _ Hreg (opening_takeOver now c b _ Ho3)) as Hsnd.
  set (b4 := register c _ _) in *. set (b5 := if CleanSession (Flags pkt') then fireWill accepts now c b4 else b4).
  assert (sound b5) as Hb5 by (subst b5; destruct (CleanSession (Flags pkt')); [by apply sound_fireWill | done]).
  set (b6 := registerWill _ _ _ _ b5).
  assert (sound b6) as Hb6 by (subst b6; unfold registerWill; destruct (WillFlag _); [by apply (sound_same b5) | done]).
  destruct (session b6 c) as [s6|]; intros [= <- <-] _; [|done].
  apply (inv_deliverQueuedMessages accepts sound sound_dstep). destruct resuming.
  - by apply (inv_resend accepts sound sound_dstep), (inv_write accepts sound sound_dstep).
  - by apply (inv_write accepts sound sound_dstep).
Qed.

(** The checks before the session is opened touch nothing of the invariant. *)
Definition calm b b' : Prop :=
  b_sessions b' = b_sessions b /\ topics b' = topics b /\ b_sessionStore b' = b_sessionStore b /\ opts b' = opts b /\
  connections b' = connections b.

Lemma calm_trans b1 b2 b3 : calm b1 b2 -> calm b2 b3 -> calm b1 b3.
Proof. intros (?&?&?&?&?) (?&?&?&?&?). unfold calm. split_and!; congruence. Qed.

Lemma sound_calm b b' : calm b b' -> sound b -> sound b'.
Proof. intros (?&?&?&?&?). by apply sound_same. Qed.

Lemma calm_auth conn a seen reads reason resp cont b :
  calm b (snd (enhancedAuthLoop conn a seen reads reason resp cont b)).
Proof.
  revert seen reason resp cont b. induction reads as [|rd reads IH]; intros; cbn [enhancedAuthLoop].
  - repeat case_match; done.
  - destruct (reason =? AuthContinueAuth); [|by repeat case_match]. destruct rd as [[]|]; try done.
    destruct (Continue a _) as [[]|]; [|done]. eapply calm_trans; [|apply IH]. done.
Qed.

(** The outcome of the checks: a refusal, or a client that owns its identifier. *)
Definition admitted pkt b (r : (ConnectOutcome * Broker SS MS RS) + (Admission * Broker SS MS RS)) : Prop :=
  match r with
  | inl (_, b') => calm b b'
  | inr (_, b') => calm b b' /\ (ClientID pkt = [] \/ owned pkt b')
  end.

Lemma admitted_owner cn sp pkt en b :
  match checkOwner cn sp pkt en b with inl (_, b') => calm b b' | inr _ => ClientID pkt = [] \/ owned pkt b end.
Proof.
  unfold checkOwner. case_bool_decide; [by left|]. destruct (match session b (ClientID pkt) with Some _ => _ | None => _ end) eqn:Ef; [done|].
  assert (forall s, session b (ClientID pkt) = Some s -> ses_Username s = Username pkt) as Hs.
  { intros s Hs. rewrite Hs in Ef. apply negb_false_iff in Ef. by case_bool_decide. }
  destruct (b_sessionStore b) as [ss|] eqn:Hss; cbn [fmap option_fmap option_map].
  2:{ right. split; [done|]. by rewrite Hss. }
  destruct (FetchSession (ClientID pkt) ss) as [d|e] eqn:Hd.
  - destruct (negb _) eqn:Eu; [done|]. apply negb_false_iff in Eu. case_bool_decide as Hu; [|done]. right. split; [done|].
    intros ss' d'. rewrite Hss. intros [= <-]. rewrite Hd. by intros <-%Ok_inj.
  - right. split; [done|]. intros ss' d'. rewrite Hss. intros [= <-]. by rewrite Hd.
Qed.

Lemma admitted_connect now cn sp pkt b : admitted pkt b (admitConnect now cn sp pkt b).
Proof.
  assert (forall b1 en, calm b b1 -> admitted pkt b
    (match checkWillTopic cn sp pkt en b1 with inl r => inl r | inr a => inr (a, b1) end)) as Hgo.
  { intros b1 en Hc. unfold checkWillTopic. destruct (WillFlag _ && _); [done|].
    pose proof (admitted_owner cn sp pkt en b1) as Ho. destruct (checkOwner cn sp pkt en b1) as [[r b2]|a]; [|done].
    by eapply calm_trans. }
  unfold admitConnect. destruct (ValidateConnect pkt) as [[]|]; [|done]. destruct (match flapping b with None => _ | Some _ => _ end) as [[d det]|]; [|done].
  destruct (negb _); [done|]. destruct (_ && _); [done|]. unfold authenticate.
  set (b1 := b <| flapping := det |>). assert (calm b b1) as Hc by done. clearbody b1. destruct (negb _).
  - destruct (findEnhancedAuth _ _) as [a|]; [|done]. unfold enhancedAuthHandshake. destruct (Initial a _) as [[reason resp]|e]; [|done].
    match goal with |- context [enhancedAuthLoop ?x1 ?x2 ?x3 ?x4 ?x5 ?x6 ?x7 b1] =>
      pose proof (calm_auth x1 x2 x3 x4 x5 x6 x7 b1) as Ha; destruct (enhancedAuthLoop x1 x2 x3 x4 x5 x6 x7 b1) as [[seen|e] b2] end;
      cbn [snd] in Ha; [apply Hgo|]; by eapply calm_trans.
  - destruct (authenticator (opts b1)) as [au|]; [destruct (au _ _ _); [done|]|]; by apply Hgo.
Qed.

Lemma empty_id_clean pkt u : ValidateConnect pkt = Ok u -> ClientID pkt = [] -> CleanSession (Flags pkt) = true.
Proof.
  unfold ValidateConnect. intros Hv He. rewrite He in Hv. change (len [] =? 0) with true in Hv. cbn [andb] in Hv.
  destruct (CleanSession (Flags pkt)); [done|]. cbn [negb] in Hv. by repeat case_match.
Qed.

Lemma sound_handleConnect now cn b r b' :
  sound b -> handleConnect accepts now cn b = (r, b') -> r <> Panicked -> sound b'.
Proof.
  intros Hb. unfold handleConnect.
  assert (calm b (snd (connRateAllows now b))) as Hc by (unfold connRateAllows; by repeat case_match).
  destruct (connRateAllows now b) as [ok b1]. cbn [snd] in Hc. apply (sound_calm b b1 Hc) in Hb. clear Hc b. rename b1 into b.
  destruct (negb ok); [intros [= <- <-] _; by apply (sound_calm b)|].
  destruct (c_Connect cn) as [pkt|]; [|by intros [= <- <-]]. set (sp := if Version (c_Spec cn) =? 0 then _ else _).
  pose proof (admitted_connect now cn sp pkt b) as Ha.
  destruct (ValidateConnect pkt) as [u|e] eqn:Hv.
  2:{ unfold admitConnect. rewrite Hv. intros [= <- <-] _. by apply (sound_calm b). }
  destruct (admitConnect now cn sp pkt b) as [[r1 b1]|[a b1]].
  - intros [= <- <-] _. by apply (sound_calm b).
  - destruct Ha as [Hc Ho]. apply sound_establish; [by apply (empty_id_clean pkt u)| |by apply (sound_calm b)].
    destruct Ho as [He|Ho]; [left; by apply (empty_id_clean pkt u) | by right].
Qed.

Lemma sound_connect now cn b r b' :
  sound b -> HandleConnection accepts now cn b = (r, b') -> r <> Panicked -> sound b'.
Proof.
  intros Hb. unfold HandleConnection. assert (calm b (snd (reserveConnectionSlot b))) as Hc
    by (unfold reserveConnectionSlot; by repeat case_match).
  destruct (reserveConnectionSlot b) as [ok b1]. cbn [snd] in Hc. apply (sound_calm b b1 Hc) in Hb.
  destruct (negb ok); [intros [= <- <-] _; by apply (sound_calm b1)|].
  destruct (handleConnect accepts now cn b1) as [r2 b2] eqn:Hh. pose proof (sound_handleConnect now cn b1 r2 b2 Hb Hh) as Hs.
  destruct r2; intros [= <- <-] Hp; try by apply Hs.
  apply (sound_calm b2); [|by apply Hs]. unfold releaseConnectionSlot. by repeat case_match.
Qed.

(** ** Disconnecting *)

Lemma sound_wf b b' :
  wf auth b' -> b_sessions b' = b_sessions b -> connections b' = connections b -> sound b -> sound b'.
Proof. intros Hw E1 E2 [_ Hr]. split; [done|]. unfold registered, session. by rewrite E1, E2. Qed.

Lemma sound_store now c b : sound b -> sound (storeOnDisconnect now c b).
Proof.
  intros Hb. unfold storeOnDisconnect. destruct (session b c) as [s|] eqn:Hs; [|done].
  destruct (b_sessionStore b) as [ss|] eqn:Hss; [|done]. destruct (0 <? ExpiryInterval s).
  - apply (sound_wf b); [|done..]. apply (wf_save auth now c s ss b); [done..|apply Hb].
  - set (b1 := b <| b_sessionStore := _ |>).
    assert (sound b1) as Hb1 by (apply (sound_wf b); [apply wf_delete_record; [done|apply Hb]|done..]).
    apply (sound_wf b1); [apply wf_clearOffline, Hb1|apply clearOffline_frame..|done].
Qed.

(** A client leaves the registry; its topics [ts] leave the tree. *)
Lemma sound_leave c ts q b :
  sound b -> sound (unsubscribeTopics c ts b <| b_sessions := RemoveSession c (b_sessions b) |> <| qos := q |>
    <| connections := delete c (connections b) |>).
Proof.
  intros [Hw Hr]. split; [eapply (wf_same auth); [| | | |exact (wf_remove auth c ts b Hw)]; done|].
  intros c1. change (is_Some (delete c (sessions (b_sessions b)) !! c1) -> is_Some (delete c (connections b) !! c1)).
  destruct (decide (c1 = c)) as [->|Hne]; [rewrite lookup_delete_eq; by intros []|]. rewrite !lookup_delete_ne by done. apply Hr.
Qed.

Lemma sound_disconnect now c conn b : sound b -> sound (disconnect now c conn b).
Proof.
  intros Hb. unfold disconnect. destruct (negb _); [done|]. apply (sound_store now c) in Hb.
  set (b1 := storeOnDisconnect now c b) in *. clearbody b1.
  destruct (session b1 c) as [s|] eqn:Hs; cbn [fmap option_fmap option_map]; [|by apply (sound_leave c [])].
  change (ExpiryInterval (ResetOutboundUnacked s)) with (ExpiryInterval s). destruct (0 <? ExpiryInterval s).
  - apply (inv_persistBuffered sound sound_dstep). by apply (sound_leave c []).
  - pose proof (gd_client _ _ _ (proj2 (wf_sessions _ _ (proj1 Hb)) c s Hs)) as Hid. unfold unsubscribeSessionTopics.
    change (ses_ClientID (ResetOutboundUnacked s)) with (ses_ClientID s). rewrite Hid. exact (sound_leave c _ _ b1 Hb).
Qed.

Lemma sound_will w b : sound b -> sound (b <| will := w |>).
Proof. by apply sound_same. Qed.

Lemma sound_abnormal now c conn b : sound b -> sound (abnormalDisconnect accepts now c conn b).
Proof.
  intros Hb. apply sound_disconnect. destruct (shuttingDown b); [by apply sound_will | by apply sound_triggerWill].
Qed.

Lemma sound_graceful now c conn b : sound b -> sound (gracefulDisconnect now c conn b).
Proof. intros Hb. by apply sound_disconnect, sound_will. Qed.

(** ** The read loop *)

Lemma sound_announce c r b : sound b -> sound (announce accepts c r b).
Proof.
  intros Hb. unfold announce. destruct (session b c) as [s|]; [|done]. destruct (ServerDisconnect _); [|done].
  by apply (inv_final accepts sound sound_dstep).
Qed.

Lemma sound_readFailed now c conn e b : sound b -> sound (readFailed accepts now c conn e b).
Proof.
  intros Hb. apply sound_abnormal. destruct e as [|e]; [by apply sound_announce|].
  destruct (decodeErrorReasonCode e); [by apply sound_announce | done].
Qed.

Lemma sound_modify c f b : (forall s, session_step s (f s)) -> sound b -> sound (modifySession c f b).
Proof.
  intros Hf Hb. unfold modifySession. destruct (session b c) as [s|] eqn:Hs; [|done].
  by apply (inv_session sound sound_bstep c s).
Qed.

Lemma sound_handleAuth now c conn p b : sound b -> sound (snd (handleAuth accepts now c conn p b)).
Proof.
  intros Hb. unfold handleAuth.
  assert (forall b1, sound b1 -> sound (gracefulDisconnect now c conn
    (writePacket accepts c (disconnectPacket ReasonCodeBadAuthMethod) b1))) as Hbad.
  { intros b1 Hb1. by apply sound_graceful, (inv_write accepts sound sound_dstep). }
  destruct (connections b !! c) as [[cn codec [[a seen]|]]|] eqn:Hc; [|by apply Hbad..].
  set (b1 := b <| connections := _ |>). assert (sound b1) as Hb1.
  { destruct Hb as [Hw Hr]. split; [by apply (wf_same auth b)|]. intros c1 Hs. apply lookup_insert_is_Some'. right. by apply Hr. }
  clearbody b1. destruct (Continue a _) as [[reason resp]|e]; [|by apply Hbad].
  assert (sound (writePacket accepts c (authPacket reason (Method a) resp) b1)) by by apply (inv_write accepts sound sound_dstep).
  destruct (_ || _); [done | by apply sound_graceful].
Qed.

Lemma sound_handlePacket now c conn pkt b : sound b -> sound (snd (handlePacket accepts now c conn pkt b)).
Proof.
  intros Hb. unfold handlePacket.
  assert (sound (modifySession c (UpdateActivity now) b)) as Hb1 by (apply sound_modify; [intros; apply ss_activity | done]).
  set (b1 := modifySession c (UpdateActivity now) b) in *. clearbody b1.
  destruct pkt as [p|p|p|p|p|p|p|p|p|p|p|fh|fh|p|p]; cbn [snd]; try done.
  - by apply sound_abnormal, sound_announce.
  - apply (inv_handlePublish accepts sound sound_bstep), sound_modify; [intros; apply ss_received | done].
  - by apply (inv_handlePubAck accepts sound sound_bstep).
  - by apply (inv_handlePubRec accepts sound sound_bstep).
  - by apply (inv_handlePubRel accepts sound sound_bstep).
  - by apply (inv_handlePubComp accepts sound sound_bstep).
  - by apply (inv_handleSubscribe accepts sound sound_bstep).
  - by apply (inv_handleUnsubscribe accepts sound sound_bstep).
  - by apply (inv_write accepts sound sound_dstep).
  - apply sound_graceful. destruct (dis_Properties p ≫= SessionExpiryInterval); [|done].
    apply sound_modify; [intros; apply ss_expiry | done].
  - by apply sound_handleAuth.
Qed.

(** ** Sweeps, status and shutdown *)

Lemma sound_sweepSession now c b : sound b -> sound (sweepSession now b c).
Proof.
  intros Hb. unfold sweepSession. destruct (b_sessionStore b) as [ss|] eqn:Hss; [|done].
  destruct (connections b !! c) as [cs|] eqn:Hc.
  - apply (sound_wf b); [|done..]. apply (wf_store_update auth c b ss); [done| | |apply Hb].
    + intros. apply fetch_refreshed.
    + intros d. rewrite fetch_refreshed. by apply (wf_stored _ _ (proj1 Hb)).
  - destruct (FetchSession c ss) as [d|e]; [|done]. destruct (sessionExpired now d); [|done]. unfold dropExpiredSession.
    pose proof (wf_delete_record auth c ss b Hss (proj1 Hb)) as Hw. destruct (DeleteSession c ss) as [[u|e] ss']; cbn [snd] in Hw.
    2:{ by apply (sound_wf b). }
    set (b1 := b <| b_sessionStore := Some ss' |>) in *. assert (sound b1) as Hb1 by by apply (sound_wf b).
    set (b2 := match b_messageStore b1 with Some _ => _ | None => b1 end).
    assert (sound b2 /\ session b2 c = None) as [Hb2 Hn].
    { assert (session b1 c = None).
      { apply eq_None_not_Some. intros Hs. destruct (proj2 Hb1 c Hs) as [cs Hcs]. change (connections b !! c = Some cs) in Hcs. congruence. }
      subst b2. destruct (b_messageStore b1); [|done]. destruct (ClearMessages c m) as [[] ms]; (split; [|done]); by apply (sound_same b1). }
    apply (sound_wf b2); [|done..]. apply wf_unsubscribeTopics; [|apply Hb2]. intros s. by rewrite Hn.
Qed.

Lemma sound_cleanupSessions now b : sound b -> sound (cleanupExpiredSessions now b).
Proof.
  intros Hb. unfold cleanupExpiredSessions. destruct (b_sessionStore b) as [ss|]; [|done]. cbn [fmap option_fmap option_map].
  destruct (ListSessionIDs ss); [|done]. apply (inv_fold sound); [|done]. intros. by apply sound_sweepSession.
Qed.

Lemma sound_cleanupRetained now b : sound b -> sound (cleanupExpiredRetained now b).
Proof.
  intros Hb. unfold cleanupExpiredRetained. destruct (b_retainedStore b); [|done]. apply (inv_fold sound); [|done].
  intros b1 t Hb1. unfold removeExpired. repeat case_match; try done; by apply (sound_same b1).
Qed.

Lemma sound_rebuild now b : sound b -> sound (rebuildRetainedExpirations now b).
Proof.
  intros Hb. unfold rebuildRetainedExpirations. destruct (b_retainedStore b); [|done]. destruct (MatchRetained _ r); [|done].
  apply (inv_fold sound); [|by apply (sound_same b)]. intros b1 m Hb1. unfold rebuildOne.
  destruct (retainedDeadline _ _ _); by apply (sound_same b1).
Qed.

Lemma sound_status now v u b : sound b -> sound (publishSystemStatus accepts now v u b).
Proof. intros Hb. unfold publishSystemStatus. by do 5 apply (inv_publishSystem accepts sound sound_dstep). Qed.

Lemma sound_shutdown b : sound b -> sound (BeginShutdown accepts b).
Proof.
  intros Hb. apply (inv_fold sound); [|by apply (sound_same b)]. intros b1 [c cs] Hb1. unfold notifyOne.
  destruct (SpecReasonCodes _); [|done]. by apply (inv_write accepts sound sound_dstep).
Qed.

Lemma sound_kick c b : sound b -> sound (snd (DisconnectClient c b)).
Proof. intros Hb. unfold DisconnectClient. destruct (connections b !! c); [by apply (sound_same b) | done]. Qed.

(** ** Histories *)

(** What happens to a running broker.  A packet or a read error may come from a
    connection that was taken over and has not stopped yet. *)
Inductive broker_step b : Broker SS MS RS -> Prop :=
  | st_connect now cn r b' : HandleConnection accepts now cn b = (r, b') -> r <> Panicked -> broker_step b b'
  | st_packet now c conn pkt : broker_step b (snd (handlePacket accepts now c conn pkt b))
  | st_readError now c conn e : broker_step b (readFailed accepts now c conn e b)
  | st_retry now : broker_step b (retryRound accepts now b)
  | st_willTimer now token g : waiting (will b) !! token = Some g -> wt_due g <= now ->
      broker_step b (publishWills accepts now (fst (timerBranch token g (will b)))
                       (b <| will := snd (timerBranch token g (will b)) |>))
  | st_expiredSessions now : broker_step b (cleanupExpiredSessions now b)
  | st_expiredRetained now : broker_step b (cleanupExpiredRetained now b)
  | st_rebuild now : broker_step b (rebuildRetainedExpirations now b)
  | st_status now version uptime : broker_step b (publishSystemStatus accepts now version uptime b)
  | st_disconnectClient c : broker_step b (snd (DisconnectClient c b))
  | st_shutdown : broker_step b (BeginShutdown accepts b).

(** A broker before its first connection, over a store of good sessions. *)
Definition started b : Prop :=
  b_sessions b = NewManager /\ topics b = NewTopicTree /\ connections b = ∅ /\ authorizer (opts b) = auth /\ stored_good auth b.

Lemma sound_started b : started b -> sound b.
Proof.
  intros (Hs & Ht & Hc & Ha & Hst). split; [split; [split; [done|]| |done]|]; unfold registered, session; rewrite ?Hs.
  - intros c s. unfold GetSession. cbn. by rewrite lookup_empty.
  - exists noSubscriptions. rewrite Ht. split; [apply refines_empty|]. intros c s f q. unfold session. rewrite Hs.
    unfold GetSession. cbn. by rewrite lookup_empty.
  - intros c. unfold GetSession. cbn. rewrite lookup_empty. by intros [].
Qed.

Lemma sound_step b b' : broker_step b b' -> sound b -> sound b'.
Proof.
  intros Hst Hb. destruct Hst as [now cn r b' Hh Hp|now c conn pkt|now c conn e|now|now token g _ _|now|now|now|now v u|c|].
  - by eapply sound_connect.
  - by apply sound_handlePacket.
  - by apply sound_readFailed.
  - by apply (inv_retryRound accepts sound sound_bstep).
  - by apply sound_publishWills, sound_will.
  - by apply sound_cleanupSessions.
  - by apply sound_cleanupRetained.
  - by apply sound_rebuild.
  - by apply sound_status.
  - by apply sound_kick.
  - by apply sound_shutdown.
Qed.

Lemma reachable_sound b0 b : started b0 -> rtc broker_step b0 b -> sound b.
Proof. intros Hst%sound_started Hr. induction Hr; eauto using sound_step. Qed.
End History.


(** A broker with the memory stores, and the CONNECT of a client. *)
Definition empty_broker : Broker sessionStore messageStore retainedStore :=
  sample_broker <| b_sessions := NewManager |> <| connections := ∅ |>.

Definition sample_connect (id : bytes) (clean : bool) : ConnectPacket :=
  {| con_FixedHeader := header PacketTypeConnect 0 false false;
     ProtocolName := ProtocolNameMQTT; ProtocolVersion := Version50;
     Flags := {| UsernameFlag := false; PasswordFlag := false; WillRetain := false; WillQoS := 0; WillFlag := false;
                 WillTopicFlag := false; CleanSession := clean; Reserved := false |};
     KeepAlive := 60; ClientID := id; WillTopic := []; Packets.WillMessage := []; Username := []; Password := [];
     con_Properties := None; WillProperties := None |}.

Definition sample_conn (raw : Z) (id : bytes) (clean : bool) : Conn :=
  {| c_Raw := raw; c_PeerIP := str "10.0.0.1"; c_Codec := NewCodecForVersion 0 Version50; c_Spec := default zeroSpec (SpecOf Version50);
     c_Connect := Some (sample_connect id clean); c_AuthReads := [] |}.

Definition sample_subscribe (f : bytes) (q : Z) : SubscribePacket :=
  {| sub_FixedHeader := header PacketTypeSubscribe 1 false false; sub_PacketID := 1;
     sub_Topics := [{| tf_Topic := f; tf_QoS := q; NoLocal := false; RetainAsPublished := false; RetainHandling := 0;
                       tf_SubscriptionIdentifier := None |}]; sub_Properties := None |}.

Definition connected_broker : Broker sessionStore messageStore retainedStore :=
  snd (HandleConnection (fun _ _ _ => true) 5 (sample_conn 1 (str "c") false) empty_broker).
Definition subscribed_broker : Broker sessionStore messageStore retainedStore :=
  snd (handlePacket (fun _ _ _ => true) 6 (str "c") 1 (PSubscribe (sample_subscribe (str "a/#") 1)) connected_broker).

Lemma subscribed_reachable : rtc (broker_step (fun _ _ _ => true)) empty_broker subscribed_broker.
Proof.
  eapply rtc_l; [apply (st_connect _ _ 5 (sample_conn 1 (str "c") false) (Established false) connected_broker)|].
  - vm_compute. reflexivity.
  - discriminate.
  - apply rtc_once, st_packet.
Qed.

Lemma empty_started : started None empty_broker.
Proof.
  split_and!; try reflexivity. intros ss c d Hss. apply (inj Some) in Hss as <-.
  change (memGetSession c NewSessionStore = Ok d -> record_good None c d). unfold memGetSession. cbn [memSessions NewSessionStore].
  by rewrite lookup_empty.
Qed.

