(* ===== verification/Handshake.v ===== *)
(** * From accepted bytes to the broker: protocol/adapter.go, registry.go,
    mqtt_adapter.go and the handshake of broker/server.go

    A connection is the bytes its peer sends; reading past them is the end of the
    stream.  An adapter peeks at the bytes without consuming them, and its
    handshake returns what is left.  Deadlines are not modelled. *)

From S2P Require Import Prelude Utf8 Wire Spec Topic Properties Packets Codec CodecProofs RoundTrip TopicTree RateLimit.
From S2P Require Import StoreTypes PublishProps Sessions QoSEngine Auth WillHandler Flapping Broker Connect MemoryStore BrokerHistory.
Open Scope Z_scope.

(** adapter.go, ConnectInfo *)
Record ConnectInfo := {
  ci_Protocol : bytes;
  ci_Version : Z;
  ci_ClientID : bytes;
  ci_Username : bytes;
  ci_Password : bytes;
  ci_CleanSession : bool;
  ci_KeepAlive : Z;
  ci_WillTopic : bytes;
  ci_WillPayload : bytes;
  ci_WillQoS : Z;
  ci_WillRetain : bool;
  ci_Extensions : ConnectPacket;
}.

(** adapter.go, peekConn: [Peek] looks at the bytes [Read] will return *)
Definition Peek (n : nat) (stream : bytes) : res bytes :=
  if (length stream <? n)%nat then Err ErrEOF else Ok (take n stream).

(** adapter.go, Adapter.  A handshake returns the codec beside the error, and what
    it left of the stream. *)
Record Adapter := {
  a_Name : bytes;
  Identify : bytes -> res bool;
  Handshake : bytes -> res ConnectInfo * option Codec * bytes;
  a_Spec : Z -> option Spec;
}.

(** ** registry.go *)

Record Registry := mkRegistry { adapters : list Adapter; byName : gmap bytes Adapter }.

#[export] Instance Registry_eta : Eta Registry := fun r => mkRegistry (adapters r) (byName r).

(** The first adapter with the name is replaced in the sniffing order. *)
Fixpoint replaceNamed (a : Adapter) (l : list Adapter) : list Adapter :=
  match l with
  | [] => []
  | x :: l' => if bool_decide (a_Name x = a_Name a) then a :: l' else x :: replaceNamed a l'
  end.

Definition Register (a : Adapter) (r : Registry) : Registry :=
  let l := match byName r !! a_Name a with Some _ => replaceNamed a (adapters r) | None => adapters r ++ [a] end in
  r <| adapters := l |> <| byName := <[a_Name a := a]> (byName r) |>.

Definition NewRegistry (l : list Adapter) : Registry := foldl (fun r a => Register a r) (mkRegistry [] ∅) l.

Definition RegistryLookup (name : bytes) (r : Registry) : option Adapter := byName r !! name.

Fixpoint sniff (l : list Adapter) (stream : bytes) : res Adapter :=
  match l with
  | [] => Err ErrNoMatchingAdapter
  | a :: l' =>
      match Identify a stream with
      | Err e => Err e
      | Ok true => Ok a
      | Ok false => sniff l' stream
      end
  end.

Definition Select (stream bound : bytes) (r : Registry) : res Adapter :=
  match bound with
  | [] => sniff (adapters r) stream
  | _ => match byName r !! bound with Some a => Ok a | None => Err (ErrText "protocol: no adapter registered for bound protocol") end
  end.

(** ** mqtt_adapter.go *)

Definition mqttProtocolName : bytes := str "mqtt".

Definition toConnectInfo (cp : ConnectPacket) : ConnectInfo := {|
  ci_Protocol := mqttProtocolName; ci_Version := ProtocolVersion cp; ci_ClientID := ClientID cp; ci_Username := Username cp;
  ci_Password := Password cp; ci_CleanSession := CleanSession (Flags cp); ci_KeepAlive := KeepAlive cp;
  ci_WillTopic := WillTopic cp; ci_WillPayload := Packets.WillMessage cp; ci_WillQoS := WillQoS (Flags cp);
  ci_WillRetain := WillRetain (Flags cp); ci_Extensions := cp |}.

(** MQTTAdapter.Identify *)
Definition mqttIdentify (stream : bytes) : res bool :=
  b ← Peek 1 stream;
  match b with
  | [] => Ok false
  | b0 :: _ => Ok (Z.shiftr b0 4 =? PacketTypeConnect)
  end.

(** MQTTAdapter.Handshake: the codec is returned even when the packet does not
    decode or is not a CONNECT *)
Definition mqttHandshake (maxPacketSize : Z) (stream : bytes) : res ConnectInfo * option Codec * bytes :=
  match Decode (NewCodec maxPacketSize, stream) with
  | (Err e, (codec, rest)) => (Err e, Some codec, rest)
  | (Ok (PConnect cp), (codec, rest)) => (Ok (toConnectInfo cp), Some codec, rest)
  | (Ok _, (codec, rest)) => (Err ErrInvalidPacket, Some codec, rest)
  end.

Definition NewMQTTAdapter (maxPacketSize : Z) : Adapter :=
  {| a_Name := mqttProtocolName; Identify := mqttIdentify; Handshake := mqttHandshake maxPacketSize; a_Spec := SpecOf |}.

(** ** server.go, the handshake of an accepted connection *)

Section Handshake.
Context {SS MS RS : Type} `{SessionStore SS} `{MessageStore MS} `{RetainedStore RS}.
Context (accepts : list Event -> bytes -> Packet -> bool).
Implicit Types b : Broker SS MS RS.

(** connack.go, writeConnAck on a connection that is not registered *)
Definition writeConnAck (raw : Z) (codec : Codec) (reasonCode : Z) b : Broker SS MS RS :=
  let pkt := buildConnAck reasonCode false None in
  match fst (Encode (W := bytes) pkt (codec, [])) with
  | Ok _ => emit (Raw raw pkt) b
  | Err _ => b
  end.

(** rejectConnect *)
Definition rejectConnect (raw : Z) (codec : option Codec) (e : err) b : Broker SS MS RS :=
  match codec with
  | None => b
  | Some codec =>
      if negb (ConnAckHasReasonCode (spec codec)) then b
      else match decodeErrorReasonCode e with Some reason => writeConnAck raw codec reason b | None => b end
  end.

(** handleConn, for a server with a handler; [authReads] is what later reads of
    the connection return. *)
Definition handleConn (registry : Registry) (now raw : Z) (peer stream : bytes) (authReads : Codec -> bytes -> list (res Packet))
    b : res ConnectOutcome * Broker SS MS RS :=
  match Select stream [] registry with
  | Err e => (Err e, b)
  | Ok adapter =>
      match Handshake adapter stream with
      | (Err e, codec, _) => (Err e, rejectConnect raw codec e b)
      | (Ok info, codec, rest) =>
          let codec := default (NewCodec 0) codec in
          let '(r, b) := HandleConnection accepts now
            {| c_Raw := raw; c_PeerIP := peer; c_Codec := codec; c_Spec := default zeroSpec (a_Spec adapter (ci_Version info));
               c_Connect := Some (ci_Extensions info); c_AuthReads := authReads codec rest |} b in
          (Ok r, b)
      end
  end.
End Handshake.

(** isEarlyClose on the errors of the model *)
Definition isEarlyClose (e : option err) : bool := match e with Some ErrEOF => true | _ => false end.

(** ** Lemmas *)

(** The index and the sniffing order hold the same adapters, one per name. *)
Definition registry_ok (r : Registry) : Prop :=
  NoDup (a_Name <$> adapters r) /\ forall n a, byName r !! n = Some a <-> a ∈ adapters r /\ a_Name a = n.

Lemma replaceNamed_names a l : a_Name <$> replaceNamed a l = a_Name <$> l.
Proof.
  induction l as [|x l IH]; cbn [replaceNamed]; [done|]. destruct (bool_decide _) eqn:E; cbn; [|by rewrite IH].
  apply bool_decide_eq_true in E. by rewrite E.
Qed.

Lemma elem_of_replaceNamed a l y :
  NoDup (a_Name <$> l) -> a_Name a ∈ a_Name <$> l ->
  y ∈ replaceNamed a l <-> y = a \/ (y ∈ l /\ a_Name y <> a_Name a).
Proof.
  induction l as [|x l IH]; cbn [replaceNamed]; [intros _ Hn; by apply elem_of_nil in Hn|].
  rewrite fmap_cons, NoDup_cons, elem_of_cons. intros [Hx Hnd] Hn. destruct (bool_decide _) eqn:E.
  - apply bool_decide_eq_true in E. rewrite !elem_of_cons. split; [|naive_solver]. intros [-> | Hy]; [by left|].
    right. split; [by right|]. intros Ey. apply Hx. rewrite E, <- Ey. apply list_elem_of_fmap. eauto.
  - apply bool_decide_eq_false in E. destruct Hn as [?|Hn]; [congruence|]. rewrite !elem_of_cons, IH by done. naive_solver.
Qed.

Lemma Register_ok a r : registry_ok r -> registry_ok (Register a r).
Proof.
  intros [Hnd Hb]. unfold Register. destruct (byName r !! a_Name a) as [old|] eqn:E.
  - apply Hb in E as [Hold En]. assert (a_Name a ∈ a_Name <$> adapters r) as Hin by (rewrite <- En; apply list_elem_of_fmap; eauto).
    split; [by rewrite <- (replaceNamed_names a) in Hnd|]. intros n y. change (<[a_Name a := a]> (byName r) !! n = Some y <->
      y ∈ replaceNamed a (adapters r) /\ a_Name y = n). rewrite elem_of_replaceNamed by done.
    destruct (decide (n = a_Name a)) as [-> | Hne]; [rewrite lookup_insert_eq | rewrite lookup_insert_ne, Hb by done]; naive_solver.
  - assert (forall y, y ∈ adapters r -> a_Name y <> a_Name a) as Hfresh.
    { intros y Hy Ey. assert (byName r !! a_Name a = Some y) by (by apply Hb). congruence. }
    split.
    + change (NoDup (a_Name <$> adapters r ++ [a])). rewrite fmap_app, NoDup_app. split_and!; [done | | apply NoDup_singleton].
      intros n (y & -> & Hy)%list_elem_of_fmap Hn. apply list_elem_of_singleton in Hn. by eapply Hfresh.
    + intros n y. change (<[a_Name a := a]> (byName r) !! n = Some y <-> y ∈ adapters r ++ [a] /\ a_Name y = n).
      rewrite elem_of_app, list_elem_of_singleton.
      destruct (decide (n = a_Name a)) as [-> | Hne]; [rewrite lookup_insert_eq | rewrite lookup_insert_ne, Hb by done]; naive_solver.
Qed.

Lemma NewRegistry_ok l : registry_ok (NewRegistry l).
Proof.
  unfold NewRegistry. assert (registry_ok (mkRegistry [] ∅)) as H.
  { split; [constructor|]. intros n a. cbn. rewrite lookup_empty, elem_of_nil. naive_solver. }
  revert H. generalize (mkRegistry [] ∅). induction l as [|a l IH]; intros r Hr; [done|]. apply IH. by apply Register_ok.
Qed.

(** A packet that decodes starts with its type. *)
Lemma Decode_first_byte c s p r :
  codec_ok c -> bytes_ok s -> Decode (c, s) = (Ok p, r) ->
  exists b s', s = b :: s' /\ 0 <= b < 256 /\ Z.shiftr b 4 = packet_type p.
Proof.
  intros Hc Hs Hd. destruct r as [c' s']. apply decode_ok_inv in Hd as (fh & s1 & pre & Hh & _ & _ & _ & _ & _ & _ & Ht & _); [|done..].
  unfold decodeFixedHeader in Hh. bind_inv Hh. rewrite readByte_spec in E. destruct s as [|b s]; [done|]. injection E as -> ->.
  apply bytes_ok_cons in Hs as [Hb _]. bind_inv Hh. destruct a0 as [n hs]. injection Hh as <- <-. exists a, s0.
  unfold byte_ok in Hb. split_and!; [done | lia | lia |]. rewrite Ht. cbn [PacketType].
  change 15 with (Z.ones 4). rewrite Z.land_ones by lia. symmetry. apply Z.mod_small. rewrite Z.shiftr_div_pow2 by lia.
  split; [apply Z.div_pos; lia | apply Z.div_lt_upper_bound; lia].
Qed.

Section Claims.
Context {SS MS RS : Type} `{SessionStore SS} `{MessageStore MS} `{RetainedStore RS}.
Context (accepts : list Event -> bytes -> Packet -> bool).
Implicit Types b : Broker SS MS RS.

Lemma rejectConnect_effect raw cd e e' b b' :
  (@Err ConnectOutcome e, rejectConnect raw (Some cd) e b) = (Err e', b') ->
  b' = b \/ exists r, ConnAckHasReasonCode (spec cd) = true /\ decodeErrorReasonCode e' = Some r /\
    b' = emit (Raw raw (buildConnAck r false None)) b.
Proof.
  intros Heq. assert (e' = e) as -> by congruence. assert (b' = rejectConnect raw (Some cd) e b) as -> by congruence.
  unfold rejectConnect, writeConnAck. destruct (ConnAckHasReasonCode (spec cd)) eqn:Ec; cbn [negb]; [|by left].
  destruct (decodeErrorReasonCode e) as [r|]; [|by left]. destruct (fst _); [|by left]. right. by exists r.
Qed.

(** C10: the handshake of an accepted connection, from its bytes to the broker.
    When the peer sends what the codec writes for a CONNECT within the maximum
    packet size, identification and handshake hand the broker exactly that
    CONNECT, with the codec and the capabilities of the version it declares and
    with every byte behind it left to the read loop.  When the stream is empty or
    does not start with the type of a CONNECT, nothing is written.  Whenever the
    handshake fails, the broker's state is unchanged, and at most one packet is
    written to the connection: a CONNACK with the reason code of the decode error,
    only when the peer had declared a version whose CONNACK has one. *)
Theorem handshake_reaches_broker mps now raw peer authReads b :
  let server := NewRegistry [NewMQTTAdapter mps] in
  (forall c q c' bs rest,
     codec_ok c -> Encode (W := bytes) (PConnect q) (c, []) = (Ok tt, (c', bs)) -> packet_wf c' (PConnect q) = true ->
     bytes_ok (bs ++ rest) -> len bs <= 268435456 -> len bs <= maxPacketSize (NewCodec mps) ->
     exists h, let d := setVersion (ProtocolVersion q) (NewCodec mps) in
       handleConn accepts server now raw peer (bs ++ rest) authReads b =
       (let '(r, b') := HandleConnection accepts now
          {| c_Raw := raw; c_PeerIP := peer; c_Codec := d; c_Spec := default zeroSpec (SpecOf (ProtocolVersion q));
             c_Connect := Some (norm_connect h q); c_AuthReads := authReads d rest |} b in (Ok r, b'))) /\
  (forall stream, match stream with [] => True | b0 :: _ => Z.shiftr b0 4 <> PacketTypeConnect end ->
     exists e, handleConn accepts server now raw peer stream authReads b = (Err e, b)) /\
  (forall stream e b', handleConn accepts server now raw peer stream authReads b = (Err e, b') ->
     b' = b \/ exists cd r, ConnAckHasReasonCode (spec cd) = true /\ decodeErrorReasonCode e = Some r /\
       (exists rest, snd (Decode (NewCodec mps, stream)) = (cd, rest)) /\
       b' = emit (Raw raw (buildConnAck r false None)) b).
Proof.
  assert (codec_ok (NewCodec mps)) as Hok by reflexivity.
  assert (adapters (NewRegistry [NewMQTTAdapter mps]) = [NewMQTTAdapter mps]) as Had by reflexivity.
  cbn zeta. unfold handleConn, Select. rewrite Had. cbn [sniff Identify NewMQTTAdapter]. split_and!.
  - intros c q c' bs rest Hc He Hwf Hb Hl Hm.
    destruct (encode_decode c (NewCodec mps) (PConnect q) c' bs rest Hc Hok (or_intror eq_refl) He Hwf Hl Hm) as (h & _ & _ & _ & _ & Hd).
    destruct (Decode_first_byte _ _ _ _ Hok Hb Hd) as (b0 & s & Es & _ & Ht). exists h.
    unfold mqttIdentify, Peek. rewrite Es. cbn [length Nat.ltb Nat.leb take mbind res_bind]. rewrite Ht. cbn [packet_type norm_packet].
    cbn [Z.eqb Pos.eqb PacketTypeConnect Handshake NewMQTTAdapter]. unfold mqttHandshake. rewrite <- Es, Hd. done.
  - intros stream Hs. unfold mqttIdentify, Peek. destruct stream as [|b0 s]; [by exists ErrEOF|].
    cbn [length Nat.ltb Nat.leb take mbind res_bind]. rewrite (proj2 (Z.eqb_neq _ _) Hs). by exists ErrNoMatchingAdapter.
  - intros stream e b'. destruct (mqttIdentify stream) as [[]|e0]; [|by intros [= _ <-]; left|by intros [= _ <-]; left].
    cbn [Handshake NewMQTTAdapter]. unfold mqttHandshake. destruct (Decode (NewCodec mps, stream)) as [[p|e0] [cd rest]] eqn:Ed.
    + destruct p; [destruct (HandleConnection _ _ _ _); by intros [=]|..];
        (intros [-> | (r & Hc & Hr & ->)]%rejectConnect_effect; [by left | right; exists cd, r; eauto]).
    + intros [-> | (r & Hc & Hr & ->)]%rejectConnect_effect; [by left | right; exists cd, r; eauto].
Qed.
End Claims.

(** The CONNECT of a client, followed by a PINGREQ; and a PINGREQ alone. *)
Lemma handshake_reaches_broker_witness :
  (exists h bs, handleConn (fun _ _ _ => true) (NewRegistry [NewMQTTAdapter 1024]) 5 1 (str "10.0.0.1") (bs ++ [192; 0]) (fun _ _ => []) empty_broker =
     (let '(r, b') := HandleConnection (fun _ _ _ => true) 5
        {| c_Raw := 1; c_PeerIP := str "10.0.0.1"; c_Codec := setVersion 5 (NewCodec 1024); c_Spec := default zeroSpec (SpecOf 5);
           c_Connect := Some (norm_connect h (sample_connect (str "c") true)); c_AuthReads := [] |} empty_broker in (Ok r, b'))) /\
  exists e, handleConn (fun _ _ _ => true) (NewRegistry [NewMQTTAdapter 1024]) 5 1 (str "10.0.0.1") [192; 0] (fun _ _ => []) empty_broker
    = (Err e, empty_broker).
Proof.
  destruct (handshake_reaches_broker (fun _ _ _ => true) 1024 5 1 (str "10.0.0.1") (fun _ _ => []) empty_broker) as (Hok & Hno & _). split.
  - destruct (Encode (W := bytes) (PConnect (sample_connect (str "c") true)) (NewCodecForVersion 0 5, [])) as [r [c' bs]] eqn:E.
    assert (r = Ok tt /\ len bs = 16 /\ c' = NewCodecForVersion 0 5) as (-> & Hl & ->) by (vm_compute in E; injection E as <- <- <-; vm_compute; auto).
    assert (bytes_ok (bs ++ [192; 0])) as Hb.
    { vm_compute in E. injection E as <-. repeat (apply Forall_cons_2; [unfold byte_ok; lia|]). apply Forall_nil_2. }
    destruct (Hok (NewCodecForVersion 0 5) (sample_connect (str "c") true) (NewCodecForVersion 0 5) bs [192; 0]) as (h & Hh);
      [reflexivity | exact E | vm_compute; reflexivity | exact Hb | rewrite Hl; lia | rewrite Hl; vm_compute; discriminate |].
    exists h, bs. exact Hh.
  - apply Hno. vm_compute. discriminate.
Defined.
