(* ===== verification/Routing.v ===== *)
(** * Routing a message to the plain subscriptions

    The topic tree proposes clients, the session of a client decides.  On every
    reachable broker the two together send a published message once to each
    connected client with a matching filter, at the QoS of the best of them, and
    to nobody else. *)

From S2P Require Import Prelude Utf8 Wire Spec Topic Properties Packets TopicTree TopicTreeProofs TopicMatch RateLimit.
From S2P Require Import StoreTypes PublishProps MemoryStore Sessions SessionProofs QoSEngine Auth WillHandler Flapping Broker.
From S2P Require Import BrokerInv FlowControl Connect Lifecycle BrokerWf BrokerHistory.
Open Scope Z_scope.

Section Routing.
Context {SS MS RS : Type} `{FaithfulSessions SS} `{MessageStore MS} `{RetainedStore RS}.
Context (accepts : list Event -> bytes -> Packet -> bool) (auth : option Authorizer).
Implicit Types b : Broker SS MS RS.

(** The PUBLISH packets handed to the connection of [c], oldest first. *)
Definition inboxEvent (c : bytes) (e : Event) : option PublishPacket :=
  match e with Sent c' (PPublish p) => if decide (c' = c) then Some p else None | _ => None end.
Definition inbox (c : bytes) b : list PublishPacket := omap (inboxEvent c) (trace b).

(** Nothing [c] can see changed. *)
Definition unseen (c : bytes) b b' : Prop :=
  session b' c = session b c /\ inbox c b' = inbox c b /\ connections b' = connections b.

Lemma unseen_trans c b1 b2 b3 : unseen c b1 b2 -> unseen c b2 b3 -> unseen c b1 b3.
Proof. intros (?&?&?) (?&?&?). unfold unseen. split_and!; congruence. Qed.

Lemma unseen_write c c' pkt b : c' <> c -> unseen c b (writePacket accepts c' pkt b).
Proof.
  intros Hne. unfold writePacket. destruct (connections b !! c'); [|done]. split_and!; [done| |done].
  unfold inbox, emit, set_field. cbn [trace]. rewrite omap_app. destruct (accepts _ _ _); cbn; [|by rewrite app_nil_r].
  destruct pkt; rewrite ?decide_False by done; by rewrite app_nil_r.
Qed.

Lemma unseen_put c c' s b : c' <> c -> unseen c b (putSession c' s b).
Proof. intros Hne. split_and!; [by rewrite session_put, decide_False | done..]. Qed.

Lemma unseen_doDeliver now c c' pkt q e o ids r b : c' <> c -> unseen c b (doDeliver accepts now c' pkt q e o ids r b).
Proof.
  intros Hne. unfold doDeliver. destruct (session b c') as [s|]; [|done]. destruct (expired now e); [done|].
  destruct (_ && _); [by apply unseen_put|]. destruct (0 <? q).
  - destruct (NextPacketID s) as [id s1]. eapply unseen_trans; [|by apply unseen_write].
    match goal with |- unseen c b (putSession c' ?s2 b <| qos := _ |>) => exact (unseen_put c c' s2 b Hne) end.
  - eapply unseen_trans; [by apply unseen_put | by apply unseen_write].
Qed.

Lemma unseen_offline now c c' pkt e b : unseen c b (queueOfflineMessage now c' pkt e b).
Proof.
  unfold queueOfflineMessage, saveOffline. cbn [nextMessageID]. repeat case_match; done.
Qed.

Lemma unseen_deliver now c c' src pkt b : wf auth b -> c' <> c -> unseen c b (deliverToClient accepts now c' src pkt b).
Proof.
  intros Hw Hne. unfold deliverToClient. destruct (session b c') as [s|] eqn:Hs; [|by apply unseen_offline].
  destruct (_ && _); [done|]. destruct (MatchesSubscription _ s) as [[[[] q] o] ids]; [|done]. unfold deliverWithQoS.
  rewrite (gd_client _ _ _ (proj2 (wf_sessions _ _ Hw) c' s Hs)). by apply unseen_doDeliver.
Qed.

Lemma wf_deliver now c src pkt b : wf auth b -> wf auth (deliverToClient accepts now c src pkt b).
Proof. apply (inv_deliverToClient accepts (wf auth)). intros b1 b2 Hst. by apply wf_bstep, bs_delivery. Qed.

(** Over clients without duplicates, [c] is served at most once. *)
Lemma routed_once now c src pkt (l : list Subscriber) b :
  NoDup (fst <$> l) -> wf auth b ->
  let b' := foldl (fun b sub => deliverToClient accepts now (fst sub) src pkt b) b l in
  (c ∉ fst <$> l -> unseen c b b') /\
  (c ∈ fst <$> l -> exists b1, unseen c b b1 /\ unseen c (deliverToClient accepts now c src pkt b1) b').
Proof.
  revert b. induction l as [|[c' q] l IH]; intros b Hnd Hw; cbn [foldl fmap list_fmap fst].
  - split; [done|]. by intros ?%elem_of_nil.
  - cbn [fmap list_fmap fst] in Hnd. apply NoDup_cons in Hnd as [Hn Hnd].
    destruct (IH _ Hnd (wf_deliver now c' src pkt b Hw)) as [IH1 IH2]. rewrite elem_of_cons. split.
    + intros Hc. eapply unseen_trans; [apply unseen_deliver; [done|naive_solver] | apply IH1; naive_solver].
    + destruct (decide (c' = c)) as [->|Hne].
      * intros _. exists b. split; [done|]. by apply IH1.
      * intros [->|Hc]; [done|]. destruct (IH2 Hc) as (b1 & Hu & Hd). exists b1. split; [|done].
        eapply unseen_trans; [by apply unseen_deliver | done].
Qed.

(** ** The session's decision *)

Definition subscribedTo (s : Session) (topic f : bytes) (q : Z) : Prop :=
  Subscriptions s !! f = Some q /\ patternMatches false topic f = true.

Lemma session_decides s topic m q o ids :
  MatchesSubscription topic s = (m, q, o, ids) ->
  if m then (exists f, subscribedTo s topic f q) /\ forall f' q', subscribedTo s topic f' q' -> q' <= q
  else forall f' q', ~ subscribedTo s topic f' q'.
Proof.
  unfold MatchesSubscription, matchSubscriptions, matchEntries. intros [= <- <- _ _].
  destruct (matchEntries_acc s topic false (map_to_list (Subscriptions s))) as [_ Hn Hb].
  set (acc := foldl _ _ _) in *. destruct (ma_matched acc).
  - destruct (Hb eq_refl) as [(Hin & Hm & Hall) _]. split.
    + exists (ma_bestPattern acc). split; [by apply elem_of_map_to_list | done].
    + intros f' q' [Hf Hm']. destruct (Hall f' q'); [by apply elem_of_map_to_list | done | lia | lia].
  - destruct (Hn eq_refl) as [_ Hf]. intros f' q' [Hs Hm]. rewrite Forall_forall in Hf.
    by apply (Hf (f', q')); [apply elem_of_map_to_list|].
Qed.

Lemma sent_inbox c cs pkt b :
  (forall tr p, accepts tr c p = true) -> connections b !! c = Some cs ->
  inbox c (writePacket accepts c (PPublish pkt) b) = inbox c b ++ [pkt].
Proof.
  intros Ha Hc. unfold writePacket. rewrite Hc, Ha. unfold inbox, emit, set_field. cbn [trace]. rewrite omap_app. cbn.
  by rewrite decide_True.
Qed.

Lemma fresh_expiry now pkt : expired now (messageExpiresAt now pkt) = false.
Proof.
  unfold messageExpiresAt. destruct (pub_Properties pkt ≫= MessageExpiryInterval) as [i|]; [|done].
  destruct (Z.ltb_spec 0 i); [|done]. cbn. apply Z.ltb_ge. unfold second. lia.
Qed.

(** What delivering at QoS [q] to a connected client does. *)
Lemma doDeliver_outcome now c cs pkt q o ids s b :
  (forall tr p, accepts tr c p = true) -> connections b !! c = Some cs -> session b c = Some s ->
  let b' := doDeliver accepts now c pkt q (messageExpiresAt now pkt) o ids false b in
  if (0 <? q) && negb (CanSendOutbound s)
  then inbox c b' = inbox c b /\ session b' c = Some (snd (BufferOutbound pkt q o ids (messageExpiresAt now pkt) s))
  else exists p, inbox c b' = inbox c b ++ [p] /\ pub_Topic p = pub_Topic pkt /\ Payload p = Payload pkt /\
         pub_QoS p = q /\ pub_Dup p = false.
Proof.
  intros Ha Hc Hs b'. subst b'. unfold doDeliver. rewrite Hs, fresh_expiry. destruct (0 <? q); cbn [andb].
  - destruct (CanSendOutbound s); cbn [negb].
    + destruct (NextPacketID s) as [id s1]. eexists. by rewrite (sent_inbox c cs).
    + by rewrite session_put, decide_True.
  - eexists. by rewrite (sent_inbox c cs).
Qed.

(** The tree proposes every client with a plain filter that matches. *)
Lemma tree_proposes c s f q topic b :
  wf auth b -> session b c = Some s -> Subscriptions s !! f = Some q -> IsSharedSubscription f = false ->
  matchSysProtected f topic = true -> c ∈ fst <$> Match topic (topics b).
Proof.
  intros Hw Hs Hf Hsh Hm. destruct (wf_mirror _ _ Hw) as (m & Hr & He). specialize (He c s f q Hs Hf).
  unfold entry in He. rewrite Hsh in He.
  destruct (absorbs_result _ _ (absorbs_Match _ _ topic Hr)) as (_ & _ & Hin).
  destruct (Hin c q) as (q' & Hq' & _); [eauto using met_of_match|]. apply list_elem_of_fmap. by exists (c, q').
Qed.

Lemma tree_unique topic b : wf auth b -> NoDup (fst <$> Match topic (topics b)).
Proof.
  intros Hw. destruct (wf_mirror _ _ Hw) as (m & Hr & _). apply (absorbs_result _ _ (absorbs_Match _ _ topic Hr)).
Qed.
End Routing.


