(* ===== verification/Retained.v ===== *)
(** * The bookkeeping of retained messages

    The broker counts the retained messages and keeps their deadlines beside the
    store.  Over any history of handlers, sweeps and restarts both are what the
    messages in the store say. *)

From S2P Require Import Prelude Utf8 Wire Spec Topic Properties Packets TopicTree RateLimit StoreTypes PublishProps.
From S2P Require Import MemoryStore Sessions SessionProofs QoSEngine Auth WillHandler Flapping Broker BrokerInv.
From S2P Require Import FlowControl Connect Lifecycle BrokerHistory.
Open Scope Z_scope.

Section Retained.
Context {SS MS RS : Type} `{SessionStore SS} `{MessageStore MS} `{FaithfulRetained RS}.
Context (accepts : list Event -> bytes -> Packet -> bool).
Implicit Types b : Broker SS MS RS.

(** The deadline of a stored message; [None] when it never expires. *)
Definition deadlineOf (ttl : Z) (m : Store.RetainedMessage) : option Z :=
  match Store.rm_Timestamp m with
  | Some at_ => retainedDeadline ttl at_ (Store.rm_ExpiresAt m)
  | None => None
  end.

(** Messages are stored under their own topic and with the time they were stored. *)
Definition stamped (m : gmap bytes Store.RetainedMessage) : Prop :=
  forall t msg, m !! t = Some msg -> Store.rm_Topic msg = t /\ is_Some (Store.rm_Timestamp msg).

Record counted (rs : RS) b : Prop := {
  ct_ok : retained_ok rs;
  ct_stamped : stamped (retained rs);
  ct_count : retainedCount b = Z.of_nat (size (retained rs));
  ct_deadlines t : retainedExpirations b !! t = retained rs !! t ≫= deadlineOf (retainedExpiry (opts b));
  ct_limit : 0 < maxRetainedTopics (opts b) -> Z.of_nat (size (retained rs)) <= maxRetainedTopics (opts b);
}.

Definition retained_inv (o : brokerOptions) b : Prop :=
  opts b = o /\ forall rs, b_retainedStore b = Some rs -> counted rs b.

(** A failed call of the store changes nothing. *)
Lemma counted_failed rs rs' b :
  retained_ok rs' -> retained rs' = retained rs -> counted rs b -> counted rs' (b <| b_retainedStore := Some rs' |>).
Proof. intros Hok He [C1 C2 C3 C4 C5]. split; rewrite ?He; done. Qed.

Lemma stamped_delete t m : stamped m -> stamped (delete t m).
Proof. intros Hs t' msg [_ ?]%lookup_delete_Some. eauto. Qed.

(** Removing the message of [t] *)
Lemma counted_delete t rs rs' n b :
  retained_ok rs' -> retained rs' = delete t (retained rs) -> counted rs b ->
  n = retainedCount b - (match retained rs !! t with Some _ => 1 | None => 0 end) ->
  counted rs' (b <| b_retainedStore := Some rs' |> <| retainedCount := n |>
                 <| retainedExpirations := delete t (retainedExpirations b) |>).
Proof.
  intros Hok He [C1 C2 C3 C4 C5] ->.
  split; rewrite ?He; unfold set_field; cbn [retainedCount retainedExpirations opts]; [done| | | |].
  - by apply stamped_delete.
  - rewrite C3, size_delete_count. lia.
  - intros t'. destruct (decide (t' = t)) as [->|Hne]; [by rewrite !lookup_delete_eq|]. by rewrite !lookup_delete_ne.
  - intros Hm. specialize (C5 Hm). rewrite size_delete_count. destruct (retained rs !! t); lia.
Qed.

(** Storing [msg], new or in place of the message of its topic *)
Lemma counted_save msg at_ rs rs' n b :
  retained_ok rs' -> retained rs' = <[Store.rm_Topic msg := msg]> (retained rs) -> counted rs b ->
  Store.rm_Timestamp msg = Some at_ ->
  n = retainedCount b + (match retained rs !! Store.rm_Topic msg with Some _ => 0 | None => 1 end) ->
  (retained rs !! Store.rm_Topic msg = None -> 0 < maxRetainedTopics (opts b) -> retainedCount b < maxRetainedTopics (opts b)) ->
  counted rs' (b <| b_retainedStore := Some rs' |> <| retainedCount := n |>
    <| retainedExpirations :=
         match retainedDeadline (retainedExpiry (opts b)) at_ (Store.rm_ExpiresAt msg) with
         | None => delete (Store.rm_Topic msg) (retainedExpirations b)
         | Some d => <[Store.rm_Topic msg := d]> (retainedExpirations b)
         end |>).
Proof.
  intros Hok He [C1 C2 C3 C4 C5] Hat -> Hroom.
  split; rewrite ?He; unfold set_field; cbn [retainedCount retainedExpirations opts]; [done| | | |].
  - intros t m [[<- <-]|[_ Hm]]%lookup_insert_Some; [rewrite Hat; eauto | by apply C2].
  - rewrite C3, size_insert_count. lia.
  - intros t. destruct (decide (t = Store.rm_Topic msg)) as [->|Hne].
    + rewrite lookup_insert_eq. cbn [mbind option_bind]. unfold deadlineOf. rewrite Hat.
      destruct (retainedDeadline _ _ _); [by rewrite lookup_insert_eq | by rewrite lookup_delete_eq].
    + rewrite lookup_insert_ne, <- C4 by done.
      destruct (retainedDeadline _ _ _); [by rewrite lookup_insert_ne | by rewrite lookup_delete_ne].
  - intros Hm. rewrite size_insert_count. specialize (C5 Hm). destruct (retained rs !! Store.rm_Topic msg) eqn:E; [lia|].
    specialize (Hroom eq_refl Hm). lia.
Qed.

(** The limit leaves room for a new topic. *)
Lemma counted_storeRetained now pkt rs b (existed : bool) :
  b_retainedStore b = Some rs -> counted rs b ->
  (if existed then is_Some (retained rs !! pub_Topic pkt) else retained rs !! pub_Topic pkt = None) ->
  forall rs', b_retainedStore (storeRetained now pkt existed rs b) = Some rs' -> counted rs' (storeRetained now pkt existed rs b).
Proof.
  intros Hrs Hb He. pose proof (ct_ok _ _ Hb) as Hok. unfold storeRetained. destruct (_ && _) eqn:Elim.
  { intros rs'. rewrite Hrs. by intros <-%(inj Some). }
  destruct (Z.eqb_spec (len (Payload pkt)) 0) as [Hp|Hp].
  - destruct (DeleteRetained (pub_Topic pkt) rs) as [[[]|e] rs1] eqn:Ed; intros rs' Hrs'; apply (inj Some) in Hrs' as <-.
    + destruct (retained_delete _ _ _ Hok Ed) as [Hok' Hr]. apply (counted_delete _ rs); [done..|].
      destruct existed; [destruct He as [m ->] | rewrite He]; lia.
    + destruct (retained_delete_failed _ _ _ _ Hok Ed) as [Hok' Hr]. by apply (counted_failed rs).
  - set (msg := {| Store.rm_Topic := _ |}). destruct (SaveRetained now msg rs) as [[[]|e] rs1] eqn:Es; intros rs' Hrs';
      apply (inj Some) in Hrs' as <-.
    + destruct (retained_save _ _ _ _ Hok (every_retainable _) Es) as [Hok' Hr].
      assert (retained rs1 = <[Store.rm_Topic msg := msg]> (retained rs)) as Hr'.
      { rewrite Hr. unfold retain. rewrite bool_decide_eq_false_2; [done|]. cbn. intros E. by rewrite E in Hp. }
      apply (counted_save msg now rs); [done..| |].
      * change (Store.rm_Topic msg) with (pub_Topic pkt). destruct existed; [destruct He as [m ->] | rewrite He]; lia.
      * intros Hn Hm. change (Store.rm_Topic msg) with (pub_Topic pkt) in Hn. destruct existed; [rewrite Hn in He; by destruct He|].
        pose proof (len_nonneg (Payload pkt)). repeat (apply andb_false_iff in Elim as [Elim|Elim]); bools; try lia; done.
    + destruct (retained_save_failed _ _ _ _ _ Hok Es) as [Hok' Hr]. by apply (counted_failed rs).
Qed.

Lemma inv_handleRetained o now pkt b : retained_inv o b -> retained_inv o (handleRetainedMessage now pkt b).
Proof.
  intros [Ho Hb]. split; [by rewrite retained_frame|]. unfold handleRetainedMessage.
  destruct (b_retainedStore b) as [rs|] eqn:Hrs; [|intros rs'; by rewrite Hrs]. specialize (Hb rs eq_refl).
  destruct (GetRetained (pub_Topic pkt) rs) as [m|e] eqn:Eg.
  - apply (counted_storeRetained now pkt rs b true Hrs Hb). rewrite (retained_get _ _ _ (ct_ok _ _ Hb) Eg). by eexists.
  - case_bool_decide as He; [|intros rs'; rewrite Hrs; by intros <-%(inj Some)]. subst e.
    apply (counted_storeRetained now pkt rs b false Hrs Hb), (retained_absent _ _ (ct_ok _ _ Hb) Eg).
Qed.

Lemma retained_same o b b' :
  opts b' = opts b -> b_retainedStore b' = b_retainedStore b -> retainedCount b' = retainedCount b ->
  retainedExpirations b' = retainedExpirations b -> retained_inv o b -> retained_inv o b'.
Proof.
  intros E1 E2 E3 E4 [Ho Hb]. split; [congruence|]. rewrite E2. intros rs Hrs. destruct (Hb rs Hrs) as [C1 C2 C3 C4 C5].
  split; rewrite ?E1, ?E3, ?E4; done.
Qed.

Lemma retained_bstep o b b' : bstep b b' -> retained_inv o b -> retained_inv o b'.
Proof.
  intros [b'' Hd|c s s' Hs Hst|w|now pkt|c f s code r b'' Hs Hsub|c f s Hs Hg]; try by apply retained_same.
  - destruct Hd; by apply retained_same.
  - apply inv_handleRetained.
  - apply subscribeOne_frame in Hsub as [->|[(tree & -> & _)|(tree & -> & _)]]; [done|by apply retained_same..].
Qed.

(** ** Sweeps and restarts *)

Lemma retained_removeExpired o now t b : retained_inv o b -> retained_inv o (removeExpired now b t).
Proof.
  intros [Ho Hb]. unfold removeExpired. destruct (b_retainedStore b) as [rs|] eqn:Hrs; [|split; [done|by rewrite Hrs]].
  destruct (retainedExpirations b !! t) as [cur|] eqn:Et; [|split; [done|by rewrite Hrs]].
  destruct (cur <? now); [|split; [done|by rewrite Hrs]]. specialize (Hb rs eq_refl).
  destruct (DeleteRetained t rs) as [[[]|e] rs1] eqn:Ed; (split; [done|]); intros rs' Hrs'; apply (inj Some) in Hrs' as <-.
  - destruct (retained_delete _ _ _ (ct_ok _ _ Hb) Ed) as [Hok' Hr].
    refine (counted_delete t rs rs1 (retainedCount b - 1) b Hok' Hr Hb _). rewrite (ct_deadlines _ _ Hb) in Et. destruct (retained rs !! t); [lia|done].
  - destruct (retained_delete_failed _ _ _ _ (ct_ok _ _ Hb) Ed) as [Hok' Hr]. by apply (counted_failed rs).
Qed.

Lemma retained_cleanup o now b : retained_inv o b -> retained_inv o (cleanupExpiredRetained now b).
Proof.
  intros Hb. unfold cleanupExpiredRetained. destruct (b_retainedStore b); [|done]. apply (inv_fold (retained_inv o)); [|done].
  intros. by apply retained_removeExpired.
Qed.

Definition byTopic (l : list Store.RetainedMessage) : gmap bytes Store.RetainedMessage :=
  list_to_map ((fun m => (Store.rm_Topic m, m)) <$> l).

(** What counting a list of messages gives. *)
Lemma rebuild_fold now b l :
  NoDup (Store.rm_Topic <$> l) -> Forall (fun m => is_Some (Store.rm_Timestamp m)) l ->
  let b' := foldl (rebuildOne now) (b <| retainedExpirations := ∅ |> <| retainedCount := 0 |>) l in
  opts b' = opts b /\ b_retainedStore b' = b_retainedStore b /\ retainedCount b' = len l /\
  forall t, retainedExpirations b' !! t =
    byTopic l !! t ≫= deadlineOf (retainedExpiry (opts b)).
Proof.
  induction l as [|m l IH] using rev_ind; intros Hnd Hts; [by split_and!|].
  rewrite fmap_app in Hnd. apply NoDup_app in Hnd as (Hnd & Hnew & _). apply Forall_app in Hts as [Hts [[at_ Hat] _]%Forall_cons].
  destruct (IH Hnd Hts) as (E1 & E2 & E3 & E4). rewrite foldl_app. cbn [foldl].
  set (b1 := foldl (rebuildOne now) _ l) in *. clearbody b1. unfold rebuildOne. rewrite E1, Hat. cbn [default].
  assert (forall t, retainedExpirations (match retainedDeadline (retainedExpiry (opts b)) at_ (Store.rm_ExpiresAt m) with
    | Some d => b1 <| retainedExpirations := <[Store.rm_Topic m := d]> (retainedExpirations b1) |> | None => b1 end) !! t =
    byTopic (l ++ [m]) !! t ≫= deadlineOf (retainedExpiry (opts b))) as Hexp.
  { intros t. unfold byTopic in *. rewrite fmap_app, list_to_map_app, lookup_union. cbn [fmap list_fmap].
    change (list_to_map [(Store.rm_Topic m, m)]) with ({[ Store.rm_Topic m := m ]} : gmap bytes Store.RetainedMessage).
    assert (byTopic l !! Store.rm_Topic m = None) as Hfr.
    { apply not_elem_of_list_to_map_1. intros Hin. apply (Hnew (Store.rm_Topic m)); [|by left].
      by rewrite <- list_fmap_compose in Hin. }
    unfold byTopic in Hfr. destruct (decide (t = Store.rm_Topic m)) as [->|Hne].
    - rewrite Hfr, lookup_singleton_eq. cbn. unfold deadlineOf. rewrite Hat. specialize (E4 (Store.rm_Topic m)). rewrite Hfr in E4.
      destruct (retainedDeadline _ _ _); [unfold set_field; cbn; by rewrite lookup_insert_eq | done].
    - rewrite lookup_singleton_ne, (right_id_L None (∪)) by congruence. rewrite <- E4.
      destruct (retainedDeadline _ _ _); [unfold set_field; cbn; by rewrite lookup_insert_ne | done]. }
  split_and!; [..|exact Hexp].
  - by destruct (retainedDeadline _ _ _).
  - by destruct (retainedDeadline _ _ _).
  - rewrite len_app. destruct (retainedDeadline _ _ _); unfold set_field; cbn [retainedCount]; rewrite E3; reflexivity.
Qed.

Lemma hash_matches t : MatchTopic (str "#") t = true.
Proof. by destruct t. Qed.

(** Counting a store gives its bookkeeping, whatever was counted before. *)
Lemma rebuild_counted now rs l b :
  b_retainedStore b = Some rs -> retained_ok rs -> stamped (retained rs) -> MatchRetained (str "#") rs = Ok l ->
  (0 < maxRetainedTopics (opts b) -> Z.of_nat (size (retained rs)) <= maxRetainedTopics (opts b)) ->
  retained_inv (opts b) (rebuildRetainedExpirations now b).
Proof.
  intros Hrs Hok Hst Hl Hlim. destruct (retained_match _ _ _ Hok Hl) as [Hnd Hin].
  assert (byTopic l = retained rs) as Hmap.
  { apply map_eq. intros t. apply option_eq. intros m. unfold byTopic. rewrite <- elem_of_list_to_map.
    2:{ by rewrite <- list_fmap_compose. }
    rewrite list_elem_of_fmap. split.
    - intros (m' & [= -> ->] & Hm). by apply Hin in Hm as [? _].
    - intros Hm. destruct (Hst t m Hm) as [Ht _]. exists m. subst t. split; [done|]. apply Hin. split; [done|apply hash_matches]. }
  assert (len l = Z.of_nat (size (retained rs))) as Hlen.
  { rewrite <- Hmap. unfold byTopic. rewrite <- length_map_to_list, map_to_list_to_map by by rewrite <- list_fmap_compose.
    by rewrite length_fmap. }
  assert (Forall (fun m => is_Some (Store.rm_Timestamp m)) l) as Hts.
  { apply Forall_forall. intros m [Hm _]%Hin. by apply (Hst _ m Hm). }
  unfold rebuildRetainedExpirations. rewrite Hrs, Hl. destruct (rebuild_fold now b l Hnd Hts) as (E1 & E2 & E3 & E4).
  split; [done|]. intros rs'. rewrite E2, Hrs. intros <-%(inj Some). split; [done|done| | |].
  - congruence.
  - intros t. by rewrite E4, Hmap, E1.
  - by rewrite E1.
Qed.

Lemma retained_rebuild o now b : retained_inv o b -> retained_inv o (rebuildRetainedExpirations now b).
Proof.
  intros [Ho Hb]. destruct (b_retainedStore b) as [rs|] eqn:Hrs.
  2:{ unfold rebuildRetainedExpirations. rewrite Hrs. split; [done|by rewrite Hrs]. }
  destruct (Hb rs eq_refl) as [C1 C2 C3 C4 C5]. destruct (MatchRetained (str "#") rs) as [l|e] eqn:Hl.
  - subst o. by apply (rebuild_counted now rs l).
  - unfold rebuildRetainedExpirations. rewrite Hrs, Hl. split; [done|by rewrite Hrs].
Qed.

(** ** Histories *)

Inductive RetainedEvent :=
  | RHandler (op : HandlerOp)
  | RSweep
  | RRestart.

Definition runRetained b (e : Z * RetainedEvent) : Broker SS MS RS :=
  let '(now, ev) := e in
  match ev with
  | RHandler op => runHandler accepts b (now, op)
  | RSweep => cleanupExpiredRetained now b
  | RRestart => rebuildRetainedExpirations now b
  end.

Lemma retained_run o evs b : retained_inv o b -> retained_inv o (foldl runRetained b evs).
Proof.
  apply (inv_fold (retained_inv o)). intros b' [now [op| |]] Hb'; cbn [runRetained].
  - by apply (inv_runHandlers accepts (retained_inv o) [(now, op)]); [apply retained_bstep|].
  - by apply retained_cleanup.
  - by apply retained_rebuild.
Qed.
End Retained.


(** A retained will is stored and counted, and a sweep leaves it alone. *)
Definition sample_history : list (Z * RetainedEvent) :=
  [(2, RHandler (HWill {| will_ref := 0; will_ClientID := []; will_Username := []; will_Topic := str "a/b";
      will_Payload := [1]; will_QoS := 0; will_Retain := true; will_Properties := None; will_Delay := 0;
      will_Conn := None |})); (3, RSweep)].

Definition sample_retaining : Broker sessionStore messageStore retainedStore :=
  foldl (runRetained (fun _ _ _ => true)) (rebuildRetainedExpirations 1 empty_broker) sample_history.

