(* ===== verification/ConnectProps.v ===== *)
(** * Properties of connecting

    The connection limit over interleaved handshakes, the ownership of sessions,
    and four histories in which a reconnect or a take-over does not do what the
    comments of broker/conn_lifecycle.go promise. *)

From S2P Require Import Prelude Utf8 Wire Spec Topic Properties Packets TopicTree TopicTreeProofs RateLimit StoreTypes.
From S2P Require Import PublishProps MemoryStore Sessions SessionProofs QoSEngine Auth WillHandler Flapping Broker.
From S2P Require Import BrokerInv FlowControl Connect Lifecycle BrokerWf BrokerHistory Routing.
Open Scope Z_scope.

Section Slots.
Context {SS MS RS : Type} `{SessionStore SS} `{MessageStore MS} `{RetainedStore RS}.
Implicit Types b : Broker SS MS RS.

(** ** The connection limit

    HandleConnection runs on a goroutine per connection.  A handshake reserves a
    slot, and later either gives it back or registers the connection; [h] counts
    the handshakes in between.  The critical sections of all of them interleave
    freely. *)

Inductive slot_step : nat * Broker SS MS RS -> nat * Broker SS MS RS -> Prop :=
  | sl_reserve h b b' : reserveConnectionSlot b = (true, b') -> slot_step (h, b) (S h, b')
  | sl_refused h b b' : reserveConnectionSlot b = (false, b') -> slot_step (h, b) (h, b')
  | sl_release h b : slot_step (S h, b) (h, releaseConnectionSlot b)
  | sl_register h c cs b : slot_step (S h, b) (h, register c cs b)
  | sl_disconnect h now c conn b : slot_step (h, b) (h, disconnect now c conn b).

Definition within_limit (st : nat * Broker SS MS RS) : Prop :=
  0 < maxConnections (opts (snd st)) /\ pendingConns (snd st) = Z.of_nat (fst st) /\
  Z.of_nat (size (connections (snd st))) + pendingConns (snd st) <= maxConnections (opts (snd st)).

(** A disconnect may remove its connection, nothing else of the limit. *)
Lemma disconnect_slots now c conn b :
  opts (disconnect now c conn b) = opts b /\ pendingConns (disconnect now c conn b) = pendingConns b /\
  (size (connections (disconnect now c conn b)) <= size (connections b))%nat.
Proof.
  unfold disconnect. destruct (negb _); [done|]. set (b1 := storeOnDisconnect now c b).
  assert (opts b1 = opts b /\ pendingConns b1 = pendingConns b /\ connections b1 = connections b) as (E1 & E2 & E3).
  { subst b1. unfold storeOnDisconnect, clearOffline. repeat case_match; done. }
  clearbody b1. set (s := ResetOutboundUnacked <$> session b1 c). set (b2 := match s with Some _ => _ | None => b1 end).
  assert (opts b2 = opts b /\ pendingConns b2 = pendingConns b /\ connections b2 = connections b) as (F1 & F2 & F3).
  { subst b2. destruct s; [|done]. by destruct (0 <? ExpiryInterval _). }
  clearbody b2. set (I := fun b' : Broker SS MS RS => opts b' = opts b /\ pendingConns b' = pendingConns b /\
    (size (connections b') <= size (connections b))%nat).
  set (b3 := b2 <| b_sessions := _ |> <| qos := _ |> <| connections := _ |>).
  assert (I b3) as H3.
  { split_and!; [done..|]. change (connections b3) with (delete c (connections b2)). rewrite F3.
    rewrite map_size_delete. destruct (connections b !! c); unfold id; lia. }
  destruct s as [s|]; [destruct (0 <? _)|]; [|done..].
  refine (inv_persistBuffered I _ now c s b3 H3). intros b4 b5 Hst. by destruct Hst.
Qed.

Lemma within_limit_step st st' : slot_step st st' -> within_limit st -> within_limit st'.
Proof.
  intros [h b b' Hr|h b b' Hr|h b|h c cs b|h now c conn b] (Hm & Hp & Hl); cbn [fst snd] in *.
  - revert Hr. unfold reserveConnectionSlot. destruct (Z.leb_spec (maxConnections (opts b)) 0); [lia|].
    destruct (Z.leb_spec (maxConnections (opts b)) (Z.of_nat (size (connections b)) + pendingConns b)); intros [= <-].
    unfold within_limit, set_field. cbn [fst snd opts connections pendingConns]. lia.
  - revert Hr. unfold reserveConnectionSlot. destruct (Z.leb_spec (maxConnections (opts b)) 0); [lia|].
    destruct (Z.leb_spec (maxConnections (opts b)) (Z.of_nat (size (connections b)) + pendingConns b)); intros [= <-]. done.
  - unfold releaseConnectionSlot. destruct (Z.leb_spec (maxConnections (opts b)) 0); [lia|].
    destruct (Z.ltb_spec 0 (pendingConns b)); [|lia]. unfold within_limit, set_field.
    cbn [fst snd opts connections pendingConns]. lia.
  - unfold register, within_limit, set_field. cbn [fst snd opts connections pendingConns].
    destruct (Z.ltb_spec 0 (pendingConns b)); [|lia]. rewrite size_insert_count. destruct (connections b !! c); lia.
  - destruct (disconnect_slots now c conn b) as (E1 & E2 & E3). unfold within_limit. cbn [fst snd]. rewrite E1, E2. lia.
Qed.

Lemma within_limit_steps st st' : rtc slot_step st st' -> within_limit st -> within_limit st'.
Proof. induction 1; eauto using within_limit_step. Qed.
End Slots.

(** C20: Connection limit.  However the handshakes and the teardowns of any number
    of connections interleave, the registered connections together with the
    handshakes under way never exceed maxConnections; the reservations are exactly
    the handshakes under way, so none is lost or counted twice; and a slot is
    refused only when the limit is reached. *)
Theorem connection_limit {SS MS RS} `{SessionStore SS} `{MessageStore MS} `{RetainedStore RS} (b0 b : Broker SS MS RS) h :
  0 < maxConnections (opts b0) -> connections b0 = ∅ -> pendingConns b0 = 0 -> rtc slot_step (0%nat, b0) (h, b) ->
  pendingConns b = Z.of_nat h /\ Z.of_nat (size (connections b)) + Z.of_nat h <= maxConnections (opts b) /\
  (fst (reserveConnectionSlot b) = false <-> Z.of_nat (size (connections b)) + Z.of_nat h = maxConnections (opts b)).
Proof.
  intros Hm Hc Hp Hr. destruct (within_limit_steps _ _ Hr) as (Hm' & Hp' & Hl).
  { unfold within_limit. cbn [fst snd]. rewrite Hc, Hp, map_size_empty. lia. }
  cbn [fst snd] in *. rewrite Hp' in Hl. split_and!; [done|done|]. unfold reserveConnectionSlot.
  destruct (Z.leb_spec (maxConnections (opts b)) 0); [lia|]. rewrite Hp'.
  destruct (Z.leb_spec (maxConnections (opts b)) (Z.of_nat (size (connections b)) + Z.of_nat h)); cbn [fst]; (split; [|done || lia]).
  - lia.
  - done.
Qed.

Definition limited_broker : Broker sessionStore messageStore retainedStore :=
  empty_broker <| opts := {| authenticator := None; enhancedAuth := []; authorizer := None; maxTopicFiltersPerSub := 0;
     maxRetainedTopics := 0; maxOfflineQueue := 0; retainedExpiry := 0; opt_maxInflight := 100; maxConnections := 1;
     maxConnRate := None; maxPublishRate := 10; opt_maxPacketSize := 262144; sessionExpiry := 3600 * second;
     opt_keepAlive := 0; maxClientIDLength := 128; maxWillDelay := 3600 * second |} |>.

Definition sample_state : clientState :=
  {| cs_conn := 1; cs_codec := NewCodecForVersion 0 Version50; cs_enhancedAuth := None |}.

Lemma connection_limit_witness :
  fst (reserveConnectionSlot (register (str "c") sample_state (snd (reserveConnectionSlot limited_broker)))) = false.
Proof.
  apply (connection_limit limited_broker _ 0); [vm_compute; reflexivity | reflexivity | reflexivity | |vm_compute; reflexivity].
  eapply rtc_l; [apply sl_reserve; vm_compute; reflexivity|]. apply rtc_once. apply (sl_register 0).
Defined.

(** ** Ownership *)

Section Ownership.
Context {SS MS RS : Type} `{SessionStoreLaws SS} `{MessageStore MS} `{RetainedStore RS}.
Context (accepts : list Event -> bytes -> Packet -> bool).
Implicit Types b : Broker SS MS RS.

(** The session of the client, or the one stored for it, is another user's. *)
Definition foreign (pkt : ConnectPacket) b : Prop :=
  (exists s, session b (ClientID pkt) = Some s /\ ses_Username s <> Username pkt) \/
  (exists ss d, b_sessionStore b = Some ss /\ FetchSession (ClientID pkt) ss = Ok d /\ Store.sd_Username d <> Username pkt).

Lemma foreign_not_owned pkt b b' : calm b b' -> foreign pkt b -> ~ owned pkt b'.
Proof.
  intros (E1 & _ & E3 & _) Hf [Hs Hd]. unfold session in *. rewrite E1 in Hs. rewrite E3 in Hd.
  destruct Hf as [(s & Hs' & Hu)|(ss & d & Hss & Hd' & Hu)]; [by apply Hu, Hs | by eapply Hu, Hd].
Qed.

Lemma admit_not_established now cn sp pkt b :
  match admitConnect now cn sp pkt b with inl (r, _) => forall p, r <> Established p | inr (_, _) => True end.
Proof.
  assert (forall en b1, match match checkWillTopic cn sp pkt en b1 with inl r => inl r | inr a => inr (a, b1) end with
    inl (r, _) => forall p, r <> Established p | inr (_, _) => True end) as Hgo.
  { intros en b1. unfold checkWillTopic, checkOwner, rejectSessionOwnerMismatch, refuse. repeat case_match; by simplify_eq/=. }
  unfold admitConnect. destruct (ValidateConnect pkt); [|done].
  destruct (match flapping b with None => _ | Some _ => _ end) as [[d det]|]; [|done].
  destruct (negb _); [done|]. destruct (_ && _); [done|]. unfold authenticate. destruct (negb _).
  - destruct (findEnhancedAuth _ _); [|done]. destruct (enhancedAuthHandshake _ _ _ _) as [[seen|er] b2]; [apply Hgo | done].
  - destruct (authenticator _) as [au|]; [destruct (au _ _ _); [done|]|]; apply Hgo.
Qed.

Lemma calm_handleConnect now cn pkt b :
  c_Connect cn = Some pkt -> ClientID pkt <> [] -> foreign pkt b ->
  calm b (snd (handleConnect accepts now cn b)) /\ forall p, fst (handleConnect accepts now cn b) <> Established p.
Proof.
  intros Hc Hne Hf. unfold handleConnect.
  assert (calm b (snd (connRateAllows now b))) as Hr by (unfold connRateAllows; by repeat case_match).
  destruct (connRateAllows now b) as [ok b1]. cbn [snd] in Hr. destruct (negb ok); [split; [exact Hr | done]|].
  rewrite Hc. set (sp := if Version (c_Spec cn) =? 0 then _ else _).
  pose proof (admitted_connect now cn sp pkt b1) as Ha. pose proof (admit_not_established now cn sp pkt b1) as Hn.
  destruct (admitConnect now cn sp pkt b1) as [[r b2]|[a b2]]; [split; [by apply (calm_trans _ b1) | done]|].
  destruct Ha as [Hc2 [|Ho]]; [done|]. destruct (foreign_not_owned pkt b b2); [by apply (calm_trans _ b1) | done..].
Qed.
End Ownership.

(** C13: A session cannot be taken from its user.  A CONNECT with a client
    identifier whose session, in memory or stored, belongs to another user is never
    established, whatever authentication and limits say: no session, subscription,
    stored session or registered connection changes. *)
Theorem foreign_session_refused {SS MS RS} `{SessionStoreLaws SS} `{MessageStore MS} `{RetainedStore RS}
    (accepts : list Event -> bytes -> Packet -> bool) now cn pkt (b : Broker SS MS RS) :
  c_Connect cn = Some pkt -> ClientID pkt <> [] -> foreign pkt b ->
  let '(r, b') := HandleConnection accepts now cn b in
  (forall present, r <> Established present) /\
  b_sessions b' = b_sessions b /\ topics b' = topics b /\ b_sessionStore b' = b_sessionStore b /\
  connections b' = connections b.
Proof.
  intros Hc Hne Hf. unfold HandleConnection.
  assert (calm b (snd (reserveConnectionSlot b))) as Hr by (unfold reserveConnectionSlot; by repeat case_match).
  destruct (reserveConnectionSlot b) as [ok b1]. cbn [snd] in Hr.
  assert (forall r b', calm b b' -> (forall present, r <> Established present) ->
    let '(r, b') := (r, b') in (forall present, r <> Established present) /\
    b_sessions b' = b_sessions b /\ topics b' = topics b /\ b_sessionStore b' = b_sessionStore b /\
    connections b' = connections b) as Hgo by (intros r b' (?&?&?&?&?) ?; split_and!; done).
  destruct (negb ok); [by apply (Hgo (Refused _))|].
  assert (foreign pkt b1) as Hf1.
  { destruct Hr as (E1 & _ & E3 & _). unfold foreign, session. by rewrite E1, E3. }
  destruct (calm_handleConnect accepts now cn pkt b1 Hc Hne Hf1) as [Hc1 Hn1].
  destruct (handleConnect accepts now cn b1) as [r b2]. cbn [fst snd] in Hc1, Hn1. apply (calm_trans _ _ _ Hr) in Hc1.
  destruct r as [e|p|]; [|by destruct (Hn1 p)|by apply (Hgo Panicked)].
  apply (Hgo (Refused e)); [|done]. eapply calm_trans; [exact Hc1|]. unfold releaseConnectionSlot. by repeat case_match.
Qed.

Definition alices_broker : Broker sessionStore messageStore retainedStore :=
  putSession (str "c") (blankSession (str "c") (str "alice") false Version50 60) empty_broker.

Lemma foreign_session_refused_witness :
  fst (HandleConnection (fun _ _ _ => true) 9 (sample_conn 2 (str "c") true) alices_broker) <> Established false.
Proof.
  pose proof (foreign_session_refused (fun _ _ _ => true) 9 (sample_conn 2 (str "c") true) (sample_connect (str "c") true)
    alices_broker eq_refl) as Hr.
  destruct (HandleConnection _ _ _ _) as [r b']. apply Hr; [discriminate|].
  left. exists (blankSession (str "c") (str "alice") false Version50 60). split; [reflexivity | discriminate].
Defined.

(** ** Reconnects and take-overs that go wrong *)

Section TakeOvers.

Let yes : list Event -> bytes -> Packet -> bool := fun _ _ _ => true.

(** A connection that leaves a will on topic "w". *)
Definition sample_will_conn (raw : Z) (id : bytes) (clean : bool) : Conn :=
  let p := sample_connect id clean in
  {| c_Raw := raw; c_PeerIP := str "10.0.0.1"; c_Codec := NewCodecForVersion 0 Version50;
     c_Spec := default zeroSpec (SpecOf Version50);
     c_Connect := Some {| con_FixedHeader := con_FixedHeader p; ProtocolName := ProtocolName p;
       ProtocolVersion := ProtocolVersion p;
       Flags := {| UsernameFlag := false; PasswordFlag := false; WillRetain := false; WillQoS := 0; WillFlag := true;
                   WillTopicFlag := false; CleanSession := clean; Reserved := false |};
       KeepAlive := KeepAlive p; ClientID := id; WillTopic := str "w"; Packets.WillMessage := [9]; Username := [];
       Password := []; con_Properties := None; WillProperties := None |};
     c_AuthReads := [] |}.

Definition connect (now : Z) (cn : Conn) (b : Broker sessionStore messageStore retainedStore) :=
  snd (HandleConnection yes now cn b).
Definition send (now : Z) (c : bytes) (conn : Z) (p : Packet) (b : Broker sessionStore messageStore retainedStore) :=
  snd (handlePacket yes now c conn p b).

(** A broker with a client "d" that watches the wills on "w". *)
Definition watched : Broker sessionStore messageStore retainedStore :=
  send 2 (str "d") 10 (PSubscribe (sample_subscribe (str "w") 0)) (connect 1 (sample_conn 10 (str "d") true) empty_broker).

Definition disconnectRequest : Packet := PDisconnect
  {| dis_FixedHeader := header PacketTypeDisconnect 0 false false; dis_ReasonCode := 0; dis_Properties := None |}.

End TakeOvers.

(** A client that comes back to its stored session crashes a broker with a
    publish rate limit: the session Restore builds has no rate tracker, and
    HandleConnection sets the rate of it. *)
Theorem stored_session_reconnect_panics :
  let cn raw := sample_conn raw (str "c") false in
  fst (HandleConnection (fun _ _ _ => true) 1 (cn 1) limited_broker) = Established false /\
  fst (HandleConnection (fun _ _ _ => true) 3 (cn 2)
    (send 2 (str "c") 1 disconnectRequest (connect 1 (cn 1) limited_broker))) = Panicked.
Proof. split; vm_compute; reflexivity. Qed.

(** A take-over that resumes the session drops the will of the connection it
    displaces, although that connection ended abnormally; a take-over with a clean
    start publishes it. *)
Theorem resuming_takeover_drops_will :
  let taken clean := connect 4 (sample_conn 2 (str "c") clean) (connect 3 (sample_will_conn 1 (str "c") false) watched) in
  inbox (str "d") (taken false) = [] /\ wills (will (taken false)) !! str "c" = None /\
  Payload <$> inbox (str "d") (taken true) = [[9]].
Proof. split_and!; vm_compute; reflexivity. Qed.

(** A DISCONNECT of a connection that was taken over removes the will of its
    successor: when the successor then fails, nothing is published. *)
Theorem stale_disconnect_removes_will :
  let taken := connect 4 (sample_will_conn 2 (str "c") false) (connect 3 (sample_conn 1 (str "c") false) watched) in
  let fails b := readFailed (fun _ _ _ => true) 6 (str "c") 2 (DecodeError ErrEOF) b in
  Payload <$> inbox (str "d") (fails taken) = [[9]] /\
  Payload <$> inbox (str "d") (fails (send 5 (str "c") 1 disconnectRequest taken)) = [].
Proof. split; vm_compute; reflexivity. Qed.

(** A clean start that takes over a live connection leaves the shared
    subscriptions of the discarded session in place: the new session has no
    subscription and is still sent the group's messages. *)
Theorem clean_takeover_keeps_shared_subscriptions :
  let old := send 2 (str "c") 1 (PSubscribe (sample_subscribe (str "$share/g/a") 0))
               (connect 1 (sample_conn 1 (str "c") false) empty_broker) in
  let b := connect 3 (sample_conn 2 (str "c") true) old in
  Subscriptions <$> session b (str "c") = Some ∅ /\
  pub_Topic <$> inbox (str "c") (routePublish (fun _ _ _ => true) 4 (str "d") (mkPublish 0 false false 0 (str "a") [1] None) b)
    = [str "a"].
Proof. split; vm_compute; reflexivity. Qed.
