(* ===== verification/Api.v ===== *)
(** * The public API: api/api.go

    NewBroker turns the API's options and the configuration into the options of
    the broker core and the network server; Start and Stop run the two in order;
    the health listener serves the management endpoints.  The stores of the memory
    backend are what memory.New... returns.  Plugins, metrics and the logger are
    not part of the model.  An HTTP request is its method, its Authorization
    header, its token parameter and its endpoint. *)

From S2P Require Import Prelude Utf8 Wire Spec Topic Properties Strconv Duration Config Server Packets TopicTree TopicStats RateLimit.
From S2P Require Import StoreTypes MemoryStore PublishProps Sessions QoSEngine Auth WillHandler Flapping Broker Connect Lifecycle Options.
Open Scope Z_scope.

(** api.go, brokerOpts *)
Record brokerOpts (SS MS RS : Type) := mkBrokerOpts {
  bo_cfg : option Config;
  bo_auth : option Authenticator;
  bo_authorizer : option Authorizer;
  bo_sessionStore : option SS;
  bo_messageStore : option MS;
  bo_retainedStore : option RS;
  bo_maxConnections : Z;
  bo_version : bytes;
}.
Arguments mkBrokerOpts {SS MS RS}.
Arguments bo_cfg {SS MS RS}.
Arguments bo_auth {SS MS RS}.
Arguments bo_authorizer {SS MS RS}.
Arguments bo_sessionStore {SS MS RS}.
Arguments bo_messageStore {SS MS RS}.
Arguments bo_retainedStore {SS MS RS}.
Arguments bo_maxConnections {SS MS RS}.
Arguments bo_version {SS MS RS}.

#[export] Instance brokerOpts_eta SS MS RS : Eta (brokerOpts SS MS RS) := fun o =>
  mkBrokerOpts (bo_cfg o) (bo_auth o) (bo_authorizer o) (bo_sessionStore o) (bo_messageStore o) (bo_retainedStore o)
    (bo_maxConnections o) (bo_version o).

(** api.go, Broker: the core with its started flag and all its options, the
    server, the configuration, the error of the construction, and the address of
    the health listener *)
Record ApiBroker (SS MS RS : Type) := mkApiBroker {
  api_core : Broker SS MS RS;
  api_options : options SS MS RS;
  api_started : bool;
  api_srv : MQTTServer;
  api_cfg : Config;
  api_initErr : option (list string);
  healthAddr : option bytes;
}.
Arguments mkApiBroker {SS MS RS}.
Arguments api_core {SS MS RS}.
Arguments api_options {SS MS RS}.
Arguments api_started {SS MS RS}.
Arguments api_srv {SS MS RS}.
Arguments api_cfg {SS MS RS}.
Arguments api_initErr {SS MS RS}.
Arguments healthAddr {SS MS RS}.

#[export] Instance ApiBroker_eta SS MS RS : Eta (ApiBroker SS MS RS) := fun a =>
  mkApiBroker (api_core a) (api_options a) (api_started a) (api_srv a) (api_cfg a) (api_initErr a) (healthAddr a).

Section Api.
Context {SS MS RS : Type} `{SessionStore SS} `{MessageStore MS} `{RetainedStore RS}.
Context (memorySessions : SS) (memoryMessages : MS) (memoryRetained : RS).

Definition ApiOption := brokerOpts SS MS RS -> brokerOpts SS MS RS.
Definition apiWithAuth (a : option Authenticator) : ApiOption := fun o => o <| bo_auth := a |>.
Definition apiWithAuthorizer (a : option Authorizer) : ApiOption := fun o => o <| bo_authorizer := a |>.
Definition apiWithConfig (c : option Config) : ApiOption := fun o => o <| bo_cfg := c |>.
Definition apiWithSessionStore (s : option SS) : ApiOption := fun o => o <| bo_sessionStore := s |>.
Definition apiWithMessageStore (s : option MS) : ApiOption := fun o => o <| bo_messageStore := s |>.
Definition apiWithRetainedStore (s : option RS) : ApiOption := fun o => o <| bo_retainedStore := s |>.
Definition apiWithMaxConnections (n : Z) : ApiOption := fun o => o <| bo_maxConnections := n |>.
Definition apiWithVersion (v : bytes) : ApiOption := fun o => o <| bo_version := v |>.

(** No store given *)
Definition noStores (o : brokerOpts SS MS RS) : bool :=
  match bo_sessionStore o, bo_messageStore o, bo_retainedStore o with None, None, None => true | _, _, _ => false end.

Definition memoryBackend (c : Config) : bool := isEmpty (StorageBackend c) || isText (StorageBackend c) "memory".

(** The stores: those of the memory backend when none is given *)
Definition withStores (c : Config) (o : brokerOpts SS MS RS) : brokerOpts SS MS RS :=
  if noStores o && memoryBackend c
  then o <| bo_sessionStore := Some memorySessions |> <| bo_messageStore := Some memoryMessages |> <| bo_retainedStore := Some memoryRetained |>
  else o.

(** The options of the core, in the order NewBroker appends them *)
Definition coreOptions (c : Config) (o : brokerOpts SS MS RS) : list (@Option SS MS RS) :=
  let add (b : bool) (f : @Option SS MS RS) := if b then [f] else [] in
  let o' := withStores c o in
  match bo_auth o with Some a => [WithAuth (Some a)] | None => [] end ++
  match bo_authorizer o with Some a => [WithAuthorizer (Some a)] | None => [] end ++
  add (0 <=? bo_maxConnections o) (WithMaxConnections (bo_maxConnections o)) ++
  add (FlappingEnabled c) (WithFlappingDetection (Some (NewFlappingDetector
    {| Enabled := FlappingEnabled c; MaxConnects := FlappingMaxConnects c; SlidingWindow := FlappingWindow c;
       PenaltyDuration := FlappingPenaltyDuration c; MaxTrackedClients := FlappingMaxTrackedClients c;
       CleanupInterval := FlappingCleanupInterval c |}))) ++
  add (0 <? MaxPacketSize c) (WithBrokerMaxPacketSize (MaxPacketSize c)) ++
  add (0 <? WriteQueueSize c) (WithWriteQueueSize (WriteQueueSize c)) ++
  add (0 <? SysInterval c) (WithSysInterval (SysInterval c)) ++
  add (negb (isEmpty (bo_version o))) (WithVersion (bo_version o)) ++
  add (0 <? SessionExpiryInterval c) (WithSessionExpiry (SessionExpiryInterval c)) ++
  add (0 <? Config.KeepAlive c) (WithBrokerKeepAlive (Config.KeepAlive c)) ++
  add (0 <? ConnectTimeout c) (WithBrokerConnectTimeout (ConnectTimeout c)) ++
  add (negb (DrainTimeout c =? 0)) (WithDrainTimeout (DrainTimeout c)) ++
  add ((0 <? QoSMaxInflight c) || (0 <? QoSRetryInterval c) || (0 <? QoSMaxRetries c))
    (WithQoSOptions ((if 0 <? QoSMaxInflight c then [WithMaxInflight (QoSMaxInflight c)] else []) ++
                     (if 0 <? QoSRetryInterval c then [WithRetryInterval (QoSRetryInterval c)] else []) ++
                     (if 0 <=? QoSMaxRetries c then [WithMaxRetries (QoSMaxRetries c)] else []))) ++
  add (bo_maxConnections o <? 0) (WithMaxConnections (Config.MaxConnections c)) ++
  match bo_sessionStore o' with Some s => [WithSessionStore (Some s)] | None => [] end ++
  match bo_messageStore o' with Some s => [WithMessageStore (Some s)] | None => [] end ++
  match bo_retainedStore o' with Some s => [WithRetainedStore (Some s)] | None => [] end.

(** NewBroker; [tls] is what the TLS configuration of the settings gives.  A
    missing store overrides the errors of Validate. *)
Definition NewBroker (tls : Config -> res bool) (opts : list ApiOption) : ApiBroker SS MS RS :=
  let o := foldl (fun o f => f o) (mkBrokerOpts (Some DefaultConfig) None None None None None (-1) []) opts in
  let c := default DefaultConfig (bo_cfg o) in
  let initErr := match Validate c with [] => None | errs => Some errs end in
  let initErr := if negb (memoryBackend c) && noStores o then Some ["storage_backend requires explicit stores"%string] else initErr in
  {| api_core := New (coreOptions c o); api_options := applyOptions (coreOptions c o); api_started := false;
     api_srv := NewMQTTServer c (tls c) []; api_cfg := c; api_initErr := initErr; healthAddr := None |}.

(** ** Start and Stop *)

(** lifecycle.go, (Broker).Start; the background loops it starts are the steps of
    the broker's histories *)
Definition coreStart (now : Z) (a : ApiBroker SS MS RS) : res unit * ApiBroker SS MS RS :=
  if api_started a then (Err (ErrText "broker already started"), a)
  else (Ok tt, a <| api_started := true |>
                 <| api_core := rebuildRetainedExpirations now (api_core a <| shuttingDown := false |>) |>).

Context (accepts : list Event -> bytes -> Packet -> bool).

(** lifecycle.go, (Broker).Stop *)
Definition coreStop (now : Z) (conns : list (bytes * Z)) (a : ApiBroker SS MS RS) : ApiBroker SS MS RS :=
  a <| api_core := Stop accepts now conns (api_core a) |> <| api_started := false |>.

(** startHealthServer: a listener that cannot be bound is only logged *)
Definition startHealthServer (bind : bytes -> bool) (a : ApiBroker SS MS RS) : ApiBroker SS MS RS :=
  if bind (MetricsAddr (api_cfg a)) then a <| healthAddr := Some (MetricsAddr (api_cfg a)) |> else a.

(** Start *)
Definition apiStart (bind : bytes -> bool) (now : Z) (conns : list (bytes * Z)) (a : ApiBroker SS MS RS) : res unit * ApiBroker SS MS RS :=
  match api_initErr a with
  | Some _ => (Err (ErrText "api: invalid configuration"), a)
  | None =>
      match coreStart now a with
      | (Err e, a) => (Err e, a)
      | (Ok _, a) =>
          match Start bind (api_srv a) with
          | (Err e, srv) => (Err e, coreStop now conns (a <| api_srv := srv |>))
          | (Ok _, srv) => (Ok tt, startHealthServer bind (a <| api_srv := srv |>))
          end
      end
  end.

(** Stop: the notices first, then the health listener, then the sockets, then the
    core; [None] while goroutines of the server keep it waiting.  The drain only
    waits. *)
Definition apiStop (now : Z) (conns : list (bytes * Z)) (a : ApiBroker SS MS RS) : option (ApiBroker SS MS RS) :=
  let a := a <| api_core := BeginShutdown accepts (api_core a) |> <| healthAddr := None |> in
  srv ← Server.run [DoStop; DoStop; DoStop; DoStop] (api_srv a);
  Some (coreStop now conns (a <| api_srv := srv |>)).

(** ** Management endpoints *)

Inductive Endpoint := EpHealthz | EpReadyz | EpMetrics | EpPprof | EpClients | EpClient (id : bytes) | EpTopics.

(** A request: whether its method is GET or HEAD, its Authorization header, and
    the token and filter of its query, empty when absent *)
Record Request := { r_get : bool; r_Authorization : bytes; r_token : bytes; r_filter : bytes; r_endpoint : Endpoint }.

Inductive Response :=
  | NotFound
  | MethodNotAllowed
  | Unauthorized
  | Healthy
  | NotReady
  | Served (ep : Endpoint)
  | ClientList (count online : Z) (clients : list ClientInfo) (trackedClients : option Z)
  | OneClient (info : ClientInfo)
  | TopicList (count : Z) (topics : list TopicFilterStat).

(** managementAuthorized *)
Definition managementAuthorized (c : Config) (r : Request) : bool :=
  if isEmpty (ManagementToken c) then true
  else
    let got := if HasPrefix (r_Authorization r) (str "Bearer ") then TrimPrefix (r_Authorization r) (str "Bearer ") else r_token r in
    bool_decide (got = ManagementToken c).

(** The listing of /topics, narrowed by ?filter= *)
Definition topicListing (want : bytes) (tree : TopicTree) : Response :=
  let stats := TopicStats.Stats tree in
  let stats := if isEmpty want then stats
               else base.filter (fun st => st_Filter st = want \/ st_Group st ++ slash :: st_Filter st = want) stats in
  TopicList (len stats) stats.

(** The mux of startHealthServer and registerManagementRoutes; a path that is not
    registered is not found *)
Definition serve (a : ApiBroker SS MS RS) (r : Request) : Response :=
  let c := api_cfg a in
  let managed (h : Response) :=
    if negb (ManagementEnabled c) then NotFound
    else if negb (r_get r) then MethodNotAllowed
    else if negb (managementAuthorized c r) then Unauthorized
    else h in
  match r_endpoint r with
  | EpHealthz => Healthy
  | EpReadyz => match Addr (api_srv a) with Some _ => if api_started a then Healthy else NotReady | None => NotReady end
  | EpMetrics => if MetricsEnabled c then Served EpMetrics else NotFound
  | EpPprof => if PprofEnabled c then Served EpPprof else NotFound
  | EpClients =>
      let clients := Clients (api_core a) in
      managed (ClientList (len clients) (ConnCount (api_srv a)) clients (Tracked <$> Broker.flapping (api_core a)))
  | EpClient id => managed (match Client id (api_core a) with Some info => OneClient info | None => NotFound end)
  | EpTopics => managed (topicListing (r_filter r) (topics (api_core a)))
  end.
End Api.
