(* ===== verification/ApiProps.v ===== *)
(** * What the public API builds

    The options the broker core ends up with for a configuration, the state a
    started broker begins with, and the gate of the management endpoints. *)

From S2P Require Import Prelude Utf8 Wire Spec Topic Properties Strconv Duration Config ConfigProps Server ServerProps ServerStart Packets TopicTree RateLimit.
From S2P Require Import StoreTypes MemoryStore PublishProps Sessions QoSEngine Auth WillHandler Flapping Broker Connect Lifecycle Options.
From S2P Require Import BrokerWf BrokerHistory Api.
Open Scope Z_scope.

Section Built.
Context {SS MS RS : Type} `{SessionStore SS} `{MessageStore MS} `{RetainedStore RS}.
Context (memorySessions : SS) (memoryMessages : MS) (memoryRetained : RS).
Implicit Types o : brokerOpts SS MS RS.

(** Options that leave a setting alone, and the last one that sets it *)
Lemma options_keep {A} (P : options SS MS RS -> A) l x :
  Forall (fun f => forall x, P (f x) = P x) l -> P (foldl (fun x f => f x) x l) = P x.
Proof. intros Hl. revert x. induction Hl as [|f l Hf _ IH]; intros x; cbn; [done|]. by rewrite IH, Hf. Qed.

Lemma options_set {A} (P : options SS MS RS -> A) (b : bool) (f : @Option SS MS RS) v x :
  (forall x, P (f x) = v) -> P (foldl (fun x f => f x) x (if b then [f] else [])) = if b then v else P x.
Proof. intros Hf. destruct b; [apply Hf | done]. Qed.

Ltac kept P := repeat (refine (eq_trans (options_keep P _ _ _) _); 
  [solve [repeat case_match; repeat first [apply Forall_nil_2 | apply Forall_cons_2; [intros ?; reflexivity|]]] |]).
Ltac setting P v :=
  unfold applyOptions, coreOptions; rewrite !foldl_app; kept P;
  refine (eq_trans (options_set P _ _ v _ _) _); [intros ?; reflexivity|]; case_match; [try done | kept P; try done].

Let built c o := applyOptions (coreOptions memorySessions memoryMessages memoryRetained c o).

Lemma core_sysInterval c o : sysInterval (built c o) = if 0 <? SysInterval c then SysInterval c else 30 * second.
Proof. unfold built. setting (@sysInterval SS MS RS) (SysInterval c). Qed.

Lemma core_drainTimeout c o : drainTimeout (built c o) = if DrainTimeout c =? 0 then 5 * second else DrainTimeout c.
Proof. unfold built. setting (@drainTimeout SS MS RS) (DrainTimeout c); by destruct (DrainTimeout c =? 0). Qed.

Lemma core_connectTimeout c o : connectTimeout (built c o) = if 0 <? ConnectTimeout c then ConnectTimeout c else 10 * second.
Proof. unfold built. setting (@connectTimeout SS MS RS) (ConnectTimeout c). Qed.

Lemma core_writeQueueSize c o : writeQueueSize (built c o) = if 0 <? WriteQueueSize c then WriteQueueSize c else 256.
Proof. unfold built. setting (@writeQueueSize SS MS RS) (WriteQueueSize c). Qed.

Lemma core_maxPacketSize c o :
  opt_maxPacketSize (core (built c o)) = if 0 <? MaxPacketSize c then MaxPacketSize c else 256 * 1024.
Proof. unfold built. setting (fun x : options SS MS RS => opt_maxPacketSize (core x)) (MaxPacketSize c). Qed.

Lemma core_sessionExpiry c o :
  sessionExpiry (core (built c o)) = if 0 <? SessionExpiryInterval c then SessionExpiryInterval c else 24 * 3600 * second.
Proof. unfold built. setting (fun x : options SS MS RS => sessionExpiry (core x)) (SessionExpiryInterval c). Qed.

Lemma core_keepAlive c o : opt_keepAlive (core (built c o)) = if 0 <? Config.KeepAlive c then Config.KeepAlive c else 0.
Proof. unfold built. setting (fun x : options SS MS RS => opt_keepAlive (core x)) (Config.KeepAlive c). Qed.

Lemma core_maxConnections c o :
  maxConnections (core (built c o)) = if 0 <=? bo_maxConnections o then bo_maxConnections o else Config.MaxConnections c.
Proof.
  unfold built. setting (fun x : options SS MS RS => maxConnections (core x)) (Config.MaxConnections c).
  - by destruct (Z.leb_spec 0 (bo_maxConnections o)), (Z.ltb_spec (bo_maxConnections o) 0); try lia.
  - refine (eq_trans (options_set (fun x : options SS MS RS => maxConnections (core x)) _ _ (bo_maxConnections o) _ _) _); [intros ?; reflexivity|].
    by destruct (Z.leb_spec 0 (bo_maxConnections o)), (Z.ltb_spec (bo_maxConnections o) 0); try lia.
Qed.

(** A given authenticator, or the one that denies everything *)
Lemma core_authenticator c o : authenticator (core (built c o)) = Some (default denyAllAuthenticator (bo_auth o)).
Proof.
  unfold built, applyOptions, coreOptions. rewrite !foldl_app. kept (fun x : options SS MS RS => authenticator (core x)).
  by destruct (bo_auth o).
Qed.

Lemma core_authorizer c o : authorizer (core (built c o)) = Some (default allowAllAuthorizer (bo_authorizer o)).
Proof.
  unfold built, applyOptions, coreOptions. rewrite !foldl_app. kept (fun x : options SS MS RS => authorizer (core x)).
  by destruct (bo_authorizer o), (bo_auth o).
Qed.

Lemma core_flapping c o :
  o_flapping (built c o) = if FlappingEnabled c then
    Some (NewFlappingDetector {| Enabled := true; MaxConnects := FlappingMaxConnects c; SlidingWindow := FlappingWindow c;
      PenaltyDuration := FlappingPenaltyDuration c; MaxTrackedClients := FlappingMaxTrackedClients c;
      CleanupInterval := FlappingCleanupInterval c |}) else None.
Proof.
  unfold built, applyOptions, coreOptions. rewrite !foldl_app. destruct (FlappingEnabled c); kept (@o_flapping SS MS RS); reflexivity.
Qed.

Lemma core_engine c o :
  0 < QoSMaxInflight c -> 0 < QoSRetryInterval c -> 0 <= QoSMaxRetries c ->
  newEngine (qosOpts (built c o)) =
    {| inflight := ∅; maxInflight := QoSMaxInflight c; retryInterval := QoSRetryInterval c; maxRetries := QoSMaxRetries c;
       sessionVersions := ∅; callbacks := brokerCallbacks |}.
Proof.
  intros Hi Hr Hm. assert (qosOpts (built c o) = [WithMaxInflight (QoSMaxInflight c); WithRetryInterval (QoSRetryInterval c); WithMaxRetries (QoSMaxRetries c)]) as ->; [|done].
  unfold built, applyOptions, coreOptions. rewrite !foldl_app. kept (@qosOpts SS MS RS).
  rewrite (proj2 (Z.ltb_lt _ _) Hi), (proj2 (Z.ltb_lt _ _) Hr), (proj2 (Z.leb_le _ _) Hm). done.
Qed.

(** The stores: those given, or the memory stores when none is given for the
    memory backend *)
Lemma core_stores c o :
  sessionStore (built c o) = bo_sessionStore (withStores memorySessions memoryMessages memoryRetained c o) /\
  messageStore (built c o) = bo_messageStore (withStores memorySessions memoryMessages memoryRetained c o) /\
  retainedStore (built c o) = bo_retainedStore (withStores memorySessions memoryMessages memoryRetained c o).
Proof.
  set (o' := withStores memorySessions memoryMessages memoryRetained c o).
  split_and!; unfold built, applyOptions, coreOptions; rewrite !foldl_app; fold o'.
  - kept (@sessionStore SS MS RS). destruct (bo_sessionStore o'); [done|]. cbn [foldl]. kept (@sessionStore SS MS RS). done.
  - kept (@messageStore SS MS RS). destruct (bo_messageStore o'); [done|]. cbn [foldl]. kept (@messageStore SS MS RS). done.
  - kept (@retainedStore SS MS RS). destruct (bo_retainedStore o'); [done|]. cbn [foldl]. kept (@retainedStore SS MS RS). done.
Qed.

End Built.


(** ** A started broker *)

Section Start.
Context {SS MS RS : Type} `{SessionStore SS} `{MessageStore MS} `{RetainedStore RS}.
Implicit Types b : Broker SS MS RS.

Lemma rebuild_frame now b :
  let b' := rebuildRetainedExpirations now b in
  b_sessions b' = b_sessions b /\ topics b' = topics b /\ connections b' = connections b /\ Broker.opts b' = Broker.opts b /\
  b_sessionStore b' = b_sessionStore b.
Proof.
  unfold rebuildRetainedExpirations. destruct (b_retainedStore b) as [rs|]; [|done]. destruct (MatchRetained _ rs) as [msgs|]; [|done].
  assert (forall msgs (x : Broker SS MS RS), let x' := foldl (rebuildOne now) x msgs in b_sessions x' = b_sessions x /\ topics x' = topics x /\
    connections x' = connections x /\ Broker.opts x' = Broker.opts x /\ b_sessionStore x' = b_sessionStore x) as K.
  { clear msgs. induction msgs as [|m msgs IH]; intros x; cbn [foldl]; [done|]. destruct (IH (rebuildOne now x m)) as (-> & -> & -> & -> & ->).
    unfold rebuildOne. by destruct (retainedDeadline _ _ _). }
  exact (K msgs (b <| retainedExpirations := ∅ |> <| retainedCount := 0 |>)).
Qed.
End Start.



(** ** The management endpoints *)

(** The token a request carries *)
Definition carries (r : Request) (token : bytes) : Prop :=
  r_Authorization r = str "Bearer " ++ token \/ HasPrefix (r_Authorization r) (str "Bearer ") = false /\ r_token r = token.

Lemma managementAuthorized_spec c r : managementAuthorized c r = true <-> ManagementToken c = [] \/ carries r (ManagementToken c).
Proof.
  unfold managementAuthorized, carries. destruct (ManagementToken c) as [|b t] eqn:Et; [by intuition|]. cbn [isEmpty].
  rewrite bool_decide_eq_true. destruct (HasPrefix (r_Authorization r) (str "Bearer ")) eqn:Hp.
  - pose proof Hp as [s Hs]%HasPrefix_spec. rewrite Hs, TrimPrefix_app. split; [intros ->; right; by left|].
    intros [[=]|[E|[[=] _]]]. by apply app_inv_head in E.
  - split; [intros ->; right; by right|]. intros [[=]|[E|[_ E]]]; [|done]. rewrite E, HasPrefix_app in Hp. done.
Qed.

Section Gate.
Context {SS MS RS : Type} `{SessionStore SS} `{MessageStore MS} `{RetainedStore RS}.

(** C37: what the management listener of a broker with a valid configuration gives
    away.  Clients and topic filters are listed only when the endpoints are enabled,
    only for GET and HEAD, and only to a request that carries the configured token,
    or, without a token, when the listener's address starts with "127.0.0.1" or
    "localhost"; profiles are served only from an address that starts so or with
    "[::1]".  That is a test on the text of the address: the host
    localhost.example.com passes it. *)
Theorem management_gate (a : ApiBroker SS MS RS) r :
  let c := api_cfg a in
  let local := HasPrefix (MetricsAddr c) (str "127.0.0.1") = true \/ HasPrefix (MetricsAddr c) (str "localhost") = true in
  Validate c = [] ->
  match serve a r with
  | ClientList _ _ _ _ | OneClient _ | TopicList _ _ =>
      ManagementEnabled c = true /\ r_get r = true /\ (carries r (ManagementToken c) \/ ManagementToken c = [] /\ local)
  | Served EpPprof => PprofEnabled c = true /\ (local \/ HasPrefix (MetricsAddr c) (str "[::1]") = true)
  | _ => True
  end /\
  Validate (DefaultConfig <| ManagementEnabled := true |> <| MetricsAddr := str "localhost.example.com:8080" |>) = [].
Proof.
  intros c local Hv%Validate_valid. split; [|vm_compute; reflexivity].
  assert (ManagementEnabled c = true -> r_get r = true -> managementAuthorized c r = true ->
    ManagementEnabled c = true /\ r_get r = true /\ (carries r (ManagementToken c) \/ ManagementToken c = [] /\ local)) as K.
  { intros Hm Hg Ha%managementAuthorized_spec. split_and!; [done..|]. destruct Ha as [Ha|Ha]; [|by left].
    right. split; [done|]. destruct (vc_management c Hv Hm) as [?|?]; done. }
  assert (PprofEnabled c = true -> local \/ HasPrefix (MetricsAddr c) (str "[::1]") = true) as P.
  { intros Hp. pose proof (vc_pprof c Hv Hp). unfold local. tauto. }
  unfold serve. fold c. destruct (r_endpoint r); repeat case_match; try done.
  all: simplify_eq; unfold topicListing in *; repeat match goal with E : negb _ = false |- _ => apply negb_false_iff in E end.
  all: simplify_eq; first [by apply K | split; [done|]; apply P; congruence].
Qed.
End Gate.

Lemma management_gate_witness :
  let a := NewBroker NewSessionStore NewMessageStore NewRetainedStore (fun _ => Ok false)
             [apiWithConfig (Some (DefaultConfig <| ManagementEnabled := true |> <| ManagementToken := str "secret" |> <| MetricsAddr := str ":8080" |>))] in
  let r token := {| r_get := true; r_Authorization := []; r_token := token; r_filter := []; r_endpoint := EpClients |} in
  serve a (r (str "secret")) = ClientList 0 0 [] None /\ serve a (r (str "guess")) = Unauthorized /\
  carries (r (str "secret")) (str "secret").
Proof.
  cbn zeta. split; [vm_compute; reflexivity|]. split; [vm_compute; reflexivity|].
  set (a := NewBroker NewSessionStore NewMessageStore NewRetainedStore (fun _ => Ok false)
             [apiWithConfig (Some (DefaultConfig <| ManagementEnabled := true |> <| ManagementToken := str "secret" |> <| MetricsAddr := str ":8080" |>))]).
  destruct (management_gate a {| r_get := true; r_Authorization := []; r_token := str "secret"; r_filter := []; r_endpoint := EpClients |}) as [K _];
    [vm_compute; reflexivity|].
  change (serve a _) with (ClientList 0 0 [] None) in K. destruct K as (_ & _ & [K|[K _]]); [exact K | vm_compute in K; discriminate].
Defined.
