(* ===== verification/Cmd.v ===== *)
(** * The command: cmd/main.go and cmd/stores.go

    How main turns flags, environment and file into a configuration, which
    authenticator and which stores it chooses, and when it refuses to start.  The
    flags of the first configuration are variables of the flag package: what a flag
    prints after the environment has been applied is what the environment left
    there. *)

From S2P Require Import Prelude Strconv Duration Config ConfigFields ConfigProps Server Auth Options Api ApiProps.
From S2P Require Import StoreTypes MemoryStore Broker.
Open Scope Z_scope.

(** ** Model *)

(** The flags found on the command line *)
Record Flags := {
  fl_config : bytes;
  fl_addr : option bytes;
  fl_maxConn : option Z;
  fl_tls : option bool;
  fl_tlsCert : option bytes;
  fl_tlsKey : option bytes;
  fl_logLevel : option bytes;
  fl_allowAll : bool;
  fl_authFile : option bytes;
}.

Definition isSome {A} (o : option A) : bool := match o with Some _ => true | None => false end.

(** flag.StringVar, IntVar and BoolVar bind the fields of a configuration, and
    flag.Parse writes the flags that are given through those pointers *)
Definition bindFlags (fl : Flags) (c : Config) : Config :=
  c <| ListenAddr := default (ListenAddr c) (fl_addr fl) |>
    <| MaxConnections := default (MaxConnections c) (fl_maxConn fl) |>
    <| TLSEnabled := default (TLSEnabled c) (fl_tls fl) |>
    <| TLSCertFile := default (TLSCertFile c) (fl_tlsCert fl) |>
    <| TLSKeyFile := default (TLSKeyFile c) (fl_tlsKey fl) |>
    <| LogLevel := default (LogLevel c) (fl_logLevel fl) |>.

(** strconv.FormatBool and ParseBool *)
Definition FormatBool (b : bool) : bytes := if b then str "true" else str "false".
Definition ParseBool (s : bytes) : res bool :=
  if bool_decide (s ∈ [str "1"; str "t"; str "T"; str "TRUE"; str "true"; str "True"]) then Ok true
  else if bool_decide (s ∈ [str "0"; str "f"; str "F"; str "FALSE"; str "false"; str "False"]) then Ok false
  else Err (ErrText "invalid syntax").

(** The flag.Visit that sets the given flags again: [bound] is the configuration
    the flags point into, [c] the one that is set *)
Definition visitFlags (fl : Flags) (bound c : Config) : Config :=
  let c := if isSome (fl_addr fl) then c <| ListenAddr := ListenAddr bound |> else c in
  let c := if isSome (fl_maxConn fl) then
      match ParseInt (Itoa (MaxConnections bound)) 64 with Ok n => c <| MaxConnections := n |> | Err _ => c end else c in
  let c := if isSome (fl_tls fl) then
      match ParseBool (FormatBool (TLSEnabled bound)) with Ok b => c <| TLSEnabled := b |> | Err _ => c end else c in
  let c := if isSome (fl_tlsCert fl) then c <| TLSCertFile := TLSCertFile bound |> else c in
  let c := if isSome (fl_tlsKey fl) then c <| TLSKeyFile := TLSKeyFile bound |> else c in
  if isSome (fl_logLevel fl) then c <| LogLevel := LogLevel bound |> else c.

(** What main does after that *)
Definition finishConfig (fl : Flags) (c : Config) : Config :=
  let c := match fl_authFile fl with Some f => c <| AuthFile := f |> | None => c end in
  if TLSEnabled c && negb (isSome (fl_addr fl)) then c <| ListenAddr := str DefaultTLSListenAddr |> else c.

Section Config.
Context (fraction : Z -> Z -> Z -> Z) (ReadFile : bytes -> res bytes) (yamlUnmarshal : bytes -> Config -> res Config).
Context (env : string -> option bytes).

(** main, from flag.Parse to the configuration the broker gets.  Without a
    configuration file that is the object the flags point into; visiting the flags
    then writes to each field the value it has. *)
Definition mainConfig (fl : Flags) : res Config :=
  match ApplyEnv fraction env (bindFlags fl DefaultConfig) with
  | (Err e, _) => Err e
  | (Ok _, bound) =>
      cfg ← (if isEmpty (fl_config fl) then Ok bound else Load fraction ReadFile yamlUnmarshal env (fl_config fl));
      Ok (finishConfig fl (visitFlags fl bound cfg))
  end.
End Config.

(** stores.go, persistence: which stores are opened, and with what *)
Inductive persistence :=
  | MemoryPersistence
  | RedisPersistence (addr password : bytes) (db ttl : Z)
  | BadgerPersistence (path : bytes).

Section Stores.
(** The build tags store_redis and store_badger, and badger.Open *)
Context (store_redis store_badger : bool) (badgerOpen : bytes -> res unit).

Definition openRedisPersistence (c : Config) : res persistence :=
  if store_redis then Ok (RedisPersistence (RedisAddr c) (RedisPassword c) (RedisDB c) (SessionExpiryInterval c))
  else Err (ErrText "storage_backend is redis but this binary was built without the store_redis tag").

Definition openBadgerPersistence (c : Config) : res persistence :=
  if store_badger then _ ← badgerOpen (BadgerPath c); Ok (BadgerPersistence (BadgerPath c))
  else Err (ErrText "storage_backend is badger but this binary was built without the store_badger tag").

Definition openPersistence (c : Config) : res persistence :=
  if isEmpty (StorageBackend c) || isText (StorageBackend c) "memory" then Ok MemoryPersistence
  else if isText (StorageBackend c) "redis" then openRedisPersistence c
  else if isText (StorageBackend c) "badger" then openBadgerPersistence c
  else Err (ErrText "unknown storage_backend").
End Stores.

Section Main.
Context (fraction : Z -> Z -> Z -> Z) (ReadFile : bytes -> res bytes) (yamlUnmarshal : bytes -> Config -> res Config).
Context (env : string -> option bytes).
Context (jsonUsers yamlUsers : bytes -> res (list UserCredential)) (compare : bytes -> bytes -> bool).
Context (store_redis store_badger : bool) (badgerOpen : bytes -> res unit).

(** The switch of main that chooses the authenticator; [Err] is log.Fatalf or
    os.Exit *)
Definition chooseAuth (fl : Flags) (c : Config) : res Authenticator :=
  if fl_allowAll fl then Ok allowAllAuthenticator
  else if negb (isEmpty (AuthFile c)) then fa ← NewFileAuth ReadFile jsonUsers yamlUsers (AuthFile c); Ok (fileAuthenticate compare fa)
  else Err (ErrText "no authenticator configured").

(** main up to the construction of the broker *)
Definition mainSetup (fl : Flags) : res (Config * Authenticator * persistence) :=
  c ← mainConfig fraction ReadFile yamlUnmarshal env fl;
  a ← chooseAuth fl c;
  ps ← openPersistence store_redis store_badger badgerOpen c;
  Ok (c, a, ps).
End Main.

Section Options.
Context {SS MS RS : Type} `{SessionStore SS} `{MessageStore MS} `{RetainedStore RS}.

(** The options main passes to NewBroker; [stores] are those of the persistence *)
Definition mainOptions (Version : bytes) (c : Config) (a : Authenticator) (stores : option (SS * MS * RS)) : list (@ApiOption SS MS RS) :=
  [apiWithConfig (Some c); apiWithVersion Version; apiWithAuth (Some a)] ++
  match stores with
  | Some (s, m, r) => [apiWithSessionStore (Some s); apiWithMessageStore (Some m); apiWithRetainedStore (Some r)]
  | None => []
  end.
End Options.

(** ** The precedence of the sources *)

(** The fields a flag is bound to, and whether that flag is given *)
Definition given (fl : Flags) (f : structField) : bool :=
  existsb (fun '(b, key) => String.eqb (envKey f) key && b)
    [(isSome (fl_addr fl), "MQTT_LISTEN_ADDR"); (isSome (fl_maxConn fl), "MQTT_MAX_CONNECTIONS");
     (isSome (fl_tls fl), "MQTT_TLS_ENABLED"); (isSome (fl_tlsCert fl), "MQTT_TLS_CERT_FILE");
     (isSome (fl_tlsKey fl), "MQTT_TLS_KEY_FILE"); (isSome (fl_logLevel fl), "MQTT_LOG_LEVEL")].

(** The fields main names, by their place in the struct *)
Definition listenAddrField : structField := mkField "MQTT_LISTEN_ADDR" "listen_addr" KString ListenAddr (fun v c => c <| ListenAddr := v |>).
Definition maxConnField : structField := mkField "MQTT_MAX_CONNECTIONS" "max_connections" KInt MaxConnections (fun v c => c <| MaxConnections := v |>).
Definition tlsField : structField := mkField "MQTT_TLS_ENABLED" "tls_enabled" KBool TLSEnabled (fun v c => c <| TLSEnabled := v |>).
Definition tlsCertField : structField := mkField "MQTT_TLS_CERT_FILE" "tls_cert_file" KString TLSCertFile (fun v c => c <| TLSCertFile := v |>).
Definition tlsKeyField : structField := mkField "MQTT_TLS_KEY_FILE" "tls_key_file" KString TLSKeyFile (fun v c => c <| TLSKeyFile := v |>).
Definition logLevelField : structField := mkField "MQTT_LOG_LEVEL" "log_level" KString LogLevel (fun v c => c <| LogLevel := v |>).
Definition authFileField : structField := mkField "MQTT_AUTH_FILE" "auth_file" KString AuthFile (fun v c => c <| AuthFile := v |>).

(** A flag that is not given leaves its field at the default *)
Lemma bindFlags_other fl : Forall (fun f => given fl f = false -> forall c, f_get f (bindFlags fl c) = f_get f c) configFields.
Proof.
  unfold configFields. repeat (apply Forall_cons_2; [
    first [intros H c; reflexivity
          |intros H c; unfold given in H; cbn in H; unfold bindFlags;
           first [destruct (fl_addr fl); [cbn in H; discriminate H|reflexivity] | destruct (fl_maxConn fl); [cbn in H; discriminate H|reflexivity]
                 |destruct (fl_tls fl); [cbn in H; discriminate H|reflexivity] | destruct (fl_tlsCert fl); [cbn in H; discriminate H|reflexivity]
                 |destruct (fl_tlsKey fl); [cbn in H; discriminate H|reflexivity] | destruct (fl_logLevel fl); [cbn in H; discriminate H|reflexivity]]]|]).
  apply Forall_nil_2.
Qed.

Lemma field_in i g : configFields !! i = Some g -> g ∈ configFields.
Proof. intros H. apply list_elem_of_lookup. by exists i. Qed.

Lemma field_frame f g v c : f ∈ configFields -> g ∈ configFields -> envKey f <> envKey g -> f_get f (f_set g v c) = f_get f c.
Proof. intros Hf Hg. exact (fun H => proj1 (Forall_forall _ _) (proj1 (Forall_forall _ _) fields_frame g Hg) f Hf H v c). Qed.

(** Copying one field from the bound configuration *)
Lemma copy_field f i g (b : bool) bound c x :
  f ∈ configFields -> configFields !! i = Some g -> f_get f c = x ->
  f_get f (if b then f_set g (f_get g bound) c else c) = if String.eqb (envKey f) (envKey g) && b then f_get f bound else x.
Proof.
  intros Hf Hg%field_in <-. destruct (String.eqb_spec (envKey f) (envKey g)) as [E|E]; destruct b; cbn [andb]; try done.
  - rewrite (field_same_key f g Hf Hg E). apply (proj1 (Forall_forall _ _) fields_get_set g Hg).
  - by apply field_frame.
Qed.

Lemma ParseBool_FormatBool b : ParseBool (FormatBool b) = Ok b.
Proof. by destruct b. Qed.

Lemma visitFlags_field fl bound c f :
  f ∈ configFields -> - 2 ^ 63 <= MaxConnections bound < 2 ^ 63 ->
  f_get f (visitFlags fl bound c) = if given fl f then f_get f bound else f_get f c.
Proof.
  intros Hf Hn. unfold visitFlags. rewrite ParseInt_Itoa by exact Hn. rewrite ParseBool_FormatBool. unfold given.
  cbv zeta. etransitivity.
  { eapply (copy_field f 36 logLevelField _ bound _ _ Hf eq_refl). eapply (copy_field f 8 tlsKeyField _ bound _ _ Hf eq_refl).
    eapply (copy_field f 7 tlsCertField _ bound _ _ Hf eq_refl). eapply (copy_field f 6 tlsField _ bound _ _ Hf eq_refl).
    eapply (copy_field f 17 maxConnField _ bound _ _ Hf eq_refl). eapply (copy_field f 0 listenAddrField _ bound _ _ Hf eq_refl). reflexivity. }
  cbn [existsb envKey logLevelField tlsKeyField tlsCertField tlsField maxConnField listenAddrField].
  repeat match goal with |- context [?a && ?b] => destruct (a && b) end; reflexivity.
Qed.

(** What main does last touches two fields only *)
Lemma finishConfig_field fl c f :
  f ∈ configFields -> envKey f <> "MQTT_AUTH_FILE" ->
  (envKey f = "MQTT_LISTEN_ADDR" -> isSome (fl_addr fl) || negb (TLSEnabled c) = true) ->
  f_get f (finishConfig fl c) = f_get f c.
Proof.
  intros Hf Ha Hl. unfold finishConfig.
  set (c1 := match fl_authFile fl with Some x => c <| AuthFile := x |> | None => c end).
  assert (f_get f c1 = f_get f c) as <-.
  { unfold c1. destruct (fl_authFile fl) as [x|]; [|done].
    exact (field_frame f authFileField x c Hf (field_in 38 authFileField eq_refl) Ha). }
  assert (TLSEnabled c1 = TLSEnabled c) as -> by (unfold c1; by destruct (fl_authFile fl)).
  destruct (TLSEnabled c), (isSome (fl_addr fl)); cbn [andb negb orb] in *; try reflexivity.
  refine (field_frame f listenAddrField (str DefaultTLSListenAddr) c1 Hf (field_in 0 listenAddrField eq_refl) _). cbn [envKey]. intros E. discriminate (Hl E).
Qed.

Section Precedence.
Context (fraction : Z -> Z -> Z -> Z) (ReadFile : bytes -> res bytes) (yamlUnmarshal : bytes -> Config -> res Config).
Context (docValue : bytes -> forall f, option (kindType (f_kind f))) `{!YamlLaws yamlUnmarshal docValue}.
Context (env : string -> option bytes).
Let envv := envValue fraction env.
Let filev path := fileValue ReadFile docValue path.

(** The configuration before main's last steps *)
Lemma mainConfig_fields fl c :
  (forall n, fl_maxConn fl = Some n -> - 2 ^ 63 <= n < 2 ^ 63) ->
  mainConfig fraction ReadFile yamlUnmarshal env fl = Ok c ->
  exists c0, c = finishConfig fl c0 /\ forall f, f ∈ configFields ->
    f_get f c0 = if given fl f then default (f_get f (bindFlags fl DefaultConfig)) (envv f)
                 else default (default (f_get f DefaultConfig) (envv f)) (filev (fl_config fl) f).
Proof.
  intros Hn. unfold mainConfig, ApplyEnv. pose proof (loadEnv_spec fraction env (bindFlags fl DefaultConfig)) as Hb.
  destruct (loadEnv _ _ _) as [[u|e] bound]; [|done]. destruct Hb as [_ Hb].
  assert (- 2 ^ 63 <= MaxConnections bound < 2 ^ 63) as Hr.
  { pose proof (Hb maxConnField (field_in 17 maxConnField eq_refl)) as E. change (f_get maxConnField bound) with (MaxConnections bound) in E. rewrite E.
    assert (- 2 ^ 63 <= f_get maxConnField (bindFlags fl DefaultConfig) < 2 ^ 63) as Hd.
    { change (f_get maxConnField (bindFlags fl DefaultConfig)) with (default (MaxConnections DefaultConfig) (fl_maxConn fl)).
      destruct (fl_maxConn fl) as [n|]; [by apply Hn|]. vm_compute. split; congruence. }
    unfold envValue. cbn [envKey f_kind maxConnField]. destruct (env "MQTT_MAX_CONNECTIONS") as [s|]; [|exact Hd].
    cbn [mbind option_bind parseField]. destruct (ParseInt s 64) as [n|] eqn:Ep; [|exact Hd]. by apply (ParseInt_range s 64) in Ep. }
  set (l := if isEmpty _ then _ else _). assert (forall cfg, l = Ok cfg -> forall f, f ∈ configFields -> given fl f = false ->
    f_get f cfg = default (default (f_get f DefaultConfig) (envv f)) (filev (fl_config fl) f)) as Hl.
  { intros cfg E f Hf Hg. unfold l in E. unfold filev, fileValue. destruct (isEmpty (fl_config fl)) eqn:Ei.
    - injection E as <-. rewrite (Hb f Hf), (proj1 (Forall_forall _ _) (bindFlags_other fl) f Hf Hg). done.
    - pose proof (Load_spec fraction env ReadFile yamlUnmarshal docValue (fl_config fl)) as HL. rewrite E in HL. destruct HL as [_ HL].
      rewrite (HL f Hf). unfold fileValue. by rewrite Ei. }
  destruct l as [cfg|e]; cbn [mbind res_bind]; [|done]. intros [= <-]. eexists. split; [reflexivity|].
  intros f Hf. rewrite visitFlags_field by done. destruct (given fl f) eqn:Hg; [apply (Hb f Hf) | by apply Hl].
Qed.

(** C21: where a setting comes from.  A field no flag of the command line names gets
    its value from the file, else from the environment, else the default.  A flag
    that is given hides the file, but not the environment: a variable that is set
    for the same field wins over the flag.  The authentication file of the flag
    always wins.  With TLS on and no address flag the address is the default TLS
    address, whatever file and environment say. *)
Theorem command_line_precedence fl c :
  (forall n, fl_maxConn fl = Some n -> - 2 ^ 63 <= n < 2 ^ 63) ->
  mainConfig fraction ReadFile yamlUnmarshal env fl = Ok c ->
  (forall f, f ∈ configFields -> envKey f <> "MQTT_AUTH_FILE" ->
     (envKey f = "MQTT_LISTEN_ADDR" -> isSome (fl_addr fl) || negb (TLSEnabled c) = true) ->
     f_get f c = if given fl f then default (f_get f (bindFlags fl DefaultConfig)) (envValue fraction env f)
                 else default (default (f_get f DefaultConfig) (envValue fraction env f)) (fileValue ReadFile docValue (fl_config fl) f)) /\
  AuthFile c = default (default (default (AuthFile DefaultConfig) (envValue fraction env authFileField))
                          (fileValue ReadFile docValue (fl_config fl) authFileField)) (fl_authFile fl) /\
  (TLSEnabled c = true -> fl_addr fl = None -> ListenAddr c = str DefaultTLSListenAddr).
Proof.
  intros Hn Hc. destruct (mainConfig_fields fl c Hn Hc) as (c0 & -> & Hf).
  assert (TLSEnabled (finishConfig fl c0) = TLSEnabled c0) as Ht by (unfold finishConfig; destruct (fl_authFile fl); by case_match).
  split_and!.
  - intros f Hin Ha Hl. rewrite Ht in Hl. rewrite finishConfig_field by done. by apply Hf.
  - pose proof (Hf authFileField (field_in 38 authFileField eq_refl)) as E. unfold finishConfig.
    destruct (fl_authFile fl) as [x|]; [by destruct (TLSEnabled _ && _)|].
    transitivity (AuthFile c0); [by destruct (TLSEnabled _ && _) | exact E].
  - rewrite Ht. unfold finishConfig. intros E Ea. rewrite Ea. destruct (fl_authFile fl) as [x|]; cbn [isSome negb]; rewrite andb_true_r.
    + change (TLSEnabled (c0 <| AuthFile := x |>)) with (TLSEnabled c0). by rewrite E.
    + by rewrite E.
Qed.
End Precedence.

(** -tls on the command line and MQTT_TLS_ENABLED=no in the environment *)
Definition tlsFlags : Flags :=
  {| fl_config := str "c.yaml"; fl_addr := None; fl_maxConn := Some 7; fl_tls := Some true; fl_tlsCert := None; fl_tlsKey := None;
     fl_logLevel := None; fl_allowAll := true; fl_authFile := None |}.
Definition tlsEnv (key : string) : option bytes := if String.eqb key "MQTT_TLS_ENABLED" then Some (str "no") else None.
(** A YAML library that knows documents of one key, whose value switches TLS on *)
Definition tlsDocument (data : bytes) (f : structField) : option (kindType (f_kind f)) :=
  match f_kind f as k return option (kindType k) with
  | KBool => if String.eqb (envKey f) "MQTT_TLS_ENABLED" then Some true else None
  | _ => None
  end.
Definition tlsYaml (data : bytes) (c : Config) : res Config := Ok (c <| TLSEnabled := true |>).

Lemma tlsYaml_laws : YamlLaws tlsYaml tlsDocument.
Proof.
  intros data c c' [= <-]. apply Forall_forall. unfold configFields. repeat (apply Forall_cons_2; [reflexivity|]). apply Forall_nil_2.
Qed.

Lemma command_line_precedence_witness :
  exists c, mainConfig (fun _ _ _ => 0) (fun _ => Ok []) tlsYaml tlsEnv tlsFlags = Ok c /\ TLSEnabled c = false /\ MaxConnections c = 7.
Proof.
  destruct (mainConfig (fun _ _ _ => 0) (fun _ => Ok []) tlsYaml tlsEnv tlsFlags) as [c|e] eqn:E; [|vm_compute in E; discriminate].
  exists c. split; [done|].
  destruct (command_line_precedence (fun _ _ _ => 0) (fun _ => Ok []) tlsYaml tlsDocument (YamlLaws0 := tlsYaml_laws) tlsEnv tlsFlags c) as (H & _ & _);
    [by intros n [= <-] | exact E|].
  split.
  - refine (eq_trans (H tlsField (field_in 6 tlsField eq_refl) _ _) _); [discriminate | discriminate | vm_compute; reflexivity].
  - refine (eq_trans (H maxConnField (field_in 17 maxConnField eq_refl) _ _) _); [discriminate | discriminate | vm_compute; reflexivity].
Defined.

(** ** Starting closed *)

Section FailClosed.
Context {SS MS RS : Type} `{SessionStore SS} `{MessageStore MS} `{RetainedStore RS}.
Context (memorySessions : SS) (memoryMessages : MS) (memoryRetained : RS) (tls : Config -> res bool).
Context (fraction : Z -> Z -> Z -> Z) (ReadFile : bytes -> res bytes) (yamlUnmarshal : bytes -> Config -> res Config).
Context (env : string -> option bytes).
Context (jsonUsers yamlUsers : bytes -> res (list UserCredential)) (compare : bytes -> bytes -> bool).
Context (store_redis store_badger : bool) (badgerOpen : bytes -> res unit).

Lemma openPersistence_spec c ps :
  openPersistence store_redis store_badger badgerOpen c = Ok ps ->
  match ps with
  | MemoryPersistence => memoryBackend c = true
  | RedisPersistence _ _ _ ttl => memoryBackend c = false /\ StorageBackend c = str "redis" /\ store_redis = true /\ ttl = SessionExpiryInterval c
  | BadgerPersistence path => memoryBackend c = false /\ StorageBackend c = str "badger" /\ store_badger = true /\ badgerOpen path = Ok tt
  end.
Proof.
  unfold openPersistence, memoryBackend. destruct (isEmpty (StorageBackend c) || isText (StorageBackend c) "memory") eqn:Em; [by intros [= <-]|].
  destruct (isText (StorageBackend c) "redis") eqn:Er.
  - apply bool_decide_eq_true in Er. unfold openRedisPersistence. destruct store_redis; [|done]. by intros [= <-].
  - destruct (isText (StorageBackend c) "badger") eqn:Eb; [|done]. apply bool_decide_eq_true in Eb. unfold openBadgerPersistence.
    destruct store_badger; [|done]. destruct (badgerOpen (BadgerPath c)) as [[]|] eqn:Eo; [|done]. by intros [= <-].
Qed.

(** C22: the command starts closed.  When main gets as far as building a broker,
    either -allow-all was given, or an authentication file is configured, it loaded,
    and exactly its users are admitted, each with its password and, where the entry
    lists client ids, under one of them; the broker's authenticator is that one.  The stores are the memory stores
    exactly when the configuration asks for them; another backend is only used by a
    binary built with its tag, and the broker then does not fail for missing
    stores. *)
Theorem command_fails_closed Version fl c a ps (stores : option (SS * MS * RS)) :
  mainSetup fraction ReadFile yamlUnmarshal env jsonUsers yamlUsers compare store_redis store_badger badgerOpen fl = Ok (c, a, ps) ->
  (stores = None <-> ps = MemoryPersistence) ->
  let b := NewBroker memorySessions memoryMessages memoryRetained tls (mainOptions Version c a stores) in
  (fl_allowAll fl = true /\ a = allowAllAuthenticator \/
   fl_allowAll fl = false /\ AuthFile c <> [] /\
     exists fa, NewFileAuth ReadFile jsonUsers yamlUsers (AuthFile c) = Ok fa /\ a = fileAuthenticate compare fa /\
       forall clientID username password, a clientID username password = None <->
         exists x, x ∈ users fa /\ uc_Username x = username /\ passwordMatches compare (uc_Password x) password = true /\
           (uc_ClientIDs x = [] \/ clientID ∈ uc_ClientIDs x)) /\
  authenticator (Broker.opts (api_core b)) = Some a /\
  match ps with
  | MemoryPersistence => memoryBackend c = true
  | RedisPersistence _ _ _ ttl => StorageBackend c = str "redis" /\ store_redis = true /\ ttl = SessionExpiryInterval c
  | BadgerPersistence path => StorageBackend c = str "badger" /\ store_badger = true /\ badgerOpen path = Ok tt
  end /\
  (Validate c = [] -> api_initErr b = None).
Proof.
  unfold mainSetup. intros Hm Hs. apply res_bind_inv in Hm as (c0 & Hc & Hm). apply res_bind_inv in Hm as (a0 & Ha & Hm).
  apply res_bind_inv in Hm as (ps0 & Hp & Hm). injection Hm as -> -> ->. cbn zeta.
  apply openPersistence_spec in Hp. split_and!.
  - unfold chooseAuth in Ha. destruct (fl_allowAll fl); [left; by injection Ha as <-|]. right. split; [done|].
    destruct (isEmpty (AuthFile c)) eqn:Ee; [done|]. apply isEmpty_false in Ee. split; [done|].
    apply res_bind_inv in Ha as (fa & Hfa & [= <-]). exists fa. split_and!; [done..|]. intros. by apply (NewFileAuth_admits ReadFile jsonUsers yamlUsers (AuthFile c)).
  - destruct stores as [[[s m] r]|]; [exact (core_authenticator memorySessions memoryMessages memoryRetained c _)
                                     |exact (core_authenticator memorySessions memoryMessages memoryRetained c _)].
  - destruct ps; tauto.
  - intros Hv. unfold NewBroker. cbn [api_initErr]. set (o := foldl _ _ _). assert (bo_cfg o = Some c) as -> by (unfold o; by destruct stores as [[[s m] r]|]).
    change (default DefaultConfig (Some c)) with c. rewrite Hv. assert (negb (memoryBackend c) && noStores o = false) as ->; [|done].
    destruct stores as [[[s m] r]|]; [by rewrite andb_false_r|]. rewrite (proj1 Hs eq_refl) in Hp. by rewrite Hp.
Qed.
End FailClosed.

Definition authFlags : Flags :=
  {| fl_config := []; fl_addr := Some (str ":1883"); fl_maxConn := None; fl_tls := None; fl_tlsCert := None; fl_tlsKey := None;
     fl_logLevel := None; fl_allowAll := false; fl_authFile := Some (str "users.json") |}.
Definition oneUser (data : bytes) : res (list UserCredential) :=
  Ok [{| uc_Username := str "alice"; uc_Password := str "pw"; uc_ClientIDs := [] |}].

Lemma command_fails_closed_witness :
  exists c a, mainSetup (fun _ _ _ => 0) (fun _ => Ok []) tlsYaml (fun _ => None) oneUser oneUser (fun _ _ => false) false false
      (fun _ => Ok tt) authFlags = Ok (c, a, MemoryPersistence) /\
    a (str "id") (str "alice") (str "pw") = None /\ a (str "id") (str "mallory") (str "pw") <> None.
Proof.
  destruct (mainSetup (fun _ _ _ => 0) (fun _ => Ok []) tlsYaml (fun _ => None) oneUser oneUser (fun _ _ => false) false false
      (fun _ => Ok tt) authFlags) as [[[c a] ps]|e] eqn:E; [|vm_compute in E; discriminate].
  assert (ps = MemoryPersistence) as -> by (vm_compute in E; congruence).
  assert (AuthFile c = str "users.json") as Hc by (vm_compute in E; injection E as <- _; reflexivity).
  exists c, a. split; [done|].
  destruct (command_fails_closed NewSessionStore NewMessageStore NewRetainedStore (fun _ => Ok false) (fun _ _ _ => 0) (fun _ => Ok [])
    tlsYaml (fun _ => None) oneUser oneUser (fun _ _ => false) false false (fun _ => Ok tt) (str "dev") authFlags c a MemoryPersistence None E)
    as ([[? _]|(_ & _ & fa & Hfa & Ha & Hiff)] & _); [done | discriminate|].
  rewrite Hc in Hfa. vm_compute in Hfa. injection Hfa as Hfa. rewrite !Hiff, <- Hfa. split.
  - eexists. split; [apply list_elem_of_singleton; reflexivity|]. split_and!; [reflexivity.. | by left].
  - intros (x & ->%list_elem_of_singleton & Hu & _). vm_compute in Hu. discriminate.
Defined.
