(* ===== verification/WriteQueue.v ===== *)
(** * Writing to a connection: broker/client_state.go and broker/ws_conn.go

    The queue of a connection, its writer goroutine, the callers that wait for
    room, the final packet of a teardown, and the two transports: a socket and a
    WebSocket connection that sends one message per packet.  Producers, the writer
    and teardowns are interleaved as steps of a machine; a write either goes through
    or fails after part of its bytes, as the environment chooses. *)

From S2P Require Import Prelude Wire Spec Packets Codec RoundTrip.
Open Scope Z_scope.

(** ** Transports *)

(** What the writer uses of a net.Conn: writing, flushing when the connection frames
    packets, and, from the outside, how much the peer still takes ([None]: all of
    it) and what it has got so far *)
Class Transport (T : Type) := {
  t_writer :: Writer T;
  t_flush : option (M T unit);
  t_budget : option nat -> T -> T;
  t_data : T -> bytes;
  t_clean : T -> Prop;
}.

(** A socket *)
Record socket := { so_bytes : bytes; so_room : option nat }.

#[export] Instance socket_writer : Writer socket := fun b s =>
  match so_room s with
  | None => (Ok tt, {| so_bytes := so_bytes s ++ b; so_room := None |})
  | Some k =>
      if Nat.leb (length b) k then (Ok tt, {| so_bytes := so_bytes s ++ b; so_room := Some (k - length b)%nat |})
      else (Err (ErrText "write failed"), {| so_bytes := so_bytes s ++ take k b; so_room := Some 0%nat |})
  end.

#[export] Instance socket_transport : Transport socket := {|
  t_flush := None;
  t_budget room s := {| so_bytes := so_bytes s; so_room := room |};
  t_data := so_bytes;
  t_clean _ := True;
|}.

(** ws_conn.go, wsConn, its writing half: the buffer of one packet, the messages
    sent, and whether WriteMessage fails *)
Record wsWriter := { writeBuf : bytes; messages : list bytes; ws_failing : bool }.

(** ws_conn.go, (wsConn).Write and FlushPacket *)
Definition wsWrite (b : bytes) : M wsWriter unit := fun s =>
  (Ok tt, {| writeBuf := writeBuf s ++ b; messages := messages s; ws_failing := ws_failing s |}).
#[export] Instance ws_writer : Writer wsWriter := wsWrite.

Definition FlushPacket : M wsWriter unit := fun s =>
  match writeBuf s with
  | [] => (Ok tt, s)
  | buf =>
      if ws_failing s then (Err (ErrText "write failed"), s)
      else (Ok tt, {| writeBuf := []; messages := messages s ++ [buf]; ws_failing := ws_failing s |})
  end.

#[export] Instance ws_transport : Transport wsWriter := {|
  t_flush := Some FlushPacket;
  t_budget room s := {| writeBuf := writeBuf s; messages := messages s; ws_failing := match room with Some _ => true | None => false end |};
  t_data s := concat (messages s);
  t_clean s := writeBuf s = [];
|}.

(** ** The state of a connection *)

(** client_state.go, classifyWriteError: a packet over the peer's maximum is
    dropped, unless it is the CONNACK *)
Definition classifyWriteError (pkt : Packet) (r : res unit) : res unit :=
  match r with
  | Err ErrPacketTooLarge => match pkt with PConnAck _ => r | _ => Ok tt end
  | _ => r
  end.

(** A call of writeFinal: offering its request, waiting for the result, returned *)
Inductive FinalWrite :=
  | Requesting (pkt : Packet)
  | Requested (done : option bool)
  | Returned (sent : bool).

(** clientState with its goroutines: the codec, the connection, the channel out with
    its capacity, whether stopWrites is closed, whether writeLoop runs, whether the
    connection is open, the callers of writeOrEnqueue that have not sent yet and the
    calls of writeFinal.  The last three fields are history: what was put into the
    queue, what was written without error (with a mark for packets of the queue),
    and whether a write failed. *)
Record clientWriter (T : Type) := mkWriter {
  cw_codec : Codec;
  cw_conn : T;
  cw_out : list Packet;
  cw_cap : nat;
  stopWrites : bool;
  cw_running : bool;
  cw_open : bool;
  senders : gmap nat Packet;
  finals : gmap nat FinalWrite;
  queued : list Packet;
  written : list (bool * Packet);
  failed : bool;
}.
Arguments mkWriter {T}.
Arguments cw_codec {T}.
Arguments cw_conn {T}.
Arguments cw_out {T}.
Arguments cw_cap {T}.
Arguments stopWrites {T}.
Arguments cw_running {T}.
Arguments cw_open {T}.
Arguments senders {T}.
Arguments finals {T}.
Arguments queued {T}.
Arguments written {T}.
Arguments failed {T}.

#[export] Instance clientWriter_eta T : Eta (clientWriter T) := fun w =>
  mkWriter (cw_codec w) (cw_conn w) (cw_out w) (cw_cap w) (stopWrites w) (cw_running w) (cw_open w) (senders w) (finals w)
    (queued w) (written w) (failed w).

Section Writer.
Context {T : Type} `{Transport T}.
Implicit Types w : clientWriter T.

(** conn_lifecycle.go, the clientState of a new connection: a queue has room for at
    least one packet *)
Definition newWriter (c : Codec) (conn : T) (writeQueueSize : Z) : clientWriter T :=
  let qcap := if writeQueueSize <? 1 then 1 else writeQueueSize in
  mkWriter c conn [] (Z.to_nat qcap) false true true ∅ ∅ [] [] false.

(** client_state.go, writeOne; the deadline is part of what the environment chooses *)
Definition writeOne (pkt : Packet) : M (Codec * T) unit := fun '(c, t) =>
  let '(r, (c, t)) := Encode pkt (c, t) in
  match classifyWriteError pkt r with
  | Err e => (Err e, (c, t))
  | Ok _ =>
      match r with
      | Err _ => (Ok tt, (c, t))
      | Ok _ => match t_flush with Some flush => let '(r, t) := flush t in (r, (c, t)) | None => (Ok tt, (c, t)) end
      end
  end.

(** One write by the writer goroutine: [room] is what the peer takes; a closed
    connection takes nothing *)
Definition attempt (fromQueue : bool) (pkt : Packet) (room : option nat) w : bool * clientWriter T :=
  let room := if cw_open w then room else Some 0%nat in
  let '(r, (c, t)) := writeOne pkt (cw_codec w, t_budget room (cw_conn w)) in
  let w := w <| cw_codec := c |> <| cw_conn := t |> in
  match r with
  | Ok _ => (true, w <| written := written w ++ [(fromQueue, pkt)] |>)
  | Err _ => (false, w <| failed := true |>)
  end.

(** client_state.go, stopWriter: the sync.Once makes a second call a no-op *)
Definition stopWriter w : clientWriter T := w <| stopWrites := true |>.

Inductive Action :=
  | CallEnqueue (i : nat) (pkt : Packet)
  | SendOut (i : nat)
  | SendStopped (i : nat)
  | Offer (pkt : Packet) (preferStop : bool)
  | CallFinal (i : nat) (pkt : Packet)
  | FinalStopped (i : nat)
  | FinalTimer (i : nat)
  | FinalResult (i : nat)
  | WriterTakes (room : option nat)
  | WriterServes (i : nat) (room : option nat)
  | WriterStops
  | CallStop
  | CloseConn.

(** client_state.go, writeOrEnqueue, at its select *)
Definition sendOut (i : nat) w : option (clientWriter T) :=
  pkt ← senders w !! i;
  if Nat.ltb (length (cw_out w)) (cw_cap w)
  then Some (w <| cw_out := cw_out w ++ [pkt] |> <| queued := queued w ++ [pkt] |> <| senders := delete i (senders w) |>)
  else None.

(** pub_sub.go, the select of writePacket for a QoS 0 PUBLISH: which of two ready
    cases is taken is open *)
Definition offer (pkt : Packet) (preferStop : bool) w : clientWriter T :=
  if stopWrites w && (preferStop || negb (Nat.ltb (length (cw_out w)) (cw_cap w))) then w
  else if Nat.ltb (length (cw_out w)) (cw_cap w) then w <| cw_out := cw_out w ++ [pkt] |> <| queued := queued w ++ [pkt] |>
  else w.

(** client_state.go, writeLoop, the case of the queue *)
Definition writerTakes (room : option nat) w : option (clientWriter T) :=
  if negb (cw_running w) then None
  else
    match cw_out w with
    | [] => None
    | pkt :: rest =>
        match attempt true pkt room (w <| cw_out := rest |>) with
        | (true, w) => Some w
        | (false, w) => Some (stopWriter (w <| cw_open := false |> <| cw_running := false |>))
        end
    end.

(** client_state.go, writeLoop, the case of a writeFinal request *)
Definition writerServes (i : nat) (room : option nat) w : option (clientWriter T) :=
  if negb (cw_running w) then None
  else
    match finals w !! i with
    | Some (Requesting pkt) => let '(ok, w) := attempt false pkt room w in Some (w <| finals := <[i := Requested (Some ok)]> (finals w) |>)
    | _ => None
    end.

Definition step (a : Action) w : option (clientWriter T) :=
  match a with
  | CallEnqueue i pkt => if bool_decide (is_Some (senders w !! i)) then None else Some (w <| senders := <[i := pkt]> (senders w) |>)
  | SendOut i => sendOut i w
  | SendStopped i => if stopWrites w && bool_decide (is_Some (senders w !! i)) then Some (w <| senders := delete i (senders w) |>) else None
  | Offer pkt preferStop => Some (offer pkt preferStop w)
  | CallFinal i pkt => if bool_decide (is_Some (finals w !! i)) then None else Some (w <| finals := <[i := Requesting pkt]> (finals w) |>)
  | FinalStopped i =>
      match finals w !! i with
      | Some (Requesting _ | Requested _) => if stopWrites w then Some (w <| finals := <[i := Returned false]> (finals w) |>) else None
      | _ => None
      end
  | FinalTimer i =>
      match finals w !! i with
      | Some (Requesting _ | Requested _) => Some (w <| finals := <[i := Returned false]> (finals w) |>)
      | _ => None
      end
  | FinalResult i =>
      match finals w !! i with
      | Some (Requested (Some ok)) => Some (w <| finals := <[i := Returned ok]> (finals w) |>)
      | _ => None
      end
  | WriterTakes room => writerTakes room w
  | WriterServes i room => writerServes i room w
  | WriterStops => if cw_running w && stopWrites w then Some (w <| cw_running := false |>) else None
  | CallStop => Some (stopWriter w)
  | CloseConn => Some (w <| cw_open := false |>)
  end.

Fixpoint run (acts : list Action) w : option (clientWriter T) :=
  match acts with
  | [] => Some w
  | a :: acts => w ← step a w; run acts w
  end.
End Writer.

(** ** Reading from a WebSocket *)

Inductive wsMessage := BinaryMessage (data : bytes) | TextMessage (data : bytes).

(** ws_conn.go, wsConn, its reading half: the messages to come and the error after
    them, the rest of the current message, and the sticky error *)
Record wsReader := mkWsReader { incoming : list wsMessage; closeErr : err; reader : option bytes; stickyErr : option err }.

#[export] Instance wsReader_eta : Eta wsReader := fun c => mkWsReader (incoming c) (closeErr c) (reader c) (stickyErr c).

Section Read.
(** The message reader of the WebSocket library: how many of the bytes left it
    returns for a buffer of [n] bytes, and whether it reports the end of the message *)
Context (readMessage : bytes -> nat -> nat * bool).

(** One pass of the loop of Read over a current message: [None] goes round again *)
Definition readCurrent (rest : bytes) (n : nat) (c : wsReader) : option (res bytes * wsReader) :=
  let '(k, eof) := readMessage rest n in
  if eof then if Nat.ltb 0 k then Some (Ok (take k rest), c <| reader := None |>) else None
  else Some (Ok (take k rest), c <| reader := Some (drop k rest) |>).

(** The loop of Read from NextReader on *)
Fixpoint readNext (msgs : list wsMessage) (n : nat) (c : wsReader) : res bytes * wsReader :=
  match msgs with
  | [] => (Err (closeErr c), c <| incoming := [] |> <| reader := None |> <| stickyErr := Some (closeErr c) |>)
  | TextMessage _ :: msgs =>
      let e := ErrText "broker: MQTT-over-WebSocket requires binary frames" in
      (Err e, c <| incoming := msgs |> <| reader := None |> <| stickyErr := Some e |>)
  | BinaryMessage data :: msgs =>
      match readCurrent data n (c <| incoming := msgs |>) with
      | Some r => r
      | None => readNext msgs n c
      end
  end.

(** ws_conn.go, (wsConn).Read *)
Definition wsRead (n : nat) (c : wsReader) : res bytes * wsReader :=
  match stickyErr c with
  | Some e => (Err e, c)
  | None =>
      match reader c with
      | Some rest => match readCurrent rest n c with Some r => r | None => readNext (incoming c) n c end
      | None => readNext (incoming c) n c
      end
  end.
End Read.
