(* ===== verification/WriteQueueProps.v ===== *)
(** * What reaches the peer of a connection

    The packets a connection's writer puts on the wire, for every interleaving of
    producers, teardowns and the writer, on both transports; and that no producer
    waits for ever. *)

From S2P Require Import Prelude Wire Spec Packets Codec CodecProofs RoundTrip WriteQueue.
Open Scope Z_scope.

(** ** Encoding into any writer *)

(** Encode is a choice, made on the codec and the packet alone, between an error and
    a sequence of writes. *)
Lemma Encode_chunks p c :
  codec_ok c -> encodeVersion p c = c ->
  exists r0 : res (list bytes), forall (W : Type) (H : Writer W) (x : W),
    Encode p (c, x) = match r0 with
                      | Err e => (Err e, (c, x))
                      | Ok ws => let '(r, x') := writeAll ws x in (r, (c, x'))
                      end.
Proof.
  intros Hc Hv.
  set (r1 := match validateFixedHeaderFlags (GetFixedHeader p) with Err e => Err e | Ok _ => encodePacket c p end).
  assert (forall (W : Type) (H : Writer W) (x : W), encodeTo p (c, x) =
    match r1 with Err e => (Err e, (c, x)) | Ok ws => let '(r, x') := writeAll ws x in (r, (c, x')) end) as K.
  { intros W H x. unfold encodeTo, r1. rewrite syncSpec_id by done. rewrite Hv. by destruct (validateFixedHeaderFlags _). }
  destruct (outboundMax c <=? 0) eqn:Em.
  - exists r1. intros W H x. unfold Encode. rewrite Em. apply K.
  - exists (match r1 with
            | Err e => Err e
            | Ok ws => let buf := snd (writeAll (W := bytes) ws []) in
                       if outboundMax c <? len buf then Err ErrPacketTooLarge else Ok [buf]
            end).
    intros W H x. unfold Encode. rewrite Em, K. destruct r1 as [ws|e]; [|done].
    assert (exists buf, writeAll (W := bytes) ws [] = (Ok tt, buf)) as [buf E].
    { clear. assert (forall acc, exists buf, writeAll (W := bytes) ws acc = (Ok tt, buf)) as K; [|apply K].
      induction ws as [|b ws IH]; intros acc; cbn; [by eexists | apply IH]. }
    rewrite E. cbn [snd]. destruct (outboundMax c <? len buf); [done|].
    cbn [writeAll]. unfold mbind, M_bind. by destruct (write buf x) as [[[]|] ?].
Qed.

(** The bytes of a packet, none for one the codec refuses *)
Definition frameOf (c : Codec) (p : Packet) : bytes := snd (snd (Encode (W := bytes) p (c, []))).
Definition sendable (c : Codec) (p : Packet) : bool := match fst (Encode (W := bytes) p (c, [])) with Ok _ => true | Err _ => false end.

Lemma writeAll_concat ws acc : writeAll (W := bytes) ws acc = (Ok tt, acc ++ concat ws).
Proof.
  revert acc. induction ws as [|b ws IH]; intros acc; cbn [writeAll concat]; [by rewrite app_nil_r|].
  unfold mbind, M_bind. cbn. by rewrite IH, <- app_assoc.
Qed.

(** ** What the writer relies on of a transport *)

(** Sending one packet as a sequence of writes and, where the transport frames, a
    flush *)
Definition send `{Transport T} (ws : list bytes) : M T unit := fun t =>
  let '(r, t) := writeAll ws t in
  match r with
  | Err e => (Err e, t)
  | Ok _ => match t_flush with Some flush => flush t | None => (Ok tt, t) end
  end.

Class TransportLaws (T : Type) `{Transport T} := {
  tl_budget_data room t : t_data (t_budget room t) = t_data t;
  tl_budget_clean room t : t_clean t -> t_clean (t_budget room t);
  tl_send ws t r t' : t_clean t -> send ws t = (r, t') ->
    match r with
    | Ok _ => t_data t' = t_data t ++ concat ws /\ t_clean t'
    | Err e => e <> ErrPacketTooLarge /\ exists k, t_data t' = t_data t ++ take k (concat ws)
    end;
}.

Lemma socket_writeAll ws s r s' :
  writeAll ws s = (r, s') ->
  match r with
  | Ok _ => so_bytes s' = so_bytes s ++ concat ws
  | Err e => e <> ErrPacketTooLarge /\ exists k, so_bytes s' = so_bytes s ++ take k (concat ws)
  end.
Proof.
  revert s. induction ws as [|b ws IH]; intros s; cbn [writeAll concat].
  { intros [= <- <-]. by rewrite app_nil_r. }
  unfold mbind, M_bind, write, socket_writer. destruct (so_room s) as [k|].
  - destruct (Nat.leb_spec (length b) k) as [Hk|Hk].
    + intros E%IH. cbn [so_bytes] in E. destruct r; [by rewrite <- app_assoc in E|].
      destruct E as [He [j E]]. split; [done|]. exists (length b + j)%nat. rewrite E, <- app_assoc, take_app_add. done.
    + intros [= <- <-]. split; [done|]. exists k. cbn [so_bytes]. by rewrite take_app_le by lia.
  - intros E%IH. cbn [so_bytes] in E. destruct r; [by rewrite <- app_assoc in E|].
    destruct E as [He [j E]]. split; [done|]. exists (length b + j)%nat. by rewrite E, <- app_assoc, take_app_add.
Qed.

#[export] Instance socket_laws : TransportLaws socket.
Proof.
  split; [done | done|]. intros ws t r t' _. unfold send. destruct (writeAll ws t) as [r1 t1] eqn:E. apply socket_writeAll in E.
  cbn [t_flush socket_transport]. destruct r1; intros [= <- <-]; done.
Qed.

Lemma ws_writeAll ws (s : wsWriter) :
  writeAll ws s = (Ok tt, {| writeBuf := writeBuf s ++ concat ws; messages := messages s; ws_failing := ws_failing s |}).
Proof.
  revert s. induction ws as [|b ws IH]; intros s; cbn [writeAll concat]; [rewrite app_nil_r; by destruct s|].
  unfold mbind, M_bind, write, ws_writer, wsWrite. rewrite IH. cbn [writeBuf messages ws_failing]. by rewrite <- app_assoc.
Qed.

#[export] Instance ws_laws : TransportLaws wsWriter.
Proof.
  split; [done | done|]. intros ws t r t' Hc. unfold send. rewrite ws_writeAll. cbn [t_flush ws_transport] in *.
  cbn in Hc. rewrite Hc. unfold FlushPacket. cbn [writeBuf messages ws_failing app]. destruct (concat ws) as [|b buf] eqn:Ec.
  - intros [= <- <-]. cbn. by rewrite app_nil_r.
  - destruct (ws_failing t); intros [= <- <-]; cbn.
    + split; [done|]. exists 0%nat. by rewrite app_nil_r.
    + split; [|done]. rewrite concat_app. cbn. by rewrite app_nil_r.
Qed.

Section Interface.
Context {T : Type} `{TransportLaws T}.

Lemma Encode_send p c :
  codec_ok c -> encodeVersion p c = c ->
  (sendable c p = true /\ exists ws, concat ws = frameOf c p /\ forall (W : Type) (HW : Writer W) (x : W),
     Encode p (c, x) = let '(r, x') := writeAll ws x in (r, (c, x'))) \/
  (sendable c p = false /\ frameOf c p = [] /\ exists e, forall (W : Type) (HW : Writer W) (x : W), Encode p (c, x) = (Err e, (c, x))).
Proof.
  intros Hc Hv. destruct (Encode_chunks p c Hc Hv) as [r0 K]. unfold sendable, frameOf. rewrite K. destruct r0 as [ws|e].
  - left. rewrite writeAll_concat. split; [done|]. by exists ws.
  - right. split_and!; [done..|]. by exists e.
Qed.

(** One write: all of the packet's bytes or an error and a part of them *)
Lemma writeOne_spec p c t r c' t' :
  codec_ok c -> encodeVersion p c = c -> t_clean t -> writeOne p (c, t) = (r, (c', t')) ->
  c' = c /\
  match r with
  | Ok _ => t_data t' = t_data t ++ frameOf c p /\ t_clean t'
  | Err _ => exists k, t_data t' = t_data t ++ take k (frameOf c p)
  end.
Proof.
  intros Hc Hv Ht. unfold writeOne. destruct (Encode_send p c Hc Hv) as [(_ & ws & Hws & K)|(_ & Hf & e & K)]; rewrite K.
  - pose proof (fun r t' => tl_send ws t r t' Ht) as S. unfold send in S. rewrite Hws in S.
    destruct (writeAll ws t) as [[[]|e] t1].
    + cbn [classifyWriteError]. destruct t_flush as [fl|]; [destruct (fl t1) as [r2 t2]|]; intros [= <- <- <-]; (split; [done|]);
        pose proof (S _ _ eq_refl) as S'; [destruct r2; tauto | exact S'].
    + destruct (S _ _ eq_refl) as [Hne [k S']]. assert (classifyWriteError p (Err e) = Err e) as -> by by destruct e.
      intros [= <- <- <-]. split; [done|]. by exists k.
  - assert (forall x : bytes, exists k, x = x ++ take k (frameOf c p)) as Z by (intros x; exists 0%nat; by rewrite app_nil_r).
    destruct (classifyWriteError p (Err e)) as [u|e']; intros [= <- <- <-]; (split; [done|]); [|apply Z].
    by rewrite Hf, app_nil_r.
Qed.

Lemma writeOne_codec p c t : codec_ok c -> encodeVersion p c = c -> fst (snd (writeOne p (c, t))) = c.
Proof.
  intros Hc Hv. unfold writeOne. destruct (Encode_send p c Hc Hv) as [(_ & ws & _ & K)|(_ & _ & e & K)]; rewrite K.
  - destruct (writeAll ws t) as [r1 t1]. destruct (classifyWriteError p r1); [|done]. destruct r1; [|done].
    destruct t_flush as [fl|]; [|done]. by destruct (fl t1).
  - by destruct (classifyWriteError p (Err e)).
Qed.

(** ** The invariant *)

(** [good] holds of the packets the callers hand over; none of them is a CONNECT *)
Context (good : Packet -> Prop) (c : Codec).
Hypothesis good_version : forall p, good p -> encodeVersion p c = c.
Hypothesis codec_good : codec_ok c.

Definition actionPacket (a : Action) : option Packet :=
  match a with CallEnqueue _ p | Offer p _ | CallFinal _ p => Some p | _ => None end.

Definition fromQueue (l : list (bool * Packet)) : list Packet := snd <$> base.filter (fun x => fst x = true) l.

(** The stream so far *)
Record stream_inv (w : clientWriter T) : Prop := {
  si_codec : cw_codec w = c;
  si_data : failed w = false -> t_clean (cw_conn w) /\ t_data (cw_conn w) = concat (frameOf c <$> (snd <$> written w));
  si_written : Forall good (snd <$> written w);
}.

Record writer_inv (w : clientWriter T) : Prop := {
  wi_stream : stream_inv w;
  wi_order : exists lost, queued w = fromQueue (written w) ++ lost ++ cw_out w /\ (length lost <= 1)%nat /\
    (lost <> [] -> failed w = true /\ cw_open w = false /\ cw_running w = false);
  wi_stopped : cw_running w = false -> stopWrites w = true;
  wi_out : Forall good (cw_out w);
  wi_senders : map_Forall (fun _ p => good p) (senders w);
  wi_finals : map_Forall (fun _ f => match f with Requesting p => good p | _ => True end) (finals w);
}.

Lemma fromQueue_app l x : fromQueue (l ++ [x]) = fromQueue l ++ (if fst x then [snd x] else []).
Proof.
  unfold fromQueue. rewrite filter_app, fmap_app. f_equal. by destruct x as [[] p].
Qed.

(** What one write changes *)
Record attempted (q : bool) (p : Packet) (ok : bool) (w w' : clientWriter T) : Prop := {
  at_codec : cw_codec w' = c;
  at_out : cw_out w' = cw_out w;
  at_cap : cw_cap w' = cw_cap w;
  at_stop : stopWrites w' = stopWrites w;
  at_running : cw_running w' = cw_running w;
  at_open : cw_open w' = cw_open w;
  at_senders : senders w' = senders w;
  at_finals : finals w' = finals w;
  at_queued : queued w' = queued w;
  at_written : written w' = written w ++ (if ok then [(q, p)] else []);
  at_failed : failed w' = negb ok || failed w;
  at_data : failed w' = false -> t_clean (cw_conn w') /\ t_data (cw_conn w') = t_data (cw_conn w) ++ frameOf c p;
}.

Lemma attempt_spec q p room w ok w' :
  good p -> cw_codec w = c -> (failed w = false -> t_clean (cw_conn w)) -> attempt q p room w = (ok, w') -> attempted q p ok w w'.
Proof.
  intros Hg Hc Hcl. unfold attempt. set (room' := if cw_open w then room else Some 0%nat). rewrite Hc.
  destruct (writeOne p (c, t_budget room' (cw_conn w))) as [r [c' t']] eqn:E.
  assert (c' = c) as ->.
  { pose proof (writeOne_codec p c (t_budget room' (cw_conn w)) codec_good (good_version p Hg)) as K. by rewrite E in K. }
  destruct r as [u|e]; intros [= <- <-]; split; try reflexivity; [|by rewrite app_nil_r | discriminate].
  change (failed w = false -> t_clean t' /\ t_data t' = t_data (cw_conn w) ++ frameOf c p). intros Hf.
  destruct (writeOne_spec p c _ _ _ _ codec_good (good_version p Hg) (tl_budget_clean room' _ (Hcl Hf)) E) as [_ [Hd Hcl']].
  by rewrite tl_budget_data in Hd.
Qed.

Lemma inv_push p w : good p -> writer_inv w -> writer_inv (w <| cw_out := cw_out w ++ [p] |> <| queued := queued w ++ [p] |>).
Proof.
  intros Hp [[I0 I1 I2] (lost & Ho & Hl & Hf) I4 I5 I6 I7]. split; try assumption; [by split|..].
  - exists lost. split; [|done]. change (queued w ++ [p] = fromQueue (written w) ++ lost ++ cw_out w ++ [p]). by rewrite Ho, <- !app_assoc.
  - change (Forall good (cw_out w ++ [p])). apply Forall_app. split; [done | by constructor].
Qed.

Lemma inv_senders m w : map_Forall (fun _ p => good p) m -> writer_inv w -> writer_inv (w <| senders := m |>).
Proof. intros Hm [[I0 I1 I2] I3 I4 I5 I6 I7]. by split. Qed.

Lemma inv_finals i f w :
  match f with Requesting p => good p | _ => True end -> writer_inv w -> writer_inv (w <| finals := <[i := f]> (finals w) |>).
Proof. intros Hf [[I0 I1 I2] I3 I4 I5 I6 I7]. split; try assumption; [by split|]. by apply map_Forall_insert_2. Qed.

Lemma inv_stop w : writer_inv w -> writer_inv (stopWriter w).
Proof. intros [[I0 I1 I2] I3 I4 I5 I6 I7]. by split. Qed.

(** While the writer runs, nothing it took is missing *)
Lemma inv_running w : writer_inv w -> cw_running w = true -> queued w = fromQueue (written w) ++ cw_out w.
Proof.
  intros I Hr. destruct (wi_order w I) as (lost & Ho & _ & Hl). destruct lost as [|x lost]; [done|].
  destruct (Hl ltac:(done)) as (_ & _ & ?). congruence.
Qed.

Lemma stream_attempt q p room w ok w' :
  good p -> stream_inv w -> attempt q p room w = (ok, w') -> attempted q p ok w w' /\ stream_inv w'.
Proof.
  intros Hg [I1 I2 I3] E. pose proof (attempt_spec q p room w ok w' Hg I1 (fun Hf => proj1 (I2 Hf)) E) as A.
  split; [done|]. split; [apply A| |]; rewrite (at_written _ _ _ _ _ A), !fmap_app.
  - intros Hf. destruct (at_data _ _ _ _ _ A Hf) as [Hcl Hd]. split; [done|].
    rewrite (at_failed _ _ _ _ _ A) in Hf. destruct ok; [|done]. cbn in Hf. destruct (I2 Hf) as [_ Hd0].
    rewrite Hd, Hd0, concat_app. cbn. by rewrite app_nil_r.
  - apply Forall_app. split; [done|]. destruct ok; repeat constructor. done.
Qed.

Lemma inv_takes room w w' : writer_inv w -> writerTakes room w = Some w' -> writer_inv w'.
Proof.
  unfold writerTakes. destruct (cw_running w) eqn:Er; [|done]. cbn [negb]. destruct (cw_out w) as [|p rest] eqn:Eo; [done|].
  intros I. pose proof (inv_running w I Er) as Hq. destruct I as [[I0 I1 I2] _ I4 I5 I6 I7]. rewrite Eo in Hq, I5.
  apply Forall_cons in I5 as [Hp Hrest]. destruct (attempt true p room (w <| cw_out := rest |>)) as [ok w1] eqn:E.
  assert (stream_inv (w <| cw_out := rest |>)) as S0 by (split; [exact I0 | exact I1 | exact I2]).
  destruct (stream_attempt true p room (w <| cw_out := rest |>) ok w1 Hp S0 E) as [[] S]. clear S0.
  destruct ok; intros [= <-].
  - split; [done | | | by rewrite at_out0 | by rewrite at_senders0 | by rewrite at_finals0].
    + exists []. rewrite at_queued0, at_written0, at_out0, fromQueue_app. cbn [fst snd]. split_and!; [|cbn; lia|done].
      change (queued w = (fromQueue (written w) ++ [p]) ++ [] ++ rest). by rewrite Hq, <- app_assoc.
    + rewrite at_running0. change (cw_running w = false -> stopWrites w1 = true). congruence.
  - destruct S as [S0 S1 S2]. split; [by split | | done | change (Forall good (cw_out w1)); by rewrite at_out0
      | change (map_Forall (fun _ p => good p) (senders w1)); by rewrite at_senders0
      | change (map_Forall (fun _ f => match f with Requesting p => good p | _ => True end) (finals w1)); by rewrite at_finals0].
    exists [p]. split_and!; [|done|done].
    change (queued w1 = fromQueue (written w1) ++ [p] ++ cw_out w1). rewrite at_queued0, at_written0, at_out0, app_nil_r. exact Hq.
Qed.

Lemma inv_serves i room w w' : writer_inv w -> writerServes i room w = Some w' -> writer_inv w'.
Proof.
  unfold writerServes. destruct (cw_running w) eqn:Er; [|done]. cbn [negb]. destruct (finals w !! i) as [[p| |]|] eqn:Ei; [|done..].
  intros I. pose proof (inv_running w I Er) as Hq. assert (good p) as Hp by exact (wi_finals w I i _ Ei).
  destruct (attempt false p room w) as [ok w1] eqn:E. intros [= <-].
  destruct (stream_attempt false p room w ok w1 Hp (wi_stream w I) E) as [[] S].
  apply inv_finals; [done|]. split; [done | | | rewrite at_out0; apply I | rewrite at_senders0; apply I | rewrite at_finals0; apply I].
  - exists []. rewrite at_queued0, at_written0, at_out0. split_and!; [|cbn; lia|done].
    destruct ok; [rewrite fromQueue_app; cbn [fst]|]; by rewrite app_nil_r.
  - rewrite at_running0. congruence.
Qed.

Lemma inv_step a w w' :
  (forall p, actionPacket a = Some p -> good p) -> writer_inv w -> step a w = Some w' -> writer_inv w'.
Proof.
  intros Ha I. destruct a; cbn [step].
  - case_bool_decide; [done|]. intros [= <-]. apply inv_senders; [|done]. apply map_Forall_insert_2; [by apply Ha | apply I].
  - unfold sendOut. destruct (senders w !! i) as [p|] eqn:Ei; [|done]. cbn. case_match; [|done]. intros [= <-].
    apply (inv_senders (delete i (senders w)) (w <| cw_out := cw_out w ++ [p] |> <| queued := queued w ++ [p] |>)).
    + apply map_Forall_delete, I.
    + apply inv_push; [by apply (wi_senders w I i) | done].
  - case_match; [|done]. intros [= <-]. apply inv_senders; [apply map_Forall_delete, I | done].
  - intros [= <-]. unfold offer. repeat case_match; try done. by apply inv_push; [apply Ha|].
  - case_bool_decide; [done|]. intros [= <-]. by apply inv_finals; [apply Ha|].
  - destruct (finals w !! i) as [[p|d|d]|]; try done; (destruct (stopWrites w); [|done]); intros [= <-]; by apply inv_finals.
  - destruct (finals w !! i) as [[p|d|d]|]; try done; intros [= <-]; by apply inv_finals.
  - destruct (finals w !! i) as [[p|[ok|]|d]|]; try done; intros [= <-]; by apply inv_finals.
  - by apply inv_takes.
  - by apply inv_serves.
  - destruct (cw_running w) eqn:Er; [|done]. destruct (stopWrites w) eqn:Es; [|done]. intros [= <-].
    destruct I as [[I0 I1 I2] (lost & Ho & Hl & Hf) I4 I5 I6 I7]. split; try assumption; [by split| |done]. exists lost. split_and!; [done..|].
    intros Hne. destruct (Hf Hne) as (? & ? & ?). done.
  - intros [= <-]. by apply inv_stop.
  - intros [= <-]. destruct I as [[I0 I1 I2] (lost & Ho & Hl & Hf) I4 I5 I6 I7]. split; try assumption; [by split|]. exists lost. split_and!; [done..|].
    intros Hne. destruct (Hf Hne) as (? & ? & ?). done.
Qed.

Lemma inv_run acts w w' :
  Forall (fun a => forall p, actionPacket a = Some p -> good p) acts -> writer_inv w -> run acts w = Some w' -> writer_inv w'.
Proof.
  intros Ha. revert w. induction Ha as [|a acts Ha _ IH]; intros w I; cbn [run]; [by intros [= <-]|].
  destruct (step a w) as [w1|] eqn:E; [|done]. cbn. by apply IH, (inv_step a w).
Qed.

Lemma inv_new conn cap : t_clean conn -> t_data conn = [] -> writer_inv (newWriter c conn cap).
Proof.
  intros Hc Hd. split; [split; [done | by intros _ | exact (Forall_nil_2 good)] | exists []; split_and!; [done | cbn; lia | done] | done | exact (Forall_nil_2 good) | apply map_Forall_empty | apply map_Forall_empty].
Qed.
End Interface.

(** ** Decoding the stream *)

Fixpoint decodeN (n : nat) : M (Codec * bytes) (list Packet) :=
  match n with
  | O => mret []
  | S n => p ← Decode; ps ← decodeN n; mret (p :: ps)
  end.

(** A packet the broker may hand to a connection with codec [c] and a peer that
    reads at most [max] bytes per packet: no CONNECT, well formed, not too long *)
Definition deliverable (c : Codec) (max : Z) (p : Packet) : Prop :=
  packet_type p <> PacketTypeConnect /\ packet_wf c p = true /\ len (frameOf c p) <= 268435456 /\ len (frameOf c p) <= max.

Lemma deliverable_version c max p : deliverable c max p -> encodeVersion p c = c.
Proof. intros (Ht & _). by destruct p. Qed.

(** The peer sees the packet again, its header set from the wire *)
Definition received (c : Codec) (p q : Packet) : Prop := exists h, q = norm_packet c h p /\ PacketType h = packet_type p.

Lemma decode_stream c d max ps :
  codec_ok c -> codec_ok d -> protocolVersion d = protocolVersion c -> maxPacketSize d = max ->
  Forall (deliverable c max) ps ->
  exists qs, decodeN (length (base.filter (fun p => sendable c p = true) ps)) (d, concat (frameOf c <$> ps)) = (Ok qs, (d, [])) /\
    Forall2 (received c) (base.filter (fun p => sendable c p = true) ps) qs.
Proof.
  intros Hc Hd Hv Hm. induction 1 as [|p ps Hp _ (qs & IH & Hq)]; [by exists []|].
  pose proof (deliverable_version c max p Hp) as Hpv. destruct Hp as (Ht & Hw & Hl1 & Hl2).
  destruct (Encode_send p c Hc Hpv) as [(Hs & ws & Hws & K)|(Hs & Hf & _)].
  - rewrite filter_cons_True by done. cbn [length decodeN fmap list_fmap concat].
    destruct (encode_decode c d p c (frameOf c p) (concat (frameOf c <$> ps))) as (h & Hh & _ & _ & _ & E); try done.
    + by left.
    + rewrite K, writeAll_concat, Hws. done.
    + by rewrite Hm.
    + assert (encodeVersion p d = d) as Hpd by (by destruct p). rewrite Hpd in E.
      exists (norm_packet c h p :: qs). rewrite (M_bind_ok _ _ _ _ _ E), (M_bind_ok _ _ _ _ _ IH). split; [done|].
      constructor; [by exists h | done].
  - rewrite filter_cons_False by congruence. cbn [fmap list_fmap concat]. rewrite Hf. by exists qs.
Qed.


(** ** Producers *)

Section Progress.
Context {T : Type} `{Transport T}.

(** A writer that ended has closed stopWrites, and the queue is a bounded channel *)
Definition live (cap : nat) (w : clientWriter T) : Prop :=
  cw_cap w = cap /\ (length (cw_out w) <= cap)%nat /\ (cw_running w = false -> stopWrites w = true).

Lemma attempt_frame q p room w ok (w' : clientWriter T) :
  attempt q p room w = (ok, w') -> cw_cap w' = cw_cap w /\ cw_running w' = cw_running w /\ stopWrites w' = stopWrites w /\
    senders w' = senders w /\ cw_out w' = cw_out w.
Proof. unfold attempt. destruct (writeOne _ _) as [[u|e] [c t]]; by intros [= <- <-]. Qed.

(** The writer's turn: room for one more packet, or a closed stopWrites *)
Lemma takes_spec cap room w w' :
  live cap w -> writerTakes room w = Some w' ->
  live cap w' /\ senders w' = senders w /\ ((length (cw_out w') < cap)%nat \/ stopWrites w' = true).
Proof.
  intros (Hc & Hn & Hl). unfold writerTakes. destruct (cw_running w) eqn:Er; [|done]. cbn [negb]. destruct (cw_out w) as [|p rest]; [done|].
  destruct (attempt true p room (w <| cw_out := rest |>)) as [ok w1] eqn:E. apply attempt_frame in E as (E1 & E2 & E3 & E4 & E5).
  change (cw_cap w1 = cw_cap w) in E1. change (cw_running w1 = cw_running w) in E2. change (senders w1 = senders w) in E4.
  change (cw_out w1 = rest) in E5. cbn [length] in Hn. destruct ok; intros [= <-].
  - split_and!; [split_and!; [congruence | rewrite E5; lia | congruence] | done | left; rewrite E5; lia].
  - split_and!; [split_and!; [exact (eq_trans E1 Hc) | change (length (cw_out w1) <= cap)%nat; rewrite E5; lia | done] | exact E4 | by right].
Qed.

Lemma live_step cap a w w' : live cap w -> step a w = Some w' -> live cap w'.
Proof.
  intros Hw. destruct a; cbn [step].
  9: { intros E. by destruct (takes_spec cap room w w' Hw E). }
  9: { destruct Hw as (Hc & Hn & Hl). unfold writerServes. destruct (cw_running w) eqn:Er; [|done]. cbn [negb].
       destruct (finals w !! i) as [[p| |]|]; [|done..]. destruct (attempt false p room w) as [ok w1] eqn:E.
       apply attempt_frame in E as (E1 & E2 & E3 & _ & E5). intros [= <-]. split_and!.
       - exact (eq_trans E1 Hc).
       - change (length (cw_out w1) <= cap)%nat. by rewrite E5.
       - change (cw_running w1 = false -> stopWrites w1 = true). congruence. }
  2: { unfold sendOut. destruct (senders w !! i) as [p|]; [|done]. cbn [mbind option_bind]. destruct (Nat.ltb_spec (length (cw_out w)) (cw_cap w)) as [Hlt|]; [|done].
       intros [= <-]. destruct Hw as (Hc & Hn & Hl). split_and!; [done | | done]. change (length (cw_out w ++ [p]) <= cap)%nat. rewrite length_app. cbn [length]. lia. }
  3: { intros [= <-]. unfold offer. destruct (_ && _); [done|]. destruct (Nat.ltb_spec (length (cw_out w)) (cw_cap w)) as [Hlt|]; [|done].
       destruct Hw as (Hc & Hn & Hl). split_and!; [done | | done]. change (length (cw_out w ++ [pkt]) <= cap)%nat. rewrite length_app. cbn [length]. lia. }
  all: destruct Hw as (Hc & Hn & Hl); repeat case_match; intros; simplify_eq/=; try done;
    try match goal with E : _ && _ = true |- _ => apply andb_true_iff in E as [??] end; by split_and!.
Qed.

Lemma live_run cap acts w w' : live cap w -> run acts w = Some w' -> live cap w'.
Proof.
  revert w. induction acts as [|a acts IH]; intros w Hw; cbn [run]; [by intros [= <-]|].
  destruct (step a w) as [w1|] eqn:E; [|done]. cbn. by apply IH, (live_step cap a w).
Qed.

(** A caller whose select is ready *)
Lemma sender_ready cap w i p :
  live cap w -> senders w !! i = Some p -> (length (cw_out w) < cap)%nat \/ stopWrites w = true ->
  exists a w', step a w = Some w' /\ senders w' !! i = None.
Proof.
  intros (Hc & _) Hi [Hlt|Hs].
  - exists (SendOut i). cbn [step]. unfold sendOut. rewrite Hi. cbn [mbind option_bind]. rewrite <- Hc in Hlt. apply Nat.ltb_lt in Hlt. rewrite Hlt.
    eexists. split; [done|]. apply lookup_delete_eq.
  - exists (SendStopped i). cbn [step]. rewrite Hs, bool_decide_true by eauto. eexists. split; [done|]. apply lookup_delete_eq.
Qed.

(** C17: nobody waits for a connection for ever.  In every state a connection's
    writer can get into, a caller of writeOrEnqueue that has not got its packet into
    the queue is at most two steps from returning: there is room, or stopWrites is
    closed, or the writer runs and its next write either makes room or fails and
    closes stopWrites.  A caller of writeFinal always returns, by its timer if by
    nothing else. *)
Theorem no_producer_waits_forever c conn size acts (w : clientWriter T) :
  run acts (newWriter c conn size) = Some w ->
  (forall i p, senders w !! i = Some p ->
     exists acts' w', (length acts' <= 2)%nat /\ run acts' w = Some w' /\ senders w' !! i = None) /\
  (forall i f, finals w !! i = Some f -> exists acts' w' sent, (length acts' <= 1)%nat /\ run acts' w = Some w' /\
     finals w' !! i = Some (Returned sent)).
Proof.
  intros Hr. set (cap := Z.to_nat (if size <? 1 then 1 else size)).
  assert (0 < cap)%nat as Hcap by (unfold cap; destruct (Z.ltb_spec size 1); lia).
  assert (live cap w) as Hw by (eapply live_run; [|exact Hr]; split_and!; [done | cbn; lia | done]).
  split; [intros i p Hi | intros i f Hf].
  - destruct (decide ((length (cw_out w) < cap)%nat \/ stopWrites w = true)) as [Hready|Hwait].
    { destruct (sender_ready cap w i p Hw Hi Hready) as (a & w' & E & Hn). exists [a], w'. cbn [run]. rewrite E. split_and!; [cbn; lia | done | done]. }
    assert (exists w1, writerTakes None w = Some w1) as [w1 E1].
    { destruct Hw as (Hc & Hn & Hl). unfold writerTakes. destruct (cw_running w); [|tauto]. cbn [negb].
      destruct (cw_out w) as [|p0 rest]; [cbn in Hwait; lia|]. destruct (attempt _ _ _ _) as [[] w2]; eauto. }
    destruct (takes_spec cap None w w1 Hw E1) as (Hw1 & Hs1 & Hready). rewrite <- Hs1 in Hi.
    destruct (sender_ready cap w1 i p Hw1 Hi Hready) as (a & w' & E & Hn). exists [WriterTakes None; a], w'. cbn [run].
    change (step (WriterTakes None) w) with (writerTakes None w). rewrite E1. cbn [mbind option_bind]. rewrite E. split_and!; [cbn; lia | done | done].
  - destruct f as [p|d|sent]; [| |exists [], w, sent; split_and!; [cbn; lia | done | done]];
      exists [FinalTimer i]; cbn [run step]; rewrite Hf; eexists _, false; (split_and!; [cbn; lia | done | apply lookup_insert_eq]).
Qed.
End Progress.

(** ** Reading from a WebSocket *)

Section WebSocketRead.
(** What the broker relies on of the library's message reader: it returns at most
    what is left and what fits, something unless the message is at its end, and the
    end only with the last bytes or after them *)
Context (readMessage : bytes -> nat -> nat * bool).
Hypothesis reader_law : forall rest n k eof, readMessage rest n = (k, eof) -> (0 < n)%nat ->
  (k <= n)%nat /\ (k <= length rest)%nat /\ (if eof then k = length rest else (0 < k)%nat).

(** The binary data before the first message of another kind *)
Fixpoint binaryData (msgs : list wsMessage) : bytes :=
  match msgs with
  | BinaryMessage data :: msgs => data ++ binaryData msgs
  | _ => []
  end.

Definition unread (c : wsReader) : bytes :=
  match stickyErr c with Some _ => [] | None => default [] (reader c) ++ binaryData (incoming c) end.

Lemma readCurrent_spec rest n c r c' :
  (0 < n)%nat -> readCurrent readMessage rest n c = Some (r, c') -> stickyErr c = None ->
  exists data, r = Ok data /\ data <> [] /\ (length data <= n)%nat /\ rest ++ binaryData (incoming c) = data ++ unread c'.
Proof.
  intros Hn. unfold readCurrent. destruct (readMessage rest n) as [k eof] eqn:E. destruct (reader_law _ _ _ _ E Hn) as (Hk1 & Hk2 & Hk3).
  assert (k <> 0%nat -> take k rest <> [] /\ (length (take k rest) <= n)%nat) as Hd.
  { intros H0. rewrite length_take. split; [|lia]. intros Ht. apply (f_equal length) in Ht. rewrite length_take in Ht. cbn in Ht. lia. }
  destruct eof.
  - destruct (Nat.ltb_spec 0 k) as [Hp|]; [|done]. intros [= <- <-] Hs. destruct (Hd ltac:(lia)). exists (take k rest). split_and!; [done..|].
    change (unread (c <| reader := None |>)) with (match stickyErr c with Some _ => [] | None => binaryData (incoming c) end).
    by rewrite Hs, take_ge by lia.
  - intros [= <- <-] Hs. destruct (Hd ltac:(lia)). exists (take k rest). split_and!; [done..|].
    change (unread (c <| reader := Some (drop k rest) |>)) with (match stickyErr c with Some _ => [] | None => drop k rest ++ binaryData (incoming c) end).
    by rewrite Hs, app_assoc, take_drop.
Qed.

Lemma readCurrent_none rest n c : (0 < n)%nat -> readCurrent readMessage rest n c = None -> rest = [].
Proof.
  intros Hn. unfold readCurrent. destruct (readMessage rest n) as [k eof] eqn:E. destruct (reader_law _ _ _ _ E Hn) as (_ & _ & Hk).
  destruct eof; [|done]. destruct (Nat.ltb_spec 0 k); [done|]. intros _. destruct rest; [done | cbn in Hk; lia].
Qed.

Lemma readNext_spec msgs n c r c' :
  (0 < n)%nat -> stickyErr c = None -> readNext readMessage msgs n c = (r, c') ->
  match r with
  | Ok data => data <> [] /\ (length data <= n)%nat /\ binaryData msgs = data ++ unread c'
  | Err e => binaryData msgs = [] /\ stickyErr c' = Some e
  end.
Proof.
  intros Hn Hs. induction msgs as [|[data|data] msgs IH]; cbn [readNext binaryData].
  - by intros [= <- <-].
  - destruct (readCurrent readMessage data n (c <| incoming := msgs |>)) as [[r1 c1]|] eqn:E.
    + intros [= <- <-]. destruct (readCurrent_spec _ _ _ _ _ Hn E Hs) as (d & -> & Hd & Hl & Hu). done.
    + rewrite (readCurrent_none _ _ _ Hn E). exact IH.
  - by intros [= <- <-].
Qed.

(** A run of Read calls with buffers of the given sizes, up to the first error *)
Fixpoint readAll (ns : list nat) (c : wsReader) : bytes * option err * wsReader :=
  match ns with
  | [] => ([], None, c)
  | n :: ns =>
      match wsRead readMessage n c with
      | (Err e, c) => ([], Some e, c)
      | (Ok data, c) => let '(rest, e, c) := readAll ns c in (data ++ rest, e, c)
      end
  end.

(** Whatever the sizes of the reads and of the messages, the broker reads the binary
    data as one stream: nothing is lost, repeated or reordered, empty messages are
    skipped, an error is only reported once all data before it has been read, and it
    is reported again by every later read. *)
Theorem websocket_is_a_stream ns c data e c' :
  Forall (fun n => (0 < n)%nat) ns -> readAll ns c = (data, e, c') ->
  unread c = data ++ unread c' /\
  match e with
  | Some e => data = unread c /\ forall n, wsRead readMessage n c' = (Err e, c')
  | None => True
  end.
Proof.
  intros Hns. revert c data e c'. induction Hns as [|n ns Hn _ IH]; intros c data e c'; cbn [readAll]; [by intros [= <- <- <-]|].
  assert (forall r c1, wsRead readMessage n c = (r, c1) -> match r with
    | Ok d => unread c = d ++ unread c1
    | Err e => unread c = [] /\ stickyErr c1 = Some e end) as K.
  { intros r c1. unfold wsRead, unread at 1 3. destruct (stickyErr c) as [e0|] eqn:Es; [by intros [= <- <-]|].
    destruct (reader c) as [rest|]; cbn [option.default].
    - destruct (readCurrent readMessage rest n c) as [[r2 c2]|] eqn:E.
      + intros [= <- <-]. destruct (readCurrent_spec _ _ _ _ _ Hn E Es) as (d & -> & _ & _ & Hu). exact Hu.
      + rewrite (readCurrent_none _ _ _ Hn E). intros Er. pose proof (readNext_spec _ _ _ _ _ Hn Es Er) as S. destruct r; tauto.
    - intros Er. pose proof (readNext_spec _ _ _ _ _ Hn Es Er) as S. destruct r; tauto. }
  destruct (wsRead readMessage n c) as [[d|e1] c1]; [pose proof (K (Ok d) c1 eq_refl) as Hu | pose proof (K (Err e1) c1 eq_refl) as [Hu He]].
  - destruct (readAll ns c1) as [[rest e2] c2] eqn:E. intros [= <- <- <-]. destruct (IH _ _ _ _ E) as [H1 H2].
    rewrite Hu, H1, app_assoc. split; [done|]. destruct e2; [|done]. destruct H2 as [H2 H3]. split; [|done]. by rewrite <- app_assoc, <- H1, <- H2.
  - intros [= <- <- <-]. rewrite Hu. unfold unread at 1. rewrite He. split; [done|]. split; [done|]. intros m. unfold wsRead. by rewrite He.
Qed.
End WebSocketRead.

(** ** Examples *)

Definition pingResp : Packet :=
  PPingResp {| PacketType := 13; Dup := false; QoS := 0; Retain := false; RemainingLength := 0; HeaderSize := 0 |}.
Definition newSocket : socket := {| so_bytes := []; so_room := None |}.
Definition sampleActions : list Action :=
  [CallEnqueue 0 sample_publish; CallEnqueue 1 pingResp; SendOut 0; WriterTakes None; SendOut 1; CallFinal 0 pingResp; WriterServes 0 None].


Lemma no_producer_waits_forever_witness :
  exists w, run [CallEnqueue 0 pingResp; CallEnqueue 1 pingResp; SendOut 0] (newWriter (NewCodecForVersion 0 5) newSocket 1) = Some w /\
    exists acts' w', (length acts' <= 2)%nat /\ run acts' w = Some w' /\ senders w' !! 1%nat = None.
Proof.
  destruct (run [CallEnqueue 0 pingResp; CallEnqueue 1 pingResp; SendOut 0] (newWriter (NewCodecForVersion 0 5) newSocket 1)) as [w|] eqn:E;
    [|vm_compute in E; discriminate].
  exists w. split; [done|]. destruct (no_producer_waits_forever (NewCodecForVersion 0 5) newSocket 1 _ w E) as [H _].
  apply (H 1%nat pingResp). vm_compute in E. injection E as <-. reflexivity.
Defined.

(** A final packet that goes out only in part does not end the writer: it goes on
    with the queue, and the peer reads the next packet as the rest of the torn one. *)
Lemma final_write_tears_stream :
  exists w, run [CallEnqueue 0 pingResp; SendOut 0; CallFinal 0 pingResp; WriterServes 0 (Some 1%nat); WriterTakes None]
      (newWriter (NewCodecForVersion 0 5) newSocket 1) = Some w /\
    cw_running w = true /\ so_bytes (cw_conn w) = [208; 208; 0] /\
    exists e, fst (Decode (NewCodecForVersion 1024 5, so_bytes (cw_conn w))) = Err e.
Proof. eexists. split; [vm_compute; reflexivity|]. vm_compute. eauto. Qed.
